(** * CitySim: the round-driving simulation engine

    A shallow embedding of the Environment, InteractionEngine, PolicyEngine
    and of the metric calculators of [abm_simulation], with the properties
    of the engine stated and proved over it.

    Conventions of the embedding.
    - Python floats are modelled by exact rationals ([Q]); [==] on floats is
      [Qeq], every comparison, branch and clamp is the one of the source.
    - A Python object that is mutated in place lives in a store ([world]);
      agents are addressed by references ([ref]) into that store.
    - Exceptions are values of [exn]; a computation that raises keeps the
      mutations it made before raising.
    - The [random] module is a stream of uniform draws; each call of its API
      is a function of the draws it consumes. *)

From Stdlib Require Import QArith Qminmax Qround Lqa Lia Ascii String.
From stdpp Require Import gmap strings list fin_maps.

Open Scope Q_scope.
Open Scope string_scope.
Open Scope list_scope.

(** ** Python values, built-ins and exceptions *)

Inductive exn :=
  | KeyError (key : string)
  | TypeError
  | ValueError
  | AttributeError.

Inductive result (A : Type) :=
  | Ok (a : A)
  | Raise (e : exn).
Arguments Ok {A} a.
Arguments Raise {A} e.

(** An attribute of an agent is numeric or categorical. *)
Inductive value :=
  | VNum (q : Q)
  | VStr (s : string).

(** [min(a, b)] and [max(a, b)]: on a tie Python returns its first argument. *)
Definition py_min (a b : Q) : Q := if Qlt_le_dec b a then b else a.
Definition py_max (a b : Q) : Q := if Qlt_le_dec a b then b else a.

Definition Qsum (l : list Q) : Q := foldr Qplus 0 l.
Definition Qnat (n : nat) : Q := inject_Z (Z.of_nat n).

(** [np.mean] *)
Definition np_mean (l : list Q) : Q := Qsum l / Qnat (length l).

(** [np.cumsum] *)
Fixpoint cumsum_from (acc : Q) (l : list Q) : list Q :=
  match l with
  | [] => []
  | x :: l' => (acc + x) :: cumsum_from (acc + x) l'
  end.
Definition np_cumsum (l : list Q) : list Q := cumsum_from 0 l.

(** [sorted]: a stable ascending sort. *)
Fixpoint insert_sorted (x : Q) (l : list Q) : list Q :=
  match l with
  | [] => [x]
  | y :: l' => if Qle_bool x y then x :: y :: l' else y :: insert_sorted x l'
  end.
Definition sorted (l : list Q) : list Q := foldr insert_sorted [] l.

(** [d.get(k) == s] and [d.get(k) in [s1, ..., sn]] for an optional string. *)
Definition is_str (o : option string) (s : string) : bool :=
  bool_decide (o = Some s).
Definition in_strs (o : option string) (l : list string) : bool :=
  match o with
  | Some s => bool_decide (s ∈ l)
  | None => false
  end.

(** [s.replace(c, '')] for a one-character pattern. *)
Fixpoint remove_char (c : Ascii.ascii) (s : string) : string :=
  match s with
  | EmptyString => EmptyString
  | String a s' =>
      if Ascii.eqb a c then remove_char c s' else String a (remove_char c s')
  end.

(** ** The random module *)

Module Random.

(** The process-wide random source: a stream of uniform draws of [0, 1)
    and the number of draws consumed so far. *)
Record t := { draws : nat -> Q; pos : nat }.

Definition random (g : t) : Q * t :=
  (draws g (pos g), {| draws := draws g; pos := S (pos g) |}).

(** [random.uniform(a, b)] is [a + (b - a) * random()]. *)
Definition uniform (a b : Q) (g : t) : Q * t :=
  let '(u, g') := random g in (a + (b - a) * u, g').

(** An index below [n] chosen by one draw. *)
Definition randbelow (n : nat) (g : t) : nat * t :=
  let '(u, g') := random g in
  (Z.to_nat (Qfloor (u * Qnat n)) `min` pred n, g')%nat.

(** [random.randint(a, b)], for [a <= b]. *)
Definition randint (a b : nat) (g : t) : nat * t :=
  let '(j, g') := randbelow (S (b - a)) g in ((a + j)%nat, g').

(** [k] draws without replacement from [pool]. *)
Fixpoint choose {A : Type} (k : nat) (pool : list A) (g : t) : list A * t :=
  match k with
  | O => ([], g)
  | S k' =>
      let '(j, g') := randbelow (length pool) g in
      match pool !! j with
      | Some x =>
          let '(xs, g'') := choose k' (delete j pool) g' in (x :: xs, g'')
      | None => ([], g')
      end
  end.

(** [random.sample(population, k)] *)
Definition sample {A : Type} (population : list A) (k : nat) (g : t)
  : result (list A) * t :=
  if (length population <? k)%nat then (Raise ValueError, g)
  else let '(xs, g') := choose k population g in (Ok xs, g').

End Random.

(** ** Data model *)

(** A call of a logger: level, message template and interpolated values. *)
Inductive log_level := DEBUG | INFO | WARNING.
Record log_record := {
  level : log_level;
  message : string;
  params : list value
}.

Record agent := {
  agent_id : option string;
  area : option string;
  attributes : gmap string value;
  state : gmap string Q;
  behavior_modifiers : option (gmap string Q);
  policy_modifiers : option (gmap string (gmap string Q))
}.

Record interaction := {
  i_type : option string;
  i_participants : option (list string);
  i_outcome : option string;
  i_effect : option string;
  i_area : option string;
  i_service_type : option string;
  i_compliance : option bool;
  i_status : option string;
  i_resolved : option bool;
  i_response_time : option Q;
  i_cost : option Q;
  i_recovery_time : option Q
}.

Record round_record := {
  r_round : nat;
  r_interactions : option (list interaction)
}.

Record decision := {
  action : option string;
  target : option string
}.

(** An entry of a rule table. *)
Record rule := {
  probability : option Q;
  effect : option string
}.

(** A value of the policy configuration (parsed JSON). *)
Inductive config :=
  | CNum (q : Q)
  | CStr (s : string)
  | CDict (d : list (string * config)).

Record policy_config := {
  p_target : option string;
  attribute_change : option (list (string * config));
  behavior_change : option (list (string * config));
  rule_change : option (list (string * config))
}.

Record history_entry := {
  h_policy_name : string;
  h_target : string;
  h_config : policy_config
}.

(** The three areas of a city, as keys of the fixed-key dictionaries. *)
Record areas (A : Type) := {
  core_area : A;
  urban_rural_fringe : A;
  rural : A
}.
Arguments core_area {A} _.
Arguments urban_rural_fringe {A} _.
Arguments rural {A} _.

Record environment := {
  digital_infrastructure : list (string * Q);
  physical_infrastructure : list (string * Q);
  service_availability : Q;
  system_load : Q;
  emergency_status : bool;
  update_count : nat;
  service_quality : areas Q;
  utilization_digital : Q;
  utilization_physical : Q
}.

Record interaction_engine := {
  rules : gmap string (gmap string rule);
  interaction_history : list interaction
}.

Record policy_engine := {
  policies : gmap string policy_config;
  applied_policies : list string;
  policy_history : list history_entry
}.

(** The store: every object the engines share, the process-wide random
    source and the calls made to the loggers. *)
Record world := {
  government : agent;
  enterprises : list agent;
  residents : list agent;
  env : environment;
  random_source : Random.t;
  logging : list log_record;
  engine : interaction_engine;
  policy : policy_engine
}.

(** ** Metrics *)

Module Efficiency.

Record metrics := {
  avg_response_time : Q;
  resolution_rate : Q;
  resource_utilization : Q;
  policy_cost : Q
}.

Definition calculate_resource_usage (interaction_records : list interaction) : Q :=
  match interaction_records with
  | [] => 0
  | _ =>
      let active_interactions :=
        length (List.filter (fun r => is_str (i_status r) "active")
                            interaction_records) in
      let total_capacity := length interaction_records in
      if (total_capacity =? 0)%nat then 0
      else py_min (Qnat active_interactions / Qnat total_capacity) 1
  end.

Definition calculate_policy_implementation_cost
    (interaction_records : list interaction) : Q :=
  match interaction_records with
  | [] => 0
  | _ =>
      let policy_interactions :=
        List.filter (fun r => is_str (i_type r) "policy_implementation")
                    interaction_records in
      match policy_interactions with
      | [] => 0
      | _ => np_mean (map (fun r => default 0 (i_cost r)) policy_interactions)
      end
  end.

Definition calculate_efficiency (interaction_records : list interaction) : metrics :=
  match interaction_records with
  | [] =>
      {| avg_response_time := 0; resolution_rate := 0;
         resource_utilization := 0; policy_cost := 0 |}
  | _ =>
      let service_requests :=
        List.filter (fun r => is_str (i_type r) "service_request")
                    interaction_records in
      let response_times :=
        match service_requests with
        | [] => [1]
        | _ => map (fun r => default 1 (i_response_time r)) service_requests
        end in
      let resolution_rates :=
        match service_requests with
        | [] => [0.5]
        | _ => map (fun r => if default false (i_resolved r) then 1 else 0)
                   service_requests
        end in
      {| avg_response_time := np_mean response_times;
         resolution_rate := np_mean resolution_rates;
         resource_utilization := calculate_resource_usage interaction_records;
         policy_cost := calculate_policy_implementation_cost interaction_records |}
  end.

End Efficiency.

Module Fairness.

Definition calculate_gini (values : list Q) : Q :=
  if (length values <? 2)%nat then 0
  else
    let values := sorted (map (py_max 0) values) in
    let n := length values in
    if forallb (fun v => Qeq_bool v (List.hd 0 values)) values then 0
    else
      let cumsum := np_cumsum values in
      let total := List.last cumsum 0 in
      if Qeq_bool total 0 then 0
      else
        let gini := (Qnat n + 1 - 2 * Qsum cumsum / total) / Qnat n in
        py_max 0 (py_min 1 gini).

End Fairness.

Module Collaboration.

(** The score of one interaction in [calculate_cooperation_index]. *)
Definition interaction_score (i : interaction) : Q :=
  let outcome := Some (default "neutral" (i_outcome i)) in
  let interaction_type := Some (default "" (i_type i)) in
  let score :=
    if in_strs outcome ["success"; "mutual_benefit"; "win_win"] then 1
    else if in_strs outcome ["partial_success"; "compromise"] then 0.7
    else if in_strs outcome ["neutral"; "no_change"] then 0.5
    else if in_strs outcome ["conflict"; "failed"] then 0.1
    else 0.5 in
  if in_strs interaction_type
       ["data_sharing"; "joint_project"; "collaboration";
        "partnership"; "mutual_support"]
  then py_min 1 (score + 0.2)
  else score.

(** The score of one round. *)
Definition round_cooperation (record : round_record) : Q :=
  match default [] (r_interactions record) with
  | [] => 0.5
  | interactions => np_mean (map interaction_score interactions)
  end.

Definition calculate_cooperation_index (simulation_records : list round_record) : Q :=
  match simulation_records with
  | [] => 0
  | _ => np_mean (map round_cooperation simulation_records)
  end.

(** The cooperation index as the specification words it: the mean of the
    score over every interaction of the whole history. *)
Definition spec_cooperation_index (simulation_records : list round_record) : Q :=
  np_mean (map interaction_score
             (concat (map (fun r => default [] (r_interactions r))
                          simulation_records))).

End Collaboration.

(** ** Computations over the store *)

(** A computation returns or raises, and leaves a store behind either way. *)
Definition M (A : Type) : Type := world -> result A * world.

#[global] Instance M_ret : MRet M := fun A a w => (Ok a, w).
#[global] Instance M_bind : MBind M := fun A B f m w =>
  match m w with
  | (Ok a, w') => f a w'
  | (Raise e, w') => (Raise e, w')
  end.

#[global] Instance M_fmap : FMap M := fun A B f m => a ← m; mret (f a).

Definition raise {A : Type} (e : exn) : M A := fun w => (Raise e, w).
Definition gets {A : Type} (f : world -> A) : M A := fun w => (Ok (f w), w).
Definition modify (f : world -> world) : M unit := fun w => (Ok tt, f w).

(** [for x in l: body] *)
Fixpoint for_each {A : Type} (l : list A) (body : A -> M unit) : M unit :=
  match l with
  | [] => mret tt
  | x :: l' => body x ;; for_each l' body
  end.

(** A loop that appends to a local list the records its body produces. *)
Fixpoint collect {A B : Type} (l : list A) (body : A -> M (list B)) : M (list B) :=
  match l with
  | [] => mret []
  | x :: l' => ys ← body x; zs ← collect l' body; mret (ys ++ zs)
  end.

(** Field updates of the store. *)
Definition with_government (a : agent) (w : world) : world :=
  {| government := a; enterprises := enterprises w; residents := residents w;
     env := env w; random_source := random_source w; logging := logging w;
     engine := engine w; policy := policy w |}.
Definition with_enterprises (l : list agent) (w : world) : world :=
  {| government := government w; enterprises := l; residents := residents w;
     env := env w; random_source := random_source w; logging := logging w;
     engine := engine w; policy := policy w |}.
Definition with_residents (l : list agent) (w : world) : world :=
  {| government := government w; enterprises := enterprises w; residents := l;
     env := env w; random_source := random_source w; logging := logging w;
     engine := engine w; policy := policy w |}.
Definition with_env (e : environment) (w : world) : world :=
  {| government := government w; enterprises := enterprises w;
     residents := residents w; env := e; random_source := random_source w;
     logging := logging w; engine := engine w; policy := policy w |}.
Definition with_random_source (g : Random.t) (w : world) : world :=
  {| government := government w; enterprises := enterprises w;
     residents := residents w; env := env w; random_source := g;
     logging := logging w; engine := engine w; policy := policy w |}.
Definition with_logging (l : list log_record) (w : world) : world :=
  {| government := government w; enterprises := enterprises w;
     residents := residents w; env := env w; random_source := random_source w;
     logging := l; engine := engine w; policy := policy w |}.
Definition with_engine (e : interaction_engine) (w : world) : world :=
  {| government := government w; enterprises := enterprises w;
     residents := residents w; env := env w; random_source := random_source w;
     logging := logging w; engine := e; policy := policy w |}.
Definition with_policy (p : policy_engine) (w : world) : world :=
  {| government := government w; enterprises := enterprises w;
     residents := residents w; env := env w; random_source := random_source w;
     logging := logging w; engine := engine w; policy := p |}.

(** Calls of the logger. *)
Definition logger (lv : log_level) (msg : string) (args : list value) : M unit :=
  modify (fun w =>
    with_logging (logging w ++ [{| level := lv; message := msg; params := args |}]) w).

(** Calls of the random module on the process-wide source. *)
Definition random_random : M Q := fun w =>
  let '(u, g) := Random.random (random_source w) in (Ok u, with_random_source g w).
Definition random_uniform (a b : Q) : M Q := fun w =>
  let '(u, g) := Random.uniform a b (random_source w) in
  (Ok u, with_random_source g w).
Definition random_randint (a b : nat) : M nat := fun w =>
  let '(n, g) := Random.randint a b (random_source w) in
  (Ok n, with_random_source g w).
Definition random_sample {A : Type} (population : list A) (k : nat) : M (list A) :=
  fun w =>
    let '(r, g) := Random.sample population k (random_source w) in
    (r, with_random_source g w).

(** References to the agents of the store. *)
Inductive ref :=
  | Government
  | Enterprise (i : nat)
  | Resident (i : nat).

#[global] Instance ref_eq_dec : EqDecision ref.
Proof. solve_decision. Defined.

Definition no_agent : agent :=
  {| agent_id := None; area := None; attributes := ∅; state := ∅;
     behavior_modifiers := None; policy_modifiers := None |}.

Definition deref (r : ref) (w : world) : agent :=
  match r with
  | Government => government w
  | Enterprise i => default no_agent (enterprises w !! i)
  | Resident i => default no_agent (residents w !! i)
  end.

Definition assign (r : ref) (a : agent) (w : world) : world :=
  match r with
  | Government => with_government a w
  | Enterprise i => with_enterprises (<[i := a]> (enterprises w)) w
  | Resident i => with_residents (<[i := a]> (residents w)) w
  end.

(** The rosters the driver hands to the engines. *)
Definition enterprise_refs (w : world) : list ref :=
  Enterprise <$> seq 0 (length (enterprises w)).
Definition resident_refs (w : world) : list ref :=
  Resident <$> seq 0 (length (residents w)).

Definition with_attributes (m : gmap string value) (a : agent) : agent :=
  {| agent_id := agent_id a; area := area a; attributes := m; state := state a;
     behavior_modifiers := behavior_modifiers a;
     policy_modifiers := policy_modifiers a |}.
Definition with_state (m : gmap string Q) (a : agent) : agent :=
  {| agent_id := agent_id a; area := area a; attributes := attributes a;
     state := m; behavior_modifiers := behavior_modifiers a;
     policy_modifiers := policy_modifiers a |}.
Definition with_behavior_modifiers (m : option (gmap string Q)) (a : agent) : agent :=
  {| agent_id := agent_id a; area := area a; attributes := attributes a;
     state := state a; behavior_modifiers := m;
     policy_modifiers := policy_modifiers a |}.
Definition with_policy_modifiers
    (m : option (gmap string (gmap string Q))) (a : agent) : agent :=
  {| agent_id := agent_id a; area := area a; attributes := attributes a;
     state := state a; behavior_modifiers := behavior_modifiers a;
     policy_modifiers := m |}.

(** [x.state.get(k, d)], [x.state[k] = v], [x.attributes.get(k, d)],
    [x.attributes[k] = v], [k in x.attributes]. *)
Definition state_get (r : ref) (k : string) (d : Q) : M Q :=
  gets (fun w => default d (state (deref r w) !! k)).
Definition state_set (r : ref) (k : string) (v : Q) : M unit :=
  modify (fun w => assign r (with_state (<[k := v]> (state (deref r w))) (deref r w)) w).
Definition attr_get (r : ref) (k : string) (d : value) : M value :=
  gets (fun w => default d (attributes (deref r w) !! k)).
Definition attr_set (r : ref) (k : string) (v : value) : M unit :=
  modify (fun w =>
    assign r (with_attributes (<[k := v]> (attributes (deref r w))) (deref r w)) w).
Definition attr_mem (r : ref) (k : string) : M bool :=
  gets (fun w => bool_decide (is_Some (attributes (deref r w) !! k))).

(** Arithmetic and ordering on a categorical value raise [TypeError]. *)
Definition num (v : value) : M Q :=
  match v with
  | VNum q => mret q
  | VStr _ => raise TypeError
  end.

(** [d.items()] of a configuration value: only a dict has items. *)
Definition items (c : config) : M (list (string * config)) :=
  match c with
  | CDict d => mret d
  | _ => raise AttributeError
  end.

(** [k in d] and [d[k]] for a dict of the configuration. *)
Definition lookup_config (k : string) (d : list (string * config))
  : option config :=
  snd <$> List.find (fun kv => String.eqb (fst kv) k) d.

(** [getattr(x, 'agent_id', d)] and [getattr(x, 'area', 'core_area')]. *)
Definition id_of (r : ref) (d : string) : M string :=
  gets (fun w => default d (agent_id (deref r w))).
Definition area_of (r : ref) : M string :=
  gets (fun w => default "core_area" (area (deref r w))).

(** ** Environment *)

Module Environment.

Definition with_digital (d : list (string * Q)) (e : environment) : environment :=
  {| digital_infrastructure := d;
     physical_infrastructure := physical_infrastructure e;
     service_availability := service_availability e;
     system_load := system_load e; emergency_status := emergency_status e;
     update_count := update_count e; service_quality := service_quality e;
     utilization_digital := utilization_digital e;
     utilization_physical := utilization_physical e |}.
Definition with_physical (d : list (string * Q)) (e : environment) : environment :=
  {| digital_infrastructure := digital_infrastructure e;
     physical_infrastructure := d;
     service_availability := service_availability e;
     system_load := system_load e; emergency_status := emergency_status e;
     update_count := update_count e; service_quality := service_quality e;
     utilization_digital := utilization_digital e;
     utilization_physical := utilization_physical e |}.
Definition with_service_availability (v : Q) (e : environment) : environment :=
  {| digital_infrastructure := digital_infrastructure e;
     physical_infrastructure := physical_infrastructure e;
     service_availability := v;
     system_load := system_load e; emergency_status := emergency_status e;
     update_count := update_count e; service_quality := service_quality e;
     utilization_digital := utilization_digital e;
     utilization_physical := utilization_physical e |}.
Definition with_system_load (v : Q) (e : environment) : environment :=
  {| digital_infrastructure := digital_infrastructure e;
     physical_infrastructure := physical_infrastructure e;
     service_availability := service_availability e;
     system_load := v; emergency_status := emergency_status e;
     update_count := update_count e; service_quality := service_quality e;
     utilization_digital := utilization_digital e;
     utilization_physical := utilization_physical e |}.
Definition with_emergency_status (b : bool) (e : environment) : environment :=
  {| digital_infrastructure := digital_infrastructure e;
     physical_infrastructure := physical_infrastructure e;
     service_availability := service_availability e;
     system_load := system_load e; emergency_status := b;
     update_count := update_count e; service_quality := service_quality e;
     utilization_digital := utilization_digital e;
     utilization_physical := utilization_physical e |}.
Definition with_update_count (n : nat) (e : environment) : environment :=
  {| digital_infrastructure := digital_infrastructure e;
     physical_infrastructure := physical_infrastructure e;
     service_availability := service_availability e;
     system_load := system_load e; emergency_status := emergency_status e;
     update_count := n; service_quality := service_quality e;
     utilization_digital := utilization_digital e;
     utilization_physical := utilization_physical e |}.
Definition with_service_quality (q : areas Q) (e : environment) : environment :=
  {| digital_infrastructure := digital_infrastructure e;
     physical_infrastructure := physical_infrastructure e;
     service_availability := service_availability e;
     system_load := system_load e; emergency_status := emergency_status e;
     update_count := update_count e; service_quality := q;
     utilization_digital := utilization_digital e;
     utilization_physical := utilization_physical e |}.
Definition with_utilization (d p : Q) (e : environment) : environment :=
  {| digital_infrastructure := digital_infrastructure e;
     physical_infrastructure := physical_infrastructure e;
     service_availability := service_availability e;
     system_load := system_load e; emergency_status := emergency_status e;
     update_count := update_count e; service_quality := service_quality e;
     utilization_digital := d; utilization_physical := p |}.

(** Reads and writes of [self]. *)
Definition self {A : Type} (f : environment -> A) : M A := gets (fun w => f (env w)).
Definition set (f : environment -> environment) : M unit :=
  modify (fun w => with_env (f (env w)) w).

Definition _update_system_load (interactions : list interaction) : M unit :=
  let service_requests :=
    length (List.filter
              (fun i => in_strs (i_type i)
                          ["service_request"; "data_request"; "service_use"])
              interactions) in
  let load_factor := py_min 1 (Qnat service_requests / 50) in
  load ← self system_load;
  set (with_system_load (0.7 * load + 0.3 * load_factor));;
  load ← self system_load;
  set (with_system_load (py_max 0 (py_min 1 load))).

Definition _update_service_availability (interactions : list interaction) : M unit :=
  load ← self system_load;
  let availability_change :=
    if Qlt_le_dec 0.8 load then - 0.05
    else if Qlt_le_dec load 0.3 then 0.02
    else 0 in
  let failures :=
    List.filter (fun i => is_str (i_outcome i) "system_failure") interactions in
  let availability_change :=
    match failures with
    | [] => availability_change
    | _ => availability_change - 0.1 * Qnat (length failures)
    end in
  availability ← self service_availability;
  set (with_service_availability (availability + availability_change));;
  availability ← self service_availability;
  set (with_service_availability (py_max 0 (py_min 1 availability))).

Definition _check_emergency_events : M unit :=
  u ← random_random;
  if Qlt_le_dec u 0.02 then
    set (with_emergency_status true);;
    availability ← self service_availability;
    set (with_service_availability (availability * 0.7));;
    round ← self update_count;
    logger INFO "Emergency event triggered at round {}" [VNum (Qnat round)]
  else
    emergency ← self emergency_status;
    if emergency : bool then
      u ← random_random;
      if Qlt_le_dec u 0.3 then
        set (with_emergency_status false);;
        round ← self update_count;
        logger INFO "Emergency resolved at round {}" [VNum (Qnat round)]
      else mret tt
    else mret tt.

Definition _update_infrastructure_utilization
    (interactions : list interaction) : M unit :=
  let digital_usage :=
    length (List.filter (fun i => is_str (i_service_type i) "digital")
                        interactions) in
  let physical_usage :=
    length (List.filter (fun i => is_str (i_service_type i) "physical")
                        interactions) in
  let total_interactions := length interactions in
  if (0 <? total_interactions)%nat then
    let digital_ratio := Qnat digital_usage / Qnat total_interactions in
    let physical_ratio := Qnat physical_usage / Qnat total_interactions in
    d ← self utilization_digital;
    set (fun e => with_utilization (0.8 * d + 0.2 * digital_ratio)
                                   (utilization_physical e) e);;
    p ← self utilization_physical;
    set (fun e => with_utilization (utilization_digital e)
                                   (0.8 * p + 0.2 * physical_ratio) e)
  else mret tt.

(** The interactions of one area; an interaction without area counts
    for the core area. *)
Definition in_area (a : string) (interactions : list interaction)
  : list interaction :=
  List.filter (fun i => String.eqb (default "core_area" (i_area i)) a)
              interactions.

Definition quality_after (quality : Q) (area_interactions_list : list interaction)
  : Q :=
  match area_interactions_list with
  | [] => quality
  | _ =>
      let success_rate :=
        Qnat (length (List.filter (fun i => is_str (i_outcome i) "success")
                                  area_interactions_list))
        / Qnat (length area_interactions_list) in
      let quality_change := (success_rate - 0.7) * 0.05 in
      py_max 0 (py_min 1 (quality + quality_change))
  end.

Definition _update_service_quality (interactions : list interaction) : M unit :=
  set (fun e =>
    let q := service_quality e in
    with_service_quality
      {| core_area :=
           quality_after (core_area q) (in_area "core_area" interactions);
         urban_rural_fringe :=
           quality_after (urban_rural_fringe q)
                         (in_area "urban_rural_fringe" interactions);
         rural := quality_after (rural q) (in_area "rural" interactions) |} e).

(** [for area in d: d[area] = max(0, min(100, d[area] + uniform(-1, 1)))]:
    the keys of a dict are distinct, so the loop rewrites the entries in
    order, one draw each. *)
Fixpoint drift (d : list (string * Q)) : M (list (string * Q)) :=
  match d with
  | [] => mret []
  | (area, v) :: d' =>
      change ← random_uniform (-1) 1;
      d'' ← drift d';
      mret ((area, py_max 0 (py_min 100 (v + change))) :: d'')
  end.

Definition degrade (d : list (string * Q)) : list (string * Q) :=
  map (fun '(area, v) => (area, v * 0.98)) d.

Definition _apply_random_changes : M unit :=
  d ← self digital_infrastructure;
  d' ← drift d;
  set (with_digital d');;
  emergency ← self emergency_status;
  if emergency : bool then
    set (fun e => with_digital (degrade (digital_infrastructure e)) e)
  else mret tt.

Definition update (interactions : list interaction) : M unit :=
  set (fun e => with_update_count (S (update_count e)) e);;
  _update_system_load interactions;;
  _update_service_availability interactions;;
  _check_emergency_events;;
  _update_infrastructure_utilization interactions;;
  _update_service_quality interactions;;
  _apply_random_changes.

(** The specification's random changes: a drift on every entry of both
    infrastructure maps, then the decay of the digital one. *)
Definition spec_apply_random_changes : M unit :=
  d ← self digital_infrastructure;
  d' ← drift d;
  set (with_digital d');;
  p ← self physical_infrastructure;
  p' ← drift p;
  set (with_physical p');;
  emergency ← self emergency_status;
  if emergency : bool then
    set (fun e => with_digital (degrade (digital_infrastructure e)) e)
  else mret tt.

Section Policy.

(** [float(s)] on a string: [None] when it raises [ValueError]. *)
Context (float : string -> option Q).

(** [d[area] = min(100, d[area] + change)] for an [area] of [d]. *)
Fixpoint raise_level (area : string) (change : Q) (d : list (string * Q))
  : list (string * Q) :=
  match d with
  | [] => []
  | (a, v) :: d' =>
      if String.eqb a area then (a, py_min 100 (v + change)) :: d'
      else (a, v) :: raise_level area change d'
  end.

Definition has_area (area : string) (d : list (string * Q)) : bool :=
  bool_decide (area ∈ d.*1).

(** [float(change_str.replace('+', ''))] *)
Definition infra_change (change_str : config) : M Q :=
  match change_str with
  | CStr s =>
      match float (remove_char "+"%char s) with
      | Some c => mret c
      | None => raise ValueError
      end
  | _ => raise AttributeError
  end.

Definition apply_policy_intervention
    (policy_name : string) (policy_config : policy_config) : M unit :=
  let target := default "" (p_target policy_config) in
  if String.eqb target "environment" then
    let attribute_changes := default [] (attribute_change policy_config) in
    match lookup_config "digital_infrastructure" attribute_changes with
    | Some infra_changes =>
        changes ← items infra_changes;
        for_each changes (fun '(area, change_str) =>
          d ← self digital_infrastructure;
          if has_area area d then
            change ← infra_change change_str;
            set (fun e =>
              with_digital (raise_level area change (digital_infrastructure e)) e);;
            logger INFO "Applied policy {}: {} +{}"
                   [VStr policy_name; VStr area; VNum change]
          else mret tt)
    | None => mret tt
    end;;
    match lookup_config "physical_infrastructure" attribute_changes with
    | Some infra_changes =>
        changes ← items infra_changes;
        for_each changes (fun '(area, change_str) =>
          d ← self physical_infrastructure;
          if has_area area d then
            change ← infra_change change_str;
            set (fun e =>
              with_physical (raise_level area change (physical_infrastructure e)) e)
          else mret tt)
    | None => mret tt
    end
  else mret tt.

End Policy.

End Environment.

(** ** InteractionEngine *)

Module InteractionEngine.

Definition new_interaction
    (type : string) (participants : list string) (outcome : string)
  : interaction :=
  {| i_type := Some type; i_participants := Some participants;
     i_outcome := Some outcome; i_effect := None; i_area := None;
     i_service_type := None; i_compliance := None; i_status := None;
     i_resolved := None; i_response_time := None; i_cost := None;
     i_recovery_time := None |}.
Definition with_effect (s : string) (i : interaction) : interaction :=
  {| i_type := i_type i; i_participants := i_participants i;
     i_outcome := i_outcome i; i_effect := Some s; i_area := i_area i;
     i_service_type := i_service_type i; i_compliance := i_compliance i;
     i_status := i_status i; i_resolved := i_resolved i;
     i_response_time := i_response_time i; i_cost := i_cost i;
     i_recovery_time := i_recovery_time i |}.
Definition with_area (s : string) (i : interaction) : interaction :=
  {| i_type := i_type i; i_participants := i_participants i;
     i_outcome := i_outcome i; i_effect := i_effect i; i_area := Some s;
     i_service_type := i_service_type i; i_compliance := i_compliance i;
     i_status := i_status i; i_resolved := i_resolved i;
     i_response_time := i_response_time i; i_cost := i_cost i;
     i_recovery_time := i_recovery_time i |}.
Definition with_service_type (s : string) (i : interaction) : interaction :=
  {| i_type := i_type i; i_participants := i_participants i;
     i_outcome := i_outcome i; i_effect := i_effect i; i_area := i_area i;
     i_service_type := Some s; i_compliance := i_compliance i;
     i_status := i_status i; i_resolved := i_resolved i;
     i_response_time := i_response_time i; i_cost := i_cost i;
     i_recovery_time := i_recovery_time i |}.
Definition with_compliance (b : bool) (i : interaction) : interaction :=
  {| i_type := i_type i; i_participants := i_participants i;
     i_outcome := i_outcome i; i_effect := i_effect i; i_area := i_area i;
     i_service_type := i_service_type i; i_compliance := Some b;
     i_status := i_status i; i_resolved := i_resolved i;
     i_response_time := i_response_time i; i_cost := i_cost i;
     i_recovery_time := i_recovery_time i |}.

(** [rules.get(name, {})] followed by [rule.get('probability', d)] and
    [rule.get('effect', '')]. *)
Definition no_rule : rule := {| probability := None; effect := None |}.
Definition rule_of (rules : gmap string rule) (name : string) : rule :=
  default no_rule (rules !! name).
Definition probability_of (r : rule) (d : Q) : Q := default d (probability r).
Definition effect_of (r : rule) : string := default "" (effect r).

(** [self.rules.get(table, {})] *)
Definition table (name : string) : M (gmap string rule) :=
  gets (fun w => default ∅ (rules (engine w) !! name)).

Definition _create_procurement_interaction
    (government enterprise : ref) (rules : gmap string rule) : M interaction :=
  let rule := rule_of rules "procurement_cooperation" in
  let probability := probability_of rule 0.7 in
  level ← state_get enterprise "innovation_level" 50;
  let enterprise_capability := level / 100 in
  let success_prob := probability * enterprise_capability in
  u ← random_random;
  let outcome := if Qlt_le_dec u success_prob then "success" else "failed" in
  id ← id_of enterprise "enterprise";
  mret (with_service_type "digital"
          (with_effect (effect_of rule)
             (new_interaction "procurement_cooperation" ["government"; id] outcome))).

Definition _create_regulation_interaction
    (government enterprise : ref) (rules : gmap string rule) : M interaction :=
  let rule := rule_of rules "regulation" in
  let probability := probability_of rule 0.9 in
  c ← attr_get enterprise "data_usage_compliance" (VNum 90);
  c ← num c;
  let compliance_rate := c / 100 in
  u ← random_random;
  let compliant := if Qlt_le_dec u compliance_rate then true else false in
  let outcome := if compliant then "success" else "violation" in
  id ← id_of enterprise "enterprise";
  mret (with_compliance compliant
          (with_effect (effect_of rule)
             (new_interaction "regulation" ["government"; id] outcome))).

Definition _create_data_sharing_interaction
    (government enterprise : ref) (rules : gmap string rule) : M interaction :=
  let rule := rule_of rules "data_sharing" in
  let probability := probability_of rule 0.3 in
  t ← attr_get government "information_transparency" (VNum 70);
  t ← num t;
  let gov_transparency := t / 100 in
  let success_prob := probability * gov_transparency in
  u ← random_random;
  let outcome := if Qlt_le_dec u success_prob then "success" else "denied" in
  id ← id_of enterprise "enterprise";
  mret (with_effect (effect_of rule)
          (new_interaction "data_sharing" ["government"; id] outcome)).

Definition _create_service_interaction
    (government resident : ref) (gov_decision : decision) (rule : rule)
  : M interaction :=
  let probability := probability_of rule 0.8 in
  area ← area_of resident;
  let infrastructure_quality :=
    if String.eqb area "core_area" then 0.9
    else if String.eqb area "urban_rural_fringe" then 0.7
    else if String.eqb area "rural" then 0.5
    else 0.7 in
  let success_prob := probability * infrastructure_quality in
  u ← random_random;
  let outcome := if Qlt_le_dec u success_prob then "success" else "failed" in
  id ← id_of resident "resident";
  u' ← random_random;
  mret (with_service_type (if Qlt_le_dec 0.3 u' then "digital" else "physical")
          (with_area area
             (with_effect (effect_of rule)
                (new_interaction "service_provision" ["government"; id] outcome)))).

Definition _create_resident_gov_interaction
    (resident government : ref) (res_decision : decision)
    (rules : gmap string rule) : M (option interaction) :=
  let action := default "provide_feedback" (action res_decision) in
  if String.eqb action "provide_feedback" then
    let rule := rule_of rules "demand_response" in
    let probability := probability_of rule 0.7 in
    t ← attr_get government "information_transparency" (VNum 70);
    t ← num t;
    let gov_transparency := t / 100 in
    let success_prob := probability * gov_transparency in
    u ← random_random;
    let outcome := if Qlt_le_dec u success_prob then "success" else "ignored" in
    id ← id_of resident "resident";
    area ← area_of resident;
    mret (Some (with_area area
                  (with_effect (effect_of rule)
                     (new_interaction "demand_response" [id; "government"] outcome))))
  else mret None.

Definition _create_enterprise_service_interaction
    (enterprise resident : ref) (ent_decision : decision)
    (rules : gmap string rule) : M interaction :=
  let rule := rule_of rules "service_supply" in
  let probability := probability_of rule 0.8 in
  a ← attr_get resident "technology_acceptance" (VNum 70);
  a ← num a;
  let resident_acceptance := a / 100 in
  level ← state_get enterprise "innovation_level" 50;
  let enterprise_capability := level / 100 in
  let success_prob := probability * resident_acceptance * enterprise_capability in
  u ← random_random;
  let outcome := if Qlt_le_dec u success_prob then "success" else "rejected" in
  eid ← id_of enterprise "enterprise";
  rid ← id_of resident "resident";
  area ← area_of resident;
  mret (with_area area
          (with_effect (effect_of rule)
             (new_interaction "service_supply" [eid; rid] outcome))).

Definition _create_bidding_interaction
    (enterprise government : ref) (rules : gmap string rule) : M interaction :=
  capability ← state_get enterprise "innovation_level" 50;
  c ← attr_get enterprise "data_usage_compliance" (VNum 90);
  compliance ← num c;
  let success_score := (capability + compliance) / 200 in
  u ← random_random;
  let success := if Qlt_le_dec u success_score then true else false in
  id ← id_of enterprise "enterprise";
  mret (with_effect (if success then "contract_award" else "bid_rejected")
          (new_interaction "project_bidding" [id; "government"]
             (if success then "success" else "failed"))).

Definition _create_data_request_interaction
    (enterprise government : ref) (rules : gmap string rule) : M interaction :=
  let rule := rule_of rules "data_sharing" in
  let probability := probability_of rule 0.3 in
  c ← attr_get enterprise "data_usage_compliance" (VNum 90);
  c ← num c;
  let compliance := c / 100 in
  let success_prob := probability * compliance in
  u ← random_random;
  let approved := if Qlt_le_dec u success_prob then true else false in
  id ← id_of enterprise "enterprise";
  mret (with_effect (if approved then "data_access" else "access_denied")
          (new_interaction "data_request" [id; "government"]
             (if approved then "approved" else "denied"))).

Definition _create_gov_ent_interaction
    (government enterprise : ref) (gov_decision : decision)
    (rules : gmap string rule) : M (option interaction) :=
  let action := default "regulation" (action gov_decision) in
  if String.eqb action "procurement_cooperation" then
    Some <$> _create_procurement_interaction government enterprise rules
  else if String.eqb action "regulation" then
    Some <$> _create_regulation_interaction government enterprise rules
  else if String.eqb action "data_sharing" then
    Some <$> _create_data_sharing_interaction government enterprise rules
  else mret None.

Definition _create_ent_gov_interaction
    (enterprise government : ref) (ent_decision : decision)
    (rules : gmap string rule) : M (option interaction) :=
  let action := default "compliance_reporting" (action ent_decision) in
  if String.eqb action "project_bidding" then
    Some <$> _create_bidding_interaction enterprise government rules
  else if String.eqb action "data_request" then
    Some <$> _create_data_request_interaction enterprise government rules
  else mret None.

Definition _process_government_enterprise_interactions
    (government : ref) (enterprises : list ref)
    (gov_decision : decision) (ent_decisions : list decision)
  : M (list interaction) :=
  rules ← table "government_enterprise";
  from_government ←
    (if in_strs (target gov_decision) ["enterprises"; "enterprise"] then
       collect enterprises (fun enterprise =>
         interaction ←
           _create_gov_ent_interaction government enterprise gov_decision rules;
         mret (option_list interaction))
     else mret []);
  from_enterprises ←
    collect (zip enterprises ent_decisions) (fun '(enterprise, ent_decision) =>
      if in_strs (target ent_decision) ["government"; "gov"] then
        interaction ←
          _create_ent_gov_interaction enterprise government ent_decision rules;
        mret (option_list interaction)
      else mret []);
  mret (from_government ++ from_enterprises).

(** [rules['service_provision']] *)
Definition subscript (rules : gmap string rule) (name : string) : M rule :=
  match rules !! name with
  | Some r => mret r
  | None => raise (KeyError name)
  end.

Definition _process_government_resident_interactions
    (government : ref) (residents : list ref)
    (gov_decision : decision) (res_decisions : list decision)
  : M (list interaction) :=
  rules ← table "government_resident";
  provided ←
    (if is_str (action gov_decision) "service_provision" then
       let num_interactions := (20 `min` length residents)%nat in
       selected_residents ← random_sample residents num_interactions;
       collect selected_residents (fun resident =>
         rule ← subscript rules "service_provision";
         interaction ←
           _create_service_interaction government resident gov_decision rule;
         mret [interaction])
     else mret []);
  feedback ←
    collect (zip residents res_decisions) (fun '(resident, res_decision) =>
      if is_str (target res_decision) "government"
         && in_strs (action res_decision) ["provide_feedback"; "request_service"]
      then
        interaction ←
          _create_resident_gov_interaction resident government res_decision rules;
        mret (option_list interaction)
      else mret []);
  mret (provided ++ feedback).

Definition _process_enterprise_resident_interactions
    (enterprises residents : list ref)
    (ent_decisions res_decisions : list decision) : M (list interaction) :=
  rules ← table "enterprise_resident";
  collect (zip enterprises ent_decisions) (fun '(enterprise, ent_decision) =>
    if in_strs (action ent_decision) ["service_development"; "service_promotion"]
    then
      num_interactions ← random_randint 5 15;
      selected_residents ←
        random_sample residents (num_interactions `min` length residents)%nat;
      collect selected_residents (fun resident =>
        interaction ←
          _create_enterprise_service_interaction
            enterprise resident ent_decision rules;
        mret [interaction])
    else mret []).

Definition _process_resident_resident_interactions
    (residents : list ref) (res_decisions : list decision)
  : M (list interaction) :=
  let num_interactions := (10 `min` (length residents / 10))%nat in
  collect (seq 0 num_interactions) (fun _ =>
    if (2 <=? length residents)%nat then
      pair ← random_sample residents 2;
      match pair with
      | [resident1; resident2] =>
          area1 ← area_of resident1;
          area2 ← area_of resident2;
          let probability := if String.eqb area1 area2 then 0.3 else 0.1 in
          u ← random_random;
          if Qlt_le_dec u probability then
            id1 ← id_of resident1 "resident_1";
            id2 ← id_of resident2 "resident_2";
            mret [with_effect "knowledge_transfer"
                    (new_interaction "information_sharing" [id1; id2] "success")]
          else mret []
      | _ => raise ValueError
      end
    else mret []).

Definition _update_government_state
    (government : ref) (interactions : list interaction) : M unit :=
  for_each interactions (fun interaction =>
    let outcome := Some (default "neutral" (i_outcome interaction)) in
    if is_str outcome "success" then
      u ← state_get government "resource_utilization" 0.7;
      state_set government "resource_utilization" (py_min 1 (u + 0.01))
    else if in_strs outcome ["failed"; "violation"] then
      u ← state_get government "resource_utilization" 0.7;
      state_set government "resource_utilization" (py_max 0 (u - 0.01))
    else mret tt).

Definition _update_enterprise_state
    (enterprise : ref) (interactions : list interaction) : M unit :=
  for_each interactions (fun interaction =>
    let outcome := Some (default "neutral" (i_outcome interaction)) in
    let interaction_type := Some (default "" (i_type interaction)) in
    if is_str outcome "success" then
      if is_str interaction_type "procurement_cooperation" then
        level ← state_get enterprise "innovation_level" 50;
        state_set enterprise "innovation_level" (py_min 100 (level + 2))
      else if is_str interaction_type "service_supply" then
        share ← state_get enterprise "market_share" 0.1;
        state_set enterprise "market_share" (py_min 1 (share + 0.01))
      else mret tt
    else mret tt).

Definition _update_resident_state
    (resident : ref) (interactions : list interaction) : M unit :=
  for_each interactions (fun interaction =>
    let outcome := Some (default "neutral" (i_outcome interaction)) in
    let interaction_type := Some (default "" (i_type interaction)) in
    if is_str outcome "success" then
      if is_str interaction_type "service_provision" then
        s ← state_get resident "satisfaction" 3;
        state_set resident "satisfaction" (py_min 5 (s + 0.1))
      else if is_str interaction_type "demand_response" then
        t ← attr_get resident "trust_in_government" (VNum 80);
        t ← num t;
        attr_set resident "trust_in_government" (VNum (py_min 100 (t + 1)))
      else mret tt
    else if in_strs outcome ["failed"; "ignored"] then
      s ← state_get resident "satisfaction" 3;
      state_set resident "satisfaction" (py_max 1 (s - 0.05));;
      if is_str interaction_type "demand_response" then
        t ← attr_get resident "trust_in_government" (VNum 80);
        t ← num t;
        attr_set resident "trust_in_government" (VNum (py_max 0 (t - 2)))
      else mret tt
    else mret tt).

(** The dictionary [agent_interactions]: participant id to the
    interactions it takes part in, in order. *)
Definition agent_interactions (interactions : list interaction)
  : gmap string (list interaction) :=
  foldl (fun m interaction =>
           foldl (fun m participant =>
                    <[participant := default [] (m !! participant) ++ [interaction]]> m)
                 m (default [] (i_participants interaction)))
        ∅ interactions.

Definition _update_agent_states
    (government : ref) (enterprises residents : list ref)
    (interactions : list interaction) : M unit :=
  let agent_interactions := agent_interactions interactions in
  match agent_interactions !! "government" with
  | Some gov_interactions => _update_government_state government gov_interactions
  | None => mret tt
  end;;
  for_each enterprises (fun enterprise =>
    agent_id ← id_of enterprise "enterprise";
    match agent_interactions !! agent_id with
    | Some ent_interactions => _update_enterprise_state enterprise ent_interactions
    | None => mret tt
    end);;
  for_each residents (fun resident =>
    agent_id ← id_of resident "resident";
    match agent_interactions !! agent_id with
    | Some res_interactions => _update_resident_state resident res_interactions
    | None => mret tt
    end).

Definition process
    (government : ref) (enterprises residents : list ref)
    (gov_decision : decision) (ent_decisions res_decisions : list decision)
  : M (list interaction) :=
  a ← _process_government_enterprise_interactions
        government enterprises gov_decision ent_decisions;
  b ← _process_government_resident_interactions
        government residents gov_decision res_decisions;
  c ← _process_enterprise_resident_interactions
        enterprises residents ent_decisions res_decisions;
  d ← _process_resident_resident_interactions residents res_decisions;
  let interactions := a ++ b ++ c ++ d in
  modify (fun w =>
    with_engine {| rules := rules (engine w);
                   interaction_history :=
                     interaction_history (engine w) ++ interactions |} w);;
  _update_agent_states government enterprises residents interactions;;
  mret interactions.

End InteractionEngine.

(** ** PolicyEngine *)

Module PolicyEngine.

(** [s.strip()] *)
Definition is_space (c : Ascii.ascii) : bool :=
  let n := nat_of_ascii c in
  ((9 <=? n) && (n <=? 13) || (28 <=? n) && (n <=? 32))%nat.
Fixpoint lstrip (s : string) : string :=
  match s with
  | String c s' => if is_space c then lstrip s' else s
  | EmptyString => EmptyString
  end.
Fixpoint rstrip (s : string) : string :=
  match s with
  | String c s' =>
      match rstrip s' with
      | EmptyString => if is_space c then EmptyString else String c EmptyString
      | t => String c t
      end
  | EmptyString => EmptyString
  end.
Definition strip (s : string) : string := rstrip (lstrip s).

(** Reads and writes of [self]. *)
Definition self {A : Type} (f : policy_engine -> A) : M A :=
  gets (fun w => f (policy w)).
Definition set (f : policy_engine -> policy_engine) : M unit :=
  modify (fun w => with_policy (f (policy w)) w).

(** A list comprehension with a condition that may raise. *)
Fixpoint select {A : Type} (l : list A) (cond : A -> M bool) : M (list A) :=
  match l with
  | [] => mret []
  | x :: l' =>
      b ← cond x;
      xs ← select l' cond;
      mret (if b : bool then x :: xs else xs)
  end.

Section Engine.

(** [float(s)] on a string: [None] when it raises [ValueError]. *)
Context (float : string -> option Q).

Definition _parse_change_value (change_str : config) : M Q :=
  match change_str with
  | CNum q => mret q
  | CStr s =>
      match float (strip s) with
      | Some q => mret q
      | None =>
          logger WARNING "Could not parse change value: {}" [VStr (strip s)];;
          mret 0
      end
  | CDict _ =>
      logger WARNING "Could not parse change value: {}" [];;
      mret 0
  end.

(** The loop over [attribute_changes.items()] shared by the resident,
    government and enterprise policies. *)
Definition change_attributes
    (who : ref) (attribute_changes : list (string * config))
    (message : string) : M unit :=
  for_each attribute_changes (fun '(attr_name, change_str) =>
    present ← attr_mem who attr_name;
    if present : bool then
      change ← _parse_change_value change_str;
      old_value ← attr_get who attr_name (VNum 0);
      old ← num old_value;
      let new_value := py_min 100 (py_max 0 (old + change)) in
      attr_set who attr_name (VNum new_value);;
      if String.eqb message "" then mret tt
      else logger DEBUG message [VStr attr_name; old_value; VNum new_value]
    else mret tt).

Definition set_behavior_modifier (resident : ref) (name : string) (change : Q)
  : M unit :=
  modify (fun w =>
    let r := deref resident w in
    let modifiers := default ∅ (behavior_modifiers r) in
    assign resident
      (with_behavior_modifiers (Some (<[name := change]> modifiers)) r) w).

Definition _apply_resident_policy
    (policy_name : string) (policy_config : policy_config)
    (residents : list ref) : M unit :=
  let attribute_changes := default [] (attribute_change policy_config) in
  let behavior_changes := default [] (behavior_change policy_config) in
  target_residents ←
    (if String.eqb policy_name "digital_literacy_training" then
       select residents (fun r =>
         literacy ← attr_get r "information_literacy" (VNum 60);
         literacy ← num literacy;
         mret (if Qlt_le_dec literacy 70 then true else false))
     else mret residents);
  for_each target_residents (fun resident =>
    change_attributes resident attribute_changes "Updated {}: {} -> {}";;
    for_each behavior_changes (fun '(behavior_name, change_str) =>
      change ← _parse_change_value change_str;
      set_behavior_modifier resident behavior_name change)).

Definition ensure_policy_modifiers (government : ref) : M unit :=
  modify (fun w =>
    let g := deref government w in
    match policy_modifiers g with
    | Some _ => w
    | None => assign government (with_policy_modifiers (Some ∅) g) w
    end).

Definition ensure_rule_modifiers (government : ref) (rule_name : string)
  : M unit :=
  modify (fun w =>
    let g := deref government w in
    let modifiers := default ∅ (policy_modifiers g) in
    match modifiers !! rule_name with
    | Some _ => w
    | None =>
        assign government
          (with_policy_modifiers (Some (<[rule_name := ∅]> modifiers)) g) w
    end).

Definition set_rule_modifier
    (government : ref) (rule_name param : string) (change : Q) : M unit :=
  modify (fun w =>
    let g := deref government w in
    let modifiers := default ∅ (policy_modifiers g) in
    let rule_modifiers := default ∅ (modifiers !! rule_name) in
    assign government
      (with_policy_modifiers
         (Some (<[rule_name := <[param := change]> rule_modifiers]> modifiers))
         g) w).

Definition _apply_government_enterprise_policy
    (policy_name : string) (policy_config : policy_config)
    (government : ref) (enterprises : list ref) : M unit :=
  let rule_changes := default [] (rule_change policy_config) in
  ensure_policy_modifiers government;;
  for_each rule_changes (fun '(rule_name, rule_change) =>
    ensure_rule_modifiers government rule_name;;
    changes ← items rule_change;
    for_each changes (fun '(param, change_str) =>
      change ← _parse_change_value change_str;
      set_rule_modifier government rule_name param change;;
      logger DEBUG "Modified rule {}.{} by {}"
             [VStr rule_name; VStr param; VNum change]));;
  if String.eqb policy_name "data_open_sharing" then
    for_each enterprises (fun enterprise =>
      current_strategy ←
        attr_get enterprise "data_collection_strategy" (VStr "compliant");
      match current_strategy with
      | VStr s =>
          if String.eqb s "compliant" then
            attr_set enterprise "data_sharing_willingness" (VNum 0.8)
          else mret tt
      | VNum _ => mret tt
      end)
  else if String.eqb policy_name "algorithm_regulation" then
    for_each enterprises (fun enterprise =>
      c ← attr_get enterprise "data_usage_compliance" (VNum 90);
      current_compliance ← num c;
      attr_set enterprise "data_usage_compliance"
               (VNum (py_min 100 (current_compliance + 5))))
  else mret tt.

Definition _apply_environment_policy
    (policy_name : string) (policy_config : policy_config) : M unit :=
  Environment.apply_policy_intervention float policy_name policy_config.

Definition _apply_government_policy
    (policy_name : string) (policy_config : policy_config)
    (government : ref) : M unit :=
  let attribute_changes := default [] (attribute_change policy_config) in
  change_attributes government attribute_changes "Government {}: {} -> {}".

Definition _apply_enterprise_policy
    (policy_name : string) (policy_config : policy_config)
    (enterprises : list ref) : M unit :=
  let attribute_changes := default [] (attribute_change policy_config) in
  for_each enterprises (fun enterprise =>
    change_attributes enterprise attribute_changes "").

Definition _apply_single_policy
    (policy_name : string) (policy_config : policy_config)
    (government : ref) (enterprises residents : list ref) : M unit :=
  let target := default "" (p_target policy_config) in
  (if String.eqb target "resident" then
     _apply_resident_policy policy_name policy_config residents
   else if String.eqb target "government_enterprise" then
     _apply_government_enterprise_policy
       policy_name policy_config government enterprises
   else if String.eqb target "environment" then
     _apply_environment_policy policy_name policy_config
   else if String.eqb target "government" then
     _apply_government_policy policy_name policy_config government
   else if String.eqb target "enterprise" then
     _apply_enterprise_policy policy_name policy_config enterprises
   else mret tt);;
  set (fun p =>
    {| policies := policies p; applied_policies := applied_policies p;
       policy_history :=
         policy_history p ++
           [{| h_policy_name := policy_name; h_target := target;
               h_config := policy_config |}] |}).

Definition apply
    (government : ref) (enterprises residents : list ref)
    (policy_interventions : list string) : M unit :=
  for_each policy_interventions (fun policy_name =>
    known ← self (fun p => policies p !! policy_name);
    match known with
    | Some policy_config =>
        _apply_single_policy
          policy_name policy_config government enterprises residents;;
        applied ← self applied_policies;
        if bool_decide (policy_name ∈ applied) then mret tt
        else
          set (fun p =>
            {| policies := policies p;
               applied_policies := applied_policies p ++ [policy_name];
               policy_history := policy_history p |});;
          logger INFO "Applied policy intervention: {}" [VStr policy_name]
    | None =>
        logger WARNING "Unknown policy intervention: {}" [VStr policy_name]
    end).

End Engine.

End PolicyEngine.

(** ** Concrete inputs *)

Module Examples.

Definition blank : interaction :=
  {| i_type := None; i_participants := None; i_outcome := None;
     i_effect := None; i_area := None; i_service_type := None;
     i_compliance := None; i_status := None; i_resolved := None;
     i_response_time := None; i_cost := None; i_recovery_time := None |}.

(** A regulation record: no service request in the list. *)
Definition regulation_ok : interaction :=
  InteractionEngine.with_compliance true
    (InteractionEngine.new_interaction
       "regulation" ["government"; "enterprise_0"] "success").

Definition bid (outcome : string) : interaction :=
  InteractionEngine.new_interaction
    "project_bidding" ["enterprise_0"; "government"] outcome.

(** One successful round followed by a round of two failures. *)
Definition uneven_rounds : list round_record :=
  [ {| r_round := 0; r_interactions := Some [bid "success"] |};
    {| r_round := 1; r_interactions := Some [bid "failed"; bid "failed"] |} ].

Definition even_rounds : list round_record :=
  [ {| r_round := 0; r_interactions := Some [bid "success"; regulation_ok] |};
    {| r_round := 1; r_interactions := Some [bid "failed"; bid "failed"] |} ].

End Examples.

(** ** Prefixes of [Environment.update] named in the statements *)

Module EnvironmentSteps.

(** The steps of [update] that precede the emergency check. *)
Definition until_emergency_check (interactions : list interaction) : M unit :=
  Environment.set (fun e => Environment.with_update_count (S (update_count e)) e);;
  Environment._update_system_load interactions;;
  Environment._update_service_availability interactions.

(** The steps of [update] that precede the random changes. *)
Definition until_random_changes (interactions : list interaction) : M unit :=
  until_emergency_check interactions;;
  Environment._check_emergency_events;;
  Environment._update_infrastructure_utilization interactions;;
  Environment._update_service_quality interactions.

(** The value [random.uniform(-1, 1)] makes of the draw [u]. *)
Definition change_of (u : Q) : Q := -1 + (1 - -1) * u.

(** [max(0, min(100, v + change))] *)
Definition clamp (v : Q) : Q := py_max 0 (py_min 100 v).

End EnvironmentSteps.

Module Worlds.

Definition constant_draws (u : Q) : Random.t :=
  {| Random.draws := fun _ => u; Random.pos := 0 |}.

Definition city : environment :=
  {| digital_infrastructure :=
       [("core_area", 90); ("urban_rural_fringe", 70); ("rural", 50)];
     physical_infrastructure :=
       [("core_area", 85); ("urban_rural_fringe", 65); ("rural", 45)];
     service_availability := 1;
     system_load := 0.5;
     emergency_status := false;
     update_count := 0;
     service_quality :=
       {| core_area := 0.9; urban_rural_fringe := 0.7; rural := 0.6 |};
     utilization_digital := 0.6;
     utilization_physical := 0.7 |}.

Definition city_in_emergency : environment :=
  Environment.with_emergency_status true city.

Definition the_government : agent :=
  {| agent_id := None; area := None;
     attributes := {[ "information_transparency" := VNum 70 ]};
     state := {[ "resource_utilization" := 0.7 ]};
     behavior_modifiers := None; policy_modifiers := None |}.

Definition an_enterprise : agent :=
  {| agent_id := Some "enterprise_0"; area := None;
     attributes := {[ "data_usage_compliance" := VNum 90 ]};
     state := {[ "innovation_level" := 50; "market_share" := 0.1 ]};
     behavior_modifiers := None; policy_modifiers := None |}.

Definition a_resident (literacy : Q) : agent :=
  {| agent_id := Some "resident_0"; area := Some "core_area";
     attributes := {[ "information_literacy" := VNum literacy;
                      "trust_in_government" := VNum 80;
                      "technology_acceptance" := VNum 70 ]};
     state := {[ "satisfaction" := 3 ]};
     behavior_modifiers := None; policy_modifiers := None |}.

Definition training : policy_config :=
  {| p_target := Some "resident";
     attribute_change := Some [("information_literacy", CStr "+20")];
     behavior_change := None;
     rule_change := None |}.

(** A city with one enterprise and one resident, no interaction rule and
    the training policy. *)
Definition town (e : environment) (g : Random.t) (literacy : Q) : world :=
  {| government := the_government;
     enterprises := [an_enterprise];
     residents := [a_resident literacy];
     env := e;
     random_source := g;
     logging := [];
     engine := {| rules := ∅; interaction_history := [] |};
     policy := {| policies := {[ "digital_literacy_training" := training ]};
                  applied_policies := [];
                  policy_history := [] |} |}.

End Worlds.

Module Logs.

(** The warning [apply] logs for a name that is no policy. *)
Definition unknown_policy (policy_name : string) : log_record :=
  {| level := WARNING;
     message := "Unknown policy intervention: {}";
     params := [VStr policy_name] |}.

End Logs.

(** ** Closed forms named in the statements about policies *)

Module PolicySteps.

(** The number [_parse_change_value] returns. *)
Definition delta (float : string -> option Q) (change_str : config) : Q :=
  match change_str with
  | CNum q => q
  | CStr s => default 0 (float (PolicyEngine.strip s))
  | CDict _ => 0
  end.

(** [min(100, max(0, v))] *)
Definition clamp (v : Q) : Q := py_min 100 (py_max 0 v).

(** The literacy one application of the training leaves to a resident of
    literacy [x]: the delta is applied below the threshold of 70 only. *)
Definition trained (d x : Q) : Q :=
  if Qlt_le_dec x 70 then clamp (x + d) else x.

(** The attribute [k] of the resident at index [i]. *)
Definition resident_attribute (i : nat) (k : string) (w : world) : option value :=
  a ← residents w !! i; attributes a !! k.

(** The attributes a resident policy reads are numeric where present. *)
Definition numeric (keys : list string) (w : world) : Prop :=
  forall (j : nat) (a : agent) (k : string) (v : value),
    residents w !! j = Some a -> k ∈ keys ->
    attributes a !! k = Some v -> exists q, v = VNum q.

End PolicySteps.

Module Parse.

Definition digit (c : Ascii.ascii) : option Z :=
  let n := Z.of_nat (nat_of_ascii c) in
  if ((48 <=? n) && (n <=? 57))%Z then Some (n - 48)%Z else None.

(** The digits of [s] as a numerator, with the power of ten they span. *)
Fixpoint digits (s : string) (acc : Z) (scale : positive) : option (Z * positive) :=
  match s with
  | EmptyString => Some (acc, scale)
  | String c s' =>
      match digit c with
      | Some d => digits s' (10 * acc + d)%Z (10 * scale)%positive
      | None => None
      end
  end.

Fixpoint split_point (s : string) : string * option string :=
  match s with
  | EmptyString => (EmptyString, None)
  | String c s' =>
      if Ascii.eqb c "."%char then (EmptyString, Some s')
      else let '(a, b) := split_point s' in (String c a, b)
  end.

Definition unsigned (s : string) : option Q :=
  let '(whole, fraction) := split_point s in
  match whole, fraction with
  | EmptyString, None => None
  | EmptyString, Some EmptyString => None
  | _, _ =>
      match digits whole 0 1, digits (default EmptyString fraction) 0 1 with
      | Some (n, _), Some (m, scale) => Some (inject_Z n + (m # scale))
      | _, _ => None
      end
  end.

(** [float(s)] on the plain decimal literals, signed or not: the inputs
    the policy tables use. *)
Definition decimal (s : string) : option Q :=
  match s with
  | String "+" s' => unsigned s'
  | String "-" s' => Qopp <$> unsigned s'
  | _ => unsigned s
  end.

End Parse.

Module TrainingSteps.

(** The literacy of a resident after the loop over [attribute_changes]:
    every entry named [information_literacy] adds its delta, clamped. *)
Definition after_changes (float : string -> option Q)
    (changes : list (string * config)) (y : Q) : Q :=
  foldl (fun y '(attr_name, change_str) =>
           if decide (attr_name = "information_literacy")
           then PolicySteps.clamp (y + PolicySteps.delta float change_str)
           else y)
        y changes.

(** The facts the proofs about the training carry along: the attributes
    the policy touches are numeric, the resident at [i] has literacy [y],
    and the table of policies is [table]. *)
Definition invariant (keys : list string) (table : gmap string policy_config)
    (i : nat) (y : Q) (w : world) : Prop :=
  PolicySteps.numeric ("information_literacy" :: keys) w
  /\ PolicySteps.resident_attribute i "information_literacy" w = Some (VNum y)
  /\ policies (policy w) = table.

(** The condition of the list comprehension that selects the residents
    to train, where it does not raise. *)
Definition is_target (w : world) (r : ref) : bool :=
  match default (VNum 60) (attributes (deref r w) !! "information_literacy") with
  | VNum q => if Qlt_le_dec q 70 then true else false
  | VStr _ => false
  end.

End TrainingSteps.

Module Folding.

(** A failed procurement between the government and [enterprise_0]. *)
Definition failed_procurement : interaction :=
  InteractionEngine.with_service_type "digital"
    (InteractionEngine.new_interaction
       "procurement_cooperation" ["government"; "enterprise_0"] "failed").

(** A feedback of [resident_0] the government ignored. *)
Definition ignored_feedback : interaction :=
  InteractionEngine.with_area "core_area"
    (InteractionEngine.new_interaction
       "demand_response" ["resident_0"; "government"] "ignored").

End Folding.

(** ** The declared bounds and the operations that must keep them *)

Module Bounds.

(** A numeric entry, when present, lies between [lo] and [hi]. *)
Definition within (lo hi : Q) (o : option Q) : Prop :=
  forall v, o = Some v -> lo <= v /\ v <= hi.
Definition within_value (lo hi : Q) (o : option value) : Prop :=
  forall v, o = Some (VNum v) -> lo <= v /\ v <= hi.

(** The bounds an agent declares, by its kind. *)
Definition agent_in_bounds (r : ref) (a : agent) : Prop :=
  match r with
  | Government => within 0 1 (state a !! "resource_utilization")
  | Enterprise _ =>
      within 0 100 (state a !! "innovation_level")
      /\ within 0 1 (state a !! "market_share")
      /\ within_value 0 100 (attributes a !! "data_usage_compliance")
  | Resident _ =>
      within 1 5 (state a !! "satisfaction")
      /\ within_value 0 100 (attributes a !! "trust_in_government")
  end.

(** Every agent of the store is within its bounds. *)
Definition in_bounds (w : world) : Prop :=
  forall r : ref, agent_in_bounds r (deref r w).

(** Every attribute of [w] is the one of [w0] or a number of [0, 100]. *)
Definition adjusted (w0 w : world) : Prop :=
  length (enterprises w) = length (enterprises w0)
  /\ length (residents w) = length (residents w0)
  /\ forall (r : ref) (k : string),
       attributes (deref r w) !! k = attributes (deref r w0) !! k
       \/ exists v, attributes (deref r w) !! k = Some (VNum v)
                    /\ 0 <= v /\ v <= 100.

(** The operations on the agents: the folding of a list of interactions,
    a whole round of the interaction engine, the installation of a table
    of rules or of policies, and the application of named policies. *)
Inductive operation :=
  | Fold (interactions : list interaction)
  | Round (gov_decision : decision) (ent_decisions res_decisions : list decision)
  | Rules (table : gmap string (gmap string rule))
  | Policies (table : gmap string policy_config)
  | Apply (policy_interventions : list string).

Definition run (float : string -> option Q) (o : operation) : M unit :=
  fun w =>
    match o with
    | Fold interactions =>
        InteractionEngine._update_agent_states
          Government (enterprise_refs w) (resident_refs w) interactions w
    | Round gov_decision ent_decisions res_decisions =>
        (InteractionEngine.process
           Government (enterprise_refs w) (resident_refs w)
           gov_decision ent_decisions res_decisions;; mret tt) w
    | Rules table =>
        modify (with_engine {| rules := table; interaction_history := [] |}) w
    | Policies table =>
        modify (with_policy {| policies := table; applied_policies := [];
                               policy_history := [] |}) w
    | Apply policy_interventions =>
        PolicyEngine.apply float Government (enterprise_refs w)
          (resident_refs w) policy_interventions w
    end.

(** The store a sequence of operations leaves behind; as in the driver,
    an operation that raises does not stop the sequence. *)
Definition run_all (float : string -> option Q) (ops : list operation)
    (w : world) : world :=
  foldl (fun w o => (run float o w).2) w ops.

End Bounds.

(** ** The attributes the interaction engine computes with *)

Module Typed.

Definition keys : list string :=
  ["information_transparency"; "data_usage_compliance";
   "technology_acceptance"; "trust_in_government"].

(** The attributes the interaction engine divides or adds are numbers
    wherever an agent has them. *)
Definition numeric_attributes (w : world) : Prop :=
  forall (r : ref) (k : string) (v : value),
    k ∈ keys -> attributes (deref r w) !! k = Some v -> exists q, v = VNum q.

(** [rules['service_provision']] cannot raise: the government does not
    provide services, or nobody is there to be served, or the rule is in
    the table. *)
Definition service_rule_found (gov_decision : decision) (w : world) : Prop :=
  action gov_decision <> Some "service_provision"
  \/ residents w = []
  \/ is_Some (default ∅ (rules (engine w) !! "government_resident")
               !! "service_provision").

(** The action of a government decision that targets the enterprises. *)
Definition government_action (gov_decision : decision) : string :=
  default "regulation" (action gov_decision).

End Typed.

(** ** The notions the proofs are stated with *)

(** Total correctness: from [P] the computation returns, and [Q] holds of
    its result and final store. *)
Definition triple {A : Type} (P : world -> Prop) (m : M A)
    (Q : A -> world -> Prop) : Prop :=
  forall w, P w -> exists a w', m w = (Ok a, w') /\ Q a w'.

(** Invariance: [I] holds of the store the computation leaves behind,
    whether it returns or raises. *)
Definition preserves {A : Type} (I : world -> Prop) (m : M A) : Prop :=
  forall w, I w -> I (m w).2.

(** A property of the store that only looks at the agents and at the
    tables of policies and of rules. *)
Definition about_agents (P : world -> Prop) : Prop :=
  forall w w',
    government w' = government w -> enterprises w' = enterprises w ->
    residents w' = residents w ->
    policies (policy w') = policies (policy w) ->
    rules (engine w') = rules (engine w) -> P w -> P w'.

(** A step that returns, draws nothing and keeps the infrastructure maps
    and the emergency flag. *)
Definition tame (m : M unit) : Prop :=
  forall w, exists w',
    m w = (Ok tt, w')
    /\ random_source w' = random_source w
    /\ digital_infrastructure (env w') = digital_infrastructure (env w)
    /\ physical_infrastructure (env w') = physical_infrastructure (env w)
    /\ emergency_status (env w') = emergency_status (env w).

(** A tame step that keeps the service availability too. *)
Definition quiet (m : M unit) : Prop :=
  forall w, exists w',
    m w = (Ok tt, w')
    /\ random_source w' = random_source w
    /\ digital_infrastructure (env w') = digital_infrastructure (env w)
    /\ physical_infrastructure (env w') = physical_infrastructure (env w)
    /\ emergency_status (env w') = emergency_status (env w)
    /\ service_availability (env w') = service_availability (env w).

(** The store is within its bounds and adjusted with respect to [w0]. *)
Definition bounded (w0 w : world) : Prop :=
  Bounds.in_bounds w /\ Bounds.adjusted w0 w.

(** The bound a state entry has to respect, by kind and key. *)
Definition state_bound (r : ref) (k : string) (v : Q) : Prop :=
  match r with
  | Government => k = "resource_utilization" -> 0 <= v /\ v <= 1
  | Enterprise _ =>
      (k = "innovation_level" -> 0 <= v /\ v <= 100)
      /\ (k = "market_share" -> 0 <= v /\ v <= 1)
  | Resident _ => k = "satisfaction" -> 1 <= v /\ v <= 5
  end.

Module Sequences.

Definition regulate : decision :=
  {| action := Some "regulation"; target := Some "enterprises" |}.
Definition provide : decision :=
  {| action := Some "service_provision"; target := Some "residents" |}.
Definition idle : decision :=
  {| action := Some "no_action"; target := Some "none" |}.
Definition develop : decision :=
  {| action := Some "service_development"; target := Some "residents" |}.
Definition feedback : decision :=
  {| action := Some "provide_feedback"; target := Some "government" |}.

(** A training, a folding and a round. *)
Definition season : list Bounds.operation :=
  [ Bounds.Apply ["digital_literacy_training"];
    Bounds.Fold [Folding.failed_procurement; Folding.ignored_feedback];
    Bounds.Round regulate [develop] [feedback] ].

End Sequences.

(** What a computation returns, when it returns. *)
Definition returns {A : Type} (G : A -> Prop) (m : M A) : Prop :=
  forall w a w', m w = (Ok a, w') -> G a.

(** From [I] the computation returns, and [I] holds again. *)
Definition safe {A : Type} (I : world -> Prop) (m : M A) : Prop :=
  triple I m (fun _ => I).


(** ** Further built-ins *)

(** [sum(l)]: Python adds from the left, starting at 0. *)
Definition py_sum (l : list Q) : Q := foldl Qplus 0 l.

(** [abs(x)] *)
Definition py_abs (x : Q) : Q := if Qlt_le_dec x 0 then - x else x.

(** ** The fairness indicators of [metrics/fairness.py] *)

Module FairnessIndicators.

(** A resident as [calculate_metrics] hands it to the fairness metrics. *)
Record resident_data := {
  d_area : option string;
  d_digital_access : option bool;
  d_service_usage_frequency : option Q;
  d_satisfaction : option Q;
  d_income_level : option Q
}.

Record fairness := {
  service_access_gini : Q;
  usage_depth_gini : Q;
  satisfaction_gini : Q;
  digital_divide_index : Q
}.

(** [1.0 if r.get('digital_access', False) else 0.0] *)
Definition access (r : resident_data) : Q :=
  if default false (d_digital_access r) then 1 else 0.

Definition calculate_digital_divide (residents : list resident_data) : Q :=
  match residents with
  | [] => 0
  | _ =>
      let high_income :=
        List.filter (fun r => negb (Qle_bool (default 0 (d_income_level r)) 6000))
                    residents in
      let low_income :=
        List.filter (fun r => Qle_bool (default 0 (d_income_level r)) 6000)
                    residents in
      match high_income, low_income with
      | [], _ => 0
      | _, [] => 0
      | _, _ =>
          let high_income_access := np_mean (map access high_income) in
          let low_income_access := np_mean (map access low_income) in
          py_abs (high_income_access - low_income_access)
      end
  end.

(** [area_groups.get(area, [])]: the residents of one area, in order; a
    resident without area counts for the core area. *)
Definition area_group (area : string) (residents : list resident_data)
  : list resident_data :=
  List.filter (fun r => String.eqb (default "core_area" (d_area r)) area)
              residents.

(** The entry an area adds to one of the three lists of gaps: the mean of
    the indicator over its residents, 0.0 for an area without residents. *)
Definition area_score (indicator : resident_data -> Q)
    (area_residents : list resident_data) : Q :=
  match area_residents with
  | [] => 0
  | _ => np_mean (map indicator area_residents)
  end.

Definition area_names : list string := ["core_area"; "urban_rural_fringe"; "rural"].

Definition calculate_fairness (residents : list resident_data) : fairness :=
  match residents with
  | [] =>
      {| service_access_gini := 0; usage_depth_gini := 0;
         satisfaction_gini := 0; digital_divide_index := 0 |}
  | _ =>
      let scores indicator :=
        map (fun area => area_score indicator (area_group area residents)) area_names in
      let access_gaps := scores access in
      let usage_gaps :=
        scores (fun r => default 0 (d_service_usage_frequency r)) in
      let satisfaction_scores :=
        scores (fun r => default 3 (d_satisfaction r)) in
      {| service_access_gini := Fairness.calculate_gini access_gaps;
         usage_depth_gini := Fairness.calculate_gini usage_gaps;
         satisfaction_gini := Fairness.calculate_gini satisfaction_scores;
         digital_divide_index := calculate_digital_divide residents |}
  end.

End FairnessIndicators.

(** ** The market concentration of [metrics/agent_status.py] *)

Module AgentStatus.

Definition calculate_herfindahl_index (market_shares : list Q) : Q :=
  match market_shares with
  | [] => 0
  | _ =>
      let total_share := py_sum market_shares in
      if Qeq_bool total_share 0 then 0
      else
        let normalized_shares :=
          map (fun share => share / total_share) market_shares in
        py_sum (map (fun share => share ^ 2) normalized_shares)
  end.

End AgentStatus.

(** ** The rates of [metrics/collaboration.py] *)

Module CollaborationRates.

(** [record.get('interactions', [])] *)
Definition interactions_of (record : round_record) : list interaction :=
  default [] (r_interactions record).

(** The test under which the loop counts a joint action. *)
Definition is_joint_action (interaction : interaction) : bool :=
  (1 <? length (default [] (i_participants interaction)))%nat
  && in_strs (Some (default "" (i_type interaction)))
       ["joint_project"; "collaborative_service";
        "multi_agency_response"; "partnership"].

Definition calculate_joint_action_rate
    (simulation_records : list round_record) : Q :=
  match simulation_records with
  | [] => 0
  | _ =>
      let '(total_interactions, joint_actions) :=
        foldl (fun '(total, joint) record =>
                 let interactions := interactions_of record in
                 ((total + length interactions)%nat,
                  foldl (fun joint interaction =>
                           if is_joint_action interaction then S joint else joint)
                        joint interactions))
              (0%nat, 0%nat) simulation_records in
      if (0 <? total_interactions)%nat
      then Qnat joint_actions / Qnat total_interactions
      else 0
  end.

(** The two tests of the loop of [calculate_conflict_rate]; each adds one
    to the counter. *)
Definition conflictual_outcome (interaction : interaction) : bool :=
  in_strs (Some (default "neutral" (i_outcome interaction)))
    ["conflict"; "disagreement"; "failed_negotiation"].
Definition regulatory_conflict (interaction : interaction) : bool :=
  is_str (i_type interaction) "regulation"
  && bool_decide (i_compliance interaction = Some false).

Definition calculate_conflict_rate
    (simulation_records : list round_record) : Q :=
  match simulation_records with
  | [] => 0
  | _ =>
      let '(total_interactions, conflicts) :=
        foldl (fun '(total, conflicts) record =>
                 let interactions := interactions_of record in
                 ((total + length interactions)%nat,
                  foldl (fun conflicts interaction =>
                           let conflicts :=
                             if conflictual_outcome interaction
                             then S conflicts else conflicts in
                           if regulatory_conflict interaction
                           then S conflicts else conflicts)
                        conflicts interactions))
              (0%nat, 0%nat) simulation_records in
      if (0 <? total_interactions)%nat
      then Qnat conflicts / Qnat total_interactions
      else 0
  end.

(** What one interaction adds to the counter of joint actions and to the
    counter of conflicts. *)
Definition joint_weight (i : interaction) : nat :=
  if is_joint_action i then 1 else 0.
Definition conflict_weight (i : interaction) : nat :=
  ((if conflictual_outcome i then 1 else 0)
   + (if regulatory_conflict i then 1 else 0))%nat.

End CollaborationRates.

(** ** The recommendations of [PolicyEngine] *)

Module PolicyAdvice.

(** [current_metrics.get(group, {}).get(name, 0)] *)
Definition metric (current_metrics : gmap string (gmap string Q))
    (group name : string) : Q :=
  default 0 (default ∅ (current_metrics !! group) !! name).

Definition recommend_policies (self : policy_engine)
    (current_metrics : gmap string (gmap string Q))
    (target_improvements : list string) : list string :=
  let recommendations := [] in
  let recommendations :=
    if (if Qlt_le_dec 0.3 (metric current_metrics "fairness" "digital_divide_index")
        then true else false)
       || bool_decide ("digital_equity" ∈ target_improvements)
    then recommendations ++ ["digital_literacy_training"]
    else recommendations in
  let recommendations :=
    if (if Qlt_le_dec 0.4 (metric current_metrics "fairness" "service_access_gini")
        then true else false)
       || bool_decide ("infrastructure" ∈ target_improvements)
    then recommendations ++ ["inclusive_infrastructure"]
    else recommendations in
  let recommendations :=
    if (if Qlt_le_dec (metric current_metrics "efficiency" "resource_utilization") 0.6
        then true else false)
       || bool_decide ("efficiency" ∈ target_improvements)
    then recommendations ++ ["data_open_sharing"]
    else recommendations in
  let recommendations :=
    if (if Qlt_le_dec 0.2 (metric current_metrics "collaboration" "conflict_rate")
        then true else false)
       || bool_decide ("regulation" ∈ target_improvements)
    then recommendations ++ ["algorithm_regulation"]
    else recommendations in
  List.filter (fun p => negb (bool_decide (p ∈ applied_policies self)))
              recommendations.

End PolicyAdvice.

(** ** Frames and postconditions *)

(** The computation never changes the component [proj] of the store,
    whether it returns or raises. *)
Definition untouched {A X : Type} (proj : world -> X) (m : M A) : Prop :=
  forall w, proj (m w).2 = proj w.

(** Whatever the store was, [P] holds of the store the computation leaves
    behind. *)
Definition establishes {A : Type} (m : M A) (P : world -> Prop) : Prop :=
  forall w, P (m w).2.

(** The computation never raises. *)
Definition total {A : Type} (m : M A) : Prop :=
  forall w, exists a w', m w = (Ok a, w').

(** A component that ignores the writes of one kind. *)
Definition ignores_agents {X : Type} (proj : world -> X) : Prop :=
  forall r a w, proj (assign r a w) = proj w.
Definition ignores_random {X : Type} (proj : world -> X) : Prop :=
  forall g w, proj (with_random_source g w) = proj w.
Definition ignores_logging {X : Type} (proj : world -> X) : Prop :=
  forall l w, proj (with_logging l w) = proj w.
Definition ignores_env {X : Type} (proj : world -> X) : Prop :=
  forall e w, proj (with_env e w) = proj w.
Definition ignores_engine {X : Type} (proj : world -> X) : Prop :=
  forall e w, proj (with_engine e w) = proj w.
Definition ignores_policy {X : Type} (proj : world -> X) : Prop :=
  forall p w, proj (with_policy p w) = proj w.

(** The agents of the store. *)
Definition agents (w : world) : agent * list agent * list agent :=
  (government w, enterprises w, residents w).

(** ** The ranges of the environment *)

Module EnvironmentBounds.

Definition unit_interval (x : Q) : Prop := 0 <= x /\ x <= 1.

(** What an [update] establishes, whatever the environment was. *)
Definition established (e : environment) : Prop :=
  unit_interval (system_load e)
  /\ unit_interval (service_availability e)
  /\ Forall (fun kv => 0 <= kv.2 /\ kv.2 <= 100) (digital_infrastructure e).

(** What an [update] keeps when it holds before. *)
Definition kept (e : environment) : Prop :=
  unit_interval (core_area (service_quality e))
  /\ unit_interval (urban_rural_fringe (service_quality e))
  /\ unit_interval (rural (service_quality e))
  /\ unit_interval (utilization_digital e)
  /\ unit_interval (utilization_physical e).

(** No level of the two infrastructure maps exceeds 100. *)
Definition capped (e : environment) : Prop :=
  Forall (fun kv => kv.2 <= 100) (digital_infrastructure e)
  /\ Forall (fun kv => kv.2 <= 100) (physical_infrastructure e).

End EnvironmentBounds.

(** ** What [PolicyEngine.apply] records *)

Module PolicyTracking.

(** The entry [_apply_single_policy] appends to the history. *)
Definition entry (policy_name : string) (policy_config : policy_config)
  : history_entry :=
  {| h_policy_name := policy_name;
     h_target := default "" (p_target policy_config);
     h_config := policy_config |}.

(** The entries of the names that are policies of [table], in order and
    with their repetitions. *)
Definition entries (table : gmap string policy_config)
    (policy_interventions : list string) : list history_entry :=
  omap (fun name => entry name <$> table !! name) policy_interventions.

(** The policy engine after one known name was applied. *)
Definition recorded (policy_name : string) (policy_config : policy_config)
    (p : policy_engine) : policy_engine :=
  {| policies := policies p;
     applied_policies :=
       if bool_decide (policy_name ∈ applied_policies p)
       then applied_policies p
       else applied_policies p ++ [policy_name];
     policy_history := policy_history p ++ [entry policy_name policy_config] |}.

End PolicyTracking.

(** ** The interactions the engine produces *)

Module Produced.

(** The types of the interactions the engine creates. *)
Definition types : list string :=
  ["procurement_cooperation"; "regulation"; "data_sharing";
   "project_bidding"; "data_request"; "service_provision";
   "demand_response"; "service_supply"; "information_sharing"].

(** An interaction as the engine creates it: one of the nine types, two
    participants, an outcome, and none of the keys that the efficiency and
    the resilience metrics read. *)
Definition well_formed (i : interaction) : Prop :=
  (exists t, i_type i = Some t /\ t ∈ types)
  /\ (exists a b, i_participants i = Some [a; b])
  /\ is_Some (i_outcome i)
  /\ i_status i = None
  /\ i_resolved i = None
  /\ i_response_time i = None
  /\ i_cost i = None
  /\ i_recovery_time i = None.

(** A well-formed interaction of one of the types [ts]. *)
Definition typed (ts : list string) (i : interaction) : Prop :=
  well_formed i /\ exists t, i_type i = Some t /\ t ∈ ts.

(** A list of at most [k] interactions of the types [ts]. *)
Definition batch (ts : list string) (k : nat) (l : list interaction) : Prop :=
  (length l <= k)%nat /\ Forall (typed ts) l.

(** The parts of a round, in the order in which [process] concatenates
    them: between government and enterprises, the services provided, the
    feedback of the residents, the services of the enterprises, and the
    exchanges among residents. *)
Record census := {
  government_enterprise : list interaction;
  provided : list interaction;
  feedback : list interaction;
  enterprise_resident : list interaction;
  resident_resident : list interaction
}.

Definition all (c : census) : list interaction :=
  government_enterprise c ++ (provided c ++ feedback c)
  ++ enterprise_resident c ++ resident_resident c.

End Produced.

(** ** The participants of the state folding *)

Module Participants.

(** [interaction.get('participants', [])] *)
Definition ids (i : interaction) : list string :=
  default [] (i_participants i).

(** The ids named by a list of interactions. *)
Definition mentioned (interactions : list interaction) : list string :=
  concat (map ids interactions).

(** The key under which [_update_agent_states] looks an agent up. *)
Definition key_of (r : ref) (w : world) : string :=
  match r with
  | Government => "government"
  | Enterprise _ => default "enterprise" (agent_id (deref r w))
  | Resident _ => default "resident" (agent_id (deref r w))
  end.

(** The interactions that name [p], in order. *)
Definition involving (p : string) (interactions : list interaction)
  : list interaction :=
  List.filter (fun i => bool_decide (p ∈ ids i)) interactions.

(** How often an interaction names [p]. *)
Definition times (p : string) (i : interaction) : nat :=
  length (List.filter (String.eqb p) (ids i)).

(** The list [agent_interactions] keeps for [p]: the interactions in
    order, each as often as it names [p]. *)
Definition folded (p : string) (interactions : list interaction)
  : list interaction :=
  flat_map (fun i => replicate (times p i) i) interactions.

End Participants.

(** The reference names an agent of the store. *)
Definition known (r : ref) (w : world) : Prop :=
  match r with
  | Government => True
  | Enterprise j => (j < length (enterprises w))%nat
  | Resident j => (j < length (residents w))%nat
  end.

(** ** The deltas of the state folding *)

Module Deltas.

(** [interaction.get('outcome', 'neutral')] and [interaction.get('type', '')] *)
Definition outcome (i : interaction) : string := default "neutral" (i_outcome i).
Definition type (i : interaction) : string := default "" (i_type i).

(** A state metric, read with its default, raised by a step up to a cap or
    lowered by a step down to a floor. *)
Definition raised (k : string) (d step cap : Q) (a : agent) : agent :=
  with_state (<[k := py_min cap (default d (state a !! k) + step)]> (state a)) a.
Definition lowered (k : string) (d step floor : Q) (a : agent) : agent :=
  with_state (<[k := py_max floor (default d (state a !! k) - step)]> (state a)) a.

(** The trust in the government, an attribute, read with the default 80. *)
Definition trust (a : agent) : Q :=
  match default (VNum 80) (attributes a !! "trust_in_government") with
  | VNum t => t
  | VStr _ => 80
  end.
Definition with_trust (t : Q) (a : agent) : agent :=
  with_attributes (<["trust_in_government" := VNum t]> (attributes a)) a.

(** Government: a success raises resource_utilization by 0.01, at most to
    1; a failed or violation outcome lowers it by 0.01, at least to 0; any
    other outcome changes nothing. *)
Definition government (a : agent) (i : interaction) : agent :=
  if String.eqb (outcome i) "success" then
    raised "resource_utilization" 0.7 0.01 1 a
  else if String.eqb (outcome i) "failed" || String.eqb (outcome i) "violation"
  then lowered "resource_utilization" 0.7 0.01 0 a
  else a.

(** Enterprise, for a success: a procurement_cooperation raises
    innovation_level by 2, at most to 100; a service_supply raises
    market_share by 0.01, at most to 1; any other type changes nothing. *)
Definition enterprise (a : agent) (i : interaction) : agent :=
  if String.eqb (type i) "procurement_cooperation" then
    raised "innovation_level" 50 2 100 a
  else if String.eqb (type i) "service_supply" then
    raised "market_share" 0.1 0.01 1 a
  else a.

(** Resident: a successful service_provision raises satisfaction by 0.1,
    at most to 5, a successful demand_response raises trust_in_government
    by 1, at most to 100; a failed or ignored outcome lowers satisfaction
    by 0.05, at least to 1, and for a demand_response trust_in_government
    by 2, at least to 0; any other outcome changes nothing. *)
Definition resident (a : agent) (i : interaction) : agent :=
  if String.eqb (outcome i) "success" then
    if String.eqb (type i) "service_provision" then
      raised "satisfaction" 3 0.1 5 a
    else if String.eqb (type i) "demand_response" then
      with_trust (py_min 100 (trust a + 1)) a
    else a
  else if String.eqb (outcome i) "failed" || String.eqb (outcome i) "ignored"
  then
    let a := lowered "satisfaction" 3 0.05 1 a in
    if String.eqb (type i) "demand_response" then
      with_trust (py_max 0 (trust a - 2)) a
    else a
  else a.

(** The trust of the agent, where it has one, is a number. *)
Definition numeric_trust (a : agent) : Prop :=
  forall v, attributes a !! "trust_in_government" = Some v -> exists q, v = VNum q.

(** The folding of an enterprise as it is coded: only a success has a
    branch. *)
Definition enterprise_as_coded (a : agent) (i : interaction) : agent :=
  if String.eqb (outcome i) "success" then enterprise a i else a.

(** The id under which the folding looks an enterprise or a resident up. *)
Definition enterprise_id (a : agent) : string := default "enterprise" (agent_id a).
Definition resident_id (a : agent) : string := default "resident" (agent_id a).

End Deltas.

(** ** The state of an enterprise through the folding *)

Module EnterpriseState.

(** [enterprise.state.get('innovation_level', 50)] and
    [enterprise.state.get('market_share', 0.1)] *)
Definition level (j : nat) (w : world) : Q :=
  default 50 (state (deref (Enterprise j) w) !! "innovation_level").
Definition share (j : nat) (w : world) : Q :=
  default 0.1 (state (deref (Enterprise j) w) !! "market_share").


End EnterpriseState.

(** ** The attributes a policy can reach *)

Module AttributeKeys.

(** Every agent of [w] has the attribute keys and the state it has in
    [w0]. *)
Definition same (w0 w : world) : Prop :=
  forall r : ref,
    dom (attributes (deref r w)) = dom (attributes (deref r w0))
    /\ state (deref r w) = state (deref r w0).

(** The same, while the table of policies is [table]. *)
Definition steady (table : gmap string policy_config) (w0 w : world) : Prop :=
  same w0 w /\ policies (policy w) = table.

(** No policy of the list that is in the table targets the relation of
    government and enterprises. *)
Definition plain (table : gmap string policy_config)
    (policy_interventions : list string) : Prop :=
  forall name policy_config,
    name ∈ policy_interventions ->
    table !! name = Some policy_config ->
    p_target policy_config <> Some "government_enterprise".

End AttributeKeys.

(** ** The slots of a round and the defaults of the rules *)

Module Slots.

(** The probability the engine falls back on when the rule of a type is
    missing or gives none. *)
Definition default_probability (type : string) : Q :=
  if String.eqb type "procurement_cooperation" then 0.7
  else if String.eqb type "regulation" then 0.9
  else if String.eqb type "data_sharing" then 0.3
  else if String.eqb type "demand_response" then 0.7
  else 0.8.

(** The table that holds the rule of a type. *)
Definition table_of (type : string) : string :=
  if String.eqb type "demand_response" then "government_resident"
  else if String.eqb type "service_supply" then "enterprise_resident"
  else "government_enterprise".

(** The rule of a type, where the tables of the engine have one. *)
Definition rule_in (w : world) (type : string) : option rule :=
  rules (engine w) !! table_of type ≫= fun table => table !! type.

(** The probability and the effect a record of the type is made with: the
    ones of the rule, or the default probability and the empty effect. *)
Definition probability_in (w : world) (type : string) : Q :=
  default (default_probability type) (rule_in w type ≫= probability).
Definition effect_in (w : world) (type : string) : string :=
  default "" (rule_in w type ≫= effect).

(** A numeric attribute, read with its default. *)
Definition number (k : string) (d : Q) (a : agent) : Q :=
  match default (VNum d) (attributes a !! k) with
  | VNum q => q
  | VStr _ => d
  end.

(** The record of a type with its participants, outcome and effect. *)
Definition record (w : world) (type : string) (participants : list string)
    (outcome : string) : interaction :=
  InteractionEngine.with_effect (effect_in w type)
    (InteractionEngine.new_interaction type participants outcome).

(** The records the engine makes from the draw [u], for the agents as they
    are in [w]. *)
Definition procurement (w : world) (e : agent) (u : Q) : interaction :=
  let capability := default 50 (state e !! "innovation_level") / 100 in
  let success_prob :=
    probability_in w "procurement_cooperation" * capability in
  InteractionEngine.with_service_type "digital"
    (record w "procurement_cooperation"
       ["government"; default "enterprise" (agent_id e)]
       (if Qlt_le_dec u success_prob then "success" else "failed")).

Definition regulation (w : world) (e : agent) (u : Q) : interaction :=
  let compliance_rate := number "data_usage_compliance" 90 e / 100 in
  let compliant := if Qlt_le_dec u compliance_rate then true else false in
  InteractionEngine.with_compliance compliant
    (record w "regulation"
       ["government"; default "enterprise" (agent_id e)]
       (if compliant then "success" else "violation")).

Definition data_sharing (w : world) (e : agent) (u : Q) : interaction :=
  let transparency :=
    number "information_transparency" 70 (government w) / 100 in
  let success_prob := probability_in w "data_sharing" * transparency in
  record w "data_sharing"
    ["government"; default "enterprise" (agent_id e)]
    (if Qlt_le_dec u success_prob then "success" else "denied").

Definition demand_response (w : world) (r : agent) (u : Q) : interaction :=
  let transparency :=
    number "information_transparency" 70 (government w) / 100 in
  let success_prob := probability_in w "demand_response" * transparency in
  InteractionEngine.with_area (default "core_area" (area r))
    (record w "demand_response"
       [default "resident" (agent_id r); "government"]
       (if Qlt_le_dec u success_prob then "success" else "ignored")).

Definition service_supply (w : world) (e r : agent) (u : Q) : interaction :=
  let acceptance := number "technology_acceptance" 70 r / 100 in
  let capability := default 50 (state e !! "innovation_level") / 100 in
  let success_prob :=
    probability_in w "service_supply" * acceptance * capability in
  InteractionEngine.with_area (default "core_area" (area r))
    (record w "service_supply"
       [default "enterprise" (agent_id e); default "resident" (agent_id r)]
       (if Qlt_le_dec u success_prob then "success" else "rejected")).

(** The record of the action of the government towards an enterprise. *)
Definition government_record (w : world) (action : string) (e : agent) (u : Q)
  : interaction :=
  if String.eqb action "procurement_cooperation" then procurement w e u
  else if String.eqb action "regulation" then regulation w e u
  else data_sharing w e u.

(** The store [w] after draws: the source stands at [p]. *)
Definition advanced (w : world) (p : nat) : world :=
  with_random_source
    {| Random.draws := Random.draws (random_source w); Random.pos := p |} w.

(** [u] is one of the draws of the source of [w] from its position up to
    [hi], excluded. *)
Definition drawn (w : world) (hi : nat) (u : Q) : Prop :=
  exists n, (Random.pos (random_source w) <= n < hi)%nat
            /\ u = Random.draws (random_source w) n.

(** A resident decision that asks the government for a response. *)
Definition gives_feedback (d : decision) : bool :=
  is_str (target d) "government" && is_str (action d) "provide_feedback".

(** An enterprise decision that supplies a service. *)
Definition supplies (d : decision) : bool :=
  in_strs (action d) ["service_development"; "service_promotion"].

(** The interactions of a round by slot, in the order in which [process]
    concatenates them: one slot per enterprise for the action of the
    government, the interactions the enterprises start, the services the
    government provides, one slot per resident decision, one slot per
    enterprise decision, and the exchanges among residents. *)
Record round := {
  from_government : list (list interaction);
  from_enterprises : list interaction;
  provided : list interaction;
  feedback : list (list interaction);
  supplied : list (list interaction);
  exchanged : list interaction
}.

Definition all (r : round) : list interaction :=
  (concat (from_government r) ++ from_enterprises r)
  ++ (provided r ++ concat (feedback r))
  ++ concat (supplied r) ++ exchanged r.

(** The slot of an enterprise when the government acts on the enterprises
    with one of the three actions that make a record. *)
Definition government_slot (w : world) (hi : nat) (action : string)
    (e : ref) (slot : list interaction) : Prop :=
  exists u, drawn w hi u /\ slot = [government_record w action (deref e w) u].

(** The slot of a resident decision. *)
Definition feedback_slot (w : world) (hi : nat) (rd : ref * decision)
    (slot : list interaction) : Prop :=
  if gives_feedback rd.2
  then exists u, drawn w hi u /\ slot = [demand_response w (deref rd.1 w) u]
  else slot = [].

(** The slot of an enterprise decision: for a service, between 5 and 15
    residents, or all of them if they are fewer, each with a record. *)
Definition supply_slot (w : world) (hi : nat) (ed : ref * decision)
    (slot : list interaction) : Prop :=
  if supplies ed.2
  then (5 `min` length (residents w) <= length slot
        <= 15 `min` length (residents w))%nat
       /\ Forall (fun i => exists r u,
                    r ∈ resident_refs w /\ drawn w hi u
                    /\ i = service_supply w (deref ed.1 w) (deref r w) u)
                 slot
  else slot = [].

(** The round is stored in the history and folded into the agents. *)
Definition stored_and_folded (w : world) (interactions : list interaction)
    (w' : world) : Prop :=
  interaction_history (engine w')
  = interaction_history (engine w) ++ interactions
  /\ agents w'
     = agents (InteractionEngine._update_agent_states
                 Government (enterprise_refs w) (resident_refs w)
                 interactions w).2.

(** From the store [w] advanced to any position the computation returns,
    leaves [w] advanced, and [Q] holds of the position it stops at and of
    its result. *)
Definition stage {A : Type} (w : world) (m : M A) (Q : nat -> A -> Prop)
  : Prop :=
  forall p, (Random.pos (random_source w) <= p)%nat ->
    exists a p',
      m (advanced w p) = (Ok a, advanced w p') /\ (p <= p')%nat /\ Q p' a.

End Slots.

(** ** The resilience metrics of [metrics/resilience.py] *)

Module Resilience.

(** A round record as the resilience metrics read it: the interactions,
    the state of the environment and the states of the residents. *)
Record resident_state := { s_satisfaction : option Q }.
Record agents_record := { a_residents : option (list resident_state) }.
Record environment_state := { e_service_availability : option Q }.
Record simulation_record := {
  sr_interactions : option (list interaction);
  sr_environment : option environment_state;
  sr_agents : option agents_record
}.

Record metrics := {
  system_recovery_speed : Q;
  service_disruption_rate : Q;
  adaptive_capacity : Q;
  stability_index : Q
}.

(** The empty dict of [record.get('environment', {})] and of
    [record.get('agents', {})]. *)
Definition no_environment : environment_state :=
  {| e_service_availability := None |}.
Definition no_agents : agents_record := {| a_residents := None |}.

(** [np.var]: the mean of the squared deviations from the mean. *)
Definition np_var (l : list Q) : Q :=
  let m := np_mean l in
  np_mean (map (fun x => (x - m) * (x - m)) l).

(** [l[:stop]] and [l[start:]]: a negative index counts from the end, and
    an index outside the list is clipped. *)
Definition slice_index (n : nat) (i : Z) : nat :=
  Z.to_nat (Z.min (Z.of_nat n)
              (Z.max 0 (if (i <? 0)%Z then Z.of_nat n + i else i))).
Definition slice_to {A : Type} (stop : Z) (l : list A) : list A :=
  take (slice_index (length l) stop) l.
Definition slice_from {A : Type} (start : Z) (l : list A) : list A :=
  drop (slice_index (length l) start) l.

Record emergency_event := {
  ev_round : nat;
  ev_response_time : Q;
  ev_recovery_time : Q
}.

Definition emergency_events (simulation_records : list simulation_record)
  : list emergency_event :=
  concat
    (imap (fun i record =>
             map (fun interaction =>
                    {| ev_round := i;
                       ev_response_time :=
                         default 1 (i_response_time interaction);
                       ev_recovery_time :=
                         default 5 (i_recovery_time interaction) |})
                 (List.filter
                    (fun interaction =>
                       is_str (i_type interaction) "emergency_response")
                    (default [] (sr_interactions record))))
          simulation_records).

Definition calculate_system_recovery_speed
    (simulation_records : list simulation_record) : Q :=
  match simulation_records with
  | [] => 0
  | _ =>
      match emergency_events simulation_records with
      | [] => 0.8
      | emergency_events =>
          let recovery_times := map ev_recovery_time emergency_events in
          let avg_recovery_time := np_mean recovery_times in
          let max_recovery_time := 10 in
          py_max 0 (1 - avg_recovery_time / max_recovery_time)
      end
  end.

(** [record.get('environment', {}).get('service_availability', 1.0)] *)
Definition service_level (record : simulation_record) : Q :=
  default 1
    (e_service_availability (default no_environment (sr_environment record))).

Definition calculate_service_disruption_rate
    (simulation_records : list simulation_record) : Q :=
  match simulation_records with
  | [] => 0
  | _ =>
      let total_rounds := length simulation_records in
      let disrupted_rounds :=
        foldl (fun disrupted_rounds record =>
                 if Qlt_le_dec (service_level record) 0.8
                 then S disrupted_rounds else disrupted_rounds)
              0%nat simulation_records in
      if (0 <? total_rounds)%nat
      then Qnat disrupted_rounds / Qnat total_rounds
      else 0
  end.

(** The score a round adds to the list, if it has an interaction. *)
Definition round_efficiency (record : simulation_record) : option Q :=
  let interactions := default [] (sr_interactions record) in
  let total_interactions := length interactions in
  let successful_interactions :=
    length (List.filter (fun i => is_str (i_outcome i) "success")
              interactions) in
  if (0 <? total_interactions)%nat
  then Some (Qnat successful_interactions / Qnat total_interactions)
  else None.

Definition calculate_period_efficiency (records : list simulation_record)
  : Q :=
  match records with
  | [] => 0
  | _ =>
      let efficiency_scores :=
        foldl (fun efficiency_scores record =>
                 match round_efficiency record with
                 | Some efficiency => efficiency_scores ++ [efficiency]
                 | None => efficiency_scores
                 end)
              [] records in
      match efficiency_scores with
      | [] => 0
      | _ => np_mean efficiency_scores
      end
  end.

Definition calculate_adaptive_capacity
    (simulation_records : list simulation_record) : Q :=
  if (length simulation_records <? 10)%nat then 0.5
  else
    let n := Z.of_nat (length simulation_records) in
    let early_records := slice_to (n / 3)%Z simulation_records in
    let late_records := slice_from (- n / 3)%Z simulation_records in
    let early_efficiency := calculate_period_efficiency early_records in
    let late_efficiency := calculate_period_efficiency late_records in
    let improvement := late_efficiency - early_efficiency in
    py_max 0 (py_min 1 (0.5 + improvement)).

(** The normalised mean satisfaction of the residents of a round. *)
Definition satisfaction_level (record : simulation_record) : Q :=
  let residents :=
    default [] (a_residents (default no_agents (sr_agents record))) in
  match residents with
  | [] => 0.6
  | _ =>
      let avg_satisfaction :=
        np_mean (map (fun r => default 3 (s_satisfaction r)) residents) in
      avg_satisfaction / 5
  end.

(** The two lists the loop of [calculate_stability_index] fills. *)
Definition levels (simulation_records : list simulation_record)
  : list Q * list Q :=
  foldl (fun '(service_levels, satisfaction_levels) record =>
           (service_levels ++ [service_level record],
            satisfaction_levels ++ [satisfaction_level record]))
        ([], []) simulation_records.

Definition calculate_stability_index
    (simulation_records : list simulation_record) : Q :=
  if (length simulation_records <? 2)%nat then 1
  else
    let '(service_levels, satisfaction_levels) := levels simulation_records in
    let service_variance :=
      if (1 <? length service_levels)%nat then np_var service_levels else 0 in
    let satisfaction_variance :=
      if (1 <? length satisfaction_levels)%nat
      then np_var satisfaction_levels else 0 in
    let total_variance := (service_variance + satisfaction_variance) / 2 in
    let stability_index := py_max 0 (1 - total_variance * 10) in
    py_min 1 stability_index.

Definition calculate_resilience (simulation_records : list simulation_record)
  : metrics :=
  match simulation_records with
  | [] =>
      {| system_recovery_speed := 0;
         service_disruption_rate := 0;
         adaptive_capacity := 0;
         stability_index := 0 |}
  | _ =>
      {| system_recovery_speed :=
           calculate_system_recovery_speed simulation_records;
         service_disruption_rate :=
           calculate_service_disruption_rate simulation_records;
         adaptive_capacity := calculate_adaptive_capacity simulation_records;
         stability_index := calculate_stability_index simulation_records |}
  end.

(** All members of a list are equal numbers. *)
Definition constant (l : list Q) : Prop :=
  forall x y, x ∈ l -> y ∈ l -> x == y.

(** A round without interaction. *)
Definition idle (record : simulation_record) : Prop :=
  default [] (sr_interactions record) = [].

End Resilience.

(** * Properties *)

(** ** Arithmetic of the built-ins *)

Lemma py_min_le_l (a b : Q) : py_min a b <= a.
Proof. unfold py_min. destruct (Qlt_le_dec b a); lra. Qed.

Lemma py_min_le_r (a b : Q) : py_min a b <= b.
Proof. unfold py_min. destruct (Qlt_le_dec b a); lra. Qed.

Lemma py_min_glb (a b c : Q) : c <= a -> c <= b -> c <= py_min a b.
Proof. unfold py_min. destruct (Qlt_le_dec b a); lra. Qed.

Lemma py_max_ge_l (a b : Q) : a <= py_max a b.
Proof. unfold py_max. destruct (Qlt_le_dec a b); lra. Qed.

Lemma py_max_ge_r (a b : Q) : b <= py_max a b.
Proof. unfold py_max. destruct (Qlt_le_dec a b); lra. Qed.

Lemma py_max_lub (a b c : Q) : a <= c -> b <= c -> py_max a b <= c.
Proof. unfold py_max. destruct (Qlt_le_dec a b); lra. Qed.

Lemma py_max_proper (a x y : Q) : x == y -> py_max a x == py_max a y.
Proof. unfold py_max. intros E. do 2 destruct Qlt_le_dec; lra. Qed.

Lemma Qsum_app (l1 l2 : list Q) : Qsum (l1 ++ l2) == Qsum l1 + Qsum l2.
Proof.
  unfold Qsum. induction l1 as [|x l1 IH]; simpl.
  - ring.
  - rewrite IH. ring.
Qed.

Lemma Qnat_S (n : nat) : Qnat (S n) == Qnat n + 1.
Proof.
  unfold Qnat. rewrite Nat2Z.inj_succ. unfold Z.succ.
  rewrite inject_Z_plus. reflexivity.
Qed.

Lemma Qnat_pos (n : nat) : (0 < n)%nat -> 0 < Qnat n.
Proof.
  intros H. unfold Qnat. change 0 with (inject_Z 0).
  rewrite <- Zlt_Qlt. lia.
Qed.

Lemma Qnat_add (n m : nat) : Qnat (n + m) == Qnat n + Qnat m.
Proof. unfold Qnat. rewrite Nat2Z.inj_add, inject_Z_plus. reflexivity. Qed.

Lemma Qnat_mul (n m : nat) : Qnat (n * m) == Qnat n * Qnat m.
Proof. unfold Qnat. rewrite Nat2Z.inj_mul, inject_Z_mult. reflexivity. Qed.

(** ** Efficiency *)

Lemma filter_none {A : Type} (p : A -> bool) (l : list A) :
  Forall (fun x => p x = false) l -> List.filter p l = [].
Proof.
  induction 1 as [|x l Hx _ IH]; simpl; [done|]. by rewrite Hx.
Qed.

(** C6, as the code has it: without any [service_request] record the
    response time is 1.0 and the resolution rate 0.5 when the list holds
    at least one record, and both are 0.0 for the empty list. *)
Theorem efficiency_defaults (interaction_records : list interaction) :
  Forall (fun r => i_type r <> Some "service_request") interaction_records ->
  let m := Efficiency.calculate_efficiency interaction_records in
  (interaction_records <> [] ->
     Efficiency.avg_response_time m == 1 /\ Efficiency.resolution_rate m == 0.5)
  /\ (interaction_records = [] ->
     Efficiency.avg_response_time m == 0 /\ Efficiency.resolution_rate m == 0).
Proof.
  intros Hno m. split.
  - intros Hne. subst m. destruct interaction_records as [|r rs]; [done|].
    unfold Efficiency.calculate_efficiency.
    rewrite filter_none; [simpl; split; reflexivity|].
    eapply Forall_impl; [exact Hno|]. intros x Hx. unfold is_str.
    by apply bool_decide_eq_false.
  - intros ->. subst m. simpl. split; reflexivity.
Qed.

Lemma efficiency_defaults_witness :
  Efficiency.avg_response_time
    (Efficiency.calculate_efficiency [Examples.regulation_ok]) == 1
  /\ Efficiency.resolution_rate
       (Efficiency.calculate_efficiency [Examples.regulation_ok]) == 0.5.
Proof.
  apply (efficiency_defaults [Examples.regulation_ok]).
  - repeat constructor. discriminate.
  - discriminate.
Defined.

(** C6 as stated fails on the empty list, which holds no
    [service_request] record and yields 0.0 and 0.0. *)
Lemma efficiency_empty_counterexample :
  Forall (fun r => i_type r <> Some "service_request") []
  /\ ~ (Efficiency.avg_response_time (Efficiency.calculate_efficiency []) == 1
        /\ Efficiency.resolution_rate (Efficiency.calculate_efficiency []) == 0.5).
Proof.
  split; [constructor|]. simpl. intros [H _]. discriminate H.
Qed.

(** ** Fairness: the Gini coefficient *)

Lemma insert_sorted_Forall (P : Q -> Prop) (x : Q) (l : list Q) :
  P x -> Forall P l -> Forall P (insert_sorted x l).
Proof.
  intros Hx. induction 1 as [|y l Hy Hl IH]; simpl.
  - by constructor.
  - destruct (Qle_bool x y); repeat constructor; done.
Qed.

Lemma sorted_Forall (P : Q -> Prop) (l : list Q) :
  Forall P l -> Forall P (sorted l).
Proof.
  unfold sorted. induction 1 as [|x l Hx Hl IH]; simpl.
  - constructor.
  - by apply insert_sorted_Forall.
Qed.

Lemma forallb_all_equal (y : Q) (l : list Q) :
  Forall (fun v => v == y) l ->
  forallb (fun v => Qeq_bool v (List.hd 0 l)) l = true.
Proof.
  intros H. apply forallb_forall. intros v Hv.
  apply Qeq_bool_iff.
  assert (Hvy : v == y).
  { rewrite Forall_forall in H. apply H. by apply list_elem_of_In. }
  destruct H as [|z l Hz Hl]; simpl in *; [done|]. by rewrite Hvy, Hz.
Qed.

(** C9: on a non-empty list whose elements are all equal, [calculate_gini]
    returns 0. *)
Theorem gini_equal_values (x : Q) (values : list Q) :
  values <> [] ->
  Forall (fun v => v == x) values ->
  Fairness.calculate_gini values = 0.
Proof.
  intros _ Hall. unfold Fairness.calculate_gini.
  destruct (length values <? 2)%nat; [done|].
  rewrite (forallb_all_equal (py_max 0 x)); [done|].
  apply sorted_Forall. apply Forall_map.
  eapply Forall_impl; [exact Hall|]. intros v Hv. simpl.
  by apply py_max_proper.
Qed.

Lemma gini_equal_values_witness :
  Fairness.calculate_gini [0.4; 0.4; 4 # 10] = 0
  /\ Fairness.calculate_gini [3] = 0.
Proof.
  split.
  - apply (gini_equal_values 0.4); [discriminate|].
    repeat constructor; reflexivity.
  - apply (gini_equal_values 3); [discriminate|].
    repeat constructor; reflexivity.
Defined.

(** ** Collaboration: the cooperation index *)

Lemma cooperation_index_unfold (r : round_record) (rs : list round_record) :
  Collaboration.calculate_cooperation_index (r :: rs)
  = np_mean (map Collaboration.round_cooperation (r :: rs)).
Proof. reflexivity. Qed.

Lemma round_cooperation_uniform (k : nat) (r : round_record) :
  (0 < k)%nat ->
  length (default [] (r_interactions r)) = k ->
  Collaboration.round_cooperation r
  == Qsum (map Collaboration.interaction_score (default [] (r_interactions r)))
     / Qnat k.
Proof.
  intros Hk Hlen. unfold Collaboration.round_cooperation.
  destruct (default [] (r_interactions r)) as [|i l] eqn:E.
  - simpl in Hlen. lia.
  - unfold np_mean. rewrite length_map, Hlen. reflexivity.
Qed.

Lemma uniform_rounds_sum (k : nat) (records : list round_record) :
  (0 < k)%nat ->
  Forall (fun r => length (default [] (r_interactions r)) = k) records ->
  Qsum (map Collaboration.round_cooperation records) * Qnat k
  == Qsum (map Collaboration.interaction_score
             (concat (map (fun r => default [] (r_interactions r)) records)))
  /\ length (concat (map (fun r => default [] (r_interactions r)) records))
     = (length records * k)%nat.
Proof.
  intros Hk. induction 1 as [|r rs Hr _ [IHs IHl]].
  - split; reflexivity.
  - split.
    + simpl. rewrite map_app, Qsum_app, <- IHs.
      change (Qsum (?a :: ?l)) with (a + Qsum l).
      rewrite (round_cooperation_uniform k r Hk Hr).
      pose proof (Qnat_pos k Hk). field. lra.
    + simpl. rewrite length_app, IHl, Hr. lia.
Qed.

(** C7, as the code has it: the cooperation index is 0.0 for an empty
    history and otherwise the unweighted mean over the rounds of each
    round's score, a round without interactions scoring 0.5 and any other
    round the mean score of its interactions; it is the mean over all
    interactions of the history when every round holds the same positive
    number of interactions. *)
Theorem cooperation_index_mean_of_rounds :
  Collaboration.calculate_cooperation_index [] = 0
  /\ (forall r rs,
        Collaboration.calculate_cooperation_index (r :: rs)
        == Qsum (map Collaboration.round_cooperation (r :: rs))
           / Qnat (length (r :: rs)))
  /\ (forall r, default [] (r_interactions r) = [] ->
        Collaboration.round_cooperation r = 0.5)
  /\ (forall r, default [] (r_interactions r) <> [] ->
        Collaboration.round_cooperation r
        = np_mean (map Collaboration.interaction_score
                       (default [] (r_interactions r))))
  /\ (forall (k : nat) records,
        records <> [] -> (0 < k)%nat ->
        Forall (fun r => length (default [] (r_interactions r)) = k) records ->
        Collaboration.calculate_cooperation_index records
        == Collaboration.spec_cooperation_index records).
Proof.
  split; [reflexivity|]. split.
  { intros r rs. rewrite cooperation_index_unfold. unfold np_mean.
    rewrite length_map. reflexivity. }
  split.
  { intros r E. unfold Collaboration.round_cooperation. by rewrite E. }
  split.
  { intros r E. unfold Collaboration.round_cooperation.
    by destruct (default [] (r_interactions r)). }
  intros k records Hne Hk Hall.
  destruct records as [|r rs]; [done|].
  rewrite cooperation_index_unfold.
  destruct (uniform_rounds_sum k (r :: rs) Hk Hall) as [Hs Hl].
  unfold Collaboration.spec_cooperation_index, np_mean.
  rewrite !length_map, Hl, <- Hs, Qnat_mul.
  pose proof (Qnat_pos k Hk).
  assert (0 < Qnat (length (r :: rs))) by (apply Qnat_pos; simpl; lia).
  field. split; lra.
Qed.

(** C7 as stated fails: one successful interaction in a first round and two
    failed ones in a second give 0.55, while the mean over the three
    interactions is 0.4. *)
Lemma cooperation_index_counterexample :
  Collaboration.calculate_cooperation_index Examples.uneven_rounds == 0.55
  /\ Collaboration.spec_cooperation_index Examples.uneven_rounds == 0.4
  /\ ~ Collaboration.calculate_cooperation_index Examples.uneven_rounds
       == Collaboration.spec_cooperation_index Examples.uneven_rounds.
Proof.
  split; [reflexivity|]. split; [reflexivity|]. intros H. discriminate H.
Qed.

(** ** Running computations *)

Lemma run_bind {A B : Type} (m : M A) (f : A -> M B) (w : world) :
  (m ≫= f) w
  = match m w with
    | (Ok a, w') => f a w'
    | (Raise e, w') => (Raise e, w')
    end.
Proof. reflexivity. Qed.

Lemma run_bind_ok {A B : Type} (m : M A) (f : A -> M B) (w w' : world) (a : A) :
  m w = (Ok a, w') -> (m ≫= f) w = f a w'.
Proof. intros H. rewrite run_bind, H. reflexivity. Qed.

Lemma run_bind_raise {A B : Type} (m : M A) (f : A -> M B) (w w' : world) (e : exn) :
  m w = (Raise e, w') -> (m ≫= f) w = (Raise e, w').
Proof. intros H. rewrite run_bind, H. reflexivity. Qed.

(** ** Environment *)



Lemma quiet_tame (m : M unit) : quiet m -> tame m.
Proof.
  intros H w. destruct (H w) as (w' & ? & ? & ? & ? & ? & ?).
  exists w'. done.
Qed.

Lemma quiet_ret : quiet (mret tt).
Proof. intros w. exists w. done. Qed.

Lemma quiet_bind (m1 m2 : M unit) : quiet m1 -> quiet m2 -> quiet (m1;; m2).
Proof.
  intros H1 H2 w. destruct (H1 w) as (w1 & E1 & ? & ? & ? & ? & ?).
  destruct (H2 w1) as (w2 & E2 & ? & ? & ? & ? & ?).
  exists w2. rewrite (run_bind_ok _ _ _ _ _ E1), E2.
  repeat split; congruence.
Qed.

Lemma tame_bind (m1 m2 : M unit) : tame m1 -> tame m2 -> tame (m1;; m2).
Proof.
  intros H1 H2 w. destruct (H1 w) as (w1 & E1 & ? & ? & ? & ?).
  destruct (H2 w1) as (w2 & E2 & ? & ? & ? & ?).
  exists w2. rewrite (run_bind_ok _ _ _ _ _ E1), E2.
  repeat split; congruence.
Qed.

Lemma quiet_update_count :
  quiet (Environment.set (fun e => Environment.with_update_count (S (update_count e)) e)).
Proof. intros w. eexists. split; [reflexivity|]. done. Qed.

Lemma quiet_update_system_load (interactions : list interaction) :
  quiet (Environment._update_system_load interactions).
Proof. intros w. eexists. split; [reflexivity|]. done. Qed.

Lemma tame_update_service_availability (interactions : list interaction) :
  tame (Environment._update_service_availability interactions).
Proof.
  intros w. eexists. split.
  - cbv [Environment._update_service_availability Environment.self
         Environment.set gets modify mbind M_bind]. reflexivity.
  - done.
Qed.

Lemma quiet_update_infrastructure_utilization (interactions : list interaction) :
  quiet (Environment._update_infrastructure_utilization interactions).
Proof.
  intros w. unfold Environment._update_infrastructure_utilization.
  destruct (0 <? length interactions)%nat.
  - eexists. split; [reflexivity|]. done.
  - apply quiet_ret.
Qed.

Lemma quiet_update_service_quality (interactions : list interaction) :
  quiet (Environment._update_service_quality interactions).
Proof. intros w. eexists. split; [reflexivity|]. done. Qed.

Lemma tame_until_emergency_check (interactions : list interaction) :
  tame (EnvironmentSteps.until_emergency_check interactions).
Proof.
  unfold EnvironmentSteps.until_emergency_check.
  apply tame_bind; [apply quiet_tame, quiet_update_count|].
  apply tame_bind; [apply quiet_tame, quiet_update_system_load|].
  apply tame_update_service_availability.
Qed.

(** The emergency check, by its draws: the first draw alone decides the
    entry, whatever the flag; the exit needs the flag and a second draw. *)
Lemma check_emergency_events_run (w : world) :
  let g := random_source w in
  let u1 := Random.draws g (Random.pos g) in
  let u2 := Random.draws g (S (Random.pos g)) in
  exists w',
    Environment._check_emergency_events w = (Ok tt, w')
    /\ Random.draws (random_source w') = Random.draws g
    /\ digital_infrastructure (env w') = digital_infrastructure (env w)
    /\ physical_infrastructure (env w') = physical_infrastructure (env w)
    /\ (u1 < 0.02 ->
        emergency_status (env w') = true
        /\ service_availability (env w') = service_availability (env w) * 0.7
        /\ Random.pos (random_source w') = S (Random.pos g))
    /\ (0.02 <= u1 -> emergency_status (env w) = true -> u2 < 0.3 ->
        emergency_status (env w') = false
        /\ service_availability (env w') = service_availability (env w)
        /\ Random.pos (random_source w') = S (S (Random.pos g)))
    /\ (0.02 <= u1 -> emergency_status (env w) = true -> 0.3 <= u2 ->
        emergency_status (env w') = true
        /\ service_availability (env w') = service_availability (env w)
        /\ Random.pos (random_source w') = S (S (Random.pos g)))
    /\ (0.02 <= u1 -> emergency_status (env w) = false ->
        emergency_status (env w') = false
        /\ service_availability (env w') = service_availability (env w)
        /\ Random.pos (random_source w') = S (Random.pos g)).
Proof.
  intros g u1 u2.
  cbv [Environment._check_emergency_events random_random Random.random mbind
       M_bind Environment.self Environment.set gets modify logger].
  fold g. fold u1.
  destruct (Qlt_le_dec u1 0.02) as [H1|H1].
  - eexists. split; [reflexivity|]. simpl.
    repeat split; try done; intros; exfalso; lra.
  - cbn beta. cbn [env with_random_source random_source Random.draws Random.pos].
    destruct (emergency_status (env w)) eqn:Hs.
    + cbn beta. cbn [env with_random_source random_source Random.draws Random.pos].
      fold u2. destruct (Qlt_le_dec u2 0.3) as [H2|H2].
      * eexists. split; [reflexivity|]. simpl.
        repeat split; try done; intros; exfalso; lra.
      * eexists. split; [reflexivity|]. simpl.
        repeat split; try done; intros; exfalso; lra.
    + eexists. split; [reflexivity|]. simpl.
      repeat split; try done; intros; exfalso; lra.
Qed.

Lemma with_random_source_twice (g g' : Random.t) (w : world) :
  with_random_source g' (with_random_source g w) = with_random_source g' w.
Proof. reflexivity. Qed.

(** The drift rewrites the entries in order; entry [j] takes the draw at
    [j] places after the current position of the random source. *)
Lemma drift_run (d : list (string * Q)) (w : world) :
  let g := random_source w in
  exists d',
    Environment.drift d w
    = (Ok d', with_random_source
                {| Random.draws := Random.draws g;
                   Random.pos := (Random.pos g + length d)%nat |} w)
    /\ length d' = length d
    /\ forall (j : nat) (a : string) (v : Q),
         d !! j = Some (a, v) ->
         d' !! j
         = Some (a, EnvironmentSteps.clamp
                      (v + EnvironmentSteps.change_of
                             (Random.draws g (Random.pos g + j)%nat))).
Proof.
  revert w. induction d as [|[a v] d IH]; intros w g.
  - exists []. split; [|done]. simpl. rewrite Nat.add_0_r.
    unfold mret, M_ret. f_equal. by destruct w as [? ? ? ? [? ?] ? ? ?].
  - simpl Environment.drift.
    set (w1 := with_random_source
                 {| Random.draws := Random.draws g;
                    Random.pos := S (Random.pos g) |} w).
    destruct (IH w1) as (d' & E & Hlen & Hd').
    exists ((a, EnvironmentSteps.clamp
                  (v + EnvironmentSteps.change_of
                         (Random.draws g (Random.pos g)))) :: d').
    split; [|split].
    + rewrite run_bind. unfold random_uniform at 1, Random.uniform, Random.random.
      fold g. cbn iota beta. fold w1. rewrite run_bind, E. cbn iota beta.
      unfold mret, M_ret. subst w1. rewrite with_random_source_twice.
      cbn [random_source with_random_source Random.draws Random.pos length].
      by rewrite Nat.add_succ_r.
    + simpl. by rewrite Hlen.
    + intros [|j] a' v' Hj; simpl in *.
      * inversion Hj; subst. by rewrite Nat.add_0_r.
      * rewrite (Hd' j a' v' Hj). subst w1.
        cbn [random_source with_random_source Random.draws Random.pos].
        by rewrite Nat.add_succ_r.
Qed.

Lemma degrade_lookup (d : list (string * Q)) (j : nat) (a : string) (v : Q) :
  d !! j = Some (a, v) -> Environment.degrade d !! j = Some (a, v * 0.98).
Proof.
  intros H. unfold Environment.degrade. rewrite list_lookup_fmap, H. reflexivity.
Qed.

(** The random changes: a drift of the digital map, its decay under an
    emergency, and nothing else. *)
Lemma apply_random_changes_run (w : world) :
  let g := random_source w in
  exists w',
    Environment._apply_random_changes w = (Ok tt, w')
    /\ physical_infrastructure (env w') = physical_infrastructure (env w)
    /\ emergency_status (env w') = emergency_status (env w)
    /\ service_availability (env w') = service_availability (env w)
    /\ length (digital_infrastructure (env w'))
       = length (digital_infrastructure (env w))
    /\ forall (j : nat) (a : string) (v : Q),
         digital_infrastructure (env w) !! j = Some (a, v) ->
         digital_infrastructure (env w') !! j
         = Some (a, let v' := EnvironmentSteps.clamp
                                (v + EnvironmentSteps.change_of
                                       (Random.draws g (Random.pos g + j)%nat)) in
                    if emergency_status (env w) then v' * 0.98 else v').
Proof.
  intros g. unfold Environment._apply_random_changes.
  destruct (drift_run (digital_infrastructure (env w)) w) as (d' & E & Hlen & Hd').
  fold g in E, Hd'.
  rewrite run_bind. unfold Environment.self at 1, gets at 1. cbn iota beta.
  rewrite run_bind, E. cbn iota beta.
  cbv [Environment.self Environment.set gets modify mbind M_bind].
  cbn beta. cbn [env with_env with_random_source emergency_status
                 Environment.with_digital].
  destruct (emergency_status (env w)) eqn:Hs.
  - eexists. split; [reflexivity|]. simpl.
    repeat split; try done.
    all: try (unfold Environment.degrade; by rewrite length_map).
    all: intros j a v Hj; apply degrade_lookup; eauto.
  - eexists. split; [reflexivity|]. simpl.
    repeat split; done.
Qed.

Lemma update_after_emergency_check (interactions : list interaction) (w : world) :
  Environment.update interactions w
  = (EnvironmentSteps.until_emergency_check interactions;;
     Environment._check_emergency_events;;
     Environment._update_infrastructure_utilization interactions;;
     Environment._update_service_quality interactions;;
     Environment._apply_random_changes) w.
Proof. reflexivity. Qed.

(** The steps of [update] that follow the emergency check. *)
Lemma after_emergency_check_run (interactions : list interaction) (w : world) :
  let g := random_source w in
  exists w',
    (Environment._update_infrastructure_utilization interactions;;
     Environment._update_service_quality interactions;;
     Environment._apply_random_changes) w = (Ok tt, w')
    /\ physical_infrastructure (env w') = physical_infrastructure (env w)
    /\ emergency_status (env w') = emergency_status (env w)
    /\ service_availability (env w') = service_availability (env w)
    /\ length (digital_infrastructure (env w'))
       = length (digital_infrastructure (env w))
    /\ forall (j : nat) (a : string) (v : Q),
         digital_infrastructure (env w) !! j = Some (a, v) ->
         digital_infrastructure (env w') !! j
         = Some (a, let v' := EnvironmentSteps.clamp
                                (v + EnvironmentSteps.change_of
                                       (Random.draws g (Random.pos g + j)%nat)) in
                    if emergency_status (env w) then v' * 0.98 else v').
Proof.
  intros g.
  destruct (quiet_bind _ _ (quiet_update_infrastructure_utilization interactions)
              (quiet_update_service_quality interactions) w)
    as (w1 & E1 & Hg & Hd & Hp & Hs & Ha).
  destruct (apply_random_changes_run w1) as (w' & E' & Hp' & Hs' & Ha' & Hl' & Hd').
  exists w'. split.
  - rewrite run_bind in E1. rewrite run_bind.
    destruct (Environment._update_infrastructure_utilization interactions w)
      as [[[]|e] w2]; [|discriminate E1].
    rewrite run_bind, E1. exact E'.
  - rewrite Hs, Hg in Hd'. rewrite Hd in Hd', Hl'. subst g.
    repeat split; try congruence. exact Hd'.
Qed.

(** C1, as the code has it: in one [update] the first draw alone decides
    the entry event, whatever the flag was, so that an emergency under way
    can be entered again and the availability multiplied by 0.7 once more;
    the emergency ends when the first draw is no entry and a second draw
    falls below 0.3. *)
Theorem update_emergency_transition (interactions : list interaction) (w : world) :
  let w0 := (EnvironmentSteps.until_emergency_check interactions w).2 in
  let g := random_source w in
  let u1 := Random.draws g (Random.pos g) in
  let u2 := Random.draws g (S (Random.pos g)) in
  let w' := (Environment.update interactions w).2 in
  (Environment.update interactions w).1 = Ok tt
  /\ (u1 < 0.02 ->
      emergency_status (env w') = true
      /\ service_availability (env w') = service_availability (env w0) * 0.7)
  /\ (0.02 <= u1 -> emergency_status (env w) = true -> u2 < 0.3 ->
      emergency_status (env w') = false
      /\ service_availability (env w') = service_availability (env w0))
  /\ (0.02 <= u1 -> emergency_status (env w) = true -> 0.3 <= u2 ->
      emergency_status (env w') = true
      /\ service_availability (env w') = service_availability (env w0))
  /\ (0.02 <= u1 -> emergency_status (env w) = false ->
      emergency_status (env w') = false
      /\ service_availability (env w') = service_availability (env w0)).
Proof.
  intros w0 g u1 u2 w'. subst w0 w'.
  rewrite update_after_emergency_check.
  destruct (tame_until_emergency_check interactions w)
    as (w0 & E0 & Hg0 & _ & _ & Hs0).
  rewrite (run_bind_ok _ _ _ _ _ E0), E0. cbn [snd].
  destruct (check_emergency_events_run w0)
    as (w1 & E1 & _ & _ & _ & Hin & Hout & Hstay & Hno).
  rewrite Hg0 in Hin, Hout, Hstay, Hno. fold g u1 u2 in Hin, Hout, Hstay, Hno.
  rewrite Hs0 in Hout, Hstay, Hno.
  rewrite (run_bind_ok _ _ _ _ _ E1).
  destruct (after_emergency_check_run interactions w1)
    as (w2 & E2 & _ & Hs2 & Ha2 & _ & _).
  rewrite E2. cbn [fst snd]. rewrite Hs2, Ha2.
  split; [done|].
  split; [intros H; by destruct (Hin H) as (? & ? & _)|].
  split; [intros H H' H''; by destruct (Hout H H' H'') as (? & ? & _)|].
  split; [intros H H' H''; by destruct (Hstay H H' H'') as (? & ? & _)|].
  intros H H'; by destruct (Hno H H') as (? & ? & _).
Qed.

(** C1 as stated fails: in a city under emergency whose first draw is 0.01
    the emergency is entered again and the availability, 1.0 before the
    update, is 0.7 after it. *)
Lemma emergency_reentry_counterexample :
  let w := Worlds.town Worlds.city_in_emergency (Worlds.constant_draws 0.01) 50 in
  let w' := (Environment.update [] w).2 in
  emergency_status (env w) = true
  /\ service_availability (env w) == 1
  /\ emergency_status (env w') = true
  /\ service_availability (env w') == 0.7
  /\ ~ service_availability (env w') == service_availability (env w).
Proof.
  vm_compute. repeat split; try reflexivity; discriminate.
Qed.

(** C8, as the code has it: an [update] leaves the physical
    infrastructure map as it was; every entry of the digital map receives
    the drift of its own draw, clamped to [0, 100], and is then multiplied
    by 0.98 when the emergency flag is set after this update's emergency
    check. *)
Theorem update_infrastructure (interactions : list interaction) (w : world) :
  let w1 := (EnvironmentSteps.until_random_changes interactions w).2 in
  let g := random_source w1 in
  let w' := (Environment.update interactions w).2 in
  physical_infrastructure (env w') = physical_infrastructure (env w)
  /\ length (digital_infrastructure (env w'))
     = length (digital_infrastructure (env w))
  /\ forall (j : nat) (a : string) (v : Q),
       digital_infrastructure (env w) !! j = Some (a, v) ->
       digital_infrastructure (env w') !! j
       = Some (a, let v' := EnvironmentSteps.clamp
                              (v + EnvironmentSteps.change_of
                                     (Random.draws g (Random.pos g + j)%nat)) in
                  if emergency_status (env w') then v' * 0.98 else v').
Proof.
  intros w1 g w'. subst w1 w' g.
  rewrite update_after_emergency_check.
  unfold EnvironmentSteps.until_random_changes.
  destruct (tame_until_emergency_check interactions w)
    as (w0 & E0 & _ & Hd0 & Hp0 & _).
  rewrite !(run_bind_ok _ _ _ _ _ E0).
  destruct (check_emergency_events_run w0) as (w1 & E1 & _ & Hd1 & Hp1 & _).
  rewrite !(run_bind_ok _ _ _ _ _ E1).
  destruct (quiet_bind _ _ (quiet_update_infrastructure_utilization interactions)
              (quiet_update_service_quality interactions) w1)
    as (w2 & E2 & Hg2 & _).
  destruct (after_emergency_check_run interactions w1)
    as (w3 & E3 & Hp3 & Hs3 & _ & Hl3 & Hd3).
  rewrite E2, E3. cbn [snd]. rewrite Hg2, Hs3.
  rewrite Hd1, Hd0 in Hl3, Hd3.
  repeat split; [congruence|done|exact Hd3].
Qed.

(** C8 as stated fails: with draws that make every drift -1 the physical
    level of the core area stays 85, where a drift of every infrastructure
    value makes it 84. *)
Lemma physical_drift_counterexample :
  let w := Worlds.town Worlds.city (Worlds.constant_draws 0) 50 in
  physical_infrastructure (env (Environment._apply_random_changes w).2)
    !! 0%nat = Some ("core_area", 85)
  /\ (exists v, physical_infrastructure
                  (env (Environment.spec_apply_random_changes w).2)
                  !! 0%nat = Some ("core_area", v) /\ v == 84)
  /\ physical_infrastructure (env (Environment.update [] w).2)
     = physical_infrastructure (env w).
Proof.
  split; [reflexivity|]. split; [|reflexivity].
  eexists. split; [vm_compute; reflexivity|]. reflexivity.
Qed.

(** ** A program logic for computations over the store *)




Section Triples.

Context {A B : Type}.

Lemma triple_ret (P : world -> Prop) (a : A) (Q : A -> world -> Prop) :
  (forall w, P w -> Q a w) -> triple P (mret a) Q.
Proof. intros H w Hw. exists a, w. split; [reflexivity|auto]. Qed.

Lemma triple_bind (P : world -> Prop) (m : M A) (f : A -> M B)
    (R : A -> world -> Prop) (Q : B -> world -> Prop) :
  triple P m R -> (forall a, triple (R a) (f a) Q) -> triple P (m ≫= f) Q.
Proof.
  intros Hm Hf w Hw. destruct (Hm w Hw) as (a & w1 & E & H1).
  destruct (Hf a w1 H1) as (b & w2 & E2 & H2).
  exists b, w2. split; [|done]. by rewrite (run_bind_ok _ _ _ _ _ E).
Qed.

Lemma triple_conseq (P P' : world -> Prop) (m : M A)
    (Q Q' : A -> world -> Prop) :
  triple P' m Q' -> (forall w, P w -> P' w) ->
  (forall a w, Q' a w -> Q a w) -> triple P m Q.
Proof.
  intros H HP HQ w Hw. destruct (H w (HP w Hw)) as (a & w' & E & Hq).
  exists a, w'. auto.
Qed.

Lemma triple_gets (P : world -> Prop) (f : world -> A)
    (Q : A -> world -> Prop) :
  (forall w, P w -> Q (f w) w) -> triple P (gets f) Q.
Proof. intros H w Hw. exists (f w), w. split; [reflexivity|auto]. Qed.

Lemma preserves_ret (I : world -> Prop) (a : A) : preserves I (mret a).
Proof. intros w Hw. exact Hw. Qed.

Lemma preserves_raise (I : world -> Prop) (e : exn) :
  preserves I (raise e : M A).
Proof. intros w Hw. exact Hw. Qed.

Lemma preserves_gets (I : world -> Prop) (f : world -> A) :
  preserves I (gets f).
Proof. intros w Hw. exact Hw. Qed.

Lemma preserves_bind (I : world -> Prop) (m : M A) (f : A -> M B) :
  preserves I m -> (forall a, preserves I (f a)) -> preserves I (m ≫= f).
Proof.
  intros Hm Hf w Hw. rewrite run_bind. specialize (Hm w Hw).
  destruct (m w) as [[a|e] w1]; simpl in *; [by apply Hf|done].
Qed.

End Triples.

Lemma triple_modify (P : world -> Prop) (f : world -> world)
    (Q : unit -> world -> Prop) :
  (forall w, P w -> Q tt (f w)) -> triple P (modify f) Q.
Proof. intros H w Hw. exists tt, (f w). split; [reflexivity|auto]. Qed.

Lemma preserves_modify (I : world -> Prop) (f : world -> world) :
  (forall w, I w -> I (f w)) -> preserves I (modify f).
Proof. intros H w Hw. by apply H. Qed.

Lemma preserves_fmap {A B : Type} (I : world -> Prop) (g : A -> B) (m : M A) :
  preserves I m -> preserves I (g <$> m).
Proof.
  intros H. apply preserves_bind; [done|]. intros a. apply preserves_ret.
Qed.

(** Loops. The invariant of a [for] loop may mention the elements already
    visited. *)
Lemma triple_for_each {A : Type} (I : list A -> world -> Prop)
    (l : list A) (body : A -> M unit) :
  (forall pre x post, l = pre ++ x :: post ->
     triple (I pre) (body x) (fun _ => I (pre ++ [x]))) ->
  triple (I []) (for_each l body) (fun _ => I l).
Proof.
  assert (G : forall done todo,
             (forall pre x post, todo = pre ++ x :: post ->
                triple (I (done ++ pre)) (body x)
                       (fun _ => I (done ++ pre ++ [x]))) ->
             triple (I done) (for_each todo body) (fun _ => I (done ++ todo))).
  { intros done todo. revert done.
    induction todo as [|x todo IH]; intros done H.
    - rewrite app_nil_r. by apply triple_ret.
    - simpl. eapply triple_bind.
      + specialize (H [] x todo eq_refl). rewrite app_nil_r in H. exact H.
      + intros []. simpl.
        replace (done ++ x :: todo) with ((done ++ [x]) ++ todo)
          by (by rewrite <- app_assoc).
        apply IH. intros pre y post E.
        assert (E' : x :: todo = (x :: pre) ++ y :: post) by (by rewrite E).
        specialize (H (x :: pre) y post E').
        rewrite <- !app_assoc. exact H. }
  intros H. apply (G [] l). exact H.
Qed.

Lemma triple_for_each_inv {A : Type} (I : world -> Prop)
    (l : list A) (body : A -> M unit) :
  (forall x, x ∈ l -> triple I (body x) (fun _ => I)) ->
  triple I (for_each l body) (fun _ => I).
Proof.
  intros H. apply (triple_for_each (fun _ => I)).
  intros pre x post ->. apply H. set_solver.
Qed.

Lemma preserves_for_each {A : Type} (I : world -> Prop)
    (l : list A) (body : A -> M unit) :
  (forall x, x ∈ l -> preserves I (body x)) -> preserves I (for_each l body).
Proof.
  induction l as [|x l IH]; intros H; simpl.
  - apply preserves_ret.
  - apply preserves_bind; [apply H; set_solver|].
    intros []. apply IH. intros y Hy. apply H. set_solver.
Qed.

Lemma preserves_collect {A B : Type} (I : world -> Prop)
    (l : list A) (body : A -> M (list B)) :
  (forall x, x ∈ l -> preserves I (body x)) -> preserves I (collect l body).
Proof.
  induction l as [|x l IH]; intros H; simpl.
  - apply preserves_ret.
  - apply preserves_bind; [apply H; set_solver|]. intros ys.
    apply preserves_bind; [apply IH; intros y Hy; apply H; set_solver|].
    intros zs. apply preserves_ret.
Qed.

Lemma triple_collect {A B : Type} (I : world -> Prop)
    (l : list A) (body : A -> M (list B)) (n : A -> nat) :
  (forall x, x ∈ l ->
     triple I (body x) (fun ys w => length ys = n x /\ I w)) ->
  triple I (collect l body)
         (fun ys w => length ys = sum_list (n <$> l) /\ I w).
Proof.
  induction l as [|x l IH]; intros H; simpl.
  - by apply triple_ret.
  - eapply triple_bind; [apply H; set_solver|]. intros ys. simpl.
    intros w [Hys Hw].
    destruct (IH (fun y Hy => H y ltac:(set_solver)) w Hw)
      as (zs & w' & E & Hzs & Hw').
    exists (ys ++ zs), w'. split.
    + by rewrite (run_bind_ok _ _ _ _ _ E).
    + split; [|done]. by rewrite length_app, Hys, Hzs.
Qed.

(** Operations that leave the agents alone. *)
Lemma preserves_logger (I : world -> Prop) lv msg args :
  about_agents I -> preserves I (logger lv msg args).
Proof. intros H w Hw. by eapply H; [..|exact Hw]. Qed.

Lemma preserves_random_random (I : world -> Prop) :
  about_agents I -> preserves I random_random.
Proof. intros H w Hw. by eapply H; [..|exact Hw]. Qed.

Lemma preserves_random_randint (I : world -> Prop) (a b : nat) :
  about_agents I -> preserves I (random_randint a b).
Proof.
  intros H w Hw. unfold random_randint.
  destruct (Random.randint a b (random_source w)) as [n g] eqn:E.
  by eapply H; [..|exact Hw].
Qed.

Lemma preserves_random_sample {A : Type} (I : world -> Prop)
    (population : list A) (k : nat) :
  about_agents I -> preserves I (random_sample population k).
Proof.
  intros H w Hw. unfold random_sample.
  destruct (Random.sample population k (random_source w)) as [r g] eqn:E.
  by eapply H; [..|exact Hw].
Qed.

Lemma triple_logger (P : world -> Prop) lv msg args :
  about_agents P -> triple P (logger lv msg args) (fun _ => P).
Proof. intros H. apply triple_modify. intros w Hw. by eapply H; [..|exact Hw]. Qed.

Lemma triple_num (P : world -> Prop) (q : Q) (Q' : Q -> world -> Prop) :
  (forall w, P w -> Q' q w) -> triple P (num (VNum q)) Q'.
Proof. intros H. by apply triple_ret. Qed.

Lemma about_agents_and (P P' : world -> Prop) :
  about_agents P -> about_agents P' -> about_agents (fun w => P w /\ P' w).
Proof. intros H H' w w' ? ? ? ? ? [? ?]. split; [eapply H|eapply H']; eauto. Qed.

(** ** PolicyEngine *)

Lemma for_each_cons_run {A : Type} (body : A -> M unit) (x : A) (l : list A) w :
  for_each (x :: l) body w = (for_each [x] body;; for_each l body) w.
Proof.
  simpl. rewrite !run_bind. destruct (body x w) as [[[]|e] w1]; reflexivity.
Qed.

Lemma apply_cons float government enterprises residents name rest w :
  PolicyEngine.apply float government enterprises residents (name :: rest) w
  = (PolicyEngine.apply float government enterprises residents [name];;
     PolicyEngine.apply float government enterprises residents rest) w.
Proof. unfold PolicyEngine.apply. apply for_each_cons_run. Qed.

Lemma apply_unknown_head float government enterprises residents name rest w :
  policies (policy w) !! name = None ->
  PolicyEngine.apply float government enterprises residents (name :: rest) w
  = PolicyEngine.apply float government enterprises residents rest
      (with_logging (logging w ++ [Logs.unknown_policy name]) w).
Proof.
  intros H. unfold PolicyEngine.apply. simpl for_each.
  rewrite run_bind. rewrite run_bind.
  unfold PolicyEngine.self at 1, gets at 1. cbn iota beta. rewrite H.
  reflexivity.
Qed.

(** C10: a name that is no policy of the configuration leaves the agents,
    the environment, the applied policies and the policy history as they
    were; a warning is logged and the remaining names are processed. *)
Theorem apply_unknown_policy
    (float : string -> option Q) (gov : ref)
    (ents ress : list ref) (policy_name : string)
    (remaining : list string) (w : world) :
  policies (policy w) !! policy_name = None ->
  let warned :=
    with_logging (logging w ++ [Logs.unknown_policy policy_name]) w in
  PolicyEngine.apply float gov ents ress [policy_name] w
  = (Ok tt, warned)
  /\ PolicyEngine.apply float gov ents ress
       (policy_name :: remaining) w
     = PolicyEngine.apply float gov ents ress remaining warned
  /\ government warned = government w
  /\ enterprises warned = enterprises w
  /\ residents warned = residents w
  /\ env warned = env w
  /\ applied_policies (policy warned) = applied_policies (policy w)
  /\ policy_history (policy warned) = policy_history (policy w)
  /\ policies (policy warned) = policies (policy w).
Proof.
  intros H warned. split; [|split; [|done]].
  - by rewrite (apply_unknown_head _ _ _ _ _ [] _ H).
  - by apply apply_unknown_head.
Qed.

Lemma apply_unknown_policy_witness :
  let w := Worlds.town Worlds.city (Worlds.constant_draws 0.5) 50 in
  PolicyEngine.apply (fun _ => None) Government (enterprise_refs w)
    (resident_refs w) ["free_lunch"] w
  = (Ok tt, with_logging [Logs.unknown_policy "free_lunch"] w).
Proof.
  intros w.
  apply (apply_unknown_policy (fun _ => None) Government (enterprise_refs w)
           (resident_refs w) "free_lunch" [] w).
  reflexivity.
Defined.

(** *** Resident policies and the literacy training *)

Lemma triple_ext {A : Type} (P : world -> Prop) (m m' : M A)
    (Q : A -> world -> Prop) :
  (forall w, m w = m' w) -> triple P m' Q -> triple P m Q.
Proof. intros E H w Hw. rewrite E. by apply H. Qed.

Lemma parse_change_value_run float (change_str : config) (w : world) :
  exists l,
    PolicyEngine._parse_change_value float change_str w
    = (Ok (PolicySteps.delta float change_str), with_logging l w).
Proof.
  destruct change_str as [q|s|d]; simpl.
  - exists (logging w). by destruct w.
  - destruct (float (PolicyEngine.strip s)); simpl.
    + exists (logging w). by destruct w.
    + eexists. reflexivity.
  - eexists. reflexivity.
Qed.

Lemma residents_assign (j : nat) (a : agent) (w : world) :
  residents (assign (Resident j) a w) = <[j := a]> (residents w).
Proof. reflexivity. Qed.

Lemma resident_attribute_insert_ne (i j : nat) (a : agent) (k : string) (w w' : world) :
  i <> j -> residents w' = <[j := a]> (residents w) ->
  PolicySteps.resident_attribute i k w' = PolicySteps.resident_attribute i k w.
Proof.
  intros Hne E. unfold PolicySteps.resident_attribute.
  by rewrite E, list_lookup_insert_ne.
Qed.

Lemma resident_attribute_insert_eq (j : nat) (a a0 : agent) (k : string) (w w' : world) :
  residents w !! j = Some a0 -> residents w' = <[j := a]> (residents w) ->
  PolicySteps.resident_attribute j k w' = attributes a !! k.
Proof.
  intros Hj E. unfold PolicySteps.resident_attribute.
  rewrite E, list_lookup_insert_eq; [done|]. by eapply lookup_lt_Some.
Qed.

Lemma numeric_insert (keys : list string) (j : nat) (a0 : agent)
    (attr : string) (q : Q) (w w' : world) :
  PolicySteps.numeric keys w ->
  residents w !! j = Some a0 ->
  residents w'
  = <[j := with_attributes (<[attr := VNum q]> (attributes a0)) a0]> (residents w) ->
  PolicySteps.numeric keys w'.
Proof.
  intros HN Hj E j' a k v Ha Hk Hv. rewrite E in Ha.
  destruct (decide (j' = j)) as [->|Hne].
  - rewrite list_lookup_insert_eq in Ha by (by eapply lookup_lt_Some).
    inversion Ha; subst a. simpl in Hv.
    destruct (decide (attr = k)) as [->|Hk'].
    + rewrite lookup_insert_eq in Hv. inversion Hv. by eexists.
    + rewrite lookup_insert_ne in Hv by done. by eapply HN.
  - rewrite list_lookup_insert_ne in Ha by done. by eapply HN.
Qed.

(** One entry of [attribute_changes] applied to the resident at index [j],
    whose attribute is numeric when present. *)
Lemma change_attribute_run float (j : nat) (attr : string) (c : config)
    (msg : string) (w : world) :
  (forall a v, residents w !! j = Some a -> attributes a !! attr = Some v ->
               exists q, v = VNum q) ->
  exists w',
    PolicyEngine.change_attributes float (Resident j) [(attr, c)] msg w = (Ok tt, w')
    /\ policies (policy w') = policies (policy w)
    /\ government w' = government w
    /\ enterprises w' = enterprises w
    /\ match residents w !! j with
       | Some a =>
           match attributes a !! attr with
           | Some (VNum q) =>
               residents w'
               = <[j := with_attributes
                          (<[attr := VNum (PolicySteps.clamp
                                             (q + PolicySteps.delta float c))]>
                             (attributes a)) a]> (residents w)
           | _ => residents w' = residents w
           end
       | None => residents w' = residents w
       end.
Proof.
  intros Hnum. unfold PolicyEngine.change_attributes. simpl for_each.
  rewrite !run_bind. unfold attr_mem at 1, gets at 1. cbn iota beta.
  assert (Hd : deref (Resident j) w = default no_agent (residents w !! j))
    by reflexivity.
  rewrite Hd.
  destruct (residents w !! j) as [a|] eqn:Hj; cbn [from_option id].
  2:{ simpl. exists w. done. }
  destruct (attributes a !! attr) as [v|] eqn:Hv.
  2:{ rewrite bool_decide_eq_false_2 by (by intros [? ?]).
      exists w. done. }
  rewrite bool_decide_eq_true_2 by (by eexists).
  destruct (Hnum a v eq_refl Hv) as [q ->].
  rewrite run_bind.
  destruct (parse_change_value_run float c w) as [l ->]. cbn iota beta.
  rewrite run_bind. unfold attr_get at 1, gets at 1. cbn iota beta.
  assert (Hd' : deref (Resident j) (with_logging l w) = a).
  { cbn [deref with_logging residents]. by rewrite Hj. }
  rewrite Hd', Hv. cbn [from_option id]. rewrite run_bind. simpl num.
  unfold mret at 1, M_ret at 1.
  cbn iota beta. rewrite run_bind. unfold attr_set at 1, modify at 1.
  cbn iota beta. rewrite Hd'.
  destruct (String.eqb msg "").
  - eexists. split; [reflexivity|]. done.
  - eexists. split; [reflexivity|]. done.
Qed.

Lemma NoDup_list_filter {A : Type} (p : A -> bool) (l : list A) :
  NoDup l -> NoDup (List.filter p l).
Proof.
  induction 1 as [|x l Hx Hl IH]; simpl; [constructor|].
  destruct (p x); [|done]. constructor; [|done].
  rewrite list_elem_of_In, filter_In. intros [Hin _]. apply Hx.
  by apply list_elem_of_In.
Qed.

Section Training.

Context (float : string -> option Q).
Context (keys : list string) (table : gmap string policy_config) (i : nat).

Local Abbreviation Inv := (TrainingSteps.invariant keys table i).

Lemma invariant_same_attributes (y : Q) (w w' : world) :
  attributes <$> residents w' = attributes <$> residents w ->
  policies (policy w') = policies (policy w) ->
  Inv y w -> Inv y w'.
Proof.
  intros E Ep (HN & HL & HP).
  assert (G : forall j, attributes <$> (residents w' !! j)
                        = attributes <$> (residents w !! j)).
  { intros j. by rewrite <- !list_lookup_fmap, E. }
  split; [|split].
  - intros j a k v Ha Hk Hv. specialize (G j). rewrite Ha in G. simpl in G.
    destruct (residents w !! j) as [a0|] eqn:Ha0; [|done].
    simpl in G. inversion G as [G']. rewrite G' in Hv. by eapply HN.
  - unfold PolicySteps.resident_attribute in *. specialize (G i).
    destruct (residents w' !! i) as [a|], (residents w !! i) as [a0|];
      simpl in *; try done. inversion G as [G']. by rewrite G'.
  - congruence.
Qed.

Lemma invariant_about_agents (y : Q) : about_agents (Inv y).
Proof.
  intros w w' _ _ Er Ep _. apply invariant_same_attributes; [by rewrite Er|done].
Qed.

(** One entry of the attribute changes. *)
Lemma change_attribute_triple (j : nat) (attr : string) (c : config)
    (msg : string) (y : Q) :
  attr ∈ "information_literacy" :: keys ->
  triple (Inv y)
    (PolicyEngine.change_attributes float (Resident j) [(attr, c)] msg)
    (fun _ =>
       Inv (if decide (j = i)
            then TrainingSteps.after_changes float [(attr, c)] y else y)).
Proof.
  intros Hk w (HN & HL & HP).
  destruct (change_attribute_run float j attr c msg w)
    as (w' & E & Ep & _ & _ & Hr).
  { intros a v Ha Hv. by eapply HN. }
  exists tt, w'. split; [done|].
  unfold TrainingSteps.after_changes. simpl foldl.
  unfold PolicySteps.resident_attribute in HL.
  destruct (residents w !! j) as [a|] eqn:Hj.
  2:{ destruct (decide (j = i)) as [->|Hne].
      - by rewrite Hj in HL.
      - apply (invariant_same_attributes y w); [by rewrite Hr|done|done]. }
  destruct (attributes a !! attr) as [[q|s]|] eqn:Hv.
  2,3: assert (Inv y w') as Hw'
         by (apply (invariant_same_attributes y w); [by rewrite Hr|done|done]).
  2,3: destruct (decide (j = i)) as [->|Hne]; [|done].
  2,3: rewrite Hj in HL; simpl in HL.
  2,3: destruct (decide (attr = "information_literacy")) as [->|]; [|done].
  2,3: by rewrite Hv in HL.
  split; [|split].
  - by eapply numeric_insert.
  - destruct (decide (j = i)) as [->|Hne].
    + rewrite Hj in HL. simpl in HL.
      rewrite (resident_attribute_insert_eq i _ a _ w w' Hj Hr). simpl.
      destruct (decide (attr = "information_literacy")) as [->|Hne'].
      * rewrite Hv in HL. inversion HL; subst q.
        by rewrite lookup_insert_eq.
      * by rewrite lookup_insert_ne.
    + erewrite resident_attribute_insert_ne; [|by apply not_eq_sym|exact Hr].
      done.
  - congruence.
Qed.

Lemma after_changes_cons (attr : string) (c : config)
    (changes : list (string * config)) (y : Q) :
  TrainingSteps.after_changes float ((attr, c) :: changes) y
  = TrainingSteps.after_changes float changes
      (TrainingSteps.after_changes float [(attr, c)] y).
Proof. reflexivity. Qed.

(** The loop over the attribute changes. *)
Lemma change_attributes_triple (j : nat) (changes : list (string * config))
    (msg : string) (y : Q) :
  Forall (fun kv => kv.1 ∈ "information_literacy" :: keys) changes ->
  triple (Inv y)
    (PolicyEngine.change_attributes float (Resident j) changes msg)
    (fun _ =>
       Inv (if decide (j = i)
            then TrainingSteps.after_changes float changes y else y)).
Proof.
  intros H. revert y. induction H as [|[attr c] changes Hk _ IH]; intros y.
  - apply triple_ret. intros w Hw. by destruct (decide (j = i)).
  - eapply triple_ext; [intros w; apply for_each_cons_run|].
    eapply triple_bind; [by apply change_attribute_triple|].
    intros []. eapply triple_conseq; [apply IH|done|].
    intros [] w Hw. simpl in Hw. rewrite after_changes_cons.
    by destruct (decide (j = i)).
Qed.

Lemma set_behavior_modifier_triple (r : ref) (name : string) (q y : Q) :
  triple (Inv y) (PolicyEngine.set_behavior_modifier r name q) (fun _ => Inv y).
Proof.
  apply triple_modify. intros w Hw.
  apply (invariant_same_attributes y w); [|by destruct r|done].
  destruct r as [|j|j]; try done. simpl.
  rewrite list_fmap_insert. simpl.
  destruct (residents w !! j) as [a|] eqn:Hj; simpl.
  - apply list_insert_id. by rewrite list_lookup_fmap, Hj.
  - apply list_insert_ge. rewrite length_fmap. by apply lookup_ge_None.
Qed.

Lemma parse_change_value_triple (c : config) (y : Q) :
  triple (Inv y) (PolicyEngine._parse_change_value float c)
         (fun q w => q = PolicySteps.delta float c /\ Inv y w).
Proof.
  intros w Hw. destruct (parse_change_value_run float c w) as [l E].
  eexists _, _. split; [exact E|]. split; [done|].
  by eapply invariant_about_agents; [..|exact Hw].
Qed.

(** The body of the loop over the target residents. *)
Lemma train_resident_triple (j : nat)
    (attribute_changes behavior_changes : list (string * config)) (y : Q) :
  Forall (fun kv => kv.1 ∈ "information_literacy" :: keys) attribute_changes ->
  triple (Inv y)
    (PolicyEngine.change_attributes float (Resident j) attribute_changes
       "Updated {}: {} -> {}";;
     for_each behavior_changes (fun '(behavior_name, change_str) =>
       change ← PolicyEngine._parse_change_value float change_str;
       PolicyEngine.set_behavior_modifier (Resident j) behavior_name change))
    (fun _ =>
       Inv (if decide (j = i)
            then TrainingSteps.after_changes float attribute_changes y else y)).
Proof.
  intros H. eapply triple_bind; [by apply change_attributes_triple|].
  intros []. apply triple_for_each_inv. intros [name c] _.
  eapply triple_bind; [apply parse_change_value_triple|].
  intros q. simpl. eapply triple_conseq.
  - apply set_behavior_modifier_triple.
  - intros w [_ Hw]. exact Hw.
  - intros [] w Hw. exact Hw.
Qed.

Lemma select_targets_run (refs : list ref) (y : Q) (w : world) :
  Forall (fun r => exists j, r = Resident j) refs ->
  Inv y w ->
  PolicyEngine.select refs (fun r =>
    literacy ← attr_get r "information_literacy" (VNum 60);
    literacy ← num literacy;
    mret (if Qlt_le_dec literacy 70 then true else false)) w
  = (Ok (List.filter (TrainingSteps.is_target w) refs), w).
Proof.
  intros Hrefs (HN & _ & _). induction Hrefs as [|r refs [j ->] _ IH].
  - reflexivity.
  - simpl PolicyEngine.select. simpl List.filter.
    unfold TrainingSteps.is_target at 1.
    assert (Hnum : exists q, default (VNum 60)
              (attributes (deref (Resident j) w) !! "information_literacy")
                             = VNum q).
    { simpl deref. destruct (residents w !! j) as [a|] eqn:Hj; simpl.
      - destruct (attributes a !! "information_literacy") as [v|] eqn:Hv;
          simpl; [|by eexists].
        eapply HN; [exact Hj|apply list_elem_of_here|exact Hv].
      - by eexists. }
    destruct Hnum as [q Hq]. rewrite Hq.
    rewrite (run_bind_ok _ _ w w (if Qlt_le_dec q 70 then true else false)).
    + rewrite (run_bind_ok _ _ _ _ _ IH). reflexivity.
    + rewrite run_bind. unfold attr_get at 1, gets at 1. cbn iota beta.
      rewrite Hq. reflexivity.
Qed.

Lemma is_target_trained (y : Q) (w : world) :
  Inv y w ->
  TrainingSteps.is_target w (Resident i)
  = if Qlt_le_dec y 70 then true else false.
Proof.
  intros (_ & HL & _). unfold TrainingSteps.is_target. simpl deref.
  unfold PolicySteps.resident_attribute in HL.
  destruct (residents w !! i) as [a|]; [|done]. simpl in *. by rewrite HL.
Qed.

(** The loop over the target residents. *)
Lemma train_residents_triple (targets : list ref)
    (attribute_changes behavior_changes : list (string * config)) (y : Q) :
  NoDup targets ->
  Forall (fun r => exists j, r = Resident j) targets ->
  Forall (fun kv => kv.1 ∈ "information_literacy" :: keys) attribute_changes ->
  triple (Inv y)
    (for_each targets (fun resident =>
       PolicyEngine.change_attributes float resident attribute_changes
         "Updated {}: {} -> {}";;
       for_each behavior_changes (fun '(behavior_name, change_str) =>
         change ← PolicyEngine._parse_change_value float change_str;
         PolicyEngine.set_behavior_modifier resident behavior_name change)))
    (fun _ =>
       Inv (if decide (Resident i ∈ targets)
            then TrainingSteps.after_changes float attribute_changes y else y)).
Proof.
  intros Hnd Hres Hkeys.
  eapply triple_conseq;
    [apply (triple_for_each
              (fun pre =>
                 Inv (if decide (Resident i ∈ pre)
                      then TrainingSteps.after_changes float attribute_changes y
                      else y)))| |].
  - intros pre x post E.
    assert (Hx : exists j, x = Resident j).
    { rewrite Forall_forall in Hres. apply Hres. rewrite E. set_solver. }
    destruct Hx as [j ->].
    assert (Hnot : Resident j ∉ pre).
    { rewrite E in Hnd. apply NoDup_app in Hnd as (_ & Hd & _).
      intros Hin. apply (Hd _ Hin). set_solver. }
    eapply triple_conseq; [by apply (train_resident_triple j)|done|].
    intros [] w Hw. simpl in Hw.
    destruct (decide (j = i)) as [->|Hne].
    + rewrite decide_False in Hw by done.
      rewrite decide_True by set_solver. done.
    + destruct (decide (Resident i ∈ pre)) as [Hin|Hout].
      * rewrite decide_True by set_solver. done.
      * rewrite decide_False; [done|]. set_solver.
  - intros w Hw. rewrite decide_False by set_solver. done.
  - intros [] w Hw. exact Hw.
Qed.

Lemma policy_set_triple (f : policy_engine -> policy_engine) (y : Q) :
  (forall p, policies (f p) = policies p) ->
  triple (Inv y) (PolicyEngine.set f) (fun _ => Inv y).
Proof.
  intros Hf. apply triple_modify. intros w Hw.
  apply (invariant_same_attributes y w); [done|apply Hf|done].
Qed.

Context (policy_config : policy_config).
Hypothesis Htarget : p_target policy_config = Some "resident".
Hypothesis Hkeys :
  Forall (fun kv => kv.1 ∈ "information_literacy" :: keys)
         (default [] (attribute_change policy_config)).
Hypothesis Htable : table !! "digital_literacy_training" = Some policy_config.

Local Abbreviation changes := (default [] (attribute_change policy_config)).

(** One application of the training to the roster [refs]. *)
Lemma apply_training_triple (gov : ref) (ents refs : list ref) (y : Q) :
  NoDup refs ->
  Forall (fun r => exists j, r = Resident j) refs ->
  Resident i ∈ refs ->
  triple (Inv y)
    (PolicyEngine.apply float gov ents refs ["digital_literacy_training"])
    (fun _ =>
       Inv (if Qlt_le_dec y 70
            then TrainingSteps.after_changes float changes y else y)).
Proof.
  intros Hnd Hres Hin w Hw.
  assert (Hsel := select_targets_run refs y w Hres Hw).
  assert (Htgt := is_target_trained y w Hw).
  set (targets := List.filter (TrainingSteps.is_target w) refs) in *.
  destruct (train_residents_triple targets changes
              (default [] (behavior_change policy_config)) y) with (w := w)
    as ([] & w1 & E1 & H1); [| | |exact Hw|].
  { by apply NoDup_list_filter. }
  { rewrite Forall_forall in Hres |- *. intros r Hr. apply Hres.
    apply list_elem_of_In in Hr. apply filter_In in Hr as [Hr _].
    by apply list_elem_of_In. }
  { exact Hkeys. }
  assert (H1' : Inv (if Qlt_le_dec y 70
                     then TrainingSteps.after_changes float changes y else y) w1).
  { destruct (decide (Resident i ∈ targets)) as [Hi|Hi].
    - apply list_elem_of_In, filter_In in Hi as [_ Hi]. rewrite Htgt in Hi.
      by destruct (Qlt_le_dec y 70).
    - destruct (Qlt_le_dec y 70); [|done]. exfalso. apply Hi.
      apply list_elem_of_In, filter_In. split; [by apply list_elem_of_In|].
      by rewrite Htgt. }
  clear H1.
  assert (Eres : PolicyEngine._apply_resident_policy float
                   "digital_literacy_training" policy_config refs w
                 = (Ok tt, w1)).
  { unfold PolicyEngine._apply_resident_policy. simpl String.eqb. cbv zeta.
    rewrite (run_bind_ok _ _ _ _ _ Hsel). exact E1. }
  destruct (policy_set_triple
              (fun p =>
                 {| policies := policies p;
                    applied_policies := applied_policies p;
                    policy_history :=
                      policy_history p ++
                        [{| h_policy_name := "digital_literacy_training";
                            h_target := "resident";
                            h_config := policy_config |}] |}) _
              ltac:(done) w1 H1') as ([] & w2 & E2 & H2).
  assert (Esingle : PolicyEngine._apply_single_policy float
                      "digital_literacy_training" policy_config gov ents refs w
                    = (Ok tt, w2)).
  { unfold PolicyEngine._apply_single_policy. rewrite Htarget.
    cbn [from_option id]. simpl String.eqb. cbv zeta.
    rewrite (run_bind_ok _ _ _ _ _ Eres). exact E2. }
  unfold PolicyEngine.apply. simpl for_each.
  rewrite !run_bind. unfold PolicyEngine.self at 1, gets at 1.
  cbn iota beta. destruct Hw as (HN & HL & HP). rewrite HP, Htable.
  rewrite (run_bind_ok _ _ _ _ _ Esingle).
  rewrite run_bind. unfold PolicyEngine.self at 1, gets at 1. cbn iota beta.
  destruct (bool_decide ("digital_literacy_training" ∈ applied_policies (policy w2))).
  - exists tt, w2. done.
  - eexists tt, _. split; [reflexivity|].
    by eapply invariant_about_agents; [..|exact H2].
Qed.

End Training.

Lemma after_changes_absent float (changes : list (string * config)) (y : Q) :
  "information_literacy" ∉ changes.*1 ->
  TrainingSteps.after_changes float changes y = y.
Proof.
  revert y. induction changes as [|[a c] changes IH]; intros y H; [done|].
  rewrite after_changes_cons. unfold TrainingSteps.after_changes at 2.
  simpl foldl. rewrite decide_False by set_solver. apply IH. set_solver.
Qed.

Lemma after_changes_unique float (changes : list (string * config))
    (change_str : config) (y : Q) :
  NoDup changes.*1 ->
  ("information_literacy", change_str) ∈ changes ->
  TrainingSteps.after_changes float changes y
  = PolicySteps.clamp (y + PolicySteps.delta float change_str).
Proof.
  revert y. induction changes as [|[a c] changes IH]; intros y Hnd Hin.
  - by apply elem_of_nil in Hin.
  - simpl in Hnd. apply NoDup_cons in Hnd as [Ha Hnd].
    rewrite after_changes_cons. unfold TrainingSteps.after_changes at 2.
    simpl foldl. apply elem_of_cons in Hin as [Hin|Hin].
    + inversion Hin; subst a c. rewrite decide_True by done.
      by apply after_changes_absent.
    + assert (a <> "information_literacy").
      { intros ->. apply Ha. apply list_elem_of_fmap.
        by exists ("information_literacy", change_str). }
      rewrite decide_False by done. by apply IH.
Qed.

Lemma resident_refs_NoDup (w : world) : NoDup (resident_refs w).
Proof.
  unfold resident_refs. apply NoDup_fmap_2; [|apply NoDup_seq].
  by intros ? ? [=].
Qed.

Lemma resident_refs_residents (w : world) :
  Forall (fun r => exists j, r = Resident j) (resident_refs w).
Proof.
  unfold resident_refs. apply Forall_fmap, Forall_forall. intros j _. by eexists.
Qed.

Lemma resident_refs_elem (w : world) (i : nat) (a : agent) :
  residents w !! i = Some a -> Resident i ∈ resident_refs w.
Proof.
  intros H. unfold resident_refs. apply list_elem_of_fmap. exists i.
  split; [done|]. apply elem_of_seq. apply lookup_lt_Some in H. lia.
Qed.

(** C3, as the code has it: each application of the training re-selects
    the residents whose literacy is below 70 at that moment, and adds the
    declared delta, clamped to [0, 100], to those only. Two applications
    add the delta twice to a resident who is still below 70 after the
    first, once to a resident the first application lifts to 70 or more,
    and never to a resident who starts at 70 or more. *)
Theorem training_twice
    (float : string -> option Q) (w : world) (i : nat) (resident : agent)
    (x : Q) (training : policy_config) (change_str : config) :
  policies (policy w) !! "digital_literacy_training" = Some training ->
  p_target training = Some "resident" ->
  NoDup (default [] (attribute_change training)).*1 ->
  ("information_literacy", change_str) ∈ default [] (attribute_change training) ->
  PolicySteps.numeric
    ("information_literacy" :: (default [] (attribute_change training)).*1) w ->
  residents w !! i = Some resident ->
  attributes resident !! "information_literacy" = Some (VNum x) ->
  let d := PolicySteps.delta float change_str in
  let apply :=
    PolicyEngine.apply float Government (enterprise_refs w) (resident_refs w) in
  exists w1 w2,
    apply ["digital_literacy_training"] w = (Ok tt, w1)
    /\ PolicySteps.resident_attribute i "information_literacy" w1
       = Some (VNum (PolicySteps.trained d x))
    /\ apply ["digital_literacy_training"; "digital_literacy_training"] w
       = (Ok tt, w2)
    /\ PolicySteps.resident_attribute i "information_literacy" w2
       = Some (VNum (PolicySteps.trained d (PolicySteps.trained d x)))
    /\ (x < 70 -> 0 <= x + d -> x + d < 70 ->
        PolicySteps.trained d (PolicySteps.trained d x)
        == PolicySteps.clamp (x + 2 * d))
    /\ (x < 70 -> 70 <= x + d ->
        PolicySteps.trained d (PolicySteps.trained d x)
        == PolicySteps.clamp (x + d))
    /\ (70 <= x -> PolicySteps.trained d (PolicySteps.trained d x) = x).
Proof.
  intros Htable Htarget Hnd Hin Hnum Hi Hx d apply.
  set (keys := (default [] (attribute_change training)).*1).
  set (table := policies (policy w)).
  assert (Hkeys : Forall (fun kv => kv.1 ∈ "information_literacy" :: keys)
                         (default [] (attribute_change training))).
  { apply Forall_forall. intros kv Hkv. apply elem_of_cons. right.
    subst keys. by apply list_elem_of_fmap_2. }
  assert (Hstep : forall y,
             triple (TrainingSteps.invariant keys table i y)
               (apply ["digital_literacy_training"])
               (fun _ => TrainingSteps.invariant keys table i
                           (PolicySteps.trained d y))).
  { intros y. eapply triple_conseq.
    - apply (apply_training_triple float keys table i training Htarget Hkeys
               Htable Government (enterprise_refs w) (resident_refs w) y).
      + apply resident_refs_NoDup.
      + apply resident_refs_residents.
      + by eapply resident_refs_elem.
    - done.
    - intros [] w' Hw'. simpl in Hw'.
      rewrite (after_changes_unique float _ change_str y Hnd Hin) in Hw'.
      exact Hw'. }
  assert (H0 : TrainingSteps.invariant keys table i x w).
  { split; [exact Hnum|]. split; [|done].
    unfold PolicySteps.resident_attribute. by rewrite Hi. }
  destruct (Hstep x w H0) as ([] & w1 & E1 & H1).
  destruct (Hstep _ w1 H1) as ([] & w2 & E2 & H2).
  exists w1, w2. split; [exact E1|]. split; [apply H1|].
  split.
  { subst apply. rewrite apply_cons. by rewrite (run_bind_ok _ _ _ _ _ E1). }
  split; [apply H2|].
  unfold PolicySteps.trained, PolicySteps.clamp, py_min, py_max.
  repeat split; intros; repeat destruct Qlt_le_dec; try lra; reflexivity.
Qed.

Lemma training_twice_witness :
  let w := Worlds.town Worlds.city (Worlds.constant_draws 0.5) 50 in
  let apply :=
    PolicyEngine.apply Parse.decimal Government
      (enterprise_refs w) (resident_refs w) in
  exists w1 w2,
    apply ["digital_literacy_training"] w = (Ok tt, w1)
    /\ PolicySteps.resident_attribute 0 "information_literacy" w1
       = Some (VNum (PolicySteps.trained (PolicySteps.delta Parse.decimal (CStr "+20")) 50))
    /\ apply ["digital_literacy_training"; "digital_literacy_training"] w
       = (Ok tt, w2)
    /\ PolicySteps.resident_attribute 0 "information_literacy" w2
       = Some (VNum (PolicySteps.trained
                       (PolicySteps.delta Parse.decimal (CStr "+20"))
                       (PolicySteps.trained
                          (PolicySteps.delta Parse.decimal (CStr "+20")) 50))).
Proof.
  intros w apply.
  destruct (training_twice Parse.decimal w 0 (Worlds.a_resident 50) 50
              Worlds.training (CStr "+20"))
    as (w1 & w2 & E1 & H1 & E2 & H2 & _).
  - reflexivity.
  - reflexivity.
  - simpl. repeat constructor. set_solver.
  - simpl. set_solver.
  - intros j a k v Hj Hk Hv. destruct j as [|j]; [|done].
    inversion Hj; subst a. simpl in Hk.
    assert (k = "information_literacy") as -> by set_solver.
    vm_compute in Hv. inversion Hv. by eexists.
  - reflexivity.
  - reflexivity.
  - exists w1, w2. done.
Defined.

(** C3 as stated fails: a resident of literacy 50 trained twice with a
    delta of 20 ends at 70, not at 90, and no clamp binds: the first
    application lifts the resident to the threshold and the second one
    passes the resident by. *)
Lemma training_twice_counterexample :
  let w := Worlds.town Worlds.city (Worlds.constant_draws 0.5) 50 in
  let twice :=
    PolicyEngine.apply Parse.decimal Government
      (enterprise_refs w) (resident_refs w)
      ["digital_literacy_training"; "digital_literacy_training"] w in
  PolicySteps.delta Parse.decimal (CStr "+20") == 20
  /\ PolicySteps.resident_attribute 0 "information_literacy" w = Some (VNum 50)
  /\ twice.1 = Ok tt
  /\ (exists v,
        PolicySteps.resident_attribute 0 "information_literacy" twice.2
        = Some (VNum v)
        /\ v == 70 /\ ~ v == 50 + 2 * 20)
  /\ 50 + 2 * 20 < 100.
Proof.
  split; [reflexivity|]. split; [reflexivity|]. split; [reflexivity|].
  split; [|reflexivity].
  eexists. split; [vm_compute; reflexivity|]. split; [reflexivity|].
  intros H. discriminate H.
Qed.

(** ** InteractionEngine: state folding *)

Lemma is_str_same (s : string) : is_str (Some s) s = true.
Proof. unfold is_str. by apply bool_decide_eq_true_2. Qed.

Lemma is_str_other (s t : string) : s <> t -> is_str (Some s) t = false.
Proof. intros H. unfold is_str. apply bool_decide_eq_false_2. congruence. Qed.

Lemma in_strs_elem (s : string) (l : list string) :
  s ∈ l -> in_strs (Some s) l = true.
Proof. intros H. by apply bool_decide_eq_true_2. Qed.

Lemma in_strs_not_elem (s : string) (l : list string) :
  s ∉ l -> in_strs (Some s) l = false.
Proof. intros H. by apply bool_decide_eq_false_2. Qed.

Lemma for_each_one {A : Type} (body : A -> M unit) (x : A) (w : world) :
  for_each [x] body w
  = match body x w with
    | (Ok _, w') => (Ok tt, w')
    | (Raise e, w') => (Raise e, w')
    end.
Proof. simpl. rewrite run_bind. by destruct (body x w) as [[[]|e] w']. Qed.


(** The folding has no branch that lowers the state of an enterprise: an
    outcome other than success leaves the store as it was. *)
Lemma enterprise_state_without_success (w : world) (i : interaction) (j : nat) :
  default "neutral" (i_outcome i) <> "success" ->
  InteractionEngine._update_enterprise_state (Enterprise j) [i] w = (Ok tt, w).
Proof.
  intros H. unfold InteractionEngine._update_enterprise_state.
  rewrite for_each_one. by rewrite is_str_other.
Qed.

Lemma enterprise_failure_unchanged :
  let w := Worlds.town Worlds.city (Worlds.constant_draws 0.5) 50 in
  let w' :=
    (InteractionEngine._update_agent_states
       Government (enterprise_refs w) (resident_refs w)
       [Folding.failed_procurement] w).2 in
  i_outcome Folding.failed_procurement = Some "failed"
  /\ "enterprise_0" ∈ default [] (i_participants Folding.failed_procurement)
  /\ enterprises w' = enterprises w
  /\ (exists u, state (government w') !! "resource_utilization" = Some u
                /\ u == 0.69).
Proof.
  split; [reflexivity|]. split; [simpl; set_solver|].
  split; [vm_compute; reflexivity|].
  eexists. split; [vm_compute; reflexivity|]. reflexivity.
Qed.

(** ** The declared bounds *)

Lemma deref_assign_ne (r r' : ref) (a : agent) (w : world) :
  r' <> r -> deref r' (assign r a w) = deref r' w.
Proof.
  intros H. destruct r as [|j|j], r' as [|j'|j']; try done; simpl.
  all: rewrite list_lookup_insert_ne; [done|congruence].
Qed.

Lemma deref_assign_eq (r : ref) (a : agent) (w : world) :
  deref r (assign r a w) = a \/ deref r (assign r a w) = deref r w.
Proof.
  destruct r as [|j|j]; simpl; [by left|..].
  - destruct (decide (j < length (enterprises w))%nat).
    + left. by rewrite list_lookup_insert_eq.
    + right. rewrite list_insert_ge; [done|lia].
  - destruct (decide (j < length (residents w))%nat).
    + left. by rewrite list_lookup_insert_eq.
    + right. rewrite list_insert_ge; [done|lia].
Qed.


Lemma bounded_about_agents (w0 : world) : about_agents (bounded w0).
Proof.
  intros w w' Eg Ee Er _ _ [Hb (Hle & Hlr & Ha)].
  assert (Hd : forall r, deref r w' = deref r w).
  { intros [|j|j]; simpl; congruence. }
  split; [|split; [|split]].
  - intros r. rewrite Hd. apply Hb.
  - congruence.
  - congruence.
  - intros r k. rewrite Hd. apply Ha.
Qed.

(** Writing an agent that is within its bounds and whose attributes are
    adjusted keeps the store bounded. *)
Lemma bounded_assign (w0 w : world) (r : ref) (a : agent) :
  bounded w0 w ->
  Bounds.agent_in_bounds r a ->
  (forall k, attributes a !! k = attributes (deref r w0) !! k
             \/ exists v, attributes a !! k = Some (VNum v) /\ 0 <= v /\ v <= 100) ->
  bounded w0 (assign r a w).
Proof.
  intros [Hb (Hle & Hlr & Ha)] Hok Hadj. split; [|split; [|split]].
  - intros r'. destruct (decide (r' = r)) as [->|Hne].
    + destruct (deref_assign_eq r a w) as [-> | ->]; [done|apply Hb].
    + rewrite deref_assign_ne by done. apply Hb.
  - destruct r; simpl; rewrite ?length_insert; done.
  - destruct r; simpl; rewrite ?length_insert; done.
  - intros r' k. destruct (decide (r' = r)) as [->|Hne].
    + destruct (deref_assign_eq r a w) as [-> | ->]; [apply Hadj|apply Ha].
    + rewrite deref_assign_ne by done. apply Ha.
Qed.


Lemma within_insert (lo hi : Q) (m : gmap string Q) (k k' : string) (v : Q) :
  Bounds.within lo hi (m !! k') ->
  (k = k' -> lo <= v /\ v <= hi) ->
  Bounds.within lo hi (<[k := v]> m !! k').
Proof.
  intros H Hv x. destruct (decide (k = k')) as [->|Hne].
  - rewrite lookup_insert_eq. intros [= <-]. by apply Hv.
  - rewrite lookup_insert_ne by done. apply H.
Qed.

Lemma within_value_insert (m : gmap string value) (k k' : string) (v : Q) :
  Bounds.within_value 0 100 (m !! k') ->
  0 <= v /\ v <= 100 ->
  Bounds.within_value 0 100 (<[k := VNum v]> m !! k').
Proof.
  intros H Hv x. destruct (decide (k = k')) as [->|Hne].
  - rewrite lookup_insert_eq. intros [= <-]. by apply Hv.
  - rewrite lookup_insert_ne by done. apply H.
Qed.

Lemma preserves_state_set (w0 : world) (r : ref) (k : string) (v : Q) :
  state_bound r k v -> preserves (bounded w0) (state_set r k v).
Proof.
  intros Hv w Hw. unfold state_set, modify. cbn [snd].
  pose proof Hw as [Hb (_ & _ & Ha)]. apply bounded_assign; [done| |apply Ha].
  specialize (Hb r). destruct r as [|j|j]; simpl in *.
  - by apply within_insert.
  - destruct Hb as (H1 & H2 & H3), Hv as [Hv1 Hv2].
    split; [|split]; [by apply within_insert..|done].
  - destruct Hb as [H1 H2]. split; [by apply within_insert|done].
Qed.

Lemma preserves_attr_set (w0 : world) (r : ref) (k : string) (v : Q) :
  0 <= v /\ v <= 100 -> preserves (bounded w0) (attr_set r k (VNum v)).
Proof.
  intros Hv w Hw. unfold attr_set, modify. cbn [snd].
  pose proof Hw as [Hb (_ & _ & Ha)]. apply bounded_assign; [done| |].
  - specialize (Hb r). destruct r as [|j|j]; simpl in *.
    + done.
    + destruct Hb as (H1 & H2 & H3).
      split; [|split]; [done..|by apply within_value_insert].
    + destruct Hb as [H1 H2]. split; [done|by apply within_value_insert].
  - intros k'. simpl. destruct (decide (k = k')) as [->|Hne].
    + right. exists v. by rewrite lookup_insert_eq.
    + rewrite lookup_insert_ne by done. apply Ha.
Qed.

(** Writing an agent with the attributes and the state it had. *)
Lemma preserves_same_agent (w0 : world) (r : ref) (f : world -> agent) :
  (forall w, attributes (f w) = attributes (deref r w)
             /\ state (f w) = state (deref r w)) ->
  preserves (bounded w0) (modify (fun w => assign r (f w) w)).
Proof.
  intros Hf w Hw. unfold modify. cbn [snd].
  destruct (Hf w) as [Ea Es].
  pose proof Hw as [Hb (_ & _ & Ha)]. apply bounded_assign; [done| |].
  - specialize (Hb r). destruct r as [|j|j]; simpl in *; by rewrite ?Ea, ?Es.
  - intros k. rewrite Ea. apply Ha.
Qed.

Lemma py_clamp_bounds (lo hi v : Q) :
  lo <= hi -> lo <= py_min hi (py_max lo v) /\ py_min hi (py_max lo v) <= hi.
Proof.
  intros H. unfold py_min, py_max. repeat destruct Qlt_le_dec; lra.
Qed.

Lemma within_default (lo hi d : Q) (o : option Q) :
  Bounds.within lo hi o -> lo <= d /\ d <= hi ->
  lo <= default d o /\ default d o <= hi.
Proof. intros H Hd. destruct o as [v|]; simpl; [by apply H|done]. Qed.

Lemma preserves_gets_bind {A B : Type} (I : world -> Prop)
    (f : world -> A) (k : A -> M B) :
  (forall w, I w -> I (k (f w) w).2) -> preserves I (gets f ≫= k).
Proof. intros H w Hw. rewrite run_bind. simpl. by apply H. Qed.

Lemma run_preserves_bind {A B : Type} (I : world -> Prop)
    (m : M A) (k : A -> M B) (w : world) :
  I (m w).2 -> (forall a, preserves I (k a)) -> I ((m ≫= k) w).2.
Proof.
  intros Hm Hk. rewrite run_bind. destruct (m w) as [[a|e] w1]; simpl in *.
  - by apply Hk.
  - done.
Qed.

(** One structural step of a proof that a computation keeps [bounded]. *)
Ltac keep_step :=
  match goal with
  | |- preserves _ (mret _) => apply preserves_ret
  | |- preserves _ (raise _) => apply preserves_raise
  | |- preserves _ (gets _) => apply preserves_gets
  | |- preserves _ (state_get _ _ _) => apply preserves_gets
  | |- preserves _ (attr_get _ _ _) => apply preserves_gets
  | |- preserves _ (attr_mem _ _) => apply preserves_gets
  | |- preserves _ (id_of _ _) => apply preserves_gets
  | |- preserves _ (area_of _) => apply preserves_gets
  | |- preserves _ (InteractionEngine.table _) => apply preserves_gets
  | |- preserves _ (PolicyEngine.self _) => apply preserves_gets
  | |- preserves _ (Environment.self _) => apply preserves_gets
  | |- preserves _ (num ?v) =>
      destruct v; [apply preserves_ret|apply preserves_raise]
  | |- preserves _ (items ?c) =>
      destruct c; [apply preserves_raise|apply preserves_raise|apply preserves_ret]
  | |- preserves _ random_random =>
      apply preserves_random_random;
      first [apply bounded_about_agents|assumption]
  | |- preserves _ (random_randint _ _) =>
      apply preserves_random_randint;
      first [apply bounded_about_agents|assumption]
  | |- preserves _ (random_sample _ _) =>
      apply preserves_random_sample;
      first [apply bounded_about_agents|assumption]
  | |- preserves _ (logger _ _ _) =>
      apply preserves_logger;
      first [apply bounded_about_agents|assumption]
  | |- preserves _ (_ ≫= _) => apply preserves_bind; [|intros ?]
  | |- preserves _ (_ <$> _) => apply preserves_fmap
  | |- preserves _ (for_each _ _) => apply preserves_for_each; intros ? ?
  | |- preserves _ (collect _ _) => apply preserves_collect; intros ? ?
  | |- preserves _ (if ?b then _ else _) => destruct b
  | |- preserves _ (match ?x with _ => _ end) => destruct x
  | |- preserves _ (let _ := _ in _) => cbv zeta
  end.

Ltac keep := repeat keep_step.

Section Kept.

Context (w0 : world).

Local Abbreviation kept := (preserves (bounded w0)).

Lemma kept_modify_elsewhere (f : world -> world) :
  (forall w, government (f w) = government w
             /\ enterprises (f w) = enterprises w
             /\ residents (f w) = residents w) ->
  kept (modify f).
Proof.
  intros H w Hw. destruct (H w) as (Eg & Ee & Er). unfold modify. cbn [snd].
  destruct Hw as [Hb (Hle & Hlr & Ha)].
  assert (Hd : forall r, deref r (f w) = deref r w).
  { intros [|j|j]; simpl; congruence. }
  split; [|split; [|split]].
  - intros r. rewrite Hd. apply Hb.
  - congruence.
  - congruence.
  - intros r k. rewrite Hd. apply Ha.
Qed.

(** *** The interaction engine *)

Lemma kept_create_gov_ent government enterprise gov_decision rules :
  kept (InteractionEngine._create_gov_ent_interaction
          government enterprise gov_decision rules).
Proof.
  unfold InteractionEngine._create_gov_ent_interaction,
    InteractionEngine._create_procurement_interaction,
    InteractionEngine._create_regulation_interaction,
    InteractionEngine._create_data_sharing_interaction. keep.
Qed.

Lemma kept_create_ent_gov enterprise government ent_decision rules :
  kept (InteractionEngine._create_ent_gov_interaction
          enterprise government ent_decision rules).
Proof.
  unfold InteractionEngine._create_ent_gov_interaction,
    InteractionEngine._create_bidding_interaction,
    InteractionEngine._create_data_request_interaction. keep.
Qed.

Lemma kept_process_government_enterprise
    government enterprises gov_decision ent_decisions :
  kept (InteractionEngine._process_government_enterprise_interactions
          government enterprises gov_decision ent_decisions).
Proof.
  unfold InteractionEngine._process_government_enterprise_interactions.
  keep; first [apply kept_create_gov_ent|apply kept_create_ent_gov].
Qed.

Lemma kept_process_government_resident
    government residents gov_decision res_decisions :
  kept (InteractionEngine._process_government_resident_interactions
          government residents gov_decision res_decisions).
Proof.
  unfold InteractionEngine._process_government_resident_interactions,
    InteractionEngine.subscript,
    InteractionEngine._create_service_interaction,
    InteractionEngine._create_resident_gov_interaction. keep.
Qed.

Lemma kept_process_enterprise_resident
    enterprises residents ent_decisions res_decisions :
  kept (InteractionEngine._process_enterprise_resident_interactions
          enterprises residents ent_decisions res_decisions).
Proof.
  unfold InteractionEngine._process_enterprise_resident_interactions,
    InteractionEngine._create_enterprise_service_interaction. keep.
Qed.

Lemma kept_process_resident_resident residents res_decisions :
  kept (InteractionEngine._process_resident_resident_interactions
          residents res_decisions).
Proof.
  unfold InteractionEngine._process_resident_resident_interactions. keep.
Qed.

Lemma kept_update_government_state interactions :
  kept (InteractionEngine._update_government_state Government interactions).
Proof.
  unfold InteractionEngine._update_government_state.
  apply preserves_for_each. intros i _. cbv zeta. unfold state_get.
  destruct (is_str _ _); [|destruct (in_strs _ _); [|apply preserves_ret]].
  all: apply preserves_gets_bind; intros w Hw.
  all: apply preserves_state_set; [|exact Hw]; intros _.
  all: destruct Hw as [Hb _]; specialize (Hb Government); simpl in Hb.
  all: apply (fun H => within_default 0 1 0.7 _ H ltac:(lra)) in Hb.
  all: cbn [deref]; unfold py_min, py_max; destruct Qlt_le_dec; lra.
Qed.

Lemma kept_update_enterprise_state (j : nat) interactions :
  kept (InteractionEngine._update_enterprise_state (Enterprise j) interactions).
Proof.
  unfold InteractionEngine._update_enterprise_state.
  apply preserves_for_each. intros i _. cbv zeta. unfold state_get.
  destruct (is_str _ "success"); [|apply preserves_ret].
  destruct (is_str _ _); [|destruct (is_str _ _); [|apply preserves_ret]].
  all: apply preserves_gets_bind; intros w Hw.
  all: apply preserves_state_set; [|exact Hw].
  all: destruct Hw as [Hb _]; specialize (Hb (Enterprise j)).
  all: destruct Hb as (H1 & H2 & _).
  all: apply (fun H => within_default 0 100 50 _ H ltac:(lra)) in H1.
  all: apply (fun H => within_default 0 1 0.1 _ H ltac:(lra)) in H2.
  all: cbn [deref] in *; split; intros [=].
  all: unfold py_min; destruct Qlt_le_dec; lra.
Qed.

Lemma kept_trust_update (j : nat) (g : Q -> Q) :
  (forall t, 0 <= t /\ t <= 100 -> 0 <= g t /\ g t <= 100) ->
  kept (t ← attr_get (Resident j) "trust_in_government" (VNum 80);
        t ← num t;
        attr_set (Resident j) "trust_in_government" (VNum (g t))).
Proof.
  intros Hg. unfold attr_get. apply preserves_gets_bind. intros w Hw.
  destruct (default (VNum 80)
              (attributes (deref (Resident j) w) !! "trust_in_government"))
    as [t|s] eqn:E; [|exact Hw].
  simpl num. rewrite run_bind. unfold mret at 1, M_ret at 1. cbn iota beta.
  apply preserves_attr_set; [|exact Hw]. apply Hg.
  pose proof Hw as [Hb _]. specialize (Hb (Resident j)). destruct Hb as [_ Hb].
  destruct (attributes (deref (Resident j) w) !! "trust_in_government")
    as [v|]; simpl in E.
  - subst v. by apply Hb.
  - inversion E. lra.
Qed.

Lemma kept_update_resident_state (j : nat) interactions :
  kept (InteractionEngine._update_resident_state (Resident j) interactions).
Proof.
  unfold InteractionEngine._update_resident_state.
  apply preserves_for_each. intros i _. cbv zeta.
  assert (Hs : forall w (g : Q -> Q),
             (forall s, 1 <= s /\ s <= 5 -> 1 <= g s /\ g s <= 5) ->
             bounded w0 w ->
             state_bound (Resident j) "satisfaction"
               (g (default 3 (state (deref (Resident j) w) !! "satisfaction")))).
  { intros w g Hg [Hb _] _. specialize (Hb (Resident j)). destruct Hb as [Hb _].
    apply Hg. apply within_default; [done|lra]. }
  destruct (is_str _ "success").
  - destruct (is_str _ _); [|destruct (is_str _ _); [|apply preserves_ret]].
    + unfold state_get. apply preserves_gets_bind. intros w Hw.
      apply preserves_state_set; [|exact Hw].
      apply (Hs w (fun s => py_min 5 (s + 0.1))); [|done].
      intros s ?. unfold py_min. destruct Qlt_le_dec; lra.
    + apply kept_trust_update. intros t ?. unfold py_min.
      destruct Qlt_le_dec; lra.
  - destruct (in_strs _ _); [|apply preserves_ret].
    unfold state_get. apply preserves_gets_bind. intros w Hw.
    apply run_preserves_bind.
    + apply preserves_state_set; [|exact Hw].
      apply (Hs w (fun s => py_max 1 (s - 0.05))); [|done].
      intros s ?. unfold py_max. destruct Qlt_le_dec; lra.
    + intros []. destruct (is_str _ _); [|apply preserves_ret].
      apply kept_trust_update. intros t ?. unfold py_max.
      destruct Qlt_le_dec; lra.
Qed.

Lemma kept_update_agent_states (enterprises residents : list ref) interactions :
  Forall (fun r => exists j, r = Enterprise j) enterprises ->
  Forall (fun r => exists j, r = Resident j) residents ->
  kept (InteractionEngine._update_agent_states
          Government enterprises residents interactions).
Proof.
  intros He Hr. unfold InteractionEngine._update_agent_states. cbv zeta.
  apply preserves_bind; [|intros []; apply preserves_bind; [|intros []]].
  - destruct (_ !! "government"); [apply kept_update_government_state|].
    apply preserves_ret.
  - apply preserves_for_each. intros r Hin.
    rewrite Forall_forall in He. destruct (He r Hin) as [j ->].
    keep. apply kept_update_enterprise_state.
  - apply preserves_for_each. intros r Hin.
    rewrite Forall_forall in Hr. destruct (Hr r Hin) as [j ->].
    keep. apply kept_update_resident_state.
Qed.

Lemma kept_process (enterprises residents : list ref)
    gov_decision ent_decisions res_decisions :
  Forall (fun r => exists j, r = Enterprise j) enterprises ->
  Forall (fun r => exists j, r = Resident j) residents ->
  kept (InteractionEngine.process Government enterprises residents
          gov_decision ent_decisions res_decisions).
Proof.
  intros He Hr. unfold InteractionEngine.process.
  apply preserves_bind; [apply kept_process_government_enterprise|intros a].
  apply preserves_bind; [apply kept_process_government_resident|intros b].
  apply preserves_bind; [apply kept_process_enterprise_resident|intros c].
  apply preserves_bind; [apply kept_process_resident_resident|intros d].
  cbv zeta. apply preserves_bind; [by apply kept_modify_elsewhere|intros []].
  apply preserves_bind; [by apply kept_update_agent_states|intros []].
  apply preserves_ret.
Qed.

(** *** The policy engine *)

Lemma kept_parse_change_value float change_str :
  kept (PolicyEngine._parse_change_value float change_str).
Proof. unfold PolicyEngine._parse_change_value. keep. Qed.

Lemma kept_change_attributes float who attribute_changes message :
  kept (PolicyEngine.change_attributes float who attribute_changes message).
Proof.
  unfold PolicyEngine.change_attributes.
  apply preserves_for_each. intros [attr_name change_str] _.
  apply preserves_bind; [keep|intros present].
  destruct present; [|apply preserves_ret].
  apply preserves_bind; [apply kept_parse_change_value|intros change].
  apply preserves_bind; [keep|intros old_value].
  apply preserves_bind; [keep|intros old]. cbv zeta.
  apply preserves_bind; [|intros []; keep].
  apply preserves_attr_set, py_clamp_bounds. lra.
Qed.

Lemma kept_set_behavior_modifier resident name change :
  kept (PolicyEngine.set_behavior_modifier resident name change).
Proof. by apply preserves_same_agent. Qed.

Lemma kept_ensure_policy_modifiers government :
  kept (PolicyEngine.ensure_policy_modifiers government).
Proof.
  intros w Hw. unfold PolicyEngine.ensure_policy_modifiers, modify. cbn [snd].
  cbv zeta. destruct (policy_modifiers (deref government w)); [done|].
  by apply (preserves_same_agent w0 government
              (fun w => with_policy_modifiers (Some ∅) (deref government w))).
Qed.

Lemma kept_ensure_rule_modifiers government rule_name :
  kept (PolicyEngine.ensure_rule_modifiers government rule_name).
Proof.
  intros w Hw. unfold PolicyEngine.ensure_rule_modifiers, modify. cbn [snd].
  cbv zeta. destruct (_ !! rule_name); [done|].
  by apply (preserves_same_agent w0 government
              (fun w => with_policy_modifiers
                          (Some (<[rule_name := ∅]>
                                   (default ∅ (policy_modifiers (deref government w)))))
                          (deref government w))).
Qed.

Lemma kept_set_rule_modifier government rule_name param change :
  kept (PolicyEngine.set_rule_modifier government rule_name param change).
Proof. by apply preserves_same_agent. Qed.

Lemma kept_apply_resident_policy float policy_name policy_config residents :
  kept (PolicyEngine._apply_resident_policy
          float policy_name policy_config residents).
Proof.
  unfold PolicyEngine._apply_resident_policy. cbv zeta.
  apply preserves_bind.
  - destruct (String.eqb _ _); [|apply preserves_ret].
    induction residents as [|r residents IH]; simpl; keep. exact IH.
  - intros targets. apply preserves_for_each. intros r _.
    apply preserves_bind; [apply kept_change_attributes|intros []].
    apply preserves_for_each. intros [name c] _.
    apply preserves_bind; [apply kept_parse_change_value|intros q].
    apply kept_set_behavior_modifier.
Qed.

Lemma kept_compliance_update (j : nat) :
  kept (c ← attr_get (Enterprise j) "data_usage_compliance" (VNum 90);
        current_compliance ← num c;
        attr_set (Enterprise j) "data_usage_compliance"
                 (VNum (py_min 100 (current_compliance + 5)))).
Proof.
  unfold attr_get. apply preserves_gets_bind. intros w Hw.
  destruct (default (VNum 90)
              (attributes (deref (Enterprise j) w) !! "data_usage_compliance"))
    as [c|s] eqn:E; [|exact Hw].
  simpl num. rewrite run_bind. unfold mret at 1, M_ret at 1. cbn iota beta.
  apply preserves_attr_set; [|exact Hw].
  assert (0 <= c /\ c <= 100) as [? ?].
  { pose proof Hw as [Hb _]. specialize (Hb (Enterprise j)).
    destruct Hb as (_ & _ & Hb).
    destruct (attributes (deref (Enterprise j) w) !! "data_usage_compliance")
      as [v|]; simpl in E.
    - subst v. by apply Hb.
    - inversion E. lra. }
  unfold py_min. destruct Qlt_le_dec; lra.
Qed.

Lemma kept_apply_government_enterprise_policy
    float policy_name policy_config government (enterprises : list ref) :
  Forall (fun r => exists j, r = Enterprise j) enterprises ->
  kept (PolicyEngine._apply_government_enterprise_policy
          float policy_name policy_config government enterprises).
Proof.
  intros He. unfold PolicyEngine._apply_government_enterprise_policy. cbv zeta.
  apply preserves_bind; [apply kept_ensure_policy_modifiers|intros []].
  apply preserves_bind; [|intros []].
  - apply preserves_for_each. intros [rule_name rule_change] _.
    apply preserves_bind; [apply kept_ensure_rule_modifiers|intros []].
    apply preserves_bind; [keep|intros changes].
    apply preserves_for_each. intros [param change_str] _.
    apply preserves_bind; [apply kept_parse_change_value|intros change].
    apply preserves_bind; [apply kept_set_rule_modifier|intros []]. keep.
  - destruct (String.eqb _ _); [|destruct (String.eqb _ _)].
    + apply preserves_for_each. intros r _.
      apply preserves_bind; [keep|intros [q|s]]; [apply preserves_ret|].
      destruct (String.eqb _ _); [|apply preserves_ret].
      apply preserves_attr_set. lra.
    + apply preserves_for_each. intros r Hin.
      rewrite Forall_forall in He. destruct (He r Hin) as [j ->].
      apply kept_compliance_update.
    + apply preserves_ret.
Qed.

Lemma kept_environment_set (f : environment -> environment) :
  kept (Environment.set f).
Proof. by apply kept_modify_elsewhere. Qed.

Lemma kept_apply_policy_intervention float policy_name policy_config :
  kept (Environment.apply_policy_intervention float policy_name policy_config).
Proof.
  unfold Environment.apply_policy_intervention, Environment.infra_change.
  cbv zeta. destruct (String.eqb _ _); [|apply preserves_ret].
  apply preserves_bind; [|intros []].
  - destruct (lookup_config _ _); [|apply preserves_ret].
    apply preserves_bind; [keep|intros changes].
    apply preserves_for_each. intros [area change_str] _.
    apply preserves_bind; [keep|intros d].
    destruct (Environment.has_area _ _); [|apply preserves_ret].
    apply preserves_bind; [keep|intros change].
    apply preserves_bind; [apply kept_environment_set|intros []]. keep.
  - destruct (lookup_config _ _); [|apply preserves_ret].
    apply preserves_bind; [keep|intros changes].
    apply preserves_for_each. intros [area change_str] _.
    apply preserves_bind; [keep|intros d].
    destruct (Environment.has_area _ _); [|apply preserves_ret].
    apply preserves_bind; [keep|intros change].
    apply kept_environment_set.
Qed.

Lemma kept_policy_set (f : policy_engine -> policy_engine) :
  (forall p, policies (f p) = policies p) -> kept (PolicyEngine.set f).
Proof. intros H. by apply kept_modify_elsewhere. Qed.

Lemma kept_apply float (enterprises residents : list ref) policy_interventions :
  Forall (fun r => exists j, r = Enterprise j) enterprises ->
  kept (PolicyEngine.apply float Government enterprises residents
          policy_interventions).
Proof.
  intros He. unfold PolicyEngine.apply.
  apply preserves_for_each. intros policy_name _.
  apply preserves_bind; [keep|intros [policy_config|]]; [|keep].
  apply preserves_bind; [|intros []].
  - unfold PolicyEngine._apply_single_policy. cbv zeta.
    apply preserves_bind; [|intros []; by apply kept_policy_set].
    destruct (String.eqb _ _); [apply kept_apply_resident_policy|].
    destruct (String.eqb _ _);
      [by apply kept_apply_government_enterprise_policy|].
    destruct (String.eqb _ _); [apply kept_apply_policy_intervention|].
    destruct (String.eqb _ _); [apply kept_change_attributes|].
    destruct (String.eqb _ _); [|apply preserves_ret].
    unfold PolicyEngine._apply_enterprise_policy. cbv zeta.
    apply preserves_for_each. intros r _. apply kept_change_attributes.
  - apply preserves_bind; [keep|intros applied].
    destruct (bool_decide _); [apply preserves_ret|].
    apply preserves_bind; [by apply kept_policy_set|intros []]. keep.
Qed.

End Kept.

Lemma enterprise_refs_enterprises (w : world) :
  Forall (fun r => exists j, r = Enterprise j) (enterprise_refs w).
Proof.
  unfold enterprise_refs. apply Forall_fmap, Forall_forall. intros j _. by eexists.
Qed.

Lemma kept_run (w0 : world) float (o : Bounds.operation) :
  preserves (bounded w0) (Bounds.run float o).
Proof.
  intros w Hw. destruct o; simpl.
  - apply kept_update_agent_states;
      [apply enterprise_refs_enterprises|apply resident_refs_residents|done].
  - apply run_preserves_bind; [|intros ?; apply preserves_ret].
    apply kept_process;
      [apply enterprise_refs_enterprises|apply resident_refs_residents|done].
  - by apply (kept_modify_elsewhere w0 _ ltac:(done) w).
  - by apply (kept_modify_elsewhere w0 _ ltac:(done) w).
  - apply kept_apply; [apply enterprise_refs_enterprises|done].
Qed.

Lemma bounded_refl (w : world) : Bounds.in_bounds w -> bounded w w.
Proof. intros H. split; [done|]. split; [done|]. split; [done|]. by left. Qed.

Lemma kept_run_all (w0 : world) float (ops : list Bounds.operation) (w : world) :
  bounded w0 w -> bounded w0 (Bounds.run_all float ops w).
Proof.
  revert w. induction ops as [|o ops IH]; intros w Hw; [done|].
  simpl. apply IH. by apply kept_run.
Qed.

(** C4: along every sequence of state foldings, rounds of the interaction
    engine and policy applications, under every table of rules and of
    policies, a store whose agents start within their declared bounds
    keeps them there: resource_utilization in [0, 1], innovation_level in
    [0, 100], market_share in [0, 1], satisfaction in [1, 5],
    trust_in_government in [0, 100], and every attribute a policy or a
    folding has changed is a number of [0, 100]. *)
Theorem declared_bounds_kept
    (float : string -> option Q) (ops : list Bounds.operation) (w : world) :
  Bounds.in_bounds w ->
  let w' := Bounds.run_all float ops w in
  Bounds.within 0 1 (state (government w') !! "resource_utilization")
  /\ (forall e, e ∈ enterprises w' ->
        Bounds.within 0 100 (state e !! "innovation_level")
        /\ Bounds.within 0 1 (state e !! "market_share"))
  /\ (forall r, r ∈ residents w' ->
        Bounds.within 1 5 (state r !! "satisfaction")
        /\ Bounds.within_value 0 100 (attributes r !! "trust_in_government"))
  /\ Bounds.in_bounds w'
  /\ Bounds.adjusted w w'.
Proof.
  intros Hw w'. destruct (kept_run_all w float ops w (bounded_refl w Hw)) as [Hb Ha].
  fold w' in Hb, Ha. split; [apply (Hb Government)|].
  split; [|split; [|done]].
  - intros e He. apply list_elem_of_lookup in He as [j Hj].
    specialize (Hb (Enterprise j)). simpl in Hb. rewrite Hj in Hb.
    destruct Hb as (? & ? & _). done.
  - intros r Hr. apply list_elem_of_lookup in Hr as [j Hj].
    specialize (Hb (Resident j)). simpl in Hb. by rewrite Hj in Hb.
Qed.

Lemma town_in_bounds (e : environment) (g : Random.t) (literacy : Q) :
  Bounds.in_bounds (Worlds.town e g literacy).
Proof.
  intros [|[|j]|[|j]]; simpl.
  - intros v H. vm_compute in H. inversion H. lra.
  - split; [|split]; intros v H; vm_compute in H; inversion H; lra.
  - split; [|split]; intros v H; done.
  - split; intros v H.
    + vm_compute in H. inversion H. lra.
    + vm_compute in H. inversion H. lra.
  - split; intros v H; done.
Qed.

Lemma declared_bounds_kept_witness :
  let w := Worlds.town Worlds.city (Worlds.constant_draws 0.5) 50 in
  let w' := Bounds.run_all Parse.decimal Sequences.season w in
  Bounds.in_bounds w
  /\ Bounds.within 0 1 (state (government w') !! "resource_utilization")
  /\ Bounds.in_bounds w'
  /\ Bounds.adjusted w w'.
Proof.
  intros w w'. split; [apply town_in_bounds|].
  destruct (declared_bounds_kept Parse.decimal Sequences.season w
              (town_in_bounds _ _ _)) as (H1 & _ & _ & H2 & H3).
  done.
Defined.

(** ** InteractionEngine: rules that are not in the table *)

Lemma randbelow_lt (n : nat) (g : Random.t) :
  (0 < n)%nat -> ((Random.randbelow n g).1 < n)%nat.
Proof. intros H. unfold Random.randbelow. simpl. lia. Qed.

Lemma choose_S {A : Type} (k : nat) (pool : list A) (g : Random.t) :
  Random.choose (S k) pool g
  = let '(j, g') := Random.randbelow (length pool) g in
    match pool !! j with
    | Some x =>
        let '(xs, g'') := Random.choose k (delete j pool) g' in (x :: xs, g'')
    | None => ([], g')
    end.
Proof. reflexivity. Qed.

Lemma choose_length {A : Type} (k : nat) (pool : list A) (g : Random.t) :
  (k <= length pool)%nat -> length (Random.choose k pool g).1 = k.
Proof.
  revert pool g. induction k as [|k IH]; intros pool g Hk; [done|].
  rewrite choose_S.
  pose proof (randbelow_lt (length pool) g ltac:(lia)) as Hj.
  destruct (Random.randbelow (length pool) g) as [j g']. simpl in Hj.
  destruct (lookup_lt_is_Some_2 pool j Hj) as [x Hx]. rewrite Hx.
  specialize (IH (delete j pool) g').
  destruct (Random.choose k (delete j pool) g') as [xs g''].
  simpl in *. f_equal. apply IH. rewrite length_delete by (by eexists). lia.
Qed.

Lemma sample_run {A : Type} (population : list A) (k : nat) (g : Random.t) :
  (k <= length population)%nat ->
  exists xs g', Random.sample population k g = (Ok xs, g') /\ length xs = k.
Proof.
  intros Hk. unfold Random.sample.
  destruct (Nat.ltb_spec (length population) k) as [H|H]; [lia|].
  pose proof (choose_length k population g Hk) as Hl.
  destruct (Random.choose k population g) as [xs g']. by exists xs, g'.
Qed.

Lemma returns_ret {A : Type} (G : A -> Prop) (a : A) : G a -> returns G (mret a).
Proof. intros H w a' w' [= <- _]. exact H. Qed.

Lemma returns_bind {A B : Type} (G : B -> Prop) (m : M A) (f : A -> M B) :
  (forall a, returns G (f a)) -> returns G (m ≫= f).
Proof.
  intros H w b w'. rewrite run_bind. destruct (m w) as [[a|e] w1]; [|done].
  apply H.
Qed.

Lemma returns_bind_of {A B : Type} (Ga : A -> Prop) (G : B -> Prop)
    (m : M A) (f : A -> M B) :
  returns Ga m -> (forall a, Ga a -> returns G (f a)) -> returns G (m ≫= f).
Proof.
  intros Hm H w b w'. rewrite run_bind. destruct (m w) as [[a|e] w1] eqn:E; [|done].
  apply H. by eapply Hm.
Qed.

Lemma returns_collect_one {A B : Type} (T : B -> Prop)
    (l : list A) (body : A -> M (list B)) :
  (forall x, returns (fun ys => exists y, ys = [y] /\ T y) (body x)) ->
  returns (fun ys => length ys = length l /\ Forall T ys) (collect l body).
Proof.
  intros H. induction l as [|x l IH]; simpl.
  - by apply returns_ret.
  - eapply returns_bind_of; [apply H|]. intros ys (y & -> & Hy).
    eapply returns_bind_of; [apply IH|]. intros zs [Hl Hz].
    apply returns_ret. simpl. split; [by rewrite Hl|by constructor].
Qed.

Lemma town_numeric (e : environment) (g : Random.t) (literacy : Q) :
  Typed.numeric_attributes (Worlds.town e g literacy).
Proof.
  intros r k v Hk H.
  assert (Hkeys : k = "information_transparency" \/ k = "data_usage_compliance"
                  \/ k = "technology_acceptance" \/ k = "trust_in_government").
  { unfold Typed.keys in Hk. set_solver. }
  destruct r as [|[|j]|[|j]]; simpl in H;
    destruct Hkeys as [-> | [-> | [-> | ->]]];
    vm_compute in H; inversion H; by eexists.
Qed.

(** C2 as stated fails: with no table of rules at all, a regulation the
    government addresses to the enterprises still yields its record, made
    with the default probability and an empty effect; the slot is not
    skipped. *)
Lemma missing_rule_counterexample :
  let w := Worlds.town Worlds.city (Worlds.constant_draws 0.5) 50 in
  let round :=
    InteractionEngine.process Government (enterprise_refs w) (resident_refs w)
      Sequences.regulate [Sequences.idle] [Sequences.idle] w in
  rules (engine w) !! "government_enterprise" = None
  /\ exists i,
       round.1 = Ok [i]
       /\ i_type i = Some "regulation"
       /\ i_participants i = Some ["government"; "enterprise_0"]
       /\ i_effect i = Some "".
Proof.
  split; [reflexivity|]. eexists. split; [vm_compute; reflexivity|]. done.
Qed.

(** The one rule the engine reads without a default: when the government
    provides services to a resident and the table has no
    [service_provision] entry, [process] raises [KeyError], before any
    record is stored and any state folded. *)
Lemma missing_service_provision_rule_raises :
  let w := Worlds.town Worlds.city (Worlds.constant_draws 0.5) 50 in
  let round :=
    InteractionEngine.process Government (enterprise_refs w) (resident_refs w)
      Sequences.provide [Sequences.idle] [Sequences.idle] w in
  round.1 = Raise (KeyError "service_provision")
  /\ interaction_history (engine round.2) = []
  /\ government round.2 = government w
  /\ residents round.2 = residents w.
Proof. vm_compute. done. Qed.

(** * Further properties of the metrics *)

(** ** Means and sums of bounded lists *)

Lemma Qsum_cons (x : Q) (l : list Q) : Qsum (x :: l) = x + Qsum l.
Proof. reflexivity. Qed.

Lemma Qsum_bounds (lo hi : Q) (l : list Q) :
  Forall (fun x => lo <= x /\ x <= hi) l ->
  lo * Qnat (length l) <= Qsum l /\ Qsum l <= hi * Qnat (length l).
Proof.
  induction 1 as [|x l [Hlo Hhi] _ [IHlo IHhi]].
  - change (Qsum []) with 0. change (Qnat (length [])) with 0. lra.
  - rewrite Qsum_cons. cbn [length]. rewrite Qnat_S.
    set (n := Qnat (length l)) in *.
    assert (E1 : lo * (n + 1) == lo * n + lo) by ring.
    assert (E2 : hi * (n + 1) == hi * n + hi) by ring.
    rewrite E1, E2. lra.
Qed.

Lemma np_mean_bounds (lo hi : Q) (l : list Q) :
  l <> [] ->
  Forall (fun x => lo <= x /\ x <= hi) l ->
  lo <= np_mean l /\ np_mean l <= hi.
Proof.
  intros Hl H. destruct (Qsum_bounds lo hi l H) as [Hlo Hhi].
  assert (0 < Qnat (length l)) by (apply Qnat_pos; destruct l; [done|simpl; lia]).
  unfold np_mean. split.
  - by apply Qle_shift_div_l.
  - by apply Qle_shift_div_r.
Qed.

Lemma Qnat_nonneg (n : nat) : 0 <= Qnat n.
Proof. unfold Qnat, Qle. simpl. lia. Qed.

Lemma Qnat_le (n m : nat) : (n <= m)%nat -> Qnat n <= Qnat m.
Proof. intros H. unfold Qnat, Qle. simpl. lia. Qed.

(** A count over a total is a number of [0, 1]. *)
Lemma ratio_bounds (n m : nat) :
  (n <= m)%nat -> (0 < m)%nat ->
  0 <= Qnat n / Qnat m /\ Qnat n / Qnat m <= 1.
Proof.
  intros Hn Hm. pose proof (Qnat_pos m Hm). split.
  - apply Qle_shift_div_l; [done|]. pose proof (Qnat_nonneg n). lra.
  - apply Qle_shift_div_r; [done|]. pose proof (Qnat_le n m Hn). lra.
Qed.

Lemma filter_length_le {A : Type} (p : A -> bool) (l : list A) :
  (length (List.filter p l) <= length l)%nat.
Proof. induction l as [|x l IH]; simpl; [lia|]. destruct (p x); simpl; lia. Qed.

(** ** Efficiency *)

(** The resolution rate and the resource utilization that
    [calculate_efficiency] reports are numbers of [0, 1], whatever the
    records hold. *)
Theorem efficiency_rates_in_unit_interval (interaction_records : list interaction) :
  let m := Efficiency.calculate_efficiency interaction_records in
  (0 <= Efficiency.resolution_rate m /\ Efficiency.resolution_rate m <= 1)
  /\ (0 <= Efficiency.resource_utilization m
      /\ Efficiency.resource_utilization m <= 1).
Proof.
  destruct interaction_records as [|r rs]; [simpl; lra|].
  set (records := r :: rs). cbv zeta.
  unfold Efficiency.calculate_efficiency. fold records.
  cbn [records Efficiency.resolution_rate Efficiency.resource_utilization].
  fold records. split.
  - destruct (List.filter _ records) as [|s ss].
    + apply np_mean_bounds; [done|]. repeat constructor; lra.
    + apply np_mean_bounds; [done|]. apply Forall_map, Forall_forall.
      intros x _. destruct (default false (i_resolved x)); lra.
  - unfold Efficiency.calculate_resource_usage. fold records.
    cbn [records length Nat.eqb]. fold records.
    destruct (ratio_bounds
                (length (List.filter (fun r => is_str (i_status r) "active") records))
                (S (length rs))) as [H0 H1].
    { apply (filter_length_le _ records). }
    { lia. }
    split.
    + apply py_min_glb; [exact H0|lra].
    + apply py_min_le_r.
Qed.

(** ** Cooperation *)

Lemma interaction_score_bounds (i : interaction) :
  0.1 <= Collaboration.interaction_score i
  /\ Collaboration.interaction_score i <= 1.
Proof.
  unfold Collaboration.interaction_score. cbv zeta.
  repeat match goal with
         | |- context [if in_strs ?o ?l then _ else _] => destruct (in_strs o l)
         end;
    first [lra | split; [apply py_min_glb; lra | apply py_min_le_l]].
Qed.

Lemma round_cooperation_bounds (r : round_record) :
  0.1 <= Collaboration.round_cooperation r
  /\ Collaboration.round_cooperation r <= 1.
Proof.
  unfold Collaboration.round_cooperation.
  destruct (default [] (r_interactions r)) as [|i l]; [lra|].
  apply np_mean_bounds; [done|]. apply Forall_map, Forall_forall.
  intros x _. apply interaction_score_bounds.
Qed.

(** The cooperation index is a number of [0, 1]; it is 0 for the empty
    history only, and at least 0.1 for any other. *)
Theorem cooperation_index_range (simulation_records : list round_record) :
  let index := Collaboration.calculate_cooperation_index simulation_records in
  0 <= index /\ index <= 1
  /\ (simulation_records <> [] -> 0.1 <= index).
Proof.
  destruct simulation_records as [|r rs]; cbv zeta.
  - simpl. repeat split; [lra|lra|done].
  - rewrite cooperation_index_unfold.
    destruct (np_mean_bounds 0.1 1
                (map Collaboration.round_cooperation (r :: rs))) as [H0 H1].
    { done. }
    { apply Forall_map, Forall_forall. intros x _.
      apply round_cooperation_bounds. }
    repeat split; [lra|lra|intros _; lra].
Qed.

(** ** The Gini coefficient *)

Lemma py_max_0_idem (v : Q) : py_max 0 (py_max 0 v) = py_max 0 v.
Proof.
  unfold py_max. destruct (Qlt_le_dec 0 v) as [H|H].
  - by destruct (Qlt_le_dec 0 v); [|lra].
  - by destruct (Qlt_le_dec 0 0); [lra|].
Qed.

Lemma py_max_0_nonneg (v : Q) : 0 <= v -> py_max 0 v == v.
Proof. intros H. unfold py_max. destruct (Qlt_le_dec 0 v); lra. Qed.

Lemma py_clamp_unit (g : Q) : 0 <= g -> g <= 1 -> py_max 0 (py_min 1 g) == g.
Proof.
  intros H0 H1. unfold py_max, py_min.
  destruct (Qlt_le_dec g 1); destruct (Qlt_le_dec 0 _); lra.
Qed.

Lemma py_min_proper (a x y : Q) : x == y -> py_min a x == py_min a y.
Proof.
  intros E. unfold py_min.
  destruct (Qlt_le_dec x a), (Qlt_le_dec y a); lra.
Qed.

Lemma py_abs_nonneg (x : Q) : 0 <= x -> py_abs x == x.
Proof. intros H. unfold py_abs. destruct (Qlt_le_dec x 0); lra. Qed.

Lemma py_abs_nonpos (x : Q) : x <= 0 -> py_abs x == - x.
Proof. intros H. unfold py_abs. destruct (Qlt_le_dec x 0); lra. Qed.

Lemma py_abs_ge_0 (x : Q) : 0 <= py_abs x.
Proof. unfold py_abs. destruct (Qlt_le_dec x 0); lra. Qed.

Lemma Qeq_bool_false (x y : Q) : ~ x == y -> Qeq_bool x y = false.
Proof.
  intros H. destruct (Qeq_bool x y) eqn:E; [|done].
  by apply Qeq_bool_iff in E.
Qed.

Lemma Qeq_bool_true (x y : Q) : x == y -> Qeq_bool x y = true.
Proof. apply Qeq_bool_iff. Qed.

Lemma Qle_bool_false (x y : Q) : y < x -> Qle_bool x y = false.
Proof.
  intros H. destruct (Qle_bool x y) eqn:E; [|done].
  apply Qle_bool_iff in E. lra.
Qed.

Lemma Qle_bool_true (x y : Q) : x <= y -> Qle_bool x y = true.
Proof. apply Qle_bool_iff. Qed.

(** The coefficient is a number of [0, 1], and a negative value counts as
    the value 0: the coefficient of a list is the one of the list with its
    negative entries replaced by 0. *)
Theorem gini_range_and_clipping (values : list Q) :
  (0 <= Fairness.calculate_gini values /\ Fairness.calculate_gini values <= 1)
  /\ Fairness.calculate_gini (map (py_max 0) values)
     = Fairness.calculate_gini values.
Proof.
  split.
  - unfold Fairness.calculate_gini.
    destruct (_ <? 2)%nat; [lra|]. cbv zeta.
    destruct (forallb _ _); [lra|]. destruct (Qeq_bool _ 0); [lra|].
    split; [apply py_max_ge_l|].
    apply py_max_lub; [lra|apply py_min_le_l].
  - unfold Fairness.calculate_gini. rewrite length_map, map_map.
    by rewrite (map_ext _ (py_max 0) py_max_0_idem).
Qed.

(** For two incomes the coefficient is half the relative mean difference:
    [|a - b| / (2 (a + b))], which is 1/2 for the pair of 0 and a positive
    value. *)
Theorem gini_two_values (a b : Q) :
  0 <= a -> 0 <= b ->
  Fairness.calculate_gini [a; b] == py_abs (a - b) / (2 * (a + b)).
Proof.
  intros Ha Hb.
  assert (Hcore : forall x y : Q,
             0 <= x -> x <= y -> ~ y == x ->
             py_max 0 (py_min 1 ((Qnat 2 + 1
                                  - 2 * Qsum (np_cumsum [x; y])
                                    / List.last (np_cumsum [x; y]) 0)
                                 / Qnat 2))
             == (y - x) / (2 * (x + y))).
  { intros x y Hx Hxy Hne.
    assert (Hpos : 0 < 2 * (x + y)) by lra.
    assert (E : (Qnat 2 + 1 - 2 * Qsum (np_cumsum [x; y])
                              / List.last (np_cumsum [x; y]) 0) / Qnat 2
                == (y - x) / (2 * (x + y))).
    { unfold np_cumsum, Qnat. cbn [cumsum_from List.last Qsum foldr length].
      change (inject_Z (Z.of_nat 2)) with 2. field. lra. }
    rewrite (py_max_proper 0 _ _ (py_min_proper 1 _ _ E)). apply py_clamp_unit.
    - apply Qle_shift_div_l; lra.
    - apply Qle_shift_div_r; lra. }
  unfold Fairness.calculate_gini. cbn [length Nat.ltb Nat.leb map]. cbv zeta.
  pose proof (py_max_0_nonneg a Ha) as Ea.
  pose proof (py_max_0_nonneg b Hb) as Eb.
  set (a' := py_max 0 a) in *. set (b' := py_max 0 b) in *.
  assert (Ha' : 0 <= a') by lra. assert (Hb' : 0 <= b') by lra.
  clearbody a' b'.
  unfold sorted. cbn [foldr insert_sorted].
  destruct (Qle_bool a' b') eqn:Hle.
  - apply Qle_bool_iff in Hle. cbn [forallb List.hd].
    rewrite (Qeq_bool_true a' a') by reflexivity. cbn [andb].
    destruct (Qeq_bool b' a') eqn:Heq.
    + apply Qeq_bool_iff in Heq. cbn [andb].
      rewrite py_abs_nonneg by lra.
      assert (E : a - b == 0) by lra. rewrite E. unfold Qdiv. ring.
    + cbn [andb].
      assert (Hne : ~ b' == a') by (intros E; by rewrite (Qeq_bool_true _ _ E) in Heq).
      rewrite (Qeq_bool_false (List.last (np_cumsum [a'; b']) 0) 0).
      2:{ unfold np_cumsum. cbn [cumsum_from List.last]. lra. }
      rewrite (Hcore a' b') by done.
      rewrite py_abs_nonpos by lra. rewrite Ea, Eb.
      assert (E : - (a - b) == b - a) by ring. by rewrite E.
  - assert (Hlt : b' < a').
    { destruct (Qlt_le_dec b' a') as [H|H]; [done|].
      apply Qle_bool_iff in H. congruence. }
    cbn [forallb List.hd].
    rewrite (Qeq_bool_true b' b') by reflexivity.
    rewrite (Qeq_bool_false a' b') by lra. cbn [andb].
    rewrite (Qeq_bool_false (List.last (np_cumsum [b'; a']) 0) 0).
    2:{ unfold np_cumsum. cbn [cumsum_from List.last]. lra. }
    rewrite (Hcore b' a') by lra.
    rewrite py_abs_nonneg by lra. rewrite Ea, Eb.
    assert (E : 2 * (b + a) == 2 * (a + b)) by ring. by rewrite E.
Qed.

Lemma gini_two_values_witness :
  Fairness.calculate_gini [0; 7] == py_abs (0 - 7) / (2 * (0 + 7))
  /\ py_abs (0 - 7) / (2 * (0 + 7)) == 1 # 2.
Proof.
  split; [apply (gini_two_values 0 7); lra|reflexivity].
Defined.

(** *** The order of the values is irrelevant *)

Lemma Qle_bool_proper (x x' y y' : Q) :
  x == x' -> y == y' -> Qle_bool x y = Qle_bool x' y'.
Proof.
  intros Ex Ey. destruct (Qle_bool x' y') eqn:E.
  - apply Qle_bool_iff in E. apply Qle_bool_iff. lra.
  - destruct (Qle_bool x y) eqn:E'; [|done].
    apply Qle_bool_iff in E'. rewrite <- E. symmetry. apply Qle_bool_iff. lra.
Qed.

Lemma Qeq_bool_proper (x x' y y' : Q) :
  x == x' -> y == y' -> Qeq_bool x y = Qeq_bool x' y'.
Proof.
  intros Ex Ey. destruct (Qeq_bool x' y') eqn:E.
  - apply Qeq_bool_iff in E. apply Qeq_bool_iff. lra.
  - destruct (Qeq_bool x y) eqn:E'; [|done].
    apply Qeq_bool_iff in E'. rewrite <- E. symmetry. apply Qeq_bool_iff. lra.
Qed.

Lemma insert_sorted_proper (x x' : Q) (l l' : list Q) :
  x == x' -> Forall2 Qeq l l' ->
  Forall2 Qeq (insert_sorted x l) (insert_sorted x' l').
Proof.
  intros Ex H. induction H as [|y y' l l' Ey H IH]; simpl.
  - by repeat constructor.
  - rewrite (Qle_bool_proper x x' y y' Ex Ey).
    destruct (Qle_bool x' y'); repeat (constructor; try done).
Qed.

Lemma Forall2_Qeq_refl (l : list Q) : Forall2 Qeq l l.
Proof. induction l; constructor; [reflexivity|done]. Qed.

Lemma Forall2_Qeq_trans (l1 l2 l3 : list Q) :
  Forall2 Qeq l1 l2 -> Forall2 Qeq l2 l3 -> Forall2 Qeq l1 l3.
Proof.
  intros H. revert l3. induction H as [|x y l l' E H IH]; intros l3 H3.
  - by inversion H3.
  - inversion H3 as [|y' z l'' l3' E' H' ]; subst. constructor.
    + by rewrite E.
    + by apply IH.
Qed.

Lemma Qle_bool_false_inv (x y : Q) : Qle_bool x y = false -> y < x.
Proof.
  intros E. destruct (Qlt_le_dec y x) as [H|H]; [done|].
  apply Qle_bool_true in H. congruence.
Qed.

(** Two insertions commute, up to the representation of equal numbers. *)
Lemma insert_sorted_swap (x y : Q) (l : list Q) :
  Forall2 Qeq (insert_sorted x (insert_sorted y l))
              (insert_sorted y (insert_sorted x l)).
Proof.
  induction l as [|z l IH]; simpl.
  - destruct (Qle_bool x y) eqn:Exy, (Qle_bool y x) eqn:Eyx;
      try apply Forall2_Qeq_refl.
    + apply Qle_bool_iff in Exy, Eyx.
      repeat constructor; lra.
    + apply Qle_bool_false_inv in Exy, Eyx. lra.
  - destruct (Qle_bool y z) eqn:Eyz, (Qle_bool x z) eqn:Exz; simpl;
      rewrite ?Eyz, ?Exz.
    + destruct (Qle_bool x y) eqn:Exy, (Qle_bool y x) eqn:Eyx;
        try apply Forall2_Qeq_refl.
      * apply Qle_bool_iff in Exy, Eyx.
        constructor; [lra|]. constructor; [lra|]. apply Forall2_Qeq_refl.
      * apply Qle_bool_false_inv in Exy, Eyx. lra.
    + rewrite Qle_bool_false.
      * apply Forall2_Qeq_refl.
      * apply Qle_bool_iff in Eyz. apply Qle_bool_false_inv in Exz. lra.
    + rewrite Qle_bool_false.
      * apply Forall2_Qeq_refl.
      * apply Qle_bool_iff in Exz. apply Qle_bool_false_inv in Eyz. lra.
    + constructor; [reflexivity|exact IH].
Qed.

Lemma sorted_cons (x : Q) (l : list Q) :
  sorted (x :: l) = insert_sorted x (sorted l).
Proof. reflexivity. Qed.

Lemma sorted_Permutation (l l' : list Q) :
  Permutation l l' -> Forall2 Qeq (sorted l) (sorted l').
Proof.
  induction 1 as [|x l l' _ IH|x y l|l1 l2 l3 _ IH1 _ IH2].
  - constructor.
  - rewrite !sorted_cons. by apply insert_sorted_proper.
  - rewrite !sorted_cons. apply insert_sorted_swap.
  - by eapply Forall2_Qeq_trans.
Qed.

Lemma cumsum_from_proper (acc acc' : Q) (l l' : list Q) :
  acc == acc' -> Forall2 Qeq l l' ->
  Forall2 Qeq (cumsum_from acc l) (cumsum_from acc' l').
Proof.
  intros Ea H. revert acc acc' Ea.
  induction H as [|x y l l' E H IH]; intros acc acc' Ea; simpl.
  - constructor.
  - constructor; [by rewrite Ea, E|]. apply IH. by rewrite Ea, E.
Qed.

Lemma Qsum_proper (l l' : list Q) : Forall2 Qeq l l' -> Qsum l == Qsum l'.
Proof.
  induction 1 as [|x y l l' E H IH]; [reflexivity|].
  rewrite !Qsum_cons. by rewrite E, IH.
Qed.

Lemma last_proper (l l' : list Q) (d : Q) :
  Forall2 Qeq l l' -> List.last l d == List.last l' d.
Proof.
  induction 1 as [|x y l l' E H IH]; [reflexivity|].
  simpl. destruct H; [exact E|exact IH].
Qed.

Lemma forallb_Qeq_proper (y y' : Q) (l l' : list Q) :
  y == y' -> Forall2 Qeq l l' ->
  forallb (fun v => Qeq_bool v y) l = forallb (fun v => Qeq_bool v y') l'.
Proof.
  intros Ey. induction 1 as [|x x' l l' E H IH]; [reflexivity|].
  simpl. by rewrite (Qeq_bool_proper x x' y y' E Ey), IH.
Qed.

Lemma hd_proper (l l' : list Q) (d : Q) :
  Forall2 Qeq l l' -> List.hd d l == List.hd d l'.
Proof. destruct 1; [reflexivity|done]. Qed.

(** The coefficient does not depend on the order in which the values are
    listed. *)
Theorem gini_permutation (values values' : list Q) :
  Permutation values values' ->
  Fairness.calculate_gini values == Fairness.calculate_gini values'.
Proof.
  intros H. unfold Fairness.calculate_gini.
  rewrite <- (Permutation_length H).
  destruct (_ <? 2)%nat; [reflexivity|]. cbv zeta.
  assert (Hs : Forall2 Qeq (sorted (map (py_max 0) values))
                       (sorted (map (py_max 0) values'))).
  { apply sorted_Permutation. by apply Permutation_map. }
  revert Hs.
  generalize (sorted (map (py_max 0) values)).
  generalize (sorted (map (py_max 0) values')).
  intros s' s Hs.
  rewrite (forallb_Qeq_proper _ _ s s' (hd_proper s s' 0 Hs) Hs).
  destruct (forallb _ s'); [reflexivity|].
  pose proof (cumsum_from_proper 0 0 s s' ltac:(reflexivity) Hs) as Hc.
  fold (np_cumsum s) in Hc. fold (np_cumsum s') in Hc.
  pose proof (last_proper _ _ 0 Hc) as Hl.
  pose proof (Qsum_proper _ _ Hc) as Hq.
  rewrite (Qeq_bool_proper _ _ 0 0 Hl ltac:(reflexivity)).
  destruct (Qeq_bool _ 0); [reflexivity|].
  rewrite (Forall2_length _ _ _ Hs).
  apply py_max_proper, py_min_proper. by rewrite Hl, Hq.
Qed.

Lemma gini_permutation_witness :
  Fairness.calculate_gini [1; 2; 4] == Fairness.calculate_gini [4; 1; 2].
Proof.
  apply (gini_permutation [1; 2; 4] [4; 1; 2]).
  symmetry. apply (Permutation_cons_append [1; 2] 4).
Defined.

(** ** Market concentration *)

Lemma foldl_Qplus (a : Q) (l : list Q) : foldl Qplus a l == a + Qsum l.
Proof.
  revert a. induction l as [|x l IH]; intros a; cbn [foldl].
  - change (Qsum []) with 0. ring.
  - rewrite IH, Qsum_cons. ring.
Qed.

Lemma py_sum_Qsum (l : list Q) : py_sum l == Qsum l.
Proof. unfold py_sum. rewrite foldl_Qplus. ring. Qed.

Lemma Qsum_map_div (t : Q) (l : list Q) :
  Qsum (map (fun s => s / t) l) == Qsum l / t.
Proof.
  induction l as [|x l IH]; cbn [map].
  - change (Qsum []) with 0. unfold Qdiv. ring.
  - rewrite !Qsum_cons, IH. unfold Qdiv. ring.
Qed.

Lemma Qsum_nonneg (l : list Q) : Forall (fun x => 0 <= x) l -> 0 <= Qsum l.
Proof.
  induction 1 as [|x l Hx _ IH]; [change (Qsum []) with 0; lra|].
  rewrite Qsum_cons. lra.
Qed.

Lemma square_eq (x : Q) : x ^ 2 == x * x.
Proof. simpl. ring. Qed.

(** The squares of non-negative numbers sum to at most the square of
    their sum. *)
Lemma sum_squares_le (l : list Q) :
  Forall (fun x => 0 <= x) l ->
  Qsum (map (fun x => x ^ 2) l) <= Qsum l * Qsum l.
Proof.
  induction 1 as [|x l Hx Hl IH]; cbn [map].
  - change (Qsum []) with 0. lra.
  - rewrite !Qsum_cons, square_eq. pose proof (Qsum_nonneg l Hl) as Hs.
    assert (0 <= x * Qsum l) by (apply Qmult_le_0_compat; lra).
    assert (E : (x + Qsum l) * (x + Qsum l)
                == x * x + 2 * (x * Qsum l) + Qsum l * Qsum l) by ring.
    rewrite E. lra.
Qed.

(** The squared distances to any number [c] sum to a non-negative number. *)
Lemma sum_squares_shift (c : Q) (l : list Q) :
  0 <= Qsum (map (fun x => x ^ 2) l) - 2 * c * Qsum l
       + Qnat (length l) * c * c.
Proof.
  induction l as [|x l IH]; cbn [map length].
  - change (Qsum []) with 0. change (Qnat 0) with 0. lra.
  - rewrite !Qsum_cons, square_eq, Qnat_S.
    assert (0 <= (x - c) * (x - c)).
    { destruct (Qlt_le_dec (x - c) 0).
      - assert (E : (x - c) * (x - c) == (c - x) * (c - x)) by ring.
        rewrite E. apply Qmult_le_0_compat; lra.
      - apply Qmult_le_0_compat; lra. }
    assert (E : x * x + Qsum (map (fun x => x ^ 2) l) - 2 * c * (x + Qsum l)
                + (Qnat (length l) + 1) * c * c
                == (Qsum (map (fun x => x ^ 2) l) - 2 * c * Qsum l
                    + Qnat (length l) * c * c)
                   + (x - c) * (x - c)) by ring.
    rewrite E. lra.
Qed.

Lemma herfindahl_unfold (x : Q) (l : list Q) :
  ~ py_sum (x :: l) == 0 ->
  AgentStatus.calculate_herfindahl_index (x :: l)
  == Qsum (map (fun s => s ^ 2)
               (map (fun s => s / py_sum (x :: l)) (x :: l))).
Proof.
  intros H. unfold AgentStatus.calculate_herfindahl_index.
  rewrite (Qeq_bool_false _ _ H). apply py_sum_Qsum.
Qed.

(** For non-negative market shares that are not all zero, the index lies
    between [1/n], for the [n] enterprises, and 1. *)
Theorem herfindahl_range (market_shares : list Q) :
  Forall (fun s => 0 <= s) market_shares ->
  0 < py_sum market_shares ->
  let h := AgentStatus.calculate_herfindahl_index market_shares in
  1 / Qnat (length market_shares) <= h /\ h <= 1.
Proof.
  intros Hs Ht. cbv zeta.
  destruct market_shares as [|x l]; [by vm_compute in Ht|].
  rewrite herfindahl_unfold by (intros E; lra).
  set (t := py_sum (x :: l)) in *. set (shares := x :: l) in *.
  set (xs := map (fun s => s / t) shares).
  assert (Hxs : Forall (fun s => 0 <= s) xs).
  { apply Forall_map. eapply Forall_impl; [exact Hs|].
    intros s H. cbv beta in H |- *. apply Qle_shift_div_l; lra. }
  assert (Hone : Qsum xs == 1).
  { unfold xs. rewrite Qsum_map_div. unfold t. rewrite py_sum_Qsum.
    fold t. rewrite <- (py_sum_Qsum shares). fold t. field. lra. }
  assert (Hn : 0 < Qnat (length shares)) by (apply Qnat_pos; simpl; lia).
  assert (Hlen : length xs = length shares) by apply length_map.
  split.
  - pose proof (sum_squares_shift (1 / Qnat (length shares)) xs) as H.
    rewrite Hone, Hlen in H.
    assert (E : Qnat (length shares) * (1 / Qnat (length shares))
                * (1 / Qnat (length shares))
                == 1 / Qnat (length shares)) by (field; lra).
    rewrite E in H. lra.
  - pose proof (sum_squares_le xs Hxs) as H. rewrite Hone in H. lra.
Qed.

Lemma herfindahl_range_witness :
  let shares := [0.5; 0.3; 0.2] in
  1 / Qnat (length shares) <= AgentStatus.calculate_herfindahl_index shares
  /\ AgentStatus.calculate_herfindahl_index shares <= 1.
Proof.
  apply (herfindahl_range [0.5; 0.3; 0.2]).
  - repeat constructor; lra.
  - reflexivity.
Defined.

Lemma Qsum_replicate (n : nat) (x : Q) :
  Qsum (replicate n x) == Qnat n * x.
Proof.
  induction n as [|n IH]; cbn [replicate].
  - change (Qsum []) with 0. change (Qnat 0) with 0. ring.
  - rewrite Qsum_cons, IH, Qnat_S. ring.
Qed.

Lemma map_replicate {A B : Type} (f : A -> B) (n : nat) (x : A) :
  map f (replicate n x) = replicate n (f x).
Proof. induction n as [|n IH]; [done|]. simpl. by rewrite IH. Qed.

(** [n] enterprises with the same non-zero share have the index [1/n]; a
    single enterprise has the index 1. *)
Theorem herfindahl_equal_shares (n : nat) (x : Q) :
  ~ x == 0 ->
  AgentStatus.calculate_herfindahl_index (replicate (S n) x)
  == 1 / Qnat (S n).
Proof.
  intros Hx.
  assert (Hn : 0 < Qnat (S n)) by (apply Qnat_pos; lia).
  assert (Ht : py_sum (replicate (S n) x) == Qnat (S n) * x).
  { rewrite py_sum_Qsum. apply Qsum_replicate. }
  assert (Hne : ~ py_sum (replicate (S n) x) == 0).
  { rewrite Ht. intros E. apply Qmult_integral in E. destruct E; lra. }
  change (replicate (S n) x) with (x :: replicate n x) in *.
  rewrite herfindahl_unfold by done.
  change (x :: replicate n x) with (replicate (S n) x) in *.
  set (t := py_sum (replicate (S n) x)) in *.
  rewrite !map_replicate, Qsum_replicate, square_eq, Ht. field. split; lra.
Qed.

Lemma herfindahl_equal_shares_witness :
  AgentStatus.calculate_herfindahl_index [0.25; 0.25; 0.25; 0.25] == 1 / Qnat 4.
Proof.
  apply (herfindahl_equal_shares 3 0.25). lra.
Defined.

(** ** The digital divide and the fairness indicators *)

Lemma access_bounds (r : FairnessIndicators.resident_data) :
  0 <= FairnessIndicators.access r /\ FairnessIndicators.access r <= 1.
Proof.
  unfold FairnessIndicators.access.
  destruct (default false _); lra.
Qed.

Lemma access_mean_bounds (l : list FairnessIndicators.resident_data) :
  l <> [] ->
  0 <= np_mean (map FairnessIndicators.access l)
  /\ np_mean (map FairnessIndicators.access l) <= 1.
Proof.
  intros H. apply np_mean_bounds.
  - by destruct l.
  - apply Forall_map, Forall_forall. intros x _. apply access_bounds.
Qed.

Lemma py_abs_difference (x y : Q) :
  0 <= x /\ x <= 1 -> 0 <= y /\ y <= 1 ->
  0 <= py_abs (x - y) /\ py_abs (x - y) <= 1.
Proof. intros Hx Hy. unfold py_abs. destruct (Qlt_le_dec (x - y) 0); lra. Qed.

(** The digital divide is a number of [0, 1], and it is 0 whenever no
    resident, or every resident, earns more than 6000: the index compares
    the two income groups only when both exist. *)
Theorem digital_divide_range (residents : list FairnessIndicators.resident_data) :
  let divide := FairnessIndicators.calculate_digital_divide residents in
  (0 <= divide /\ divide <= 1)
  /\ (Forall (fun r => default 0 (FairnessIndicators.d_income_level r) <= 6000)
             residents -> divide = 0)
  /\ (Forall (fun r => 6000 < default 0 (FairnessIndicators.d_income_level r))
             residents -> divide = 0).
Proof.
  cbv zeta. unfold FairnessIndicators.calculate_digital_divide.
  destruct residents as [|r rs]; [repeat split; first [lra|done]|].
  cbv iota zeta. set (residents := r :: rs).
  split; [|split].
  - destruct (List.filter _ residents) as [|h hs] eqn:Eh; [lra|].
    destruct (List.filter (fun r => Qle_bool _ 6000) residents)
      as [|l ls] eqn:El; [lra|].
    cbv zeta. apply py_abs_difference; by apply access_mean_bounds.
  - intros H. rewrite (filter_none _ residents); [done|].
    eapply Forall_impl; [exact H|]. intros x Hx. cbv beta in Hx |- *.
    by rewrite Qle_bool_true.
  - intros H.
    rewrite (filter_none (fun r => Qle_bool _ 6000) residents).
    + by destruct (List.filter _ residents).
    + eapply Forall_impl; [exact H|]. intros x Hx. cbv beta in Hx |- *.
      by apply Qle_bool_false.
Qed.

Lemma filter_all {A : Type} (p : A -> bool) (l : list A) :
  Forall (fun x => p x = true) l -> List.filter p l = l.
Proof.
  induction 1 as [|x l Hx _ IH]; [done|]. simpl. by rewrite Hx, IH.
Qed.

Lemma Qsum_pos (x : Q) (l : list Q) :
  Forall (fun v => 0 < v) (x :: l) -> 0 < Qsum (x :: l).
Proof.
  intros H. inversion H as [|? ? Hx Hl]; subst.
  assert (0 <= Qsum l).
  { apply Qsum_nonneg. eapply Forall_impl; [exact Hl|]. intros v Hv.
    cbv beta in Hv |- *. lra. }
  rewrite Qsum_cons. lra.
Qed.

Lemma np_mean_pos (l : list Q) :
  l <> [] -> Forall (fun v => 0 < v) l -> 0 < np_mean l.
Proof.
  intros Hl H. destruct l as [|x l]; [done|].
  unfold np_mean. apply Qlt_shift_div_l.
  - apply Qnat_pos. simpl. lia.
  - pose proof (Qsum_pos x l H). lra.
Qed.

(** A single positive score beside two zeros: the coefficient is 2/3. *)
Lemma gini_one_of_three (m : Q) :
  0 < m -> Fairness.calculate_gini [0; 0; m] == 2 # 3.
Proof.
  intros Hm. unfold Fairness.calculate_gini.
  cbn [length Nat.ltb Nat.leb map]. cbv zeta.
  assert (E0 : py_max 0 0 = 0) by (unfold py_max; by destruct (Qlt_le_dec 0 0)).
  assert (Em : py_max 0 m = m).
  { unfold py_max. destruct (Qlt_le_dec 0 m); [done|lra]. }
  rewrite E0, Em. unfold sorted. cbn [foldr insert_sorted].
  rewrite (Qle_bool_true 0 m) by lra. cbn [insert_sorted].
  change (Qle_bool 0 0) with true. cbv iota.
  cbn [forallb List.hd]. change (Qeq_bool 0 0) with true.
  rewrite (Qeq_bool_false m 0) by (intros E; lra). cbn [andb].
  unfold np_cumsum. cbn [cumsum_from List.last length Qsum foldr].
  rewrite (Qeq_bool_false (0 + 0 + 0 + m) 0) by (intros E; lra).
  assert (E : (Qnat 3 + 1 - 2 * (0 + 0 + (0 + 0 + 0 + (0 + 0 + 0 + m + 0)))
                            / (0 + 0 + 0 + m)) / Qnat 3 == 2 # 3).
  { change (Qnat 3) with 3. field. lra. }
  rewrite (py_max_proper 0 _ _ (py_min_proper 1 _ _ E)). reflexivity.
Qed.

(** When all the residents live in one of the three areas, the two areas
    without residents enter the satisfaction scores as 0.0, and the Gini
    coefficient of the satisfaction is 2/3, whatever the (positive)
    satisfaction of the residents is. *)
Theorem fairness_single_area
    (a : string) (residents : list FairnessIndicators.resident_data) :
  a ∈ FairnessIndicators.area_names ->
  residents <> [] ->
  Forall (fun r => default "core_area" (FairnessIndicators.d_area r) = a)
         residents ->
  Forall (fun r => 0 < default 3 (FairnessIndicators.d_satisfaction r))
         residents ->
  FairnessIndicators.satisfaction_gini
    (FairnessIndicators.calculate_fairness residents) == 2 # 3.
Proof.
  intros Ha Hne Harea Hsat.
  unfold FairnessIndicators.calculate_fairness.
  destruct residents as [|r rs]; [done|]. set (residents := r :: rs) in *.
  cbv zeta. cbn [FairnessIndicators.satisfaction_gini].
  set (sat := fun r => default 3 (FairnessIndicators.d_satisfaction r)).
  assert (Hsame : FairnessIndicators.area_group a residents = residents).
  { apply filter_all. eapply Forall_impl; [exact Harea|].
    intros x Hx. cbv beta in Hx |- *. rewrite Hx. apply String.eqb_refl. }
  assert (Hother : forall a', a' <> a ->
             FairnessIndicators.area_group a' residents = []).
  { intros a' Hne'. apply filter_none. eapply Forall_impl; [exact Harea|].
    intros x Hx. cbv beta in Hx |- *. rewrite Hx.
    apply String.eqb_neq. congruence. }
  assert (Hm : 0 < FairnessIndicators.area_score sat residents).
  { unfold FairnessIndicators.area_score, residents. fold residents.
    apply np_mean_pos; [done|]. by apply Forall_map. }
  set (m := FairnessIndicators.area_score sat residents) in *.
  unfold FairnessIndicators.area_names in *. cbn [map].
  assert (Ecases : a = "core_area" \/ a = "urban_rural_fringe" \/ a = "rural")
    by set_solver.
  destruct Ecases as [-> | [-> | ->]];
    rewrite Hsame, !Hother by done; fold m;
    change (FairnessIndicators.area_score sat []) with 0.
  - rewrite (gini_permutation [m; 0; 0] [0; 0; m]).
    + by apply gini_one_of_three.
    + apply (Permutation_cons_append [0; 0] m).
  - rewrite (gini_permutation [0; m; 0] [0; 0; m]).
    + by apply gini_one_of_three.
    + constructor. apply perm_swap.
  - by apply gini_one_of_three.
Qed.

Lemma fairness_single_area_witness :
  let resident satisfaction :=
    {| FairnessIndicators.d_area := Some "rural";
       FairnessIndicators.d_digital_access := Some true;
       FairnessIndicators.d_service_usage_frequency := Some 5;
       FairnessIndicators.d_satisfaction := Some satisfaction;
       FairnessIndicators.d_income_level := Some 5000 |} in
  FairnessIndicators.satisfaction_gini
    (FairnessIndicators.calculate_fairness [resident 4; resident 2.5]) == 2 # 3.
Proof.
  intros resident.
  apply (fairness_single_area "rural" [resident 4; resident 2.5]).
  - unfold FairnessIndicators.area_names. set_solver.
  - discriminate.
  - repeat constructor.
  - repeat constructor; simpl; lra.
Defined.

(** ** Joint actions and conflicts *)

(** A loop that adds to a counter what [weight] gives for each element. *)
Lemma foldl_count {A : Type} (step : nat -> A -> nat) (weight : A -> nat)
    (l : list A) (c : nat) :
  (forall c x, step c x = (c + weight x)%nat) ->
  foldl step c l = (c + sum_list (map weight l))%nat.
Proof.
  intros Hstep. revert c. induction l as [|x l IH]; intros c; simpl.
  - lia.
  - rewrite IH, Hstep. lia.
Qed.

(** The two counters of a loop over the rounds: the interactions seen and
    the weight they add up to. *)
Lemma foldl_counters (step : nat -> interaction -> nat)
    (weight : interaction -> nat) (records : list round_record) (t c : nat) :
  (forall c x, step c x = (c + weight x)%nat) ->
  foldl (fun '(total, count) record =>
           let interactions := CollaborationRates.interactions_of record in
           ((total + length interactions)%nat, foldl step count interactions))
        (t, c) records
  = ((t + sum_list (map (fun r => length (CollaborationRates.interactions_of r))
                        records))%nat,
     (c + sum_list (map (fun r => sum_list (map weight
                                   (CollaborationRates.interactions_of r)))
                        records))%nat).
Proof.
  intros Hstep. revert t c.
  induction records as [|r records IH]; intros t c; simpl.
  - f_equal; lia.
  - rewrite IH, (foldl_count step weight) by done. f_equal; lia.
Qed.

Lemma sum_list_weights {A : Type} (weight : A -> nat) (k : nat) (l : list A) :
  Forall (fun x => (weight x <= k)%nat) l ->
  (sum_list (map weight l) <= k * length l)%nat.
Proof. induction 1; simpl; lia. Qed.

Lemma sum_list_rounds (weight : interaction -> nat) (k : nat)
    (records : list round_record) :
  Forall (fun r => Forall (fun x => (weight x <= k)%nat)
                          (CollaborationRates.interactions_of r)) records ->
  (sum_list (map (fun r => sum_list (map weight
                             (CollaborationRates.interactions_of r))) records)
   <= k * sum_list (map (fun r => length (CollaborationRates.interactions_of r))
                        records))%nat.
Proof.
  induction 1 as [|r records Hr _ IH]; simpl; [lia|].
  pose proof (sum_list_weights weight k _ Hr). lia.
Qed.

Lemma rate_bounds (k n m : nat) :
  (n <= k * m)%nat ->
  let rate := if (0 <? m)%nat then Qnat n / Qnat m else 0 in
  0 <= rate /\ rate <= Qnat k.
Proof.
  intros H. cbv zeta. destruct (0 <? m)%nat eqn:E.
  - apply Nat.ltb_lt in E. pose proof (Qnat_pos m E). split.
    + apply Qle_shift_div_l; [done|]. pose proof (Qnat_nonneg n). lra.
    + apply Qle_shift_div_r; [done|]. rewrite <- Qnat_mul. by apply Qnat_le.
  - pose proof (Qnat_nonneg k). lra.
Qed.


(** The joint action rate is a number of [0, 1]. The conflict rate is a
    number of [0, 2]: an interaction whose outcome is a conflict and that
    is a regulation without compliance is counted twice; where no
    interaction is both, the rate is at most 1. *)
Theorem collaboration_rates_range (simulation_records : list round_record) :
  let joint := CollaborationRates.calculate_joint_action_rate simulation_records in
  let conflict := CollaborationRates.calculate_conflict_rate simulation_records in
  (0 <= joint /\ joint <= 1)
  /\ (0 <= conflict /\ conflict <= 2)
  /\ (Forall (fun r =>
                Forall (fun i => CollaborationRates.conflictual_outcome i
                                 && CollaborationRates.regulatory_conflict i
                                 = false)
                       (CollaborationRates.interactions_of r))
             simulation_records ->
      conflict <= 1).
Proof.
  cbv zeta.
  unfold CollaborationRates.calculate_joint_action_rate,
    CollaborationRates.calculate_conflict_rate.
  destruct simulation_records as [|r rs]; [repeat split; intros; lra|].
  set (records := r :: rs).
  rewrite (foldl_counters _ CollaborationRates.joint_weight records).
  2:{ intros c x. unfold CollaborationRates.joint_weight.
      destruct (CollaborationRates.is_joint_action x); lia. }
  rewrite (foldl_counters _ CollaborationRates.conflict_weight records).
  2:{ intros c x. unfold CollaborationRates.conflict_weight. cbv zeta.
      destruct (CollaborationRates.conflictual_outcome x),
        (CollaborationRates.regulatory_conflict x); lia. }
  cbn [Nat.add].
  set (total := sum_list (map (fun r => length (CollaborationRates.interactions_of r))
                              records)).
  split; [|split].
  - apply (rate_bounds 1).
    apply (sum_list_rounds CollaborationRates.joint_weight 1 records).
    apply Forall_forall. intros x _. apply Forall_forall. intros i _.
    unfold CollaborationRates.joint_weight.
    destruct (CollaborationRates.is_joint_action i); lia.
  - apply (rate_bounds 2).
    apply (sum_list_rounds CollaborationRates.conflict_weight 2 records).
    apply Forall_forall. intros x _. apply Forall_forall. intros i _.
    unfold CollaborationRates.conflict_weight.
    destruct (CollaborationRates.conflictual_outcome i),
      (CollaborationRates.regulatory_conflict i); lia.
  - intros H. apply (rate_bounds 1).
    apply (sum_list_rounds CollaborationRates.conflict_weight 1 records).
    eapply Forall_impl; [exact H|]. intros x Hx. cbv beta in Hx |- *.
    eapply Forall_impl; [exact Hx|]. intros i Hi. cbv beta in Hi |- *.
    unfold CollaborationRates.conflict_weight.
    destruct (CollaborationRates.conflictual_outcome i),
      (CollaborationRates.regulatory_conflict i); simpl in Hi; first [lia|done].
Qed.

(** ** Recommendations *)

Lemma filter_NoDup {A : Type} (p : A -> bool) (l : list A) :
  NoDup l -> NoDup (List.filter p l).
Proof.
  induction 1 as [|x l Hx Hl IH]; simpl; [constructor|].
  destruct (p x); [|done]. constructor; [|done].
  rewrite list_elem_of_In, filter_In, <- list_elem_of_In. tauto.
Qed.

(** The list [recommend_policies] filters: each of the four conditions
    adds its policy, in this order. *)
Lemma recommended_candidates (b1 b2 b3 b4 : bool) :
  let l1 := if b1 then [] ++ ["digital_literacy_training"] else [] in
  let l2 := if b2 then l1 ++ ["inclusive_infrastructure"] else l1 in
  let l3 := if b3 then l2 ++ ["data_open_sharing"] else l2 in
  let l4 := if b4 then l3 ++ ["algorithm_regulation"] else l3 in
  NoDup l4
  /\ (forall p, p ∈ l4 ->
        p ∈ ["digital_literacy_training"; "inclusive_infrastructure";
             "data_open_sharing"; "algorithm_regulation"])
  /\ (b1 = true -> "digital_literacy_training" ∈ l4)
  /\ (b2 = true -> "inclusive_infrastructure" ∈ l4)
  /\ (b3 = true -> "data_open_sharing" ∈ l4)
  /\ (b4 = true -> "algorithm_regulation" ∈ l4).
Proof.
  destruct b1, b2, b3, b4; cbn;
    (split; [apply (bool_decide_unpack (NoDup _)); vm_compute; exact I|]);
    (split; [intros p Hp; set_solver|]);
    repeat split; intros; first [done|set_solver].
Qed.

(** [recommend_policies] never recommends a policy that was applied, and
    never one twice; it recommends only the four policies it knows, and it
    does recommend the policy of a requested improvement unless that
    policy was applied. *)
Theorem recommendations_sound (self : policy_engine)
    (current_metrics : gmap string (gmap string Q))
    (target_improvements : list string) :
  let recommendations :=
    PolicyAdvice.recommend_policies self current_metrics target_improvements in
  NoDup recommendations
  /\ (forall p, p ∈ recommendations ->
        p ∉ applied_policies self
        /\ p ∈ ["digital_literacy_training"; "inclusive_infrastructure";
                "data_open_sharing"; "algorithm_regulation"])
  /\ (forall improvement p,
        (improvement, p)
          ∈ [("digital_equity", "digital_literacy_training");
             ("infrastructure", "inclusive_infrastructure");
             ("efficiency", "data_open_sharing");
             ("regulation", "algorithm_regulation")] ->
        improvement ∈ target_improvements ->
        p ∉ applied_policies self ->
        p ∈ recommendations).
Proof.
  cbv zeta. unfold PolicyAdvice.recommend_policies.
  set (b1 := _ || bool_decide ("digital_equity" ∈ target_improvements)).
  set (b2 := _ || bool_decide ("infrastructure" ∈ target_improvements)).
  set (b3 := _ || bool_decide ("efficiency" ∈ target_improvements)).
  set (b4 := _ || bool_decide ("regulation" ∈ target_improvements)).
  cbv zeta.
  destruct (recommended_candidates b1 b2 b3 b4)
    as (Hnd & Hin & H1 & H2 & H3 & H4).
  cbv zeta in Hnd, Hin, H1, H2, H3, H4.
  set (candidates := if b4 then _ else _) in *.
  assert (Hfilter : forall p,
             p ∈ List.filter
                   (fun p => negb (bool_decide (p ∈ applied_policies self)))
                   candidates
             <-> p ∉ applied_policies self /\ p ∈ candidates).
  { intros p. rewrite list_elem_of_In, filter_In, <- list_elem_of_In.
    rewrite negb_true_iff, bool_decide_eq_false. tauto. }
  split; [by apply filter_NoDup|]. split.
  - intros p Hp. apply Hfilter in Hp as [Hp1 Hp2]. split; [done|by apply Hin].
  - intros improvement p Hpair Himp Hp. apply Hfilter. split; [done|].
    assert (Hb : forall t, t ∈ target_improvements ->
               forall b, b || bool_decide (t ∈ target_improvements) = true).
    { intros t Ht b. rewrite (bool_decide_eq_true_2 _ Ht). apply orb_true_r. }
    repeat (apply elem_of_cons in Hpair as [Hpair|Hpair];
            [injection Hpair as -> ->|]).
    + apply H1, Hb, Himp.
    + apply H2, Hb, Himp.
    + apply H3, Hb, Himp.
    + apply H4, Hb, Himp.
    + by apply elem_of_nil in Hpair.
Qed.

(** * Frames: what a computation leaves alone *)

Section Frames.

Context {X : Type} (proj : world -> X).

Lemma untouched_ret {A : Type} (a : A) : untouched proj (mret a).
Proof. by intros w. Qed.

Lemma untouched_raise {A : Type} (e : exn) : untouched proj (raise e : M A).
Proof. by intros w. Qed.

Lemma untouched_gets {A : Type} (f : world -> A) : untouched proj (gets f).
Proof. by intros w. Qed.

Lemma untouched_modify (f : world -> world) :
  (forall w, proj (f w) = proj w) -> untouched proj (modify f).
Proof. intros H w. apply H. Qed.

Lemma untouched_bind {A B : Type} (m : M A) (f : A -> M B) :
  untouched proj m -> (forall a, untouched proj (f a)) ->
  untouched proj (m ≫= f).
Proof.
  intros Hm Hf w. rewrite run_bind. specialize (Hm w).
  destruct (m w) as [[a|e] w1]; simpl in *; [|done].
  by rewrite Hf.
Qed.

Lemma untouched_fmap {A B : Type} (g : A -> B) (m : M A) :
  untouched proj m -> untouched proj (g <$> m).
Proof.
  intros H. apply untouched_bind; [done|]. intros a. apply untouched_ret.
Qed.

Lemma untouched_for_each {A : Type} (l : list A) (body : A -> M unit) :
  (forall x, x ∈ l -> untouched proj (body x)) ->
  untouched proj (for_each l body).
Proof.
  induction l as [|x l IH]; intros H; simpl; [apply untouched_ret|].
  apply untouched_bind; [apply H; left|]. intros _. apply IH.
  intros y Hy. apply H. by right.
Qed.

Lemma untouched_collect {A B : Type} (l : list A) (body : A -> M (list B)) :
  (forall x, x ∈ l -> untouched proj (body x)) ->
  untouched proj (collect l body).
Proof.
  induction l as [|x l IH]; intros H; simpl; [apply untouched_ret|].
  apply untouched_bind; [apply H; left|]. intros ys.
  apply untouched_bind; [|intros zs; apply untouched_ret].
  apply IH. intros y Hy. apply H. by right.
Qed.

Lemma untouched_select {A : Type} (l : list A) (cond : A -> M bool) :
  (forall x, x ∈ l -> untouched proj (cond x)) ->
  untouched proj (PolicyEngine.select l cond).
Proof.
  induction l as [|x l IH]; intros H; simpl; [apply untouched_ret|].
  apply untouched_bind; [apply H; left|]. intros b.
  apply untouched_bind; [|intros xs; apply untouched_ret].
  apply IH. intros y Hy. apply H. by right.
Qed.

Lemma untouched_logger lv msg args :
  ignores_logging proj -> untouched proj (logger lv msg args).
Proof. intros H w. apply H. Qed.

Lemma untouched_random_random :
  ignores_random proj -> untouched proj random_random.
Proof. intros H w. apply H. Qed.

Lemma untouched_random_uniform (a b : Q) :
  ignores_random proj -> untouched proj (random_uniform a b).
Proof. intros H w. apply H. Qed.

Lemma untouched_random_randint (a b : nat) :
  ignores_random proj -> untouched proj (random_randint a b).
Proof.
  intros H w. unfold random_randint.
  destruct (Random.randint a b (random_source w)). apply H.
Qed.

Lemma untouched_random_sample {A : Type} (population : list A) (k : nat) :
  ignores_random proj -> untouched proj (random_sample population k).
Proof.
  intros H w. unfold random_sample.
  destruct (Random.sample population k (random_source w)). apply H.
Qed.

Lemma untouched_assign (f : world -> agent) (r : ref) :
  ignores_agents proj -> untouched proj (modify (fun w => assign r (f w) w)).
Proof. intros H w. apply H. Qed.

Lemma untouched_environment_set (f : environment -> environment) :
  ignores_env proj -> untouched proj (Environment.set f).
Proof. intros H w. apply H. Qed.

Lemma untouched_policy_set (f : policy_engine -> policy_engine) :
  ignores_policy proj -> untouched proj (PolicyEngine.set f).
Proof. intros H w. apply H. Qed.

(** What depends on an untouched component only is preserved. *)
Lemma untouched_preserves {A : Type} (P : X -> Prop) (m : M A) :
  untouched proj m -> preserves (fun w => P (proj w)) m.
Proof. intros H w Hw. by rewrite H. Qed.

End Frames.

(** The side condition that a concrete component ignores a kind of write. *)
Ltac ignore :=
  first [ assumption
        | by intros ? ?
        | by intros [] ? ? ].

(** A write the component ignores. *)
Ltac ignore_write :=
  match goal with
  | H : ignores_agents ?p |- ?p (assign _ _ _) = _ => apply H
  | H : ignores_random ?p |- ?p (with_random_source _ _) = _ => apply H
  | H : ignores_logging ?p |- ?p (with_logging _ _) = _ => apply H
  | H : ignores_env ?p |- ?p (with_env _ _) = _ => apply H
  | H : ignores_engine ?p |- ?p (with_engine _ _) = _ => apply H
  | H : ignores_policy ?p |- ?p (with_policy _ _) = _ => apply H
  | |- _ (assign ?r _ _) = _ => by destruct r
  end.

(** One structural step of a proof that a component is left alone. *)
Ltac frame_step :=
  match goal with
  | |- untouched _ (mret _) => apply untouched_ret
  | |- untouched _ (raise _) => apply untouched_raise
  | |- untouched _ (gets _) => apply untouched_gets
  | |- untouched _ (state_get _ _ _) => apply untouched_gets
  | |- untouched _ (attr_get _ _ _) => apply untouched_gets
  | |- untouched _ (attr_mem _ _) => apply untouched_gets
  | |- untouched _ (id_of _ _) => apply untouched_gets
  | |- untouched _ (area_of _) => apply untouched_gets
  | |- untouched _ (InteractionEngine.table _) => apply untouched_gets
  | |- untouched _ (PolicyEngine.self _) => apply untouched_gets
  | |- untouched _ (Environment.self _) => apply untouched_gets
  | |- untouched _ (num ?v) =>
      destruct v; [apply untouched_ret|apply untouched_raise]
  | |- untouched _ (items ?c) =>
      destruct c;
      [apply untouched_raise|apply untouched_raise|apply untouched_ret]
  | |- untouched _ (InteractionEngine.subscript ?rules ?name) =>
      unfold InteractionEngine.subscript; destruct (rules !! name)
  | |- untouched _ random_random => apply untouched_random_random; ignore
  | |- untouched _ (random_uniform _ _) => apply untouched_random_uniform; ignore
  | |- untouched _ (random_randint _ _) => apply untouched_random_randint; ignore
  | |- untouched _ (random_sample _ _) => apply untouched_random_sample; ignore
  | |- untouched _ (logger _ _ _) => apply untouched_logger; ignore
  | |- untouched _ (state_set _ _ _) => apply untouched_assign; ignore
  | |- untouched _ (attr_set _ _ _) => apply untouched_assign; ignore
  | |- untouched _ (PolicyEngine.set_behavior_modifier _ _ _) =>
      apply untouched_assign; ignore
  | |- untouched _ (PolicyEngine.set_rule_modifier _ _ _ _) =>
      apply untouched_assign; ignore
  | |- untouched _ (Environment.set _) =>
      first [ apply untouched_environment_set; ignore
            | apply untouched_modify; intros ?; reflexivity ]
  | |- untouched _ (PolicyEngine.set _) =>
      first [ apply untouched_policy_set; ignore
            | apply untouched_modify; intros ?; reflexivity
            | match goal with
              | H : forall f, _ -> untouched _ (PolicyEngine.set f) |- _ =>
                  apply H; intros ?; reflexivity
              end ]
  | |- untouched _ (PolicyEngine.ensure_policy_modifiers _) =>
      unfold PolicyEngine.ensure_policy_modifiers;
      apply untouched_modify; intros ?; cbv beta zeta;
      match goal with |- context [match ?x with _ => _ end] => destruct x end;
      first [reflexivity|ignore_write]
  | |- untouched _ (PolicyEngine.ensure_rule_modifiers _ _) =>
      unfold PolicyEngine.ensure_rule_modifiers;
      apply untouched_modify; intros ?; cbv beta zeta;
      match goal with |- context [match ?x with _ => _ end] => destruct x end;
      first [reflexivity|ignore_write]
  | |- untouched _ (modify _) =>
      apply untouched_modify; intros ?; first [reflexivity|ignore_write]
  | |- untouched _ (_ ≫= _) => apply untouched_bind; [|intros ?]
  | |- untouched _ (_ <$> _) => apply untouched_fmap
  | |- untouched _ (for_each _ _) => apply untouched_for_each; intros ? ?
  | |- untouched _ (collect _ _) => apply untouched_collect; intros ? ?
  | |- untouched _ (PolicyEngine.select _ _) =>
      apply untouched_select; intros ? ?
  | |- untouched _ (if ?b then _ else _) => destruct b
  | |- untouched _ (match ?x with _ => _ end) => destruct x
  | |- untouched _ (let _ := _ in _) => cbv zeta
  end.

Ltac frame := repeat frame_step.

(** ** What the three engines leave alone *)

Lemma untouched_drift {X : Type} (proj : world -> X) (d : list (string * Q)) :
  ignores_random proj -> untouched proj (Environment.drift d).
Proof.
  intros H. induction d as [|[area v] d IH]; simpl; [apply untouched_ret|].
  frame. exact IH.
Qed.

Lemma untouched_update {X : Type} (proj : world -> X)
    (interactions : list interaction) :
  ignores_env proj -> ignores_random proj -> ignores_logging proj ->
  untouched proj (Environment.update interactions).
Proof.
  intros He Hr Hl.
  unfold Environment.update, Environment._update_system_load,
    Environment._update_service_availability,
    Environment._check_emergency_events,
    Environment._update_infrastructure_utilization,
    Environment._update_service_quality, Environment._apply_random_changes.
  frame. by apply untouched_drift.
Qed.

(** An update of the environment changes no agent, neither the rules nor
    the history of the interaction engine, and nothing of the policy
    engine. *)
Theorem update_frame (interactions : list interaction) (w : world) :
  let w' := (Environment.update interactions w).2 in
  government w' = government w
  /\ enterprises w' = enterprises w
  /\ residents w' = residents w
  /\ engine w' = engine w
  /\ policy w' = policy w.
Proof.
  cbv zeta.
  repeat split;
    match goal with
    | |- ?p _ = _ => apply (untouched_update p interactions); by intros ? ?
    end.
Qed.

Section InteractionFrames.

Context {X : Type} (proj : world -> X).
Context (Hrandom : ignores_random proj).

Lemma untouched_create_gov_ent government enterprise gov_decision rules :
  untouched proj (InteractionEngine._create_gov_ent_interaction
                    government enterprise gov_decision rules).
Proof.
  unfold InteractionEngine._create_gov_ent_interaction,
    InteractionEngine._create_procurement_interaction,
    InteractionEngine._create_regulation_interaction,
    InteractionEngine._create_data_sharing_interaction. frame.
Qed.

Lemma untouched_create_ent_gov enterprise government ent_decision rules :
  untouched proj (InteractionEngine._create_ent_gov_interaction
                    enterprise government ent_decision rules).
Proof.
  unfold InteractionEngine._create_ent_gov_interaction,
    InteractionEngine._create_bidding_interaction,
    InteractionEngine._create_data_request_interaction. frame.
Qed.

Lemma untouched_process_government_enterprise
    government enterprises gov_decision ent_decisions :
  untouched proj (InteractionEngine._process_government_enterprise_interactions
                    government enterprises gov_decision ent_decisions).
Proof.
  unfold InteractionEngine._process_government_enterprise_interactions.
  frame; first [apply untouched_create_gov_ent|apply untouched_create_ent_gov].
Qed.

Lemma untouched_process_government_resident
    government residents gov_decision res_decisions :
  untouched proj (InteractionEngine._process_government_resident_interactions
                    government residents gov_decision res_decisions).
Proof.
  unfold InteractionEngine._process_government_resident_interactions,
    InteractionEngine._create_service_interaction,
    InteractionEngine._create_resident_gov_interaction. frame.
Qed.

Lemma untouched_process_enterprise_resident
    enterprises residents ent_decisions res_decisions :
  untouched proj (InteractionEngine._process_enterprise_resident_interactions
                    enterprises residents ent_decisions res_decisions).
Proof.
  unfold InteractionEngine._process_enterprise_resident_interactions,
    InteractionEngine._create_enterprise_service_interaction. frame.
Qed.

Lemma untouched_process_resident_resident residents res_decisions :
  untouched proj (InteractionEngine._process_resident_resident_interactions
                    residents res_decisions).
Proof.
  unfold InteractionEngine._process_resident_resident_interactions. frame.
Qed.

Context (Hagents : ignores_agents proj).

Lemma untouched_update_agent_states
    government enterprises residents interactions :
  untouched proj (InteractionEngine._update_agent_states
                    government enterprises residents interactions).
Proof.
  unfold InteractionEngine._update_agent_states,
    InteractionEngine._update_government_state,
    InteractionEngine._update_enterprise_state,
    InteractionEngine._update_resident_state. frame.
Qed.

Lemma untouched_process government enterprises residents
    gov_decision ent_decisions res_decisions :
  (forall e w, proj (with_engine
                       {| rules := rules (engine w);
                          interaction_history := e |} w) = proj w) ->
  untouched proj (InteractionEngine.process government enterprises residents
                    gov_decision ent_decisions res_decisions).
Proof.
  intros Hengine. unfold InteractionEngine.process.
  apply untouched_bind; [apply untouched_process_government_enterprise|intros a].
  apply untouched_bind; [apply untouched_process_government_resident|intros b].
  apply untouched_bind; [apply untouched_process_enterprise_resident|intros c].
  apply untouched_bind; [apply untouched_process_resident_resident|intros d].
  cbv zeta.
  apply untouched_bind; [apply untouched_modify; intros w; apply Hengine|intros _].
  apply untouched_bind; [apply untouched_update_agent_states|intros _].
  apply untouched_ret.
Qed.

End InteractionFrames.

Lemma bind_ok_inv {A B : Type} (m : M A) (f : A -> M B) (w w' : world) (b : B) :
  (m ≫= f) w = (Ok b, w') ->
  exists a w1, m w = (Ok a, w1) /\ f a w1 = (Ok b, w').
Proof.
  rewrite run_bind. destruct (m w) as [[a|e] w1]; [|done].
  intros H. by exists a, w1.
Qed.

Lemma run_untouched {A X : Type} (proj : world -> X) (m : M A)
    (w w' : world) (r : result A) :
  untouched proj m -> m w = (r, w') -> proj w' = proj w.
Proof. intros H E. specialize (H w). by rewrite E in H. Qed.

(** A round of the interaction engine leaves the environment, the policy
    engine and the log as they are and never changes the rules; when it
    returns, the history of the engine is the old one followed by exactly
    the interactions it returns. *)
Theorem process_frame
    (government : ref) (enterprises residents : list ref)
    (gov_decision : decision) (ent_decisions res_decisions : list decision)
    (w : world) :
  let round :=
    InteractionEngine.process government enterprises residents
      gov_decision ent_decisions res_decisions w in
  env round.2 = env w
  /\ policy round.2 = policy w
  /\ logging round.2 = logging w
  /\ rules (engine round.2) = rules (engine w)
  /\ (forall interactions,
        round.1 = Ok interactions ->
        interaction_history (engine round.2)
        = interaction_history (engine w) ++ interactions).
Proof.
  cbv zeta. repeat split.
  - apply (untouched_process env); ignore.
  - apply (untouched_process policy); ignore.
  - apply (untouched_process logging); ignore.
  - apply (untouched_process (fun w => rules (engine w))); ignore.
  - intros interactions Hrun.
    destruct (InteractionEngine.process _ _ _ _ _ _ w) as [r w'] eqn:E.
    simpl in Hrun. subst r. simpl. unfold InteractionEngine.process in E.
    apply bind_ok_inv in E as (a & w1 & Ea & E).
    apply bind_ok_inv in E as (b & w2 & Eb & E).
    apply bind_ok_inv in E as (c & w3 & Ec & E).
    apply bind_ok_inv in E as (d & w4 & Ed & E). cbv zeta in E.
    apply bind_ok_inv in E as ([] & w5 & Em & E).
    apply bind_ok_inv in E as ([] & w6 & Eu & E).
    injection E as <- <-. injection Em as <-.
    apply (run_untouched engine) in Ea;
      [|apply untouched_process_government_enterprise; ignore].
    apply (run_untouched engine) in Eb;
      [|apply untouched_process_government_resident; ignore].
    apply (run_untouched engine) in Ec;
      [|apply untouched_process_enterprise_resident; ignore].
    apply (run_untouched engine) in Ed;
      [|apply untouched_process_resident_resident; ignore].
    apply (run_untouched engine) in Eu;
      [|apply untouched_update_agent_states; ignore].
    rewrite Eu. simpl. by rewrite Ed, Ec, Eb, Ea.
Qed.

(** ** What the policy engine leaves alone and what it records *)

Section PolicyFrames.

Context {X : Type} (proj : world -> X) (float : string -> option Q).
Context (Hagents : ignores_agents proj) (Hlogging : ignores_logging proj).

Lemma untouched_parse_change_value change_str :
  untouched proj (PolicyEngine._parse_change_value float change_str).
Proof.
  unfold PolicyEngine._parse_change_value.
  destruct change_str as [q|s|d]; [|destruct (float _)|]; frame.
Qed.

Lemma untouched_change_attributes who attribute_changes message :
  untouched proj (PolicyEngine.change_attributes
                    float who attribute_changes message).
Proof.
  unfold PolicyEngine.change_attributes. frame.
  all: apply untouched_parse_change_value.
Qed.

Lemma untouched_apply_resident_policy policy_name policy_config residents :
  untouched proj (PolicyEngine._apply_resident_policy
                    float policy_name policy_config residents).
Proof.
  unfold PolicyEngine._apply_resident_policy. frame.
  all: first [apply untouched_change_attributes
             |apply untouched_parse_change_value].
Qed.

Lemma untouched_apply_government_enterprise_policy
    policy_name policy_config government enterprises :
  untouched proj (PolicyEngine._apply_government_enterprise_policy
                    float policy_name policy_config government enterprises).
Proof.
  unfold PolicyEngine._apply_government_enterprise_policy. frame.
  all: apply untouched_parse_change_value.
Qed.

Context (Henv : ignores_env proj).

Lemma untouched_apply_policy_intervention policy_name policy_config :
  untouched proj (Environment.apply_policy_intervention
                    float policy_name policy_config).
Proof.
  unfold Environment.apply_policy_intervention, Environment.infra_change.
  frame.
Qed.

Context (Hset : forall f, (forall p, policies (f p) = policies p) ->
                          untouched proj (PolicyEngine.set f)).

Lemma untouched_apply_branches
    policy_name policy_config government enterprises residents :
  let target := default "" (p_target policy_config) in
  untouched proj
    (if String.eqb target "resident" then
       PolicyEngine._apply_resident_policy float policy_name policy_config residents
     else if String.eqb target "government_enterprise" then
       PolicyEngine._apply_government_enterprise_policy
         float policy_name policy_config government enterprises
     else if String.eqb target "environment" then
       PolicyEngine._apply_environment_policy float policy_name policy_config
     else if String.eqb target "government" then
       PolicyEngine._apply_government_policy
         float policy_name policy_config government
     else if String.eqb target "enterprise" then
       PolicyEngine._apply_enterprise_policy
         float policy_name policy_config enterprises
     else mret tt).
Proof.
  cbv zeta. unfold PolicyEngine._apply_environment_policy,
    PolicyEngine._apply_government_policy, PolicyEngine._apply_enterprise_policy.
  frame.
  all: first [ apply untouched_apply_resident_policy
             | apply untouched_apply_government_enterprise_policy
             | apply untouched_apply_policy_intervention
             | apply untouched_change_attributes ].
Qed.

Lemma untouched_apply government enterprises residents policy_interventions :
  untouched proj (PolicyEngine.apply float government enterprises residents
                    policy_interventions).
Proof.
  unfold PolicyEngine.apply.
  apply untouched_for_each. intros name _.
  apply untouched_bind; [apply untouched_gets|intros known].
  destruct known as [policy_config|]; [|frame].
  apply untouched_bind; [|intros _; frame].
  unfold PolicyEngine._apply_single_policy. cbv zeta.
  apply untouched_bind; [apply untouched_apply_branches|intros _].
  apply Hset. by intros p.
Qed.

End PolicyFrames.

(** Applying policies draws no random number, does not touch the
    interaction engine, and never changes the table of policies itself. *)
Theorem apply_frame
    (float : string -> option Q) (government : ref)
    (enterprises residents : list ref) (policy_interventions : list string)
    (w : world) :
  let w' := (PolicyEngine.apply float government enterprises residents
               policy_interventions w).2 in
  random_source w' = random_source w
  /\ engine w' = engine w
  /\ policies (policy w') = policies (policy w).
Proof.
  cbv zeta. repeat split.
  - apply (untouched_apply random_source);
      first [ignore|intros f Hf; apply untouched_modify; intros ?; simpl; apply Hf].
  - apply (untouched_apply engine);
      first [ignore|intros f Hf; apply untouched_modify; intros ?; simpl; apply Hf].
  - apply (untouched_apply (fun w => policies (policy w)));
      first [ignore|intros f Hf; apply untouched_modify; intros ?; simpl; apply Hf].
Qed.

Lemma apply_one_run (float : string -> option Q) (government : ref)
    (enterprises residents : list ref) (name : string) (w w' : world) :
  PolicyEngine.apply float government enterprises residents [name] w
  = (Ok tt, w') ->
  policy w'
  = match policies (policy w) !! name with
    | Some policy_config => PolicyTracking.recorded name policy_config (policy w)
    | None => policy w
    end.
Proof.
  unfold PolicyEngine.apply. cbn [for_each]. intros E.
  apply bind_ok_inv in E as ([] & w1 & E & Eret). injection Eret as <-.
  apply bind_ok_inv in E as (known & w0 & Eknown & E).
  injection Eknown as <- <-.
  destruct (policies (policy w) !! name) as [policy_config|].
  - apply bind_ok_inv in E as ([] & wa & Ea & E).
    unfold PolicyEngine._apply_single_policy in Ea. cbv zeta in Ea.
    apply bind_ok_inv in Ea as ([] & wb & Eb & Ea).
    apply (run_untouched policy) in Eb;
      [|apply untouched_apply_branches; ignore].
    injection Ea as <-.
    apply bind_ok_inv in E as (applied & wc & Ec & E).
    injection Ec as <- <-. simpl in E. rewrite Eb in E.
    unfold PolicyTracking.recorded.
    destruct (bool_decide (name ∈ applied_policies (policy w))).
    + by injection E as <-.
    + by injection E as <-.
  - by injection E as <-.
Qed.

(** When [apply] returns, the history has grown by one entry for every
    name of the list that is a policy, repetitions included and in order,
    while [applied_policies] holds each of these names once: it keeps no
    duplicates, loses no name, and gains exactly the known names of the
    list. *)
Theorem apply_tracking (float : string -> option Q) (government : ref)
    (enterprises residents : list ref) (policy_interventions : list string)
    (w w' : world) :
  PolicyEngine.apply float government enterprises residents
    policy_interventions w = (Ok tt, w') ->
  policy_history (policy w')
  = policy_history (policy w)
    ++ PolicyTracking.entries (policies (policy w)) policy_interventions
  /\ (forall name,
        name ∈ applied_policies (policy w')
        <-> name ∈ applied_policies (policy w)
            \/ (name ∈ policy_interventions
                /\ is_Some (policies (policy w) !! name)))
  /\ (NoDup (applied_policies (policy w)) ->
      NoDup (applied_policies (policy w')))
  /\ policies (policy w') = policies (policy w).
Proof.
  revert w. induction policy_interventions as [|name rest IH]; intros w E.
  - injection E as <-. simpl. rewrite app_nil_r.
    repeat split; [by left|intros [H|[H _]]; [done|by apply elem_of_nil in H]|done].
  - rewrite apply_cons in E. apply bind_ok_inv in E as ([] & w1 & E1 & E).
    apply apply_one_run in E1. specialize (IH w1 E).
    destruct IH as (Hh & Ha & Hn & Hp).
    assert (Ep : policies (policy w1) = policies (policy w)).
    { rewrite E1. by destruct (policies (policy w) !! name). }
    rewrite Ep in Hh, Ha, Hp.
    unfold PolicyTracking.entries in *. cbn [omap list_omap].
    destruct (policies (policy w) !! name) as [policy_config|] eqn:Ename.
    + rewrite E1 in Hh, Ha, Hn. simpl in Hh, Ha, Hn. simpl fmap.
      split; [by rewrite Hh, <- app_assoc|]. split; [|split; [|done]].
      * intros n. rewrite Ha. rewrite elem_of_cons.
        destruct (bool_decide_reflect (name ∈ applied_policies (policy w)))
          as [Hin|Hin].
        -- split; [tauto|]. intros [H|[[->|H] Hs]]; [tauto|tauto|tauto].
        -- rewrite elem_of_app, list_elem_of_singleton.
           split.
           ++ intros [[H| ->]|H]; [tauto| |tauto].
              right. split; [by left|by rewrite Ename].
           ++ intros [H|[[->|H] Hs]]; tauto.
      * intros Hnd. apply Hn.
        destruct (bool_decide_reflect (name ∈ applied_policies (policy w)))
          as [Hin|Hin]; [done|].
        apply NoDup_app. split; [done|]. split.
        -- intros x Hx Hx'. apply list_elem_of_singleton in Hx'. by subst.
        -- apply NoDup_singleton.
    + rewrite E1 in Hh, Ha, Hn. simpl fmap.
      split; [done|]. split; [|split; [done|done]].
      intros n. rewrite Ha, elem_of_cons. split.
      * intros [H|[H Hs]]; tauto.
      * intros [H|[[->|H] Hs]]; [tauto| |tauto].
        rewrite Ename in Hs. by destruct Hs.
Qed.

Lemma apply_tracking_witness :
  let w := Worlds.town Worlds.city (Worlds.constant_draws 0.5) 50 in
  let names := ["digital_literacy_training"; "free_lunch";
                "digital_literacy_training"] in
  let w' := (PolicyEngine.apply Parse.decimal Government (enterprise_refs w)
               (resident_refs w) names w).2 in
  length (policy_history (policy w')) = 2%nat
  /\ applied_policies (policy w') = ["digital_literacy_training"]
  /\ policy_history (policy w')
     = policy_history (policy w)
       ++ PolicyTracking.entries (policies (policy w)) names.
Proof.
  intros w names w'.
  split; [by vm_compute|]. split; [by vm_compute|].
  apply (apply_tracking Parse.decimal Government (enterprise_refs w)
           (resident_refs w) names w w').
  by vm_compute.
Defined.

(** * The ranges of the environment *)

Lemma total_ret {A : Type} (a : A) : total (mret a).
Proof. intros w. by exists a, w. Qed.

Lemma total_bind {A B : Type} (m : M A) (f : A -> M B) :
  total m -> (forall a, total (f a)) -> total (m ≫= f).
Proof.
  intros Hm Hf w. destruct (Hm w) as (a & w1 & E).
  rewrite (run_bind_ok _ _ _ _ _ E). apply Hf.
Qed.

Lemma total_quiet (m : M unit) : quiet m -> total m.
Proof. intros H w. destruct (H w) as (w' & E & _). by exists tt, w'. Qed.

Lemma total_tame (m : M unit) : tame m -> total m.
Proof. intros H w. destruct (H w) as (w' & E & _). by exists tt, w'. Qed.

Lemma total_check_emergency_events : total Environment._check_emergency_events.
Proof.
  intros w. destruct (check_emergency_events_run w) as (w' & E & _).
  by exists tt, w'.
Qed.

Lemma establishes_bind_last {A B : Type} (m : M A) (f : A -> M B)
    (P : world -> Prop) :
  total m -> (forall a, establishes (f a) P) -> establishes (m ≫= f) P.
Proof.
  intros Hm Hf w. destruct (Hm w) as (a & w1 & E).
  rewrite (run_bind_ok _ _ _ _ _ E). apply Hf.
Qed.

Lemma establishes_bind_first {A B : Type} (m : M A) (f : A -> M B)
    (P : world -> Prop) :
  establishes m P -> (forall a, preserves P (f a)) -> establishes (m ≫= f) P.
Proof.
  intros Hm Hf w. apply run_preserves_bind; [apply Hm|apply Hf].
Qed.

Lemma preserves_and {A : Type} (P P' : world -> Prop) (m : M A) :
  preserves P m -> preserves P' m -> preserves (fun w => P w /\ P' w) m.
Proof. intros H H' w [Hw Hw']. split; [by apply H|by apply H']. Qed.

Lemma clamp_unit_interval (x : Q) :
  EnvironmentBounds.unit_interval (py_max 0 (py_min 1 x)).
Proof.
  split; [apply py_max_ge_l|]. apply py_max_lub; [lra|apply py_min_le_l].
Qed.

(** ** The load and the availability *)

Lemma update_system_load_establishes (interactions : list interaction) :
  establishes (Environment._update_system_load interactions)
    (fun w => EnvironmentBounds.unit_interval (system_load (env w))).
Proof. intros w. apply clamp_unit_interval. Qed.

Lemma update_service_availability_establishes (interactions : list interaction) :
  establishes (Environment._update_service_availability interactions)
    (fun w => EnvironmentBounds.unit_interval (service_availability (env w))).
Proof.
  intros w.
  cbv [Environment._update_service_availability Environment.self
       Environment.set gets modify mbind M_bind].
  apply clamp_unit_interval.
Qed.

Lemma check_emergency_events_availability :
  preserves (fun w => EnvironmentBounds.unit_interval (service_availability (env w)))
    Environment._check_emergency_events.
Proof.
  intros w [H0 H1]. unfold EnvironmentBounds.unit_interval.
  cbv [Environment._check_emergency_events random_random Random.random mbind
       M_bind Environment.self Environment.set gets modify logger].
  destruct (Qlt_le_dec _ 0.02).
  - simpl. lra.
  - cbn beta. cbn [env with_random_source random_source Random.draws Random.pos].
    destruct (emergency_status (env w)).
    + cbn beta. cbn [env with_random_source random_source Random.draws Random.pos].
      destruct (Qlt_le_dec _ 0.3); simpl; lra.
    + simpl. lra.
Qed.

(** ** The infrastructure *)

Lemma drift_range (d : list (string * Q)) (w : world) :
  exists d' w',
    Environment.drift d w = (Ok d', w')
    /\ Forall (fun kv => 0 <= kv.2 /\ kv.2 <= 100) d'.
Proof.
  revert w. induction d as [|[area v] d IH]; intros w.
  - by exists [], w.
  - cbn [Environment.drift]. rewrite run_bind. unfold random_uniform at 1.
    destruct (Random.uniform (-1) 1 (random_source w)) as [change g].
    destruct (IH (with_random_source g w)) as (d' & w' & E & H).
    rewrite run_bind, E. eexists _, _. split; [reflexivity|].
    constructor; [|done]. simpl. split; [apply py_max_ge_l|].
    apply py_max_lub; [lra|apply py_min_le_l].
Qed.

Lemma degrade_range (d : list (string * Q)) :
  Forall (fun kv => 0 <= kv.2 /\ kv.2 <= 100) d ->
  Forall (fun kv => 0 <= kv.2 /\ kv.2 <= 100) (Environment.degrade d).
Proof.
  intros H. unfold Environment.degrade. apply Forall_map.
  eapply Forall_impl; [exact H|]. intros [a v] Hv. simpl in *. lra.
Qed.

Lemma apply_random_changes_establishes :
  establishes Environment._apply_random_changes
    (fun w => Forall (fun kv => 0 <= kv.2 /\ kv.2 <= 100)
                     (digital_infrastructure (env w))).
Proof.
  intros w. unfold Environment._apply_random_changes.
  rewrite run_bind. unfold Environment.self at 1, gets at 1. cbn beta iota.
  destruct (drift_range (digital_infrastructure (env w)) w) as (d' & w' & E & H).
  rewrite (run_bind_ok _ _ _ _ _ E).
  cbv [Environment.self Environment.set gets modify mbind M_bind].
  cbn [env with_env Environment.with_digital emergency_status].
  destruct (emergency_status (env w')); simpl; [by apply degrade_range|done].
Qed.

Lemma total_apply_random_changes : total Environment._apply_random_changes.
Proof.
  intros w. destruct (apply_random_changes_run w) as (w' & E & _).
  by exists tt, w'.
Qed.

(** Whatever the environment was before, after an update the system load
    and the service availability are numbers of [0, 1] and every level of
    the digital infrastructure is a number of [0, 100]. *)
Theorem update_establishes_ranges (interactions : list interaction) (w : world) :
  EnvironmentBounds.established (env (Environment.update interactions w).2).
Proof.
  assert (T1 : total (Environment.set
                        (fun e => Environment.with_update_count
                                    (S (update_count e)) e)))
    by apply total_quiet, quiet_update_count.
  assert (T2 := total_quiet _ (quiet_update_system_load interactions)).
  assert (T3 := total_tame _ (tame_update_service_availability interactions)).
  assert (T4 := total_check_emergency_events).
  assert (T5 := total_quiet _ (quiet_update_infrastructure_utilization interactions)).
  assert (T6 := total_quiet _ (quiet_update_service_quality interactions)).
  unfold EnvironmentBounds.established. repeat split.
  1,2: apply (establishes_bind_last _ _
                (fun w => EnvironmentBounds.unit_interval (system_load (env w))));
    [exact T1|intros _].
  1,2: apply establishes_bind_first;
    [apply update_system_load_establishes|intros _].
  1,2: apply (untouched_preserves (fun w => system_load (env w)));
    unfold Environment._update_service_availability,
      Environment._check_emergency_events,
      Environment._update_infrastructure_utilization,
      Environment._update_service_quality, Environment._apply_random_changes;
    frame; by apply untouched_drift.
  1,2: apply (establishes_bind_last _ _
                (fun w => EnvironmentBounds.unit_interval
                            (service_availability (env w))));
    [exact T1|intros _].
  1,2: apply establishes_bind_last; [exact T2|intros _].
  1,2: apply establishes_bind_first;
    [apply update_service_availability_establishes|intros _].
  1,2: apply preserves_bind; [apply check_emergency_events_availability|intros _].
  1,2: apply (untouched_preserves (fun w => service_availability (env w)));
    unfold Environment._update_infrastructure_utilization,
      Environment._update_service_quality, Environment._apply_random_changes;
    frame; by apply untouched_drift.
  apply (establishes_bind_last _ _
           (fun w => Forall (fun kv => 0 <= kv.2 /\ kv.2 <= 100)
                            (digital_infrastructure (env w))));
    [exact T1|intros _].
  apply establishes_bind_last; [exact T2|intros _].
  apply establishes_bind_last; [exact T3|intros _].
  apply establishes_bind_last; [exact T4|intros _].
  apply establishes_bind_last; [exact T5|intros _].
  apply establishes_bind_last; [exact T6|intros _].
  apply apply_random_changes_establishes.
Qed.

(** ** The service quality and the utilization *)

Lemma quality_after_unit (q : Q) (l : list interaction) :
  EnvironmentBounds.unit_interval q ->
  EnvironmentBounds.unit_interval (Environment.quality_after q l).
Proof.
  intros H. unfold Environment.quality_after.
  destruct l; [done|apply clamp_unit_interval].
Qed.

Lemma smoothed_unit (x : Q) (n m : nat) :
  (n <= m)%nat -> (0 < m)%nat ->
  EnvironmentBounds.unit_interval x ->
  EnvironmentBounds.unit_interval (0.8 * x + 0.2 * (Qnat n / Qnat m)).
Proof.
  intros Hn Hm [H0 H1]. destruct (ratio_bounds n m Hn Hm) as [R0 R1].
  unfold EnvironmentBounds.unit_interval. lra.
Qed.

Lemma update_infrastructure_utilization_keeps (interactions : list interaction) :
  preserves (fun w => EnvironmentBounds.unit_interval (utilization_digital (env w))
                      /\ EnvironmentBounds.unit_interval
                           (utilization_physical (env w)))
    (Environment._update_infrastructure_utilization interactions).
Proof.
  intros w [Hd Hp]. unfold Environment._update_infrastructure_utilization.
  destruct (0 <? length interactions)%nat eqn:E; [|done].
  apply Nat.ltb_lt in E.
  cbv [Environment.self Environment.set gets modify mbind M_bind].
  cbn [env with_env Environment.with_utilization utilization_digital
       utilization_physical snd].
  split; (apply smoothed_unit; [apply filter_length_le|done|done]).
Qed.

Lemma update_service_quality_keeps (interactions : list interaction) :
  preserves (fun w =>
               EnvironmentBounds.unit_interval (core_area (service_quality (env w)))
               /\ EnvironmentBounds.unit_interval
                    (urban_rural_fringe (service_quality (env w)))
               /\ EnvironmentBounds.unit_interval (rural (service_quality (env w))))
    (Environment._update_service_quality interactions).
Proof.
  intros w (Hc & Hf & Hr).
  cbv [Environment._update_service_quality Environment.set modify].
  cbn [env with_env Environment.with_service_quality service_quality
       core_area urban_rural_fringe rural snd].
  repeat split; by apply quality_after_unit.
Qed.

(** An update keeps the service quality of the three areas and the two
    utilization rates within [0, 1]. *)
Theorem update_keeps_ranges (interactions : list interaction) (w : world) :
  EnvironmentBounds.kept (env w) ->
  EnvironmentBounds.kept (env (Environment.update interactions w).2).
Proof.
  intros (Hc & Hf & Hr & Hd & Hp).
  assert (Hq : let w' := (Environment.update interactions w).2 in
               EnvironmentBounds.unit_interval (core_area (service_quality (env w')))
               /\ EnvironmentBounds.unit_interval
                    (urban_rural_fringe (service_quality (env w')))
               /\ EnvironmentBounds.unit_interval
                    (rural (service_quality (env w')))).
  { revert w Hc Hf Hr Hd Hp.
    assert (H : preserves
                  (fun w =>
                     EnvironmentBounds.unit_interval
                       (core_area (service_quality (env w)))
                     /\ EnvironmentBounds.unit_interval
                          (urban_rural_fringe (service_quality (env w)))
                     /\ EnvironmentBounds.unit_interval
                          (rural (service_quality (env w))))
                  (Environment.update interactions)).
    { unfold Environment.update.
      repeat (apply preserves_bind;
              [first [ apply update_service_quality_keeps
                     | apply (untouched_preserves
                                (fun w => service_quality (env w))
                                (fun q => EnvironmentBounds.unit_interval (core_area q)
                                          /\ EnvironmentBounds.unit_interval
                                               (urban_rural_fringe q)
                                          /\ EnvironmentBounds.unit_interval (rural q)));
                       unfold Environment._update_system_load,
                         Environment._update_service_availability,
                         Environment._check_emergency_events,
                         Environment._update_infrastructure_utilization;
                       frame ]
              |intros _]).
      apply (untouched_preserves
               (fun w => service_quality (env w))
               (fun q => EnvironmentBounds.unit_interval (core_area q)
                         /\ EnvironmentBounds.unit_interval (urban_rural_fringe q)
                         /\ EnvironmentBounds.unit_interval (rural q))).
      unfold Environment._apply_random_changes. frame. by apply untouched_drift. }
    intros w Hc Hf Hr _ _. by apply H. }
  assert (Hu : let w' := (Environment.update interactions w).2 in
               EnvironmentBounds.unit_interval (utilization_digital (env w'))
               /\ EnvironmentBounds.unit_interval (utilization_physical (env w'))).
  { revert w Hc Hf Hr Hd Hp Hq.
    assert (H : preserves
                  (fun w =>
                     EnvironmentBounds.unit_interval (utilization_digital (env w))
                     /\ EnvironmentBounds.unit_interval
                          (utilization_physical (env w)))
                  (Environment.update interactions)).
    { unfold Environment.update.
      repeat (apply preserves_bind;
              [first [ apply update_infrastructure_utilization_keeps
                     | apply (untouched_preserves
                                (fun w => (utilization_digital (env w),
                                           utilization_physical (env w)))
                                (fun u => EnvironmentBounds.unit_interval u.1
                                          /\ EnvironmentBounds.unit_interval u.2));
                       unfold Environment._update_system_load,
                         Environment._update_service_availability,
                         Environment._check_emergency_events,
                         Environment._update_service_quality;
                       frame ]
              |intros _]).
      apply (untouched_preserves
               (fun w => (utilization_digital (env w), utilization_physical (env w)))
               (fun u => EnvironmentBounds.unit_interval u.1
                         /\ EnvironmentBounds.unit_interval u.2)).
      unfold Environment._apply_random_changes. frame. by apply untouched_drift. }
    intros w _ _ _ Hd Hp _. by apply H. }
  cbv zeta in Hq, Hu. unfold EnvironmentBounds.kept. tauto.
Qed.

Lemma update_keeps_ranges_witness :
  let w := Worlds.town Worlds.city (Worlds.constant_draws 0.5) 50 in
  EnvironmentBounds.kept (env w)
  /\ EnvironmentBounds.kept
       (env (Environment.update [Folding.ignored_feedback] w).2).
Proof.
  intros w.
  assert (H : EnvironmentBounds.kept (env w)).
  { unfold EnvironmentBounds.kept, EnvironmentBounds.unit_interval.
    simpl. lra. }
  split; [exact H|]. exact (update_keeps_ranges [Folding.ignored_feedback] w H).
Defined.

(** * Policy interventions on the environment *)

Lemma raise_level_capped (area : string) (change : Q) (d : list (string * Q)) :
  Forall (fun kv => kv.2 <= 100) d ->
  Forall (fun kv => kv.2 <= 100) (Environment.raise_level area change d).
Proof.
  induction 1 as [|[a v] d Hv Hd IH]; simpl; [constructor|].
  destruct (String.eqb a area); constructor; try done.
  simpl. apply py_min_le_l.
Qed.

Lemma raise_level_keys (area : string) (change : Q) (d : list (string * Q)) :
  (Environment.raise_level area change d).*1 = d.*1.
Proof.
  induction d as [|[a v] d IH]; [done|]. cbn [Environment.raise_level].
  destruct (String.eqb a area); [done|]. by rewrite !fmap_cons, IH.
Qed.

Section Interventions.

Context (float : string -> option Q) (digital_keys physical_keys : list string).

(** The levels are capped and the maps have the areas they had. *)
Local Abbreviation steady :=
  (fun w => EnvironmentBounds.capped (env w)
            /\ (digital_infrastructure (env w)).*1 = digital_keys
            /\ (physical_infrastructure (env w)).*1 = physical_keys).

Lemma steady_elsewhere {A : Type} (m : M A) :
  untouched env m -> preserves steady m.
Proof.
  intros H.
  apply (untouched_preserves env
           (fun e => EnvironmentBounds.capped e
                     /\ (digital_infrastructure e).*1 = digital_keys
                     /\ (physical_infrastructure e).*1 = physical_keys)), H.
Qed.

Lemma steady_raise_digital (area : string) (change : Q) :
  preserves steady
    (Environment.set (fun e =>
       Environment.with_digital
         (Environment.raise_level area change (digital_infrastructure e)) e)).
Proof.
  intros w ([Hd Hp] & Kd & Kp). simpl. unfold EnvironmentBounds.capped. simpl.
  rewrite raise_level_keys. repeat split; try done.
  by apply raise_level_capped.
Qed.

Lemma steady_raise_physical (area : string) (change : Q) :
  preserves steady
    (Environment.set (fun e =>
       Environment.with_physical
         (Environment.raise_level area change (physical_infrastructure e)) e)).
Proof.
  intros w ([Hd Hp] & Kd & Kp). simpl. unfold EnvironmentBounds.capped. simpl.
  rewrite raise_level_keys. repeat split; try done.
  by apply raise_level_capped.
Qed.

Lemma steady_infra_change (change_str : config) :
  preserves steady (Environment.infra_change float change_str).
Proof.
  apply steady_elsewhere. unfold Environment.infra_change. frame.
Qed.

Lemma steady_apply_policy_intervention policy_name policy_config :
  preserves steady
    (Environment.apply_policy_intervention float policy_name policy_config).
Proof.
  unfold Environment.apply_policy_intervention. cbv zeta.
  destruct (String.eqb _ "environment"); [|apply preserves_ret].
  apply preserves_bind; [|intros _].
  - destruct (lookup_config "digital_infrastructure" _); [|apply preserves_ret].
    apply preserves_bind; [apply steady_elsewhere; frame|intros changes].
    apply preserves_for_each. intros [area change_str] _.
    apply preserves_bind; [apply preserves_gets|intros d].
    destruct (Environment.has_area area d); [|apply preserves_ret].
    apply preserves_bind; [apply steady_infra_change|intros change].
    apply preserves_bind; [apply steady_raise_digital|intros _].
    apply steady_elsewhere. frame.
  - destruct (lookup_config "physical_infrastructure" _); [|apply preserves_ret].
    apply preserves_bind; [apply steady_elsewhere; frame|intros changes].
    apply preserves_for_each. intros [area change_str] _.
    apply preserves_bind; [apply preserves_gets|intros d].
    destruct (Environment.has_area area d); [|apply preserves_ret].
    apply preserves_bind; [apply steady_infra_change|intros change].
    apply steady_raise_physical.
Qed.

End Interventions.

(** A policy intervention on the environment, whether it returns or
    raises, keeps every infrastructure level at or below 100 and never adds
    or removes an area; a policy whose target is not the environment
    changes nothing at all. *)
Theorem intervention_caps_levels
    (float : string -> option Q) (policy_name : string)
    (policy_config : policy_config) (w : world) :
  EnvironmentBounds.capped (env w) ->
  let run :=
    Environment.apply_policy_intervention float policy_name policy_config w in
  EnvironmentBounds.capped (env run.2)
  /\ (digital_infrastructure (env run.2)).*1 = (digital_infrastructure (env w)).*1
  /\ (physical_infrastructure (env run.2)).*1
     = (physical_infrastructure (env w)).*1
  /\ (p_target policy_config <> Some "environment" -> run = (Ok tt, w)).
Proof.
  intros H. cbv zeta.
  pose proof (steady_apply_policy_intervention float
                (digital_infrastructure (env w)).*1
                (physical_infrastructure (env w)).*1
                policy_name policy_config w) as Hs.
  cbv beta in Hs. destruct Hs as (H1 & H2 & H3); [done|].
  split; [done|]. split; [done|]. split; [done|].
  intros Ht. unfold Environment.apply_policy_intervention. cbv zeta.
  destruct (String.eqb_spec (default "" (p_target policy_config)) "environment")
    as [E|E]; [|done].
  destruct (p_target policy_config) as [t|]; simpl in E; [|done].
  by subst.
Qed.

Lemma intervention_caps_levels_witness :
  let w := Worlds.town Worlds.city (Worlds.constant_draws 0.5) 50 in
  let investment :=
    {| p_target := Some "environment";
       attribute_change :=
         Some [("digital_infrastructure",
                CDict [("rural", CStr "+60"); ("core_area", CStr "+5")])];
       behavior_change := None; rule_change := None |} in
  let run :=
    Environment.apply_policy_intervention Parse.decimal
      "inclusive_infrastructure" investment w in
  EnvironmentBounds.capped (env run.2)
  /\ digital_infrastructure (env run.2)
     = [("core_area", 95); ("urban_rural_fringe", 70); ("rural", 100)].
Proof.
  intros w investment run. split.
  - apply (intervention_caps_levels Parse.decimal
             "inclusive_infrastructure" investment w).
    unfold EnvironmentBounds.capped. simpl.
    split; repeat constructor; simpl; lra.
  - by vm_compute.
Defined.

(** A change of an infrastructure level that is no number is not
    forgiven: where the first change of the digital map names an area of
    the map and [float] rejects its string, the intervention raises
    [ValueError] before it changes anything, and [PolicyEngine.apply]
    passes the exception on: the policy is neither recorded nor tracked,
    and the names after it are not applied. *)
Theorem intervention_malformed_change
    (float : string -> option Q) (policy_name : string)
    (policy_config : policy_config) (area s : string)
    (rest : list (string * config)) (w : world) :
  p_target policy_config = Some "environment" ->
  lookup_config "digital_infrastructure"
    (default [] (attribute_change policy_config))
  = Some (CDict ((area, CStr s) :: rest)) ->
  area ∈ (digital_infrastructure (env w)).*1 ->
  float (remove_char "+" s) = None ->
  Environment.apply_policy_intervention float policy_name policy_config w
  = (Raise ValueError, w)
  /\ forall (government : ref) (enterprises residents : list ref)
            (names : list string),
       policies (policy w) !! policy_name = Some policy_config ->
       PolicyEngine.apply float government enterprises residents
         (policy_name :: names) w
       = (Raise ValueError, w).
Proof.
  intros Ht Hl Ha Hf.
  assert (E : Environment.apply_policy_intervention
                float policy_name policy_config w = (Raise ValueError, w)).
  { unfold Environment.apply_policy_intervention. cbv zeta.
    rewrite Ht. cbn [default from_option id]. change ("environment" =? "environment") with true.
    cbv iota. rewrite Hl.
    cbv [items for_each Environment.self Environment.set gets modify mbind
         M_bind mret M_ret raise Environment.infra_change].
    unfold Environment.has_area. rewrite (bool_decide_eq_true_2 _ Ha).
    by rewrite Hf. }
  split; [exact E|].
  intros government enterprises residents names Hp.
  unfold PolicyEngine.apply. cbn [for_each].
  rewrite run_bind, run_bind. unfold PolicyEngine.self at 1, gets at 1.
  cbn beta iota. rewrite Hp. rewrite run_bind.
  unfold PolicyEngine._apply_single_policy. cbv zeta. rewrite run_bind.
  rewrite Ht. cbn [default from_option id].
  change ("environment" =? "resident") with false.
  change ("environment" =? "government_enterprise") with false.
  change ("environment" =? "environment") with true. cbv iota.
  unfold PolicyEngine._apply_environment_policy. by rewrite E.
Qed.

Lemma intervention_malformed_change_witness :
  let investment :=
    {| p_target := Some "environment";
       attribute_change :=
         Some [("digital_infrastructure", CDict [("rural", CStr "+ten")])];
       behavior_change := None; rule_change := None |} in
  let w0 := Worlds.town Worlds.city (Worlds.constant_draws 0.5) 50 in
  let w :=
    with_policy {| policies := {[ "inclusive_infrastructure" := investment ]};
                   applied_policies := []; policy_history := [] |} w0 in
  PolicyEngine.apply Parse.decimal Government (enterprise_refs w)
    (resident_refs w) ["inclusive_infrastructure"; "digital_literacy_training"] w
  = (Raise ValueError, w).
Proof.
  intros investment w0 w.
  apply (intervention_malformed_change Parse.decimal
           "inclusive_infrastructure" investment "rural" "+ten" [] w).
  - reflexivity.
  - reflexivity.
  - simpl. set_solver.
  - reflexivity.
  - reflexivity.
Defined.

(** * The interactions of a round *)

Lemma returns_raise {A : Type} (G : A -> Prop) (e : exn) :
  returns G (raise e : M A).
Proof. by intros w a w'. Qed.

Lemma returns_fmap {A B : Type} (G : B -> Prop) (g : A -> B) (m : M A) :
  returns (fun a => G (g a)) m -> returns G (g <$> m).
Proof.
  intros H. apply (returns_bind_of (fun a => G (g a))); [done|].
  intros a Ha. by apply returns_ret.
Qed.

Lemma returns_conseq {A : Type} (G G' : A -> Prop) (m : M A) :
  returns G m -> (forall a, G a -> G' a) -> returns G' m.
Proof. intros H HG w a w' E. apply HG. by eapply H. Qed.

(** A loop whose body adds at most [k] records of the kind [T]. *)
Lemma returns_collect_bounded {A B : Type} (T : B -> Prop) (k : nat)
    (l : list A) (body : A -> M (list B)) :
  (forall x, returns (fun ys => (length ys <= k)%nat /\ Forall T ys) (body x)) ->
  returns (fun zs => (length zs <= k * length l)%nat /\ Forall T zs)
          (collect l body).
Proof.
  intros H. induction l as [|x l IH]; simpl.
  - apply returns_ret. split; [simpl; lia|done].
  - eapply returns_bind_of; [apply H|]. intros ys [Hl Hys].
    eapply returns_bind_of; [apply IH|]. intros zs [Hl' Hzs].
    apply returns_ret. split; [rewrite length_app; lia|by apply Forall_app].
Qed.

Lemma returns_random_sample {A : Type} (population : list A) (k : nat) :
  returns (fun xs => length xs = k) (random_sample population k).
Proof.
  intros w xs w' E. unfold random_sample, Random.sample in E.
  destruct (length population <? k)%nat eqn:Hk; [done|].
  apply Nat.ltb_ge in Hk.
  pose proof (choose_length k population (random_source w) Hk) as Hl.
  destruct (Random.choose k population (random_source w)) as [ys g].
  by injection E as <- _.
Qed.

Lemma returns_random_randint (a b : nat) :
  (a <= b)%nat ->
  returns (fun n => (a <= n <= b)%nat) (random_randint a b).
Proof.
  intros Hab w n w' E. unfold random_randint, Random.randint in E.
  pose proof (randbelow_lt (S (b - a)) (random_source w) ltac:(lia)) as Hj.
  destruct (Random.randbelow (S (b - a)) (random_source w)) as [j g].
  injection E as <- _. simpl in Hj. lia.
Qed.

(** A record built by [new_interaction] and the setters of the engine. *)
Ltac typed :=
  unfold Produced.typed, Produced.well_formed, Produced.types; simpl;
  repeat split; try done;
  first [ eexists; split; [reflexivity|set_solver]
        | by eexists _, _
        | by eexists ].

Lemma typed_weaken (ts ts' : list string) (i : interaction) :
  ts ⊆ ts' -> Produced.typed ts i -> Produced.typed ts' i.
Proof. intros H [Hw (t & E & Ht)]. split; [done|]. exists t. split; [done|]. by apply H. Qed.

Lemma create_gov_ent_typed government enterprise gov_decision rules :
  returns (fun o =>
             Forall (Produced.typed ["procurement_cooperation"; "regulation";
                                     "data_sharing"])
                    (option_list o))
    (InteractionEngine._create_gov_ent_interaction
       government enterprise gov_decision rules).
Proof.
  unfold InteractionEngine._create_gov_ent_interaction. cbv zeta.
  repeat match goal with
         | |- returns _ (if ?b then _ else _) => destruct b
         end;
    [apply returns_fmap..|by apply returns_ret].
  - unfold InteractionEngine._create_procurement_interaction.
    cbv zeta. repeat (apply returns_bind; intros ?). apply returns_ret.
    constructor; [|done]. destruct (Qlt_le_dec _ _); typed.
  - unfold InteractionEngine._create_regulation_interaction.
    cbv zeta. repeat (apply returns_bind; intros ?). apply returns_ret.
    constructor; [|done]. destruct (Qlt_le_dec _ _); typed.
  - unfold InteractionEngine._create_data_sharing_interaction.
    cbv zeta. repeat (apply returns_bind; intros ?). apply returns_ret.
    constructor; [|done]. destruct (Qlt_le_dec _ _); typed.
Qed.

Lemma create_ent_gov_typed enterprise government ent_decision rules :
  returns (fun o =>
             Forall (Produced.typed ["project_bidding"; "data_request"])
                    (option_list o))
    (InteractionEngine._create_ent_gov_interaction
       enterprise government ent_decision rules).
Proof.
  unfold InteractionEngine._create_ent_gov_interaction. cbv zeta.
  repeat match goal with
         | |- returns _ (if ?b then _ else _) => destruct b
         end;
    [apply returns_fmap..|by apply returns_ret].
  - unfold InteractionEngine._create_bidding_interaction.
    cbv zeta. repeat (apply returns_bind; intros ?). apply returns_ret.
    constructor; [|done]. destruct (Qlt_le_dec _ _); typed.
  - unfold InteractionEngine._create_data_request_interaction.
    cbv zeta. repeat (apply returns_bind; intros ?). apply returns_ret.
    constructor; [|done]. destruct (Qlt_le_dec _ _); typed.
Qed.

Lemma create_service_typed government resident gov_decision rule :
  returns (Produced.typed ["service_provision"])
    (InteractionEngine._create_service_interaction
       government resident gov_decision rule).
Proof.
  unfold InteractionEngine._create_service_interaction.
  cbv zeta. repeat (apply returns_bind; intros ?). apply returns_ret.
  repeat destruct (Qlt_le_dec _ _); typed.
Qed.

Lemma create_resident_gov_typed resident government res_decision rules :
  returns (fun o => Forall (Produced.typed ["demand_response"]) (option_list o))
    (InteractionEngine._create_resident_gov_interaction
       resident government res_decision rules).
Proof.
  unfold InteractionEngine._create_resident_gov_interaction. cbv zeta.
  destruct (String.eqb _ _); [|by apply returns_ret].
  repeat (apply returns_bind; intros ?). apply returns_ret.
  constructor; [|done]. destruct (Qlt_le_dec _ _); typed.
Qed.

Lemma create_enterprise_service_typed enterprise resident ent_decision rules :
  returns (Produced.typed ["service_supply"])
    (InteractionEngine._create_enterprise_service_interaction
       enterprise resident ent_decision rules).
Proof.
  unfold InteractionEngine._create_enterprise_service_interaction.
  cbv zeta. repeat (apply returns_bind; intros ?). apply returns_ret.
  destruct (Qlt_le_dec _ _); typed.
Qed.

Lemma option_list_length {A : Type} (o : option A) : (length (option_list o) <= 1)%nat.
Proof. destruct o; simpl; lia. Qed.

Lemma process_government_enterprise_batch
    government enterprises gov_decision ent_decisions :
  returns (Produced.batch
             ["procurement_cooperation"; "regulation"; "data_sharing";
              "project_bidding"; "data_request"]
             (2 * length enterprises))
    (InteractionEngine._process_government_enterprise_interactions
       government enterprises gov_decision ent_decisions).
Proof.
  unfold InteractionEngine._process_government_enterprise_interactions.
  apply returns_bind. intros rules.
  set (ts := ["procurement_cooperation"; "regulation"; "data_sharing";
              "project_bidding"; "data_request"]).
  apply (returns_bind_of (Produced.batch ts (1 * length enterprises))).
  { destruct (in_strs _ _).
    - apply returns_collect_bounded. intros enterprise.
      eapply returns_bind_of; [apply create_gov_ent_typed|].
      intros o Ho. apply returns_ret. split; [apply option_list_length|].
      eapply Forall_impl; [exact Ho|]. intros i. apply typed_weaken.
      unfold ts. set_solver.
    - apply returns_ret. split; [simpl; lia|done]. }
  intros from_government [Lg Hg].
  apply (returns_bind_of
           (Produced.batch ts (1 * length (zip enterprises ent_decisions)))).
  { apply returns_collect_bounded. intros [enterprise ent_decision].
    destruct (in_strs _ _).
    - eapply returns_bind_of; [apply create_ent_gov_typed|].
      intros o Ho. apply returns_ret. split; [apply option_list_length|].
      eapply Forall_impl; [exact Ho|]. intros i. apply typed_weaken.
      unfold ts. set_solver.
    - apply returns_ret. split; [simpl; lia|done]. }
  intros from_enterprises [Le He]. apply returns_ret. split.
  - rewrite length_app. rewrite length_zip in Le. lia.
  - by apply Forall_app.
Qed.

Lemma process_government_resident_batch
    government residents gov_decision res_decisions :
  returns (fun l =>
             exists provided feedback,
               l = provided ++ feedback
               /\ length provided
                  = (if is_str (action gov_decision) "service_provision"
                     then 20 `min` length residents else 0)%nat
               /\ Forall (Produced.typed ["service_provision"]) provided
               /\ Produced.batch ["demand_response"]
                    (length residents `min` length res_decisions) feedback)
    (InteractionEngine._process_government_resident_interactions
       government residents gov_decision res_decisions).
Proof.
  unfold InteractionEngine._process_government_resident_interactions.
  apply returns_bind. intros rules.
  apply (returns_bind_of
           (fun provided =>
              length provided
              = (if is_str (action gov_decision) "service_provision"
                 then 20 `min` length residents else 0)%nat
              /\ Forall (Produced.typed ["service_provision"]) provided)).
  { destruct (is_str _ _); [|by apply returns_ret]. cbv zeta.
    eapply returns_bind_of; [apply returns_random_sample|].
    intros selected Hs. cbv beta in Hs. rewrite <- Hs.
    apply returns_collect_one. intros resident.
    apply returns_bind. intros rule.
    eapply returns_bind_of; [apply create_service_typed|].
    intros i Hi. apply returns_ret. by exists i. }
  intros provided [Lp Hp].
  apply (returns_bind_of
           (Produced.batch ["demand_response"]
              (1 * length (zip residents res_decisions)))).
  { apply returns_collect_bounded. intros [resident res_decision].
    destruct (_ && _).
    - eapply returns_bind_of; [apply create_resident_gov_typed|].
      intros o Ho. apply returns_ret. split; [apply option_list_length|done].
    - apply returns_ret. split; [simpl; lia|done]. }
  intros feedback [Lf Hf]. apply returns_ret.
  exists provided, feedback. repeat split; try done.
  rewrite length_zip in Lf. lia.
Qed.

Lemma process_enterprise_resident_batch
    enterprises residents ent_decisions res_decisions :
  returns (Produced.batch ["service_supply"] (15 * length enterprises))
    (InteractionEngine._process_enterprise_resident_interactions
       enterprises residents ent_decisions res_decisions).
Proof.
  unfold InteractionEngine._process_enterprise_resident_interactions.
  apply returns_bind. intros rules.
  eapply returns_conseq.
  { apply (returns_collect_bounded (Produced.typed ["service_supply"]) 15).
    intros [enterprise ent_decision].
    destruct (in_strs _ _); [|apply returns_ret; split; [simpl; lia|done]].
    eapply returns_bind_of; [by apply (returns_random_randint 5 15); lia|].
    intros n Hn. cbv beta in Hn.
    eapply returns_bind_of; [apply returns_random_sample|].
    intros selected Hs. cbv beta in Hs.
    eapply returns_conseq.
    { apply (returns_collect_one (Produced.typed ["service_supply"])).
      intros resident.
      eapply returns_bind_of; [apply create_enterprise_service_typed|].
      intros i Hi. apply returns_ret. by exists i. }
    intros l [Hl Hf]. split; [lia|done]. }
  intros l [Hl Hf]. split; [|done]. rewrite length_zip in Hl. lia.
Qed.

Lemma process_resident_resident_batch residents res_decisions :
  returns (Produced.batch ["information_sharing"]
             (10 `min` (length residents / 10)))
    (InteractionEngine._process_resident_resident_interactions
       residents res_decisions).
Proof.
  unfold InteractionEngine._process_resident_resident_interactions. cbv zeta.
  eapply returns_conseq.
  { apply (returns_collect_bounded (Produced.typed ["information_sharing"]) 1).
    intros _.
    destruct (2 <=? _)%nat; [|apply returns_ret; split; [simpl; lia|done]].
    apply returns_bind. intros pair.
    destruct pair as [|r1 [|r2 [|r3 pair]]]; try apply returns_raise.
    repeat (apply returns_bind; intros ?).
    destruct (Qlt_le_dec _ _); [|apply returns_ret; split; [simpl; lia|done]].
    repeat (apply returns_bind; intros ?). apply returns_ret.
    split; [simpl; lia|]. constructor; [|done]. typed. }
  intros l [Hl Hf]. split; [|done]. rewrite length_seq in Hl. lia.
Qed.


(** What a round consists of. When [process] returns, its interactions
    are, in this order: at most two per enterprise between government and
    enterprises; exactly [min(20, n)] services provided to the [n]
    residents when the government provides services, none otherwise; at
    most one feedback per resident; at most 15 services per enterprise;
    and at most [min(10, n // 10)] exchanges among residents, so none with
    fewer than ten residents. Each part holds interactions of its own
    types only. *)
Theorem round_census
    (government : ref) (enterprises residents : list ref)
    (gov_decision : decision) (ent_decisions res_decisions : list decision)
    (w w' : world) (interactions : list interaction) :
  InteractionEngine.process government enterprises residents
    gov_decision ent_decisions res_decisions w = (Ok interactions, w') ->
  exists c : Produced.census,
    interactions = Produced.all c
    /\ Produced.batch
         ["procurement_cooperation"; "regulation"; "data_sharing";
          "project_bidding"; "data_request"]
         (2 * length enterprises) (Produced.government_enterprise c)
    /\ length (Produced.provided c)
       = (if is_str (action gov_decision) "service_provision"
          then 20 `min` length residents else 0)%nat
    /\ Forall (Produced.typed ["service_provision"]) (Produced.provided c)
    /\ Produced.batch ["demand_response"]
         (length residents `min` length res_decisions) (Produced.feedback c)
    /\ Produced.batch ["service_supply"] (15 * length enterprises)
         (Produced.enterprise_resident c)
    /\ Produced.batch ["information_sharing"]
         (10 `min` (length residents / 10)) (Produced.resident_resident c).
Proof.
  intros E. unfold InteractionEngine.process in E.
  apply bind_ok_inv in E as (a & w1 & Ea & E).
  apply bind_ok_inv in E as (b & w2 & Eb & E).
  apply bind_ok_inv in E as (c & w3 & Ec & E).
  apply bind_ok_inv in E as (d & w4 & Ed & E). cbv zeta in E.
  apply bind_ok_inv in E as ([] & w5 & _ & E).
  apply bind_ok_inv in E as ([] & w6 & _ & E).
  injection E as <- _.
  apply process_government_enterprise_batch in Ea.
  apply process_government_resident_batch in Eb
    as (provided & feedback & -> & Lp & Hp & Hf).
  apply process_enterprise_resident_batch in Ec.
  apply process_resident_resident_batch in Ed.
  by exists {| Produced.government_enterprise := a;
               Produced.provided := provided; Produced.feedback := feedback;
               Produced.enterprise_resident := c;
               Produced.resident_resident := d |}.
Qed.

Lemma round_census_witness :
  let w := Worlds.town Worlds.city (Worlds.constant_draws 0.5) 50 in
  let round :=
    InteractionEngine.process Government (enterprise_refs w) (resident_refs w)
      Sequences.regulate [Sequences.develop] [Sequences.feedback] w in
  exists interactions c,
    round.1 = Ok interactions
    /\ interactions = Produced.all c
    /\ Produced.provided c = []
    /\ Produced.resident_resident c = [].
Proof.
  intros w round.
  destruct round as [[interactions|e] w'] eqn:E; [|by vm_compute in E].
  destruct (round_census Government (enterprise_refs w) (resident_refs w)
              Sequences.regulate [Sequences.develop] [Sequences.feedback]
              w w' interactions E)
    as (c & Hall & _ & Hp & _ & _ & _ & [Hr _]).
  exists interactions, c. repeat split; [done|..].
  - by apply nil_length_inv.
  - apply nil_length_inv. simpl in Hr. lia.
Defined.




(** * The folding of a round into the states of the agents *)

(** ** The grouping by participant *)

Lemma group_one (i : interaction) (ps : list string)
    (m : gmap string (list interaction)) (p : string) :
  NoDup ps ->
  foldl (fun m participant =>
           <[participant := default [] (m !! participant) ++ [i]]> m) m ps !! p
  = if bool_decide (p ∈ ps) then Some (default [] (m !! p) ++ [i]) else m !! p.
Proof.
  intros Hnd. revert m. induction Hnd as [|q ps Hq Hnd IH]; intros m.
  - cbn [foldl]. by rewrite bool_decide_eq_false_2 by apply not_elem_of_nil.
  - cbn [foldl]. rewrite IH.
    destruct (decide (p = q)) as [->|Hne].
    + rewrite (bool_decide_eq_false_2 (q ∈ ps)) by done.
      rewrite bool_decide_eq_true_2 by left. by rewrite lookup_insert_eq.
    + rewrite lookup_insert_ne by done.
      destruct (bool_decide_reflect (p ∈ ps)) as [Hin|Hin].
      * rewrite bool_decide_eq_true_2; [done|by right].
      * rewrite bool_decide_eq_false_2; [done|].
        intros [?|?]%elem_of_cons; done.
Qed.

Lemma agent_interactions_snoc (l : list interaction) (i : interaction) :
  InteractionEngine.agent_interactions (l ++ [i])
  = foldl (fun m participant =>
             <[participant := default [] (m !! participant) ++ [i]]> m)
          (InteractionEngine.agent_interactions l) (Participants.ids i).
Proof.
  unfold InteractionEngine.agent_interactions. by rewrite foldl_app.
Qed.

(** [agent_interactions] maps an id to the interactions that name it
    among their participants, in order, and has no entry for an id that no
    interaction names. *)
Theorem agent_interactions_grouping
    (interactions : list interaction) (p : string) :
  Forall (fun i => NoDup (Participants.ids i)) interactions ->
  InteractionEngine.agent_interactions interactions !! p
  = match Participants.involving p interactions with
    | [] => None
    | involved => Some involved
    end.
Proof.
  induction interactions as [|i l IH] using rev_ind; intros H.
  - done.
  - apply Forall_app in H as [Hl Hi]. apply Forall_inv in Hi.
    rewrite agent_interactions_snoc, group_one by done.
    unfold Participants.involving in *. rewrite List.filter_app. cbn [List.filter].
    rewrite (IH Hl).
    destruct (bool_decide (p ∈ Participants.ids i)).
    + destruct (List.filter _ l) as [|x xs]; [done|]. by simpl.
    + rewrite app_nil_r. by destruct (List.filter _ l).
Qed.

Lemma agent_interactions_grouping_witness :
  InteractionEngine.agent_interactions
    [Folding.failed_procurement; Folding.ignored_feedback] !! "government"
  = Some [Folding.failed_procurement; Folding.ignored_feedback]
  /\ InteractionEngine.agent_interactions
       [Folding.failed_procurement; Folding.ignored_feedback] !! "resident_0"
     = Some [Folding.ignored_feedback].
Proof.
  assert (H : Forall (fun i => NoDup (Participants.ids i))
                [Folding.failed_procurement; Folding.ignored_feedback]).
  { repeat constructor; set_solver. }
  split; by rewrite (agent_interactions_grouping _ _ H).
Defined.

(** ** The agents a round does not name *)

Lemma group_other (i : interaction) (ps : list string)
    (m : gmap string (list interaction)) (p : string) :
  p ∉ ps ->
  foldl (fun m participant =>
           <[participant := default [] (m !! participant) ++ [i]]> m) m ps !! p
  = m !! p.
Proof.
  revert m. induction ps as [|q ps IH]; intros m Hp; [done|].
  cbn [foldl]. rewrite IH by set_solver.
  apply lookup_insert_ne. set_solver.
Qed.

Lemma agent_interactions_not_mentioned
    (interactions : list interaction) (p : string) :
  p ∉ Participants.mentioned interactions ->
  InteractionEngine.agent_interactions interactions !! p = None.
Proof.
  induction interactions as [|i l IH] using rev_ind; intros H; [done|].
  unfold Participants.mentioned in *.
  rewrite map_app, concat_app in H. simpl in H. rewrite app_nil_r in H.
  rewrite agent_interactions_snoc, group_other by set_solver.
  apply IH. set_solver.
Qed.

(** One structural step of a proof of invariance for a computation that
    neither draws nor logs. *)
Ltac hold_step :=
  match goal with
  | |- preserves _ (mret _) => apply preserves_ret
  | |- preserves _ (raise _) => apply preserves_raise
  | |- preserves _ (gets _) => apply preserves_gets
  | |- preserves _ (state_get _ _ _) => apply preserves_gets
  | |- preserves _ (attr_get _ _ _) => apply preserves_gets
  | |- preserves _ (attr_mem _ _) => apply preserves_gets
  | |- preserves _ (id_of _ _) => apply preserves_gets
  | |- preserves _ (num ?v) =>
      destruct v; [apply preserves_ret|apply preserves_raise]
  | |- preserves _ (_ ≫= _) => apply preserves_bind; [|intros ?]
  | |- preserves _ (for_each _ _) => apply preserves_for_each; intros ? ?
  | |- preserves _ (if ?b then _ else _) => destruct b
  | |- preserves _ (match ?x with _ => _ end) => destruct x
  | |- preserves _ (let _ := _ in _) => cbv zeta
  end.

Ltac hold := repeat hold_step.

Section Bystander.

Context (r : ref) (a : agent).

Local Abbreviation unchanged := (preserves (fun w => deref r w = a)).

Lemma unchanged_state_set (x : ref) (k : string) (v : Q) :
  x <> r -> unchanged (state_set x k v).
Proof. intros Hx w Hw. simpl. by rewrite deref_assign_ne. Qed.

Lemma unchanged_attr_set (x : ref) (k : string) (v : value) :
  x <> r -> unchanged (attr_set x k v).
Proof. intros Hx w Hw. simpl. by rewrite deref_assign_ne. Qed.

Lemma unchanged_update_government_state (x : ref) interactions :
  x <> r -> unchanged (InteractionEngine._update_government_state x interactions).
Proof.
  intros Hx. unfold InteractionEngine._update_government_state.
  hold; by apply unchanged_state_set.
Qed.

Lemma unchanged_update_enterprise_state (x : ref) interactions :
  x <> r -> unchanged (InteractionEngine._update_enterprise_state x interactions).
Proof.
  intros Hx. unfold InteractionEngine._update_enterprise_state.
  hold; by apply unchanged_state_set.
Qed.

Lemma unchanged_update_resident_state (x : ref) interactions :
  x <> r -> unchanged (InteractionEngine._update_resident_state x interactions).
Proof.
  intros Hx. unfold InteractionEngine._update_resident_state.
  hold; first [by apply unchanged_state_set|by apply unchanged_attr_set].
Qed.

End Bystander.

(** An agent that no interaction of the round names keeps its state and
    its attributes through the folding, whether the folding returns or
    raises. *)
Theorem bystanders_unchanged
    (interactions : list interaction) (w : world) (r : ref) :
  Participants.key_of r w ∉ Participants.mentioned interactions ->
  deref r (InteractionEngine._update_agent_states
             Government (enterprise_refs w) (resident_refs w) interactions w).2
  = deref r w.
Proof.
  intros Hkey.
  pose proof (agent_interactions_not_mentioned _ _ Hkey) as Hnone.
  assert (H : forall enterprises residents,
             Forall (fun x => exists j, x = Enterprise j) enterprises ->
             Forall (fun x => exists j, x = Resident j) residents ->
             preserves (fun w' => deref r w' = deref r w)
               (InteractionEngine._update_agent_states
                  Government enterprises residents interactions)).
  { intros enterprises residents He Hr.
    unfold InteractionEngine._update_agent_states. cbv zeta.
    apply preserves_bind; [|intros _; apply preserves_bind; [|intros _]].
    - destruct (_ !! "government") as [l|] eqn:El; [|apply preserves_ret].
      apply unchanged_update_government_state. intros <-.
      simpl in Hnone. congruence.
    - apply preserves_for_each. intros x Hx.
      rewrite Forall_forall in He. destruct (He x Hx) as [j ->].
      apply preserves_gets_bind. intros w' Hw'.
      destruct (decide (Enterprise j = r)) as [<-|Hne].
      + simpl in Hnone. simpl in Hw' |- *. rewrite Hw', Hnone. exact Hw'.
      + destruct (_ !! default _ _); [|exact Hw'].
        exact (unchanged_update_enterprise_state r (deref r w) _ _ Hne w' Hw').
    - apply preserves_for_each. intros x Hx.
      rewrite Forall_forall in Hr. destruct (Hr x Hx) as [j ->].
      apply preserves_gets_bind. intros w' Hw'.
      destruct (decide (Resident j = r)) as [<-|Hne].
      + simpl in Hnone. simpl in Hw' |- *. rewrite Hw', Hnone. exact Hw'.
      + destruct (_ !! default _ _); [|exact Hw'].
        exact (unchanged_update_resident_state r (deref r w) _ _ Hne w' Hw'). }
  apply H; [apply enterprise_refs_enterprises| |done].
  unfold resident_refs. apply Forall_fmap, Forall_forall. intros j _. by exists j.
Qed.

Lemma bystanders_unchanged_witness :
  let w := Worlds.town Worlds.city (Worlds.constant_draws 0.5) 50 in
  deref (Enterprise 0)
    (InteractionEngine._update_agent_states
       Government (enterprise_refs w) (resident_refs w)
       [Folding.ignored_feedback] w).2
  = deref (Enterprise 0) w.
Proof.
  intros w. apply (bystanders_unchanged [Folding.ignored_feedback] w (Enterprise 0)).
  simpl. set_solver.
Defined.

(** ** Enterprises are never set back *)





(** * Policies change the attributes an agent has, and add none *)

Lemma deref_agents (r : ref) (w w' : world) :
  agents w' = agents w -> deref r w' = deref r w.
Proof.
  unfold agents. intros [= Hg He Hr]. destruct r; simpl; congruence.
Qed.

Section Keys.

Context (float : string -> option Q) (table : gmap string policy_config)
        (w0 : world).

Local Abbreviation steady := (AttributeKeys.steady table w0).

Lemma steady_elsewhere_agents {A : Type} (m : M A) :
  untouched agents m ->
  untouched (fun w => policies (policy w)) m ->
  preserves steady m.
Proof.
  intros Ha Hp w [Hw Ht]. split.
  - intros r. rewrite (deref_agents r w (m w).2); [apply Hw|]. apply Ha.
  - by rewrite Hp.
Qed.

Lemma steady_assign_at (who : ref) (a : agent) (w : world) :
  steady w ->
  dom (attributes a) = dom (attributes (deref who w)) ->
  state a = state (deref who w) ->
  steady (assign who a w).
Proof.
  intros [Hw Ht] Hd Hs. split; [|by destruct who].
  intros r. destruct (decide (r = who)) as [->|Hne].
  - destruct (deref_assign_eq who a w) as [E|E]; rewrite E; [|apply Hw].
    rewrite Hd, Hs. apply Hw.
  - rewrite deref_assign_ne by done. apply Hw.
Qed.

Lemma steady_assign (who : ref) (f : world -> agent) :
  (forall w, attributes (f w) = attributes (deref who w)
             /\ state (f w) = state (deref who w)) ->
  preserves steady (modify (fun w => assign who (f w) w)).
Proof.
  intros Hf w Hw. cbn [snd modify]. destruct (Hf w) as [Ha Hs].
  apply steady_assign_at; [done|by rewrite Ha|done].
Qed.

Lemma steady_logger lv msg args : preserves steady (logger lv msg args).
Proof. apply steady_elsewhere_agents; frame. Qed.

Lemma steady_parse_change_value change_str :
  preserves steady (PolicyEngine._parse_change_value float change_str).
Proof.
  apply steady_elsewhere_agents;
    apply untouched_parse_change_value; ignore.
Qed.

Lemma steady_change_attributes who attribute_changes message :
  preserves steady
    (PolicyEngine.change_attributes float who attribute_changes message).
Proof.
  unfold PolicyEngine.change_attributes.
  apply preserves_for_each. intros [attr_name change_str] _.
  apply preserves_gets_bind. intros w Hw.
  destruct (bool_decide_reflect (is_Some (attributes (deref who w) !! attr_name)))
    as [Hin|Hin]; [|exact Hw].
  destruct (parse_change_value_run float change_str w) as [l E].
  rewrite (run_bind_ok _ _ _ _ _ E).
  assert (Hw1 : steady (with_logging l w)).
  { destruct Hw as [Hw Ht]. split; [|done]. intros r.
    rewrite (deref_agents r w (with_logging l w)) by done. apply Hw. }
  assert (Hin1 : is_Some (attributes (deref who (with_logging l w)) !! attr_name)).
  { by rewrite (deref_agents who w (with_logging l w)). }
  revert Hw1 Hin1. generalize (with_logging l w). clear w Hw Hin E.
  intros w Hw Hin.
  rewrite run_bind. unfold attr_get at 1, gets at 1. cbn beta iota.
  destruct (default (VNum 0) (attributes (deref who w) !! attr_name))
    as [old|s]; [|exact Hw].
  rewrite run_bind. cbn [num]. unfold mret at 1, M_ret at 1. cbn beta iota.
  cbv zeta. apply run_preserves_bind.
  - unfold attr_set, modify. cbn [snd].
    apply steady_assign_at; [done| |done].
    cbn [attributes with_attributes]. rewrite dom_insert_L.
    apply elem_of_dom in Hin. set_solver.
  - intros _. destruct (String.eqb message ""); [apply preserves_ret|].
    apply steady_logger.
Qed.

Lemma steady_apply_resident_policy policy_name policy_config residents :
  preserves steady
    (PolicyEngine._apply_resident_policy
       float policy_name policy_config residents).
Proof.
  unfold PolicyEngine._apply_resident_policy. cbv zeta.
  apply preserves_bind.
  { apply steady_elsewhere_agents; frame. }
  intros target_residents. apply preserves_for_each. intros resident _.
  apply preserves_bind; [apply steady_change_attributes|intros _].
  apply preserves_for_each. intros [behavior_name change_str] _.
  apply preserves_bind; [apply steady_parse_change_value|intros change].
  by apply steady_assign.
Qed.

Lemma steady_apply_single_policy
    policy_name policy_config government enterprises residents :
  p_target policy_config <> Some "government_enterprise" ->
  preserves steady
    (PolicyEngine._apply_single_policy
       float policy_name policy_config government enterprises residents).
Proof.
  intros Ht. unfold PolicyEngine._apply_single_policy. cbv zeta.
  apply preserves_bind; [|intros _; apply steady_elsewhere_agents; frame].
  destruct (String.eqb _ "resident"); [apply steady_apply_resident_policy|].
  destruct (String.eqb_spec (default "" (p_target policy_config))
              "government_enterprise") as [E|_].
  { destruct (p_target policy_config); simpl in E; [by subst|done]. }
  destruct (String.eqb _ "environment").
  { apply steady_elsewhere_agents;
      apply untouched_apply_policy_intervention; ignore. }
  destruct (String.eqb _ "government"); [apply steady_change_attributes|].
  destruct (String.eqb _ "enterprise"); [|apply preserves_ret].
  apply preserves_for_each. intros enterprise _.
  apply steady_change_attributes.
Qed.

Lemma steady_apply government enterprises residents policy_interventions :
  AttributeKeys.plain table policy_interventions ->
  preserves steady
    (PolicyEngine.apply float government enterprises residents
       policy_interventions).
Proof.
  intros Hplain. unfold PolicyEngine.apply.
  apply preserves_for_each. intros name Hname.
  apply preserves_gets_bind. intros w Hw.
  destruct Hw as [Hw Ht]. rewrite Ht.
  destruct (table !! name) as [policy_config|] eqn:E.
  - apply run_preserves_bind.
    + apply steady_apply_single_policy; [by eapply Hplain|done].
    + intros _. apply steady_elsewhere_agents; frame.
  - by apply steady_logger.
Qed.

End Keys.

(** Policies that do not target the relation of government and
    enterprises never give an agent an attribute it did not have, and
    never touch the state of an agent: after [apply], whether it returns
    or raises, every agent has exactly the attribute keys and the state it
    had. A change of an attribute that an agent lacks is skipped for that
    agent. *)
Theorem policies_add_no_attribute
    (float : string -> option Q) (government : ref)
    (enterprises residents : list ref) (policy_interventions : list string)
    (w : world) :
  AttributeKeys.plain (policies (policy w)) policy_interventions ->
  AttributeKeys.same w
    (PolicyEngine.apply float government enterprises residents
       policy_interventions w).2.
Proof.
  intros Hplain.
  apply (steady_apply float (policies (policy w)) w
           government enterprises residents policy_interventions Hplain w).
  by split.
Qed.

Lemma policies_add_no_attribute_witness :
  let w := Worlds.town Worlds.city (Worlds.constant_draws 0.5) 50 in
  AttributeKeys.same w
    (PolicyEngine.apply Parse.decimal Government (enterprise_refs w)
       (resident_refs w) ["digital_literacy_training"] w).2.
Proof.
  intros w.
  apply (policies_add_no_attribute Parse.decimal Government (enterprise_refs w)
           (resident_refs w) ["digital_literacy_training"] w).
  intros name policy_config Hname Hp.
  apply list_elem_of_singleton in Hname as ->.
  vm_compute in Hp. by injection Hp as <-.
Defined.

(** * The resilience metrics *)

Lemma levels_from (records : list Resilience.simulation_record)
    (service_levels satisfaction_levels : list Q) :
  foldl (fun '(service_levels, satisfaction_levels) record =>
           (service_levels ++ [Resilience.service_level record],
            satisfaction_levels ++ [Resilience.satisfaction_level record]))
        (service_levels, satisfaction_levels) records
  = (service_levels ++ map Resilience.service_level records,
     satisfaction_levels ++ map Resilience.satisfaction_level records).
Proof.
  revert service_levels satisfaction_levels.
  induction records as [|r records IH]; intros a b; cbn [foldl map].
  - by rewrite !app_nil_r.
  - rewrite IH. by rewrite <- !app_assoc.
Qed.

Lemma levels_map (records : list Resilience.simulation_record) :
  Resilience.levels records
  = (map Resilience.service_level records,
     map Resilience.satisfaction_level records).
Proof. unfold Resilience.levels. by rewrite levels_from. Qed.

Lemma scores_from (records : list Resilience.simulation_record)
    (scores : list Q) :
  foldl (fun efficiency_scores record =>
           match Resilience.round_efficiency record with
           | Some efficiency => efficiency_scores ++ [efficiency]
           | None => efficiency_scores
           end)
        scores records
  = scores ++ omap Resilience.round_efficiency records.
Proof.
  revert scores. induction records as [|r records IH]; intros scores;
    cbn [foldl omap list_omap].
  - by rewrite app_nil_r.
  - rewrite IH. destruct (Resilience.round_efficiency r); [|done].
    by rewrite <- app_assoc.
Qed.

(** The efficiency of a period is the mean of the scores of its rounds
    that have an interaction. *)
Lemma period_efficiency_scores (records : list Resilience.simulation_record) :
  Resilience.calculate_period_efficiency records
  = match omap Resilience.round_efficiency records with
    | [] => 0
    | scores => np_mean scores
    end.
Proof.
  unfold Resilience.calculate_period_efficiency.
  destruct records as [|r records]; [done|].
  cbv zeta. rewrite scores_from. cbn [app].
  by destruct (omap Resilience.round_efficiency (r :: records)).
Qed.

Lemma round_efficiency_bounds (record : Resilience.simulation_record) (x : Q) :
  Resilience.round_efficiency record = Some x -> 0 <= x /\ x <= 1.
Proof.
  unfold Resilience.round_efficiency. cbv zeta.
  destruct (0 <? _)%nat eqn:E; [|done]. intros [= <-].
  apply Nat.ltb_lt in E. apply ratio_bounds; [apply filter_length_le|done].
Qed.

Lemma period_efficiency_bounds (records : list Resilience.simulation_record) :
  0 <= Resilience.calculate_period_efficiency records
  /\ Resilience.calculate_period_efficiency records <= 1.
Proof.
  rewrite period_efficiency_scores.
  assert (H : Forall (fun x => 0 <= x /\ x <= 1)
                (omap Resilience.round_efficiency records)).
  { apply Forall_forall. intros x Hx.
    apply list_elem_of_omap in Hx as (r & _ & Hr).
    by apply (round_efficiency_bounds r). }
  destruct (omap Resilience.round_efficiency records) as [|x l] eqn:E; [lra|].
  by apply np_mean_bounds.
Qed.

Lemma disrupted_rounds_le (records : list Resilience.simulation_record)
    (c : nat) :
  (foldl (fun disrupted_rounds record =>
            if Qlt_le_dec (Resilience.service_level record) 0.8
            then S disrupted_rounds else disrupted_rounds)
         c records
   <= c + length records)%nat.
Proof.
  revert c. induction records as [|r records IH]; intros c; cbn [foldl length].
  - lia.
  - destruct (Qlt_le_dec _ _); [specialize (IH (S c))|specialize (IH c)]; lia.
Qed.

Lemma square_nonneg (x : Q) : 0 <= x * x.
Proof.
  destruct (Qlt_le_dec x 0).
  - assert (E : x * x == (- x) * (- x)) by ring.
    rewrite E. apply Qmult_le_0_compat; lra.
  - apply Qmult_le_0_compat; lra.
Qed.

Lemma squares_nonneg (m : Q) (l : list Q) :
  Forall (fun x => 0 <= x) (map (fun x => (x - m) * (x - m)) l).
Proof.
  apply Forall_forall. intros y Hy. apply list_elem_of_fmap in Hy as (x & -> & _).
  apply square_nonneg.
Qed.

Lemma np_mean_nonneg (l : list Q) :
  Forall (fun x => 0 <= x) l -> 0 <= np_mean l.
Proof.
  intros H. unfold np_mean. apply Qsum_nonneg in H.
  destruct l as [|x l].
  - change (Qsum []) with 0. change (Qnat (length [])) with 0.
    unfold Qdiv. lra.
  - apply Qle_shift_div_l; [apply Qnat_pos; simpl; lia|lra].
Qed.

Lemma np_var_nonneg (l : list Q) : 0 <= Resilience.np_var l.
Proof. apply np_mean_nonneg, squares_nonneg. Qed.

Lemma recovery_speed_nonneg (records : list Resilience.simulation_record) :
  0 <= Resilience.calculate_system_recovery_speed records.
Proof.
  unfold Resilience.calculate_system_recovery_speed.
  destruct records as [|r rs]; [lra|].
  destruct (Resilience.emergency_events (r :: rs)); [lra|].
  apply py_max_ge_l.
Qed.

Lemma recovery_speed_le_1 (records : list Resilience.simulation_record) :
  Forall (fun e => 0 <= Resilience.ev_recovery_time e)
    (Resilience.emergency_events records) ->
  Resilience.calculate_system_recovery_speed records <= 1.
Proof.
  intros H. unfold Resilience.calculate_system_recovery_speed.
  destruct records as [|r rs]; [lra|].
  destruct (Resilience.emergency_events (r :: rs)) as [|e es]; [lra|].
  cbv zeta. apply py_max_lub; [lra|].
  assert (0 <= np_mean (map Resilience.ev_recovery_time (e :: es))).
  { apply np_mean_nonneg. apply Forall_forall. intros y Hy.
    apply list_elem_of_fmap in Hy as (x & -> & Hx).
    revert x Hx. by apply Forall_forall. }
  assert (0 <= np_mean (map Resilience.ev_recovery_time (e :: es)) / 10).
  { apply Qle_shift_div_l; lra. }
  lra.
Qed.

Lemma disruption_rate_bounds (records : list Resilience.simulation_record) :
  0 <= Resilience.calculate_service_disruption_rate records
  /\ Resilience.calculate_service_disruption_rate records <= 1.
Proof.
  unfold Resilience.calculate_service_disruption_rate.
  destruct records as [|r rs]; [lra|]. cbv zeta.
  pose proof (disrupted_rounds_le (r :: rs) 0) as Hle.
  assert (Hn : (0 <? length (r :: rs))%nat = true) by done.
  rewrite Hn. apply ratio_bounds; [exact Hle|simpl; lia].
Qed.

Lemma adaptive_capacity_bounds (records : list Resilience.simulation_record) :
  0 <= Resilience.calculate_adaptive_capacity records
  /\ Resilience.calculate_adaptive_capacity records <= 1.
Proof.
  unfold Resilience.calculate_adaptive_capacity.
  destruct (_ <? 10)%nat; [lra|]. cbv zeta. split.
  - apply py_max_ge_l.
  - apply py_max_lub; [lra|apply py_min_le_l].
Qed.

Lemma stability_index_bounds (records : list Resilience.simulation_record) :
  0 <= Resilience.calculate_stability_index records
  /\ Resilience.calculate_stability_index records <= 1.
Proof.
  unfold Resilience.calculate_stability_index.
  destruct (_ <? 2)%nat; [lra|].
  destruct (Resilience.levels records) as [a b]. cbv zeta. split.
  - apply py_min_glb; [lra|apply py_max_ge_l].
  - apply py_min_le_l.
Qed.

(** Every resilience metric is a number of [0, 1], but for the recovery
    speed, which is at least 0 and needs recovery times that are not
    negative to stay at or below 1. *)
Theorem resilience_range
    (simulation_records : list Resilience.simulation_record) :
  let m := Resilience.calculate_resilience simulation_records in
  0 <= Resilience.system_recovery_speed m
  /\ (Forall (fun e => 0 <= Resilience.ev_recovery_time e)
        (Resilience.emergency_events simulation_records) ->
      Resilience.system_recovery_speed m <= 1)
  /\ (0 <= Resilience.service_disruption_rate m
      /\ Resilience.service_disruption_rate m <= 1)
  /\ (0 <= Resilience.adaptive_capacity m
      /\ Resilience.adaptive_capacity m <= 1)
  /\ (0 <= Resilience.stability_index m
      /\ Resilience.stability_index m <= 1).
Proof.
  cbv zeta. unfold Resilience.calculate_resilience.
  destruct simulation_records as [|r rs];
    cbn [Resilience.system_recovery_speed Resilience.service_disruption_rate
         Resilience.adaptive_capacity Resilience.stability_index].
  { split; [lra|]. split; [intros _; lra|]. repeat apply conj; lra. }
  split; [apply recovery_speed_nonneg|].
  split; [apply recovery_speed_le_1|].
  split; [apply disruption_rate_bounds|].
  split; [apply adaptive_capacity_bounds|apply stability_index_bounds].
Qed.

(** * The state folding, per participant *)

(** ** The dictionary of the folding *)

Lemma group_times (i : interaction) (ps : list string)
    (m : gmap string (list interaction)) (p : string) :
  foldl (fun m participant =>
           <[participant := default [] (m !! participant) ++ [i]]> m) m ps !! p
  = match length (List.filter (String.eqb p) ps) with
    | O => m !! p
    | S k => Some (default [] (m !! p) ++ replicate (S k) i)
    end.
Proof.
  revert m. induction ps as [|q ps IH]; intros m; [done|].
  cbn [foldl List.filter]. rewrite IH.
  destruct (String.eqb_spec p q) as [->|Hne].
  - rewrite lookup_insert_eq. cbn [length default from_option id].
    destruct (length (List.filter (String.eqb q) ps)) as [|k]; [done|].
    by rewrite <- app_assoc.
  - by rewrite lookup_insert_ne.
Qed.

Lemma folded_snoc (p : string) (l : list interaction) (i : interaction) :
  Participants.folded p (l ++ [i])
  = Participants.folded p l ++ replicate (Participants.times p i) i.
Proof.
  unfold Participants.folded. rewrite flat_map_app. simpl.
  by rewrite app_nil_r.
Qed.

Lemma agent_interactions_folded (interactions : list interaction) (p : string) :
  InteractionEngine.agent_interactions interactions !! p
  = match Participants.folded p interactions with
    | [] => None
    | mine => Some mine
    end.
Proof.
  induction interactions as [|i l IH] using rev_ind; [done|].
  rewrite agent_interactions_snoc, group_times, folded_snoc, IH.
  fold (Participants.times p i).
  destruct (Participants.times p i) as [|k].
  - rewrite app_nil_r. by destruct (Participants.folded p l).
  - destruct (Participants.folded p l) as [|x xs]; [done|].
    by cbn [default from_option id].
Qed.

(** ** Writes to one agent *)

Lemma deref_assign_known (r : ref) (a : agent) (w : world) :
  known r w -> deref r (assign r a w) = a.
Proof.
  destruct r as [|j|j]; simpl; intros H; [done|..];
    by rewrite list_lookup_insert_eq.
Qed.

Lemma known_assign (r : ref) (a : agent) (w : world) :
  known r w -> known r (assign r a w).
Proof. destruct r as [|j|j]; simpl; [done|..]; by rewrite length_insert. Qed.

Lemma assign_deref (r : ref) (w : world) : assign r (deref r w) w = w.
Proof.
  destruct w as [g es rs e rnd lg en p].
  destruct r as [|j|j]; simpl; unfold with_enterprises, with_residents; simpl;
    [done|..]; f_equal.
  - destruct (es !! j) as [a|] eqn:E; simpl.
    + by apply list_insert_id.
    + apply list_insert_ge. by apply lookup_ge_None.
  - destruct (rs !! j) as [a|] eqn:E; simpl.
    + by apply list_insert_id.
    + apply list_insert_ge. by apply lookup_ge_None.
Qed.

Lemma assign_assign (r : ref) (a b : agent) (w : world) :
  assign r a (assign r b w) = assign r a w.
Proof.
  destruct r as [|j|j]; simpl; unfold with_enterprises, with_residents; simpl;
    [done|..]; by rewrite list_insert_insert_eq.
Qed.

Lemma is_str_eqb (s t : string) : is_str (Some s) t = String.eqb s t.
Proof.
  unfold is_str. destruct (String.eqb_spec s t) as [->|H].
  - by apply bool_decide_eq_true_2.
  - apply bool_decide_eq_false_2. congruence.
Qed.

Lemma in_strs_eqb (s a b : string) :
  in_strs (Some s) [a; b] = String.eqb s a || String.eqb s b.
Proof.
  unfold in_strs.
  destruct (String.eqb_spec s a) as [->|Ha]; simpl.
  - apply bool_decide_eq_true_2. set_solver.
  - destruct (String.eqb_spec s b) as [->|Hb].
    + apply bool_decide_eq_true_2. set_solver.
    + apply bool_decide_eq_false_2. set_solver.
Qed.

(** ** The folding of the interactions of one agent *)

(** One round of a loop that writes to the agent [r] only. *)
Lemma for_each_fold (r : ref) (step : agent -> interaction -> agent)
    (body : interaction -> M unit) (good : agent -> Prop)
    (l : list interaction) (w : world) :
  (forall i v, known r v -> good (deref r v) ->
     body i v = (Ok tt, assign r (step (deref r v) i) v)) ->
  (forall a i, good a -> good (step a i)) ->
  known r w -> good (deref r w) ->
  for_each l body w = (Ok tt, assign r (foldl step (deref r w) l) w).
Proof.
  intros Hbody Hgood. revert w. induction l as [|i l IH]; intros w Hv Hg.
  - cbn [for_each foldl]. by rewrite assign_deref.
  - cbn [for_each foldl]. rewrite (run_bind_ok _ _ _ _ _ (Hbody i w Hv Hg)).
    rewrite IH.
    + by rewrite deref_assign_known, assign_assign.
    + by apply known_assign.
    + rewrite deref_assign_known by done. by apply Hgood.
Qed.

Lemma update_government_state_run (r : ref) (l : list interaction) (w : world) :
  known r w ->
  InteractionEngine._update_government_state r l w
  = (Ok tt, assign r (foldl Deltas.government (deref r w) l) w).
Proof.
  intros Hv. unfold InteractionEngine._update_government_state.
  apply (for_each_fold r Deltas.government _ (fun _ => True)); [|done..].
  intros i v _ _. cbv zeta. rewrite is_str_eqb, in_strs_eqb.
  unfold Deltas.government. fold (Deltas.outcome i).
  destruct (String.eqb (Deltas.outcome i) "success"); [reflexivity|].
  destruct (_ || _); [reflexivity|].
  by rewrite assign_deref.
Qed.

Lemma update_enterprise_state_run (r : ref) (l : list interaction) (w : world) :
  known r w ->
  InteractionEngine._update_enterprise_state r l w
  = (Ok tt, assign r (foldl Deltas.enterprise_as_coded (deref r w) l) w).
Proof.
  intros Hv. unfold InteractionEngine._update_enterprise_state.
  apply (for_each_fold r Deltas.enterprise_as_coded _ (fun _ => True)); [|done..].
  intros i v _ _. cbv zeta. rewrite !is_str_eqb.
  unfold Deltas.enterprise_as_coded, Deltas.enterprise.
  fold (Deltas.outcome i) (Deltas.type i).
  destruct (String.eqb (Deltas.outcome i) "success");
    [|by rewrite assign_deref].
  destruct (String.eqb (Deltas.type i) "procurement_cooperation");
    [reflexivity|].
  destruct (String.eqb (Deltas.type i) "service_supply"); [reflexivity|].
  by rewrite assign_deref.
Qed.

Lemma trust_read (a : agent) :
  Deltas.numeric_trust a ->
  default (VNum 80) (attributes a !! "trust_in_government")
  = VNum (Deltas.trust a).
Proof.
  intros H. unfold Deltas.trust.
  destruct (attributes a !! "trust_in_government") as [v|] eqn:E; [|done].
  destruct (H v E) as [q ->]. done.
Qed.

Lemma numeric_trust_resident (a : agent) (i : interaction) :
  Deltas.numeric_trust a -> Deltas.numeric_trust (Deltas.resident a i).
Proof.
  intros H. unfold Deltas.resident. cbv zeta.
  assert (Hset : forall t b, Deltas.numeric_trust (Deltas.with_trust t b)).
  { intros t b v. unfold Deltas.with_trust. cbn [attributes with_attributes].
    rewrite lookup_insert_eq. intros [= <-]. by eexists. }
  repeat match goal with
         | |- context [if ?b then _ else _] => destruct b
         end; done.
Qed.

Lemma update_resident_state_run (r : ref) (l : list interaction) (w : world) :
  known r w -> Deltas.numeric_trust (deref r w) ->
  InteractionEngine._update_resident_state r l w
  = (Ok tt, assign r (foldl Deltas.resident (deref r w) l) w).
Proof.
  intros Hv Hn. unfold InteractionEngine._update_resident_state.
  apply (for_each_fold r Deltas.resident _ Deltas.numeric_trust);
    [|apply numeric_trust_resident|done..].
  intros i v Hvalid Hnum. cbv zeta. rewrite !is_str_eqb, in_strs_eqb.
  unfold Deltas.resident. fold (Deltas.outcome i) (Deltas.type i).
  destruct (String.eqb (Deltas.outcome i) "success").
  - destruct (String.eqb (Deltas.type i) "service_provision"); [reflexivity|].
    destruct (String.eqb (Deltas.type i) "demand_response");
      [|by rewrite assign_deref].
    rewrite run_bind. unfold attr_get at 1, gets at 1. cbn beta iota.
    rewrite (trust_read _ Hnum). reflexivity.
  - destruct (_ || _); [|by rewrite assign_deref].
    rewrite run_bind. unfold state_get at 1, gets at 1. cbn beta iota.
    rewrite run_bind. unfold state_set at 1, modify at 1. cbn beta iota.
    cbv zeta.
    destruct (String.eqb (Deltas.type i) "demand_response"); [|reflexivity].
    rewrite run_bind. unfold attr_get at 1, gets at 1. cbn beta iota.
    rewrite deref_assign_known by done.
    fold (Deltas.lowered "satisfaction" 3 0.05 1 (deref r v)).
    rewrite (trust_read (Deltas.lowered "satisfaction" 3 0.05 1 (deref r v))) by done.
    rewrite run_bind. cbn [num]. unfold mret at 1, M_ret at 1. cbn beta iota.
    unfold attr_set, modify.
    rewrite deref_assign_known by done. by rewrite assign_assign.
Qed.

(** ** The loops over the enterprises and over the residents *)

Section Roster.

Context (mk : nat -> ref) (members : world -> list agent)
        (with_members : list agent -> world -> world).
Context (Hassign : forall k a w,
           assign (mk k) a w = with_members (<[k := a]> (members w)) w).
Context (Hderef : forall k w, deref (mk k) w = default no_agent (members w !! k)).
Context (Hknown : forall k w, known (mk k) w <-> (k < length (members w))%nat).
Context (Hmembers : forall l w, members (with_members l w) = l).
Context (Hwith : forall l l' w,
           with_members l (with_members l' w) = with_members l w).
Context (Hid : forall w, with_members (members w) w = w).

Context (step : agent -> agent) (good : agent -> Prop)
        (body : ref -> M unit).
Context (Hbody : forall k v,
           known (mk k) v -> good (deref (mk k) v) ->
           body (mk k) v = (Ok tt, assign (mk k) (step (deref (mk k) v)) v)).
Context (Hgood : forall a, good a -> good (step a)).

(** The members [s], ..., [s + n - 1] are stepped, the others kept. *)
Lemma for_each_members (n s : nat) (v : world) :
  (s + n <= length (members v))%nat ->
  Forall good (members v) ->
  exists l,
    for_each (mk <$> seq s n) body v = (Ok tt, with_members l v)
    /\ length l = length (members v)
    /\ forall j, l !! j = if bool_decide (s <= j < s + n)%nat
                          then step <$> members v !! j
                          else members v !! j.
Proof.
  revert s v. induction n as [|n IH]; intros s v Hn Hg.
  - exists (members v). cbn [seq fmap list_fmap for_each]. rewrite Hid.
    split; [done|]. split; [done|]. intros j.
    rewrite bool_decide_eq_false_2; [done|lia].
  - cbn [seq fmap list_fmap for_each].
    destruct (lookup_lt_is_Some_2 (members v) s ltac:(lia)) as [a Ha].
    assert (Hd : deref (mk s) v = a) by (by rewrite Hderef, Ha).
    assert (Hga : good a).
    { rewrite Forall_forall in Hg. apply Hg. by eapply list_elem_of_lookup_2. }
    rewrite (run_bind_ok _ _ _ _ _
               (Hbody s v ltac:(apply Hknown; lia) ltac:(by rewrite Hd))).
    rewrite Hd, Hassign.
    set (v1 := with_members (<[s := step a]> (members v)) v).
    assert (E1 : members v1 = <[s := step a]> (members v)) by apply Hmembers.
    destruct (IH (S s) v1) as (l & El & Hl & Hj).
    { rewrite E1, length_insert. lia. }
    { rewrite E1. apply Forall_insert; [done|by apply Hgood]. }
    exists l. rewrite El. unfold v1. rewrite Hwith.
    split; [done|]. split; [by rewrite Hl, E1, length_insert|].
    intros j. rewrite Hj, E1.
    destruct (decide (j = s)) as [->|Hne].
    + rewrite bool_decide_eq_false_2 by lia.
      rewrite bool_decide_eq_true_2 by lia.
      rewrite list_lookup_insert_eq by lia. by rewrite Ha.
    + rewrite list_lookup_insert_ne by done.
      destruct (bool_decide_reflect (S s <= j < S s + n)%nat).
      * by rewrite bool_decide_eq_true_2 by lia.
      * by rewrite bool_decide_eq_false_2 by lia.
Qed.

Lemma for_each_all_members (v : world) :
  Forall good (members v) ->
  for_each (mk <$> seq 0 (length (members v))) body v
  = (Ok tt, with_members (map step (members v)) v).
Proof.
  intros Hg.
  destruct (for_each_members (length (members v)) 0 v ltac:(lia) Hg)
    as (l & El & Hl & Hj).
  rewrite El. do 2 f_equal. apply list_eq. intros j.
  rewrite Hj. change (map step (members v)) with (step <$> members v).
  rewrite list_lookup_fmap.
  destruct (bool_decide_reflect (0 <= j < 0 + length (members v))%nat) as [H|H];
    [done|].
  rewrite (lookup_ge_None_2 (members v) j) by lia. done.
Qed.

End Roster.

Lemma with_enterprises_id (w : world) : with_enterprises (enterprises w) w = w.
Proof. by destruct w. Qed.

Lemma with_residents_id (w : world) : with_residents (residents w) w = w.
Proof. by destruct w. Qed.

(** ** The folding of a round *)

(** What the folding leaves of the government, of an enterprise and of a
    resident. *)
Lemma folded_government_run (interactions : list interaction) (w : world) :
  match InteractionEngine.agent_interactions interactions !! "government" with
  | Some gov_interactions =>
      InteractionEngine._update_government_state Government gov_interactions
  | None => mret tt
  end w
  = (Ok tt,
     with_government
       (foldl Deltas.government (government w)
          (Participants.folded "government" interactions)) w).
Proof.
  rewrite agent_interactions_folded.
  destruct (Participants.folded "government" interactions) as [|i l] eqn:E.
  - cbn [foldl]. by destruct w.
  - by rewrite update_government_state_run.
Qed.

Lemma folded_enterprise_run (interactions : list interaction)
    (k : nat) (v : world) :
  known (Enterprise k) v ->
  (agent_id ← id_of (Enterprise k) "enterprise";
   match InteractionEngine.agent_interactions interactions !! agent_id with
   | Some ent_interactions =>
       InteractionEngine._update_enterprise_state (Enterprise k) ent_interactions
   | None => mret tt
   end) v
  = (Ok tt,
     assign (Enterprise k)
       ((fun e => foldl Deltas.enterprise_as_coded e
                   (Participants.folded (Deltas.enterprise_id e) interactions))
          (deref (Enterprise k) v)) v).
Proof.
  intros Hk. rewrite run_bind. unfold id_of at 1, gets at 1. cbn beta iota.
  rewrite agent_interactions_folded. fold (Deltas.enterprise_id (deref (Enterprise k) v)).
  destruct (Participants.folded _ interactions) as [|i l] eqn:E.
  - cbn [foldl]. by rewrite assign_deref.
  - by rewrite update_enterprise_state_run.
Qed.

Lemma folded_resident_run (interactions : list interaction)
    (k : nat) (v : world) :
  known (Resident k) v -> Deltas.numeric_trust (deref (Resident k) v) ->
  (agent_id ← id_of (Resident k) "resident";
   match InteractionEngine.agent_interactions interactions !! agent_id with
   | Some res_interactions =>
       InteractionEngine._update_resident_state (Resident k) res_interactions
   | None => mret tt
   end) v
  = (Ok tt,
     assign (Resident k)
       ((fun r => foldl Deltas.resident r
                   (Participants.folded (Deltas.resident_id r) interactions))
          (deref (Resident k) v)) v).
Proof.
  intros Hk Hn. rewrite run_bind. unfold id_of at 1, gets at 1. cbn beta iota.
  rewrite agent_interactions_folded. fold (Deltas.resident_id (deref (Resident k) v)).
  destruct (Participants.folded _ interactions) as [|i l] eqn:E.
  - cbn [foldl]. by rewrite assign_deref.
  - by rewrite update_resident_state_run.
Qed.

Lemma numeric_trust_folded (a : agent) (l : list interaction) :
  Deltas.numeric_trust a -> Deltas.numeric_trust (foldl Deltas.resident a l).
Proof.
  revert a. induction l as [|i l IH]; intros a H; [done|].
  cbn [foldl]. by apply IH, numeric_trust_resident.
Qed.

(** The folding as a whole: it returns, and writes to every agent the
    fold of the interactions kept under its id. *)
Lemma update_agent_states_run (interactions : list interaction) (w : world) :
  Forall Deltas.numeric_trust (residents w) ->
  InteractionEngine._update_agent_states
    Government (enterprise_refs w) (resident_refs w) interactions w
  = (Ok tt,
     with_residents
       (map (fun r => foldl Deltas.resident r
                       (Participants.folded (Deltas.resident_id r) interactions))
            (residents w))
       (with_enterprises
          (map (fun e => foldl Deltas.enterprise_as_coded e
                          (Participants.folded (Deltas.enterprise_id e)
                             interactions))
               (enterprises w))
          (with_government
             (foldl Deltas.government (government w)
                (Participants.folded "government" interactions)) w))).
Proof.
  intros Hn. unfold InteractionEngine._update_agent_states. cbv zeta.
  rewrite (run_bind_ok _ _ _ _ _ (folded_government_run interactions w)).
  set (w1 := with_government _ w).
  unfold enterprise_refs, resident_refs.
  change (enterprises w) with (enterprises w1).
  change (residents w) with (residents w1) in Hn |- *.
  rewrite (run_bind_ok _ _ _ _ _
             (for_each_all_members Enterprise enterprises with_enterprises
                ltac:(done) ltac:(done) ltac:(done) ltac:(done) ltac:(done)
                with_enterprises_id _ (fun _ => True) _
                (fun k v Hk _ => folded_enterprise_run interactions k v Hk)
                ltac:(done) w1 ltac:(by apply Forall_forall))).
  set (w2 := with_enterprises _ w1).
  change (residents w1) with (residents w2) in Hn |- *.
  apply (for_each_all_members Resident residents with_residents
           ltac:(done) ltac:(done) ltac:(done) ltac:(done) ltac:(done)
           with_residents_id _ Deltas.numeric_trust _
           (folded_resident_run interactions)
           (fun a H => numeric_trust_folded a _ H) w2 Hn).
Qed.

Lemma numeric_trust_residents (w : world) :
  Typed.numeric_attributes w -> Forall Deltas.numeric_trust (residents w).
Proof.
  intros H. apply Forall_forall. intros a Ha.
  apply list_elem_of_lookup_1 in Ha as [j Hj]. intros v Hv.
  apply (H (Resident j) "trust_in_government" v).
  - unfold Typed.keys. set_solver.
  - simpl. by rewrite Hj.
Qed.




(** * A round with rules missing *)

(** ** The draws of a round *)

Lemma advanced_start (w : world) :
  Slots.advanced w (Random.pos (random_source w)) = w.
Proof. destruct w as [g es rs e [d p] lg en pl]. reflexivity. Qed.

Lemma drawn_mono (w : world) (hi hi' : nat) (u : Q) :
  Slots.drawn w hi u -> (hi <= hi')%nat -> Slots.drawn w hi' u.
Proof. intros (n & Hn & ->) H. exists n. split; [lia|done]. Qed.

Lemma choose_spec {A : Type} (k : nat) (pool : list A) (g : Random.t) :
  (k <= length pool)%nat ->
  exists xs p',
    Random.choose k pool g
    = (xs, {| Random.draws := Random.draws g; Random.pos := p' |})
    /\ (Random.pos g <= p')%nat /\ length xs = k /\ xs ⊆ pool.
Proof.
  revert pool g. induction k as [|k IH]; intros pool g Hk.
  - exists [], (Random.pos g). destruct g. repeat split; [done|set_solver].
  - rewrite choose_S.
    pose proof (randbelow_lt (length pool) g ltac:(lia)) as Hj.
    unfold Random.randbelow, Random.random in *. cbn [fst] in Hj.
    set (j := (Z.to_nat _ `min` _)%nat) in *. cbv beta iota zeta.
    destruct (lookup_lt_is_Some_2 pool j Hj) as [x Hx]. rewrite Hx.
    destruct (IH (delete j pool)
                {| Random.draws := Random.draws g;
                   Random.pos := S (Random.pos g) |})
      as (xs & p' & E & Hp & Hl & Hs).
    { rewrite length_delete by (by eexists). lia. }
    rewrite E. exists (x :: xs), p'. cbn [Random.draws Random.pos] in *.
    split; [done|]. split; [lia|]. split; [by rewrite length_cons, Hl|].
    intros y [->|Hy]%elem_of_cons.
    + by eapply list_elem_of_lookup_2.
    + by eapply list_elem_of_delete_inv, Hs.
Qed.

(** ** The stages of a round *)

Section Stage.

Context (w0 : world).

Local Abbreviation stage := (Slots.stage w0).

Lemma stage_ret {A : Type} (a : A) (Q : nat -> A -> Prop) :
  (forall hi, Q hi a) -> stage (mret a) Q.
Proof. intros H p Hp. exists a, p. split; [done|]. split; [lia|apply H]. Qed.

Lemma stage_bind {A B : Type} (m : M A) (f : A -> M B)
    (Q1 : nat -> A -> Prop) (Q : nat -> B -> Prop) :
  stage m Q1 ->
  (forall a hi1, Q1 hi1 a ->
     stage (f a) (fun hi b => (hi1 <= hi)%nat -> Q hi b)) ->
  stage (m ≫= f) Q.
Proof.
  intros Hm Hf p Hp. destruct (Hm p Hp) as (a & p1 & E1 & Hp1 & H1).
  destruct (Hf a p1 H1 p1 ltac:(lia)) as (b & p2 & E2 & Hp2 & H2).
  exists b, p2. rewrite (run_bind_ok _ _ _ _ _ E1).
  split; [done|]. split; [lia|by apply H2].
Qed.

Lemma stage_conseq {A : Type} (m : M A) (Q Q' : nat -> A -> Prop) :
  stage m Q -> (forall hi a, Q hi a -> Q' hi a) -> stage m Q'.
Proof.
  intros Hm H p Hp. destruct (Hm p Hp) as (a & p1 & E1 & Hp1 & H1).
  exists a, p1. auto.
Qed.

(** A read of what the draws do not change. *)
Lemma stage_gets {A : Type} (f : world -> A) (Q : nat -> A -> Prop) :
  (forall p, f (Slots.advanced w0 p) = f w0) ->
  (forall hi, Q hi (f w0)) -> stage (gets f) Q.
Proof.
  intros Hf H p Hp. exists (f w0), p. unfold gets. rewrite Hf.
  split; [done|]. split; [lia|apply H].
Qed.

Lemma stage_random_random :
  stage random_random (fun hi u => Slots.drawn w0 hi u).
Proof.
  intros p Hp. exists (Random.draws (random_source w0) p), (S p).
  split; [reflexivity|]. split; [lia|]. exists p. split; [lia|done].
Qed.

Lemma stage_random_randint (a b : nat) :
  (a <= b)%nat ->
  stage (random_randint a b) (fun _ n => (a <= n <= b)%nat).
Proof.
  intros Hab p Hp. unfold random_randint, Random.randint.
  pose proof (randbelow_lt (S (b - a))
                (random_source (Slots.advanced w0 p)) ltac:(lia)) as Hj.
  unfold Random.randbelow, Random.random in *. cbn [fst] in Hj.
  cbv beta iota zeta.
  eexists _, (S p). split; [reflexivity|]. split; [lia|].
  cbn [Slots.advanced random_source with_random_source Random.draws Random.pos]
    in Hj |- *. lia.
Qed.

Lemma stage_random_sample {A : Type} (population : list A) (k : nat) :
  (k <= length population)%nat ->
  stage (random_sample population k)
        (fun _ xs => length xs = k /\ xs ⊆ population).
Proof.
  intros Hk p Hp. unfold random_sample, Random.sample.
  destruct (Nat.ltb_spec (length population) k) as [H|H]; [lia|].
  destruct (choose_spec k population
              (random_source (Slots.advanced w0 p)) Hk)
    as (xs & p' & E & Hp' & Hl & Hs).
  rewrite E. exists xs, p'. split; [reflexivity|].
  cbn [Slots.advanced random_source with_random_source Random.pos] in Hp'.
  done.
Qed.

(** A loop fills one slot per element. *)
Lemma stage_collect {A B : Type} (l : list A) (body : A -> M (list B))
    (R : A -> nat -> list B -> Prop) :
  (forall x, x ∈ l -> stage (body x) (R x)) ->
  (forall x hi hi' ys, R x hi ys -> (hi <= hi')%nat -> R x hi' ys) ->
  stage (collect l body)
        (fun hi zs => exists slots,
             zs = concat slots /\ Forall2 (fun x ys => R x hi ys) l slots).
Proof.
  intros Hbody Hmono. induction l as [|x l IH]; cbn [collect].
  - apply stage_ret. intros hi. by exists [].
  - eapply stage_bind; [apply Hbody; set_solver|]. intros ys hi1 Hys.
    eapply stage_bind; [apply IH; intros; apply Hbody; set_solver|].
    intros zs hi2 (slots & -> & Hslots). apply stage_ret.
    intros hi H2 H1. exists (ys :: slots). split; [done|].
    constructor; [apply (Hmono x hi1); [done|lia]|].
    eapply Forall2_impl; [exact Hslots|]. intros y s Hs. cbv beta in *.
    by apply (Hmono y hi2).
Qed.

(** A loop whose records are not described. *)
Lemma stage_collect_any {A B : Type} (l : list A) (body : A -> M (list B)) :
  (forall x, x ∈ l -> stage (body x) (fun _ _ => True)) ->
  stage (collect l body) (fun _ _ => True).
Proof.
  intros Hbody. eapply stage_conseq.
  - apply (stage_collect l body (fun _ _ _ => True)); [done|done].
  - done.
Qed.

Lemma stage_ret_bind {A B : Type} (a : A) (f : A -> M B)
    (Q : nat -> B -> Prop) :
  stage (f a) Q -> stage (mret a ≫= f) Q.
Proof. intros H p Hp. exact (H p Hp). Qed.

Lemma stage_read {A : Type} (f : world -> A) :
  (forall p, f (Slots.advanced w0 p) = f w0) ->
  stage (gets f) (fun _ a => a = f w0).
Proof. intros Hf. by apply stage_gets. Qed.

Lemma stage_fmap {A B : Type} (g : A -> B) (m : M A) (Q : nat -> B -> Prop) :
  stage m (fun hi a => Q hi (g a)) -> stage (g <$> m) Q.
Proof.
  intros H p Hp. destruct (H p Hp) as (a & p1 & E1 & Hp1 & H1).
  exists (g a), p1. split; [|done].
  unfold fmap, M_fmap. by rewrite (run_bind_ok _ _ _ _ _ E1).
Qed.

End Stage.

(** ** The records of the engine *)

Lemma rule_probability (w : world) (type tname : string) (d : Q) :
  tname = Slots.table_of type -> d = Slots.default_probability type ->
  InteractionEngine.probability_of
    (InteractionEngine.rule_of (default ∅ (rules (engine w) !! tname)) type) d
  = Slots.probability_in w type.
Proof.
  intros -> ->. unfold Slots.probability_in, Slots.rule_in,
    InteractionEngine.probability_of, InteractionEngine.rule_of.
  destruct (rules (engine w) !! Slots.table_of type) as [t|]; simpl.
  - by destruct (t !! type).
  - by rewrite lookup_empty.
Qed.

Lemma rule_effect (w : world) (type tname : string) :
  tname = Slots.table_of type ->
  InteractionEngine.effect_of
    (InteractionEngine.rule_of (default ∅ (rules (engine w) !! tname)) type)
  = Slots.effect_in w type.
Proof.
  intros ->. unfold Slots.effect_in, Slots.rule_in,
    InteractionEngine.effect_of, InteractionEngine.rule_of.
  destruct (rules (engine w) !! Slots.table_of type) as [t|]; simpl.
  - by destruct (t !! type).
  - by rewrite lookup_empty.
Qed.

Lemma number_read (w : world) (r : ref) (k : string) (d : Q) :
  Typed.numeric_attributes w -> k ∈ Typed.keys ->
  default (VNum d) (attributes (deref r w) !! k)
  = VNum (Slots.number k d (deref r w)).
Proof.
  intros H Hk. unfold Slots.number.
  destruct (attributes (deref r w) !! k) as [v|] eqn:E; [|done].
  destruct (H r k v Hk E) as [q ->]. done.
Qed.

Section Records.

Context (w0 : world) (Hnum : Typed.numeric_attributes w0).

Local Abbreviation stage := (Slots.stage w0).
Local Abbreviation government_enterprise :=
  (default ∅ (rules (engine w0) !! "government_enterprise")).
Local Abbreviation government_resident :=
  (default ∅ (rules (engine w0) !! "government_resident")).
Local Abbreviation enterprise_resident :=
  (default ∅ (rules (engine w0) !! "enterprise_resident")).

(** A numeric attribute is read and turned into a number. *)
Lemma stage_number {B : Type} (r : ref) (k : string) (d : Q)
    (f : Q -> M B) (Q' : nat -> B -> Prop) :
  k ∈ Typed.keys ->
  stage (f (Slots.number k d (deref r w0))) Q' ->
  stage (c ← attr_get r k (VNum d); c ← num c; f c) Q'.
Proof.
  intros Hk H p Hp. destruct (H p Hp) as (b & p' & E & Hp' & Hb).
  exists b, p'. split; [|done]. rewrite run_bind.
  unfold attr_get at 1, gets at 1. cbn beta iota.
  change (deref r (Slots.advanced w0 p)) with (deref r w0).
  rewrite (number_read w0 r k d Hnum Hk). exact E.
Qed.

Lemma stage_create_procurement (g e : ref) :
  stage (InteractionEngine._create_procurement_interaction
           g e government_enterprise)
        (fun hi i => exists u, Slots.drawn w0 hi u
                               /\ i = Slots.procurement w0 (deref e w0) u).
Proof.
  unfold InteractionEngine._create_procurement_interaction. cbv zeta.
  rewrite (rule_probability w0 "procurement_cooperation") by reflexivity.
  rewrite (rule_effect w0 "procurement_cooperation") by reflexivity.
  eapply stage_bind; [by apply stage_read|intros level hi1 ->].
  eapply stage_bind; [apply stage_random_random|intros u hi2 Hu].
  eapply stage_bind; [by apply stage_read|intros id hi3 ->].
  apply stage_ret. intros hi H3 H2 H1. exists u.
  split; [by apply (drawn_mono w0 hi2)|reflexivity].
Qed.

Lemma stage_create_regulation (g e : ref) :
  stage (InteractionEngine._create_regulation_interaction
           g e government_enterprise)
        (fun hi i => exists u, Slots.drawn w0 hi u
                               /\ i = Slots.regulation w0 (deref e w0) u).
Proof.
  unfold InteractionEngine._create_regulation_interaction. cbv zeta.
  rewrite (rule_effect w0 "regulation") by reflexivity.
  apply stage_number; [unfold Typed.keys; set_solver|].
  eapply stage_bind; [apply stage_random_random|intros u hi2 Hu].
  eapply stage_bind; [by apply stage_read|intros id hi3 ->].
  apply stage_ret. intros hi H3 H2. exists u.
  split; [by apply (drawn_mono w0 hi2)|reflexivity].
Qed.

Lemma stage_create_data_sharing (g : ref) (e : ref) :
  g = Government ->
  stage (InteractionEngine._create_data_sharing_interaction
           g e government_enterprise)
        (fun hi i => exists u, Slots.drawn w0 hi u
                               /\ i = Slots.data_sharing w0 (deref e w0) u).
Proof.
  intros ->. unfold InteractionEngine._create_data_sharing_interaction.
  cbv zeta.
  rewrite (rule_probability w0 "data_sharing") by reflexivity.
  rewrite (rule_effect w0 "data_sharing") by reflexivity.
  apply stage_number; [unfold Typed.keys; set_solver|].
  eapply stage_bind; [apply stage_random_random|intros u hi2 Hu].
  eapply stage_bind; [by apply stage_read|intros id hi3 ->].
  apply stage_ret. intros hi H3 H2. exists u.
  split; [by apply (drawn_mono w0 hi2)|reflexivity].
Qed.

Lemma stage_create_resident_gov (r g : ref) (d : decision) :
  g = Government ->
  default "provide_feedback" (action d) = "provide_feedback" ->
  stage (InteractionEngine._create_resident_gov_interaction
           r g d government_resident)
        (fun hi o => exists u, Slots.drawn w0 hi u
                               /\ o = Some (Slots.demand_response w0 (deref r w0) u)).
Proof.
  intros -> Ha. unfold InteractionEngine._create_resident_gov_interaction.
  cbv zeta. rewrite Ha. cbn [String.eqb Ascii.eqb Bool.eqb].
  rewrite (rule_probability w0 "demand_response") by reflexivity.
  rewrite (rule_effect w0 "demand_response") by reflexivity.
  apply stage_number; [unfold Typed.keys; set_solver|].
  eapply stage_bind; [apply stage_random_random|intros u hi2 Hu].
  eapply stage_bind; [by apply stage_read|intros id hi3 ->].
  eapply stage_bind; [by apply stage_read|intros ar hi4 ->].
  apply stage_ret. intros hi H4 H3 H2. exists u.
  split; [by apply (drawn_mono w0 hi2)|reflexivity].
Qed.

Lemma stage_create_enterprise_service (e r : ref) (d : decision) :
  stage (InteractionEngine._create_enterprise_service_interaction
           e r d enterprise_resident)
        (fun hi i => exists u,
             Slots.drawn w0 hi u
             /\ i = Slots.service_supply w0 (deref e w0) (deref r w0) u).
Proof.
  unfold InteractionEngine._create_enterprise_service_interaction. cbv zeta.
  rewrite (rule_probability w0 "service_supply") by reflexivity.
  rewrite (rule_effect w0 "service_supply") by reflexivity.
  apply stage_number; [unfold Typed.keys; set_solver|].
  eapply stage_bind; [by apply stage_read|intros level hi1 ->].
  eapply stage_bind; [apply stage_random_random|intros u hi2 Hu].
  eapply stage_bind; [by apply stage_read|intros eid hi3 ->].
  eapply stage_bind; [by apply stage_read|intros rid hi4 ->].
  eapply stage_bind; [by apply stage_read|intros ar hi5 ->].
  apply stage_ret. intros hi H5 H4 H3 H2 H1. exists u.
  split; [by apply (drawn_mono w0 hi2)|reflexivity].
Qed.

(** The records this development does not describe. *)
Lemma stage_create_bidding (e g : ref) (rules : gmap string rule) :
  stage (InteractionEngine._create_bidding_interaction e g rules)
        (fun _ _ => True).
Proof.
  unfold InteractionEngine._create_bidding_interaction. cbv zeta.
  eapply stage_bind; [by apply stage_read|intros level hi1 ->].
  apply stage_number; [unfold Typed.keys; set_solver|].
  eapply stage_bind; [apply stage_random_random|intros u hi2 Hu].
  eapply stage_bind; [by apply stage_read|intros id hi3 ->].
  by apply stage_ret.
Qed.

Lemma stage_create_data_request (e g : ref) (rules : gmap string rule) :
  stage (InteractionEngine._create_data_request_interaction e g rules)
        (fun _ _ => True).
Proof.
  unfold InteractionEngine._create_data_request_interaction. cbv zeta.
  apply stage_number; [unfold Typed.keys; set_solver|].
  eapply stage_bind; [apply stage_random_random|intros u hi2 Hu].
  eapply stage_bind; [by apply stage_read|intros id hi3 ->].
  by apply stage_ret.
Qed.

Lemma stage_create_service (g r : ref) (d : decision) (rule : rule) :
  stage (InteractionEngine._create_service_interaction g r d rule)
        (fun _ _ => True).
Proof.
  unfold InteractionEngine._create_service_interaction. cbv zeta.
  eapply stage_bind; [by apply stage_read|intros ar hi1 ->].
  eapply stage_bind; [apply stage_random_random|intros u hi2 Hu].
  eapply stage_bind; [by apply stage_read|intros id hi3 ->].
  eapply stage_bind; [apply stage_random_random|intros u' hi4 Hu'].
  by apply stage_ret.
Qed.

(** ** The four stages *)

Lemma government_slot_mono (action : string) (e : ref) (hi hi' : nat)
    (slot : list interaction) :
  Slots.government_slot w0 hi action e slot -> (hi <= hi')%nat ->
  Slots.government_slot w0 hi' action e slot.
Proof.
  intros (u & Hu & ->) H. exists u. split; [by eapply drawn_mono|done].
Qed.

Lemma feedback_slot_mono (rd : ref * decision) (hi hi' : nat)
    (slot : list interaction) :
  Slots.feedback_slot w0 hi rd slot -> (hi <= hi')%nat ->
  Slots.feedback_slot w0 hi' rd slot.
Proof.
  unfold Slots.feedback_slot. destruct (Slots.gives_feedback rd.2); [|done].
  intros (u & Hu & ->) H. exists u. split; [by eapply drawn_mono|done].
Qed.

Lemma supply_slot_mono (ed : ref * decision) (hi hi' : nat)
    (slot : list interaction) :
  Slots.supply_slot w0 hi ed slot -> (hi <= hi')%nat ->
  Slots.supply_slot w0 hi' ed slot.
Proof.
  unfold Slots.supply_slot. destruct (Slots.supplies ed.2); [|done].
  intros [Hl Hf] H. split; [done|].
  eapply Forall_impl; [exact Hf|]. intros i (r & u & Hr & Hu & ->).
  exists r, u. split; [done|]. split; [by eapply drawn_mono|done].
Qed.

Lemma stage_create_gov_ent (e : ref) (gov_decision : decision) :
  stage (InteractionEngine._create_gov_ent_interaction
           Government e gov_decision government_enterprise)
        (fun hi o =>
           Typed.government_action gov_decision
             ∈ ["procurement_cooperation"; "regulation"; "data_sharing"] ->
           Slots.government_slot w0 hi (Typed.government_action gov_decision)
             e (option_list o)).
Proof.
  unfold InteractionEngine._create_gov_ent_interaction. cbv zeta.
  fold (Typed.government_action gov_decision).
  unfold Slots.government_slot, Slots.government_record.
  destruct (String.eqb_spec (Typed.government_action gov_decision)
              "procurement_cooperation") as [E1|E1].
  { apply stage_fmap. eapply stage_conseq; [apply stage_create_procurement|].
    intros hi i (u & Hu & ->) _. by exists u. }
  destruct (String.eqb_spec (Typed.government_action gov_decision)
              "regulation") as [E2|E2].
  { apply stage_fmap. eapply stage_conseq; [apply stage_create_regulation|].
    intros hi i (u & Hu & ->) _. by exists u. }
  destruct (String.eqb_spec (Typed.government_action gov_decision)
              "data_sharing") as [E3|E3].
  { apply stage_fmap.
    eapply stage_conseq; [by apply stage_create_data_sharing|].
    intros hi i (u & Hu & ->) _. by exists u. }
  apply stage_ret. intros hi H. set_solver.
Qed.

Lemma stage_create_ent_gov (e : ref) (ent_decision : decision)
    (rules : gmap string rule) :
  stage (InteractionEngine._create_ent_gov_interaction
           e Government ent_decision rules)
        (fun _ _ => True).
Proof.
  unfold InteractionEngine._create_ent_gov_interaction. cbv zeta.
  destruct (String.eqb _ "project_bidding").
  { apply stage_fmap. apply stage_create_bidding. }
  destruct (String.eqb _ "data_request").
  { apply stage_fmap. apply stage_create_data_request. }
  by apply stage_ret.
Qed.

Lemma stage_process_government_enterprise
    (enterprises : list ref) (gov_decision : decision)
    (ent_decisions : list decision) :
  stage (InteractionEngine._process_government_enterprise_interactions
           Government enterprises gov_decision ent_decisions)
        (fun hi a =>
           exists slots others,
             a = concat slots ++ others
             /\ (in_strs (target gov_decision) ["enterprises"; "enterprise"]
                 = true ->
                 Typed.government_action gov_decision
                   ∈ ["procurement_cooperation"; "regulation"; "data_sharing"] ->
                 Forall2 (Slots.government_slot w0 hi
                            (Typed.government_action gov_decision))
                         enterprises slots)).
Proof.
  unfold InteractionEngine._process_government_enterprise_interactions.
  eapply stage_bind; [by apply stage_read|intros rules hi0 ->].
  eapply (stage_bind _ _ _
            (fun hi fg =>
               exists slots, fg = concat slots
                 /\ (in_strs (target gov_decision) ["enterprises"; "enterprise"]
                     = true ->
                     Typed.government_action gov_decision
                       ∈ ["procurement_cooperation"; "regulation";
                          "data_sharing"] ->
                     Forall2 (Slots.government_slot w0 hi
                                (Typed.government_action gov_decision))
                             enterprises slots))).
  { destruct (in_strs (target gov_decision) _).
    - eapply stage_conseq.
      + apply (stage_collect w0 enterprises _
                 (fun e hi ys =>
                    Typed.government_action gov_decision
                      ∈ ["procurement_cooperation"; "regulation";
                         "data_sharing"] ->
                    Slots.government_slot w0 hi
                      (Typed.government_action gov_decision) e ys)).
        * intros e _. eapply stage_bind; [apply stage_create_gov_ent|].
          intros o hi1 Ho. apply stage_ret. intros hi H Ha.
          eapply government_slot_mono; [by apply Ho|done].
        * intros e hi hi' ys H Hle Ha.
          eapply government_slot_mono; [by apply H|done].
      + intros hi fg (slots & -> & Hs). exists slots. split; [done|].
        intros _ Ha. eapply Forall2_impl; [exact Hs|]. intros e ys H.
        by apply H.
    - apply stage_ret. intros hi. by exists []. }
  intros fg hi1 (slots & -> & Hs).
  eapply stage_bind.
  { apply stage_collect_any. intros [e d] _.
    destruct (in_strs (target d) _); [|by apply stage_ret].
    eapply stage_bind; [apply stage_create_ent_gov|].
    intros o hi2 _. by apply stage_ret. }
  intros fe hi2 _. apply stage_ret. intros hi H2 H1 H0.
  exists slots, fe. split; [done|]. intros Ht Ha.
  eapply Forall2_impl; [by apply Hs|]. intros e ys H.
  by eapply government_slot_mono.
Qed.

Lemma stage_process_government_resident
    (residents : list ref) (gov_decision : decision)
    (res_decisions : list decision) :
  (action gov_decision <> Some "service_provision"
   \/ residents = []
   \/ is_Some (government_resident !! "service_provision")) ->
  stage (InteractionEngine._process_government_resident_interactions
           Government residents gov_decision res_decisions)
        (fun hi b =>
           exists provided slots,
             b = provided ++ concat slots
             /\ Forall2 (Slots.feedback_slot w0 hi)
                        (zip residents res_decisions) slots).
Proof.
  intros Hfound.
  unfold InteractionEngine._process_government_resident_interactions.
  eapply stage_bind; [by apply stage_read|intros rules hi0 ->].
  eapply (stage_bind _ _ _ (fun _ _ => True)).
  { unfold is_str.
    destruct (bool_decide_reflect
                (action gov_decision = Some "service_provision")) as [Ha|Ha];
      [|by apply stage_ret].
    cbv zeta.
    eapply stage_bind; [apply stage_random_sample; lia|].
    intros selected hi1 [Hl Hsub].
    eapply stage_conseq; [|done].
    apply stage_collect_any. intros r Hr.
    destruct Hfound as [Hf|[->|[rule Hrule]]]; [done|set_solver|].
    unfold InteractionEngine.subscript. rewrite Hrule.
    apply stage_ret_bind.
    eapply stage_bind; [apply stage_create_service|intros i hi3 _].
    by apply stage_ret. }
  intros provided hi1 _.
  eapply stage_bind.
  { apply (stage_collect w0 (zip residents res_decisions) _
             (fun rd hi ys => Slots.feedback_slot w0 hi rd ys)).
    - intros [r d] _. unfold Slots.feedback_slot, Slots.gives_feedback.
      cbn [fst snd].
      destruct (is_str (target d) "government"); cbn [andb];
        [|by apply stage_ret].
      destruct (action d) as [act|] eqn:Eact; [|by apply stage_ret].
      unfold in_strs, is_str.
      destruct (bool_decide_reflect (act ∈ ["provide_feedback"; "request_service"]))
        as [Hin|Hin].
      + destruct (decide (act = "provide_feedback")) as [->|Hne].
        * rewrite bool_decide_eq_true_2 by done.
          eapply stage_bind.
          { apply stage_create_resident_gov; [done|by rewrite Eact]. }
          intros o hi2 (u & Hu & ->). apply stage_ret. intros hi H.
          exists u. split; [by eapply drawn_mono|done].
        * rewrite bool_decide_eq_false_2 by congruence.
          assert (act = "request_service") as -> by set_solver.
          unfold InteractionEngine._create_resident_gov_interaction.
          rewrite Eact. cbn [default from_option id String.eqb Ascii.eqb Bool.eqb].
          cbv zeta. cbn [String.eqb Ascii.eqb Bool.eqb].
          apply stage_ret_bind. by apply stage_ret.
      + rewrite bool_decide_eq_false_2; [by apply stage_ret|].
        intros [= ->]. set_solver.
    - intros rd hi hi' ys. apply feedback_slot_mono. }
  intros feedback hi2 (slots & -> & Hs). apply stage_ret. intros hi H2 H1 H0.
  exists provided, slots. split; [done|].
  eapply Forall2_impl; [exact Hs|]. intros rd ys H.
  by eapply feedback_slot_mono.
Qed.

Lemma concat_singletons {A B : Type} (P : A -> B -> Prop)
    (l : list A) (slots : list (list B)) :
  Forall2 (fun x ys => exists y, ys = [y] /\ P x y) l slots ->
  length (concat slots) = length l
  /\ Forall (fun y => exists x, x ∈ l /\ P x y) (concat slots).
Proof.
  induction 1 as [|x ys l slots (y & -> & Hy) _ [IHl IHf]];
    [by split|].
  cbn [concat app length]. split; [by rewrite IHl|].
  constructor; [exists x; split; [set_solver|done]|].
  eapply Forall_impl; [exact IHf|]. intros z (x' & Hx' & Hz).
  exists x'. split; [set_solver|done].
Qed.

Lemma stage_process_enterprise_resident
    (enterprises : list ref) (ent_decisions res_decisions : list decision) :
  stage (InteractionEngine._process_enterprise_resident_interactions
           enterprises (resident_refs w0) ent_decisions res_decisions)
        (fun hi c =>
           exists slots,
             c = concat slots
             /\ Forall2 (Slots.supply_slot w0 hi)
                        (zip enterprises ent_decisions) slots).
Proof.
  unfold InteractionEngine._process_enterprise_resident_interactions.
  eapply stage_bind; [by apply stage_read|intros rules hi0 ->].
  eapply stage_conseq.
  { apply (stage_collect w0 (zip enterprises ent_decisions) _
             (fun ed hi ys => Slots.supply_slot w0 hi ed ys)).
    - intros [e d] _. unfold Slots.supply_slot, Slots.supplies. cbn [fst snd].
      destruct (in_strs (action d) _); [|by apply stage_ret].
      eapply stage_bind; [apply (stage_random_randint w0 5 15); lia|].
      intros n hi1 Hn.
      eapply stage_bind; [apply stage_random_sample; lia|].
      intros selected hi2 [Hl Hsub].
      eapply stage_conseq.
      { apply (stage_collect w0 selected _
                 (fun r hi ys =>
                    exists i, ys = [i]
                      /\ exists u, Slots.drawn w0 hi u
                           /\ i = Slots.service_supply w0 (deref e w0)
                                    (deref r w0) u)).
        - intros r _.
          eapply stage_bind; [apply stage_create_enterprise_service|].
          intros i hi3 (u & Hu & ->). apply stage_ret. intros hi H.
          eexists. split; [done|]. exists u.
          split; [by eapply drawn_mono|done].
        - intros r hi hi' ys (i & -> & u & Hu & ->) H.
          eexists. split; [done|]. exists u.
          split; [by eapply drawn_mono|done]. }
      intros hi slot (slots & -> & Hs) _ _.
      assert (Hlen : length (resident_refs w0) = length (residents w0)).
      { unfold resident_refs. by rewrite length_fmap, length_seq. }
      rewrite Hlen in Hl.
      assert (Hs' : Forall2 (fun r ys => exists i, ys = [i]
                       /\ (fun r i => exists u, Slots.drawn w0 hi u
                             /\ i = Slots.service_supply w0 (deref e w0)
                                      (deref r w0) u) r i) selected slots).
      { eapply Forall2_impl; [exact Hs|]. by intros r ys (i & -> & H);
          exists i. }
      apply concat_singletons in Hs' as [Hc Hf]. cbv beta in Hn, Hl.
      split; [lia|].
      eapply Forall_impl; [exact Hf|]. intros i (r & Hr & u & Hu & ->).
      exists r, u. split; [by apply Hsub|done].
    - intros ed hi hi' ys. apply supply_slot_mono. }
  done.
Qed.

Lemma stage_process_resident_resident
    (residents : list ref) (res_decisions : list decision) :
  stage (InteractionEngine._process_resident_resident_interactions
           residents res_decisions)
        (fun _ _ => True).
Proof.
  unfold InteractionEngine._process_resident_resident_interactions. cbv zeta.
  apply stage_collect_any. intros _ _.
  destruct (Nat.leb_spec 2 (length residents)) as [H|H]; [|by apply stage_ret].
  eapply stage_bind; [by apply stage_random_sample|].
  intros pair hi1 [Hl _].
  destruct pair as [|r1 [|r2 [|r3 pair]]]; try done.
  eapply stage_bind; [by apply stage_read|intros a1 hi2 ->].
  eapply stage_bind; [by apply stage_read|intros a2 hi3 ->].
  eapply stage_bind; [apply stage_random_random|intros u hi4 Hu].
  destruct (Qlt_le_dec u _); [|by apply stage_ret].
  eapply stage_bind; [by apply stage_read|intros id1 hi5 ->].
  eapply stage_bind; [by apply stage_read|intros id2 hi6 ->].
  by apply stage_ret.
Qed.

End Records.

Lemma resident_refs_none (w : world) : residents w = [] -> resident_refs w = [].
Proof. intros H. unfold resident_refs. by rewrite H. Qed.

(** C2, as the code has it. With numeric attributes, and the
    service_provision rule in the table when the government provides
    services to a resident, [process] returns whatever other rule is
    missing, stores the interactions it returns in the history and folds
    them into the agents. No slot is skipped for a missing rule: a
    government action on the enterprises gives one record per enterprise,
    a feedback to the government one record per resident decision, a
    service of an enterprise a record for each of the 5 to 15 residents it
    reaches. Each record has the effect of its rule, the empty string
    where the rule or its effect is missing, and its outcome is a success
    when a draw of the round is below the probability of the rule, or
    below the default of the code (0.7 for a procurement and for a demand
    response, 0.3 for a data sharing, 0.8 for a service supply) where the
    rule or its probability is missing, times the capability of the
    agents as they were before the round. *)
Theorem process_with_missing_rules
    (w : world) (gov_decision : decision)
    (ent_decisions res_decisions : list decision) :
  Typed.numeric_attributes w ->
  Typed.service_rule_found gov_decision w ->
  exists interactions w',
    InteractionEngine.process Government (enterprise_refs w) (resident_refs w)
      gov_decision ent_decisions res_decisions w = (Ok interactions, w')
    /\ Slots.stored_and_folded w interactions w'
    /\ exists r : Slots.round,
         interactions = Slots.all r
         /\ (in_strs (target gov_decision) ["enterprises"; "enterprise"] = true ->
             Typed.government_action gov_decision
               ∈ ["procurement_cooperation"; "regulation"; "data_sharing"] ->
             Forall2 (Slots.government_slot w (Random.pos (random_source w'))
                        (Typed.government_action gov_decision))
                     (enterprise_refs w) (Slots.from_government r))
         /\ Forall2 (Slots.feedback_slot w (Random.pos (random_source w')))
                    (zip (resident_refs w) res_decisions) (Slots.feedback r)
         /\ Forall2 (Slots.supply_slot w (Random.pos (random_source w')))
                    (zip (enterprise_refs w) ent_decisions) (Slots.supplied r).
Proof.
  intros Hnum Hfound.
  destruct (stage_process_government_enterprise w Hnum (enterprise_refs w)
              gov_decision ent_decisions (Random.pos (random_source w))
              ltac:(lia))
    as (a & p1 & Ea & Hp1 & slots_g & fe & -> & Hg).
  rewrite advanced_start in Ea.
  destruct (stage_process_government_resident w Hnum (resident_refs w)
              gov_decision res_decisions) with (p := p1)
    as (b & p2 & Eb & Hp2 & provided & slots_f & -> & Hf); [|lia|].
  { destruct Hfound as [H|[H|H]]; [by left|right; left|by right; right].
    by apply resident_refs_none. }
  destruct (stage_process_enterprise_resident w Hnum (enterprise_refs w)
              ent_decisions res_decisions p2 ltac:(lia))
    as (c & p3 & Ec & Hp3 & slots_s & -> & Hs).
  destruct (stage_process_resident_resident w (resident_refs w)
              res_decisions p3 ltac:(lia))
    as (d & p4 & Ed & Hp4 & _).
  set (interactions :=
         (concat slots_g ++ fe) ++ (provided ++ concat slots_f)
         ++ concat slots_s ++ d).
  set (w5 := with_engine
               {| rules := rules (engine w);
                  interaction_history :=
                    interaction_history (engine w) ++ interactions |}
               (Slots.advanced w p4)).
  pose proof (update_agent_states_run interactions w5
                (numeric_trust_residents w Hnum)) as Eu.
  change (enterprise_refs w5) with (enterprise_refs w) in Eu.
  change (resident_refs w5) with (resident_refs w) in Eu.
  eexists interactions, _. split.
  { unfold InteractionEngine.process.
    rewrite (run_bind_ok _ _ _ _ _ Ea), (run_bind_ok _ _ _ _ _ Eb),
      (run_bind_ok _ _ _ _ _ Ec), (run_bind_ok _ _ _ _ _ Ed).
    cbv zeta. fold interactions.
    rewrite run_bind. unfold modify at 1. cbn beta iota.
    change (with_engine _ (Slots.advanced w p4)) with w5.
    rewrite (run_bind_ok _ _ _ _ _ Eu). reflexivity. }
  split.
  { split; [reflexivity|].
    rewrite (update_agent_states_run interactions w
               (numeric_trust_residents w Hnum)).
    reflexivity. }
  exists {| Slots.from_government := slots_g; Slots.from_enterprises := fe;
            Slots.provided := provided; Slots.feedback := slots_f;
            Slots.supplied := slots_s; Slots.exchanged := d |}.
  cbn [Slots.from_government Slots.feedback Slots.supplied].
  change (Random.pos (random_source _)) with p4.
  split; [reflexivity|]. split; [|split].
  - intros Ht Ha. eapply Forall2_impl; [by apply Hg|]. intros e ys H.
    eapply government_slot_mono; [exact H|lia].
  - eapply Forall2_impl; [exact Hf|]. intros rd ys H.
    eapply feedback_slot_mono; [exact H|lia].
  - eapply Forall2_impl; [exact Hs|]. intros ed ys H.
    eapply supply_slot_mono; [exact H|lia].
Qed.

Lemma process_with_missing_rules_witness :
  let w := Worlds.town Worlds.city (Worlds.constant_draws 0.5) 50 in
  exists interactions w',
    InteractionEngine.process Government (enterprise_refs w) (resident_refs w)
      Sequences.regulate [Sequences.develop] [Sequences.feedback] w
    = (Ok interactions, w')
    /\ Slots.stored_and_folded w interactions w'
    /\ exists r : Slots.round,
         interactions = Slots.all r
         /\ Forall2 (Slots.government_slot w (Random.pos (random_source w'))
                       "regulation")
                    (enterprise_refs w) (Slots.from_government r)
         /\ Forall2 (Slots.feedback_slot w (Random.pos (random_source w')))
                    (zip (resident_refs w) [Sequences.feedback])
                    (Slots.feedback r)
         /\ Forall2 (Slots.supply_slot w (Random.pos (random_source w')))
                    (zip (enterprise_refs w) [Sequences.develop])
                    (Slots.supplied r).
Proof.
  intros w.
  destruct (process_with_missing_rules w Sequences.regulate
              [Sequences.develop] [Sequences.feedback])
    as (interactions & w' & E & Hfold & r & Hall & Hg & Hf & Hs).
  - apply town_numeric.
  - left. discriminate.
  - exists interactions, w'. split; [exact E|]. split; [exact Hfold|].
    exists r. split; [exact Hall|]. split; [|by split].
    apply Hg; [reflexivity|].
    unfold Typed.government_action. simpl. set_solver.
Defined.
